(* ===== verification/_CoqProject ===== *)
-Q . S2P
Prelude.v
PyStr.v
Json.v
Dumps.v
JsonParse.v
JsonRoundtrip.v
Errors.v
Models.v
Registry.v
Conditions.v
Executors.v
DagValidator.v
Events.v
Monad.v
Store.v
LogHelpers.v
StateTransition.v
Tx.v
Publisher.v
Runtime.v
Machine.v
Downstream.v
Complete.v
Engine.v
Dlq.v
Recovery.v
Abstraction.v
Start.v
Steps.v
System.v
Evolution.v
Invariant.v
Execute.v
Handlers.v
EngineSpec.v
WorkflowService.v
Catalog.v
Auth.v
AuthSpec.v
RateLimit.v
Workers.v
WorkerLoop.v
Delivery.v
Redelivery.v
WebSocket.v
Sockets.v
Messages.v
Rpc.v
Descriptors.v
Transport.v
Guarantees.v
Liveness.v
Observe.v
Api.v
App.v
Lifecycle.v
Schema.v
Migrations.v
Columns.v
Tables.v
Seeds.v
