(* ===== verification/Prelude.v ===== *)
(** * EventFlow: a verification development

    EventFlow (src/backend/app) runs workflows: directed acyclic graphs of nodes that workers
    execute. An API starts executions; a node whose parents have succeeded is queued; workers
    take jobs from a Redis stream, run the node's executor, and record the outcome in
    PostgreSQL, which queues the successors, retries the node or dead-letters it; a recovery
    loop takes over the jobs of dead workers; events go to browsers over WebSockets.

    ** The parts

    - Values. [Json] (Python's dicts, truth and equality), [PyStr] (int and UUID texts),
      [Dumps], [JsonParse] and [JsonRoundtrip] (json.dumps and json.loads). A dict is an
      association list with insertion order, a float a binary64 value of the Standard
      Library, a datetime a number of microseconds, a uuid its 128-bit integer, a string its
      UTF-8 bytes (the conversions of [PyStr] are those of ASCII texts).
    - [Errors] (core/errors.py) and [Models] (models/, schemas/workflow.py,
      transport/contracts.py): exceptions, rows, schemas.
    - Workflows. [Registry], [Conditions] and [Executors] (services/executor_registry.py);
      [DagValidator] (services/dag_validator.py); [WorkflowService] and [Catalog]
      (services/workflow_service.py, api/workflows.py).
    - The store. [Monad] is the state and exception monad with its weakest preconditions;
      [Store] has the tables, the SQLAlchemy session (identity map, staged events) and the
      primitives the services are written in; [Tx] describes a transaction on one execution.
    - Events. [Events] (websocket/events.py), [LogHelpers] (websocket/broadcaster.py,
      observability/log_helpers.py), [WebSocket] (websocket/connection_manager.py,
      api/websocket.py, the listener of main.py) and [Sockets], the interleaving of their
      tasks.
    - Running. [StateTransition] (services/state_transition.py), [Publisher]
      (queue/publisher.py), [Runtime] ([process_job] of worker/runtime.py), [WorkerLoop]
      ([run_worker]), [Recovery] (worker/recovery.py), [Engine] (services/execution_engine.py,
      retry_policy.py), [Dlq] (services/dlq_service.py), [Workers]
      (services/worker_service.py, worker/heartbeat.py).
    - Transport. [Messages], [Rpc] and [Descriptors] (the generated modules of
      transport/eventflow/ and their .proto files); [Transport] (the two clients and the
      server of transport/).
    - Access. [Auth] and [AuthSpec] (api/auth.py, core/security.py,
      services/api_key_service.py), [RateLimit] (api/middleware/rate_limit.py).
    - Around the engine. [Observe] (services/metrics_service.py,
      services/execution_log_service.py), [Api] (api/executions.py, api/dlq.py, api/metrics.py,
      schemas/, the handlers of core/errors.py), [App] (main.py, core/config.py,
      api/middleware/security_headers.py, api/health.py), [Lifecycle] (worker/background.py,
      worker/__main__.py, the singletons of db/session.py and queue/redis_client.py).
    - The database. [Schema] (models/ and db/base.py as tables, the operations of Alembic),
      [Migrations] (alembic/versions), [Columns] and [Tables] (what the columns of the
      engine's rows hold, and the rows of the store in that schema),
      [Seeds] (scripts/seed_demo_workflows.py, scripts/create_api_key.py).

    ** The system and its specification

    A call of a service is a function from the world to a result and a world. Between two
    commits nothing of it can be seen by another session, so [process_job], the recovery and
    the engine's operations are split at their commits into stretches ([claim_job],
    [load_job], [complete_job], [publish_nodes], [recover_job], [start_create],
    [retry_requeue], ...), and [process_job] and the others are their composition. [System]
    interleaves the stretches of any number of workers, recoveries and requests, each in a
    session of its own: messages may be delivered again and in any order, any task may die
    between two stretches, publishing may fail, Redis may be down.

    [Machine] is the contract: the abstract machine of one execution, with a status, an
    attempt counter and a bound for each node. [Downstream], [Complete], [Start] and [Steps]
    say what each stretch does to the rows; [Abstraction], [Evolution] and [Invariant] show
    that every step of the system is a run of the machine on every execution. [Execute] runs
    schedules; its demo gives the states on which the theorems are tried out.

    ** What is shown

    - [Guarantees]: refinement of the machine; nothing starts before its parents have
      succeeded; what the status of an execution says of its nodes; progress; bounded
      attempts; skipped branches; settled nodes stay; failure and dead letters.
    - [Liveness]: without manual retries an execution of a workflow that has nodes ends after
      a bounded number of deliveries, if no branch condition has a path Python cannot hash;
      that the messages are there to be delivered is assumed. With such a path completing
      the job raises [TypeError], every time.
    - [Handlers], [EngineSpec]: each operation on every branch, errors included, and the
      isolation of tenants. [Delivery], [Redelivery]: what an acknowledged message means, from
      the loop of a worker and from the recovery.
    - [DagValidator]: acceptance is well-formedness and acyclicity; the order is topological;
      the errors. [Catalog]: versions, checksums, and that the service is a step of the system.
    - [Publisher]: the payload round trip, totality of its parser, the consumer group.
    - [Executors], [Conditions]: which URLs an executor sends requests to, over the tree of
      its effects; the outcome of a condition, against a three-way comparison.
    - [AuthSpec]: reuse and expiry of tokens, and one valid token in a family: refreshes run
      in two steps there, and those of one family must not overlap, or else there are two
      ([refresh_race]). [RateLimit]: the sliding window.
    - [Observe]: what each of the dashboard's numbers counts, read in one snapshot, and how
      they fit together. [Api]: somebody else's execution cannot be told from none. [App]:
      which layer answers, with which headers. [Lifecycle]: a worker ends offline unless its
      last block is interrupted, and what its heartbeat has written.
    - [Migrations]: the revisions build what the models declare and lose no row. [Tables]: the
      reachable tables are typed by that schema, lengths of strings included, and satisfy
      its constraints, as long as the names in the stored workflows fit. [Seeds]: the
      demonstration workflows can be created and run.
    - [Workers]: registration. [WebSocket]: delivery of events. [Sockets]: a socket is sent
      only what its execution's owner may see, whatever the interleaving.
    - [Transport]: the gRPC client, through the generated stub and the registered servicer,
      refines the client in the process. [Rpc]: every generated call reaches the method of its
      name. [Descriptors]: the generated modules are what the .proto files say.

    ** Fuel and bounds

    Loops that are not structural take fuel, and theorems exclude its exhaustion: Kahn's loop
    gets one unit per node ([validate_workflow_errors]), the skip loop the number of seeds
    plus the number of edges ([queue_downstream_spec]), the parser of JSON twice the length
    of its input plus two ([parse_enough] in [JsonRoundtrip]). Columns are as wide as their
    values need; attempts are bounded by the policy, whose fields the schema bounds.

    ** Parameters

    What is not under src/ is an argument: SHA-256, random tokens, PyJWT, [float.__repr__],
    the resolver, httpx and the ipaddress tables, Redis ([StreamOps] with [StreamLaws] for the
    queue, a pipeline for the limiter), grpcio and the serialization of messages ([Grpc] with
    [GrpcLaws]), protobuf's [Struct], a set's order of iteration.

    ** Not modelled

    - Failures of the database itself and the serialization of concurrent writes to one row:
      a stretch is one step, as is a request to the authentication endpoints in [reuse_revokes_family].
    - FastAPI's routing and its parsing of requests, Starlette's CORS middleware, uvicorn.
    - Timers: the poll intervals, block times and the heartbeats' periods; signals.
    - A row that does not fit its columns: that an INSERT of a name that is too long fails.
      [Tables] excludes such names; the range of integer columns is not looked at.
    - gRPC's details of errors, deadlines and failures on the way; logging; the connection
      settings of alembic/env.py; the test suite.

    ** Plan

    The stream with its pending entries, shared by the worker's and the recovery's loops; the
    finer interleaving of two sessions inside a claim; the tables of keys and workers joined
    to the store. *)

From Stdlib Require Export ZArith Lia.
From stdpp Require Export prelude gmap strings relations.

(** ** Results

    A call of the program returns a value or raises; [res E A] is that sum. *)

Inductive res (E A : Type) : Type :=
| Ok (a : A)
| Err (e : E).

Arguments Ok {E A} _.
Arguments Err {E A} _.

#[global] Instance res_ret {E} : MRet (res E) := fun A a => Ok a.
#[global] Instance res_bind {E} : MBind (res E) :=
  fun A B f m => match m with Ok a => f a | Err e => Err e end.
#[global] Instance res_fmap {E} : FMap (res E) :=
  fun A B f m => match m with Ok a => Ok (f a) | Err e => Err e end.

Definition is_ok {E A} (r : res E A) : bool :=
  match r with Ok _ => true | Err _ => false end.

#[global] Instance res_eq_dec {E A} `{EqDecision E, EqDecision A} : EqDecision (res E A).
Proof. solve_decision. Defined.

Lemma res_bind_Ok {E A B} (m : res E A) (f : A → res E B) b :
  (m ≫= f) = Ok b ↔ ∃ a, m = Ok a ∧ f a = Ok b.
Proof.
  destruct m as [a|e']; simpl; split; [by eauto|by intros (? & [= <-] & ?)|done|].
  by intros (? & ? & ?).
Qed.

Lemma res_bind_Err {E A B} (m : res E A) (f : A → res E B) e :
  (m ≫= f) = Err e ↔ m = Err e ∨ ∃ a, m = Ok a ∧ f a = Err e.
Proof.
  destruct m as [a|e']; simpl; split; [by eauto|by intros [?|(? & [= <-] & ?)]| |].
  - intros [= ->]. by left.
  - by intros [[= ->]|(? & ? & ?)].
Qed.

Lemma res_bind_eq {E A B} (m : res E A) (f : A → res E B) a r :
  m = Ok a → f a = r → (m ≫= f) = r.
Proof. by intros ->. Qed.

(** Case analysis on the head of a stuck bind of results, keeping the equation. *)
Ltac res_inv :=
  repeat match goal with
  | H : (_ ≫= _) = Ok _ |- _ => apply res_bind_Ok in H as (? & ? & ?)
  | H : Ok _ = Ok _ |- _ => injection H as H
  | H : Ok _ = Err _ |- _ => discriminate H
  | H : Err _ = Ok _ |- _ => discriminate H
  | H : Err _ = Err _ |- _ => injection H as H
  end.

(** [for x in l: a = f(a, x)], stopping at the first exception. *)
Fixpoint foldM {E A B} (f : A → B → res E A) (a : A) (l : list B) : res E A :=
  match l with
  | [] => Ok a
  | x :: l' => a' ← f a x; foldM f a' l'
  end.

Lemma foldM_app {E A B} (f : A → B → res E A) a l k :
  foldM f a (l ++ k) = foldM f a l ≫= fun a' => foldM f a' k.
Proof.
  revert a. induction l as [|x l IH]; intros a; simpl; [done|].
  destruct (f a x); simpl; [apply IH|done].
Qed.

(** An invariant of the loop body indexed by the elements already processed. *)
Lemma foldM_ind {E A B} (f : A → B → res E A) (P : list B → A → Prop) l :
  ∀ a0, P [] a0 →
  (∀ done x a a', P done a → f a x = Ok a' → P (done ++ [x]) a') →
  ∀ a, foldM f a0 l = Ok a → P l a.
Proof.
  induction l as [|x l IH] using rev_ind; intros a0 H0 Hstep a Hf.
  - injection Hf as <-. done.
  - rewrite foldM_app in Hf. res_inv. simpl in *. res_inv. subst.
    eapply Hstep; [|done]. by eapply IH.
Qed.

(** ** Relations *)

Lemma tc_flip {A} (R : relation A) x y : tc (flip R) x y → tc R y x.
Proof. induction 1 as [x y H|x z y H _ IH]; [by apply tc_once|by eapply tc_r]. Qed.

(** ** Lists *)

Lemma list_filter_ext {A} (P Q : A → Prop) `{!∀ x, Decision (P x), !∀ x, Decision (Q x)}
    (l : list A) :
  (∀ x, x ∈ l → (P x ↔ Q x)) → filter P l = filter Q l.
Proof.
  induction l as [|x l IH]; intros Hl; [done|]. rewrite !filter_cons, IH by set_solver.
  assert (P x ↔ Q x) as Hx by (apply Hl; by left). by repeat case_decide; try tauto.
Qed.

Lemma list_filter_fmap {A B} (P : B → Prop) `{!∀ x, Decision (P x)} (f : A → B) (l : list A) :
  filter P (f <$> l) = f <$> filter (fun x => P (f x)) l.
Proof.
  induction l as [|x l IH]; [done|]. rewrite fmap_cons, !filter_cons. by case_decide; rewrite IH.
Qed.

(** A dict comprehension: later elements overwrite earlier ones. *)
Lemma foldl_insert {K} `{Countable K} {A B} (k : A → K) (v : A → B) (l : list A) (m : gmap K B) :
  foldl (fun m a => <[k a := v a]> m) m l =
  list_to_map (reverse ((fun a => (k a, v a)) <$> l)) ∪ m.
Proof.
  revert m. induction l as [|a l IH]; intros m; simpl; [by rewrite (left_id_L ∅ (∪))|].
  rewrite IH, reverse_cons, list_to_map_app. simpl.
  by rewrite <- (assoc_L (∪)), insert_empty, <- insert_union_singleton_l.
Qed.

Lemma foldl_insert_nodup {K} `{Countable K} {A B} (k : A → K) (v : A → B) (l : list A) :
  NoDup (k <$> l) →
  foldl (fun m a => <[k a := v a]> m) ∅ l = (list_to_map ((fun a => (k a, v a)) <$> l) : gmap K B).
Proof.
  intros Hnd. rewrite foldl_insert, (right_id_L ∅ (∪)). symmetry.
  apply list_to_map_proper; [|by rewrite reverse_Permutation].
  by rewrite <- list_fmap_compose.
Qed.
