(* ===== verification/PyStr.v ===== *)
(** * The Python text conversions the job payload goes through

    [str(int)], [int(s)], [int(s, 16)], [str(uuid)] and [uuid.UUID(s)] as
    src/backend/app/queue/publisher.py uses them. A Python [str] is a
    [String.string] of ASCII characters; the Unicode digits and spaces [int]
    also takes are not represented. A [uuid.UUID] is its 128-bit integer. *)

From Stdlib Require Import Ascii NArith.
From S2P Require Import Prelude.

(** The integer behind a [uuid.UUID]. *)
Abbreviation uuid := N (only parsing).

Abbreviation chars := String.list_ascii_of_string (only parsing).
Abbreviation text := String.string_of_list_ascii (only parsing).

(** ** Digits *)

(** ASCII characters for which [str.isspace] holds. *)
Definition py_isspace (c : ascii) : bool :=
  let n := N_of_ascii c in
  ((9 <=? n) && (n <=? 13) || (28 <=? n) && (n <=? 32))%N.

(** The character of a digit below 36, lower case as [str] and [hex] print it. *)
Definition digit_char (d : N) : ascii :=
  if (d <? 10)%N then ascii_of_N (48 + d) else ascii_of_N (87 + d).

(** The value of a digit character, either case, in base [b]. *)
Definition char_digit (b : N) (c : ascii) : option N :=
  let n := N_of_ascii c in
  let d := (if (48 <=? n) && (n <=? 57) then n - 48
            else if (97 <=? n) && (n <=? 122) then n - 87
            else if (65 <=? n) && (n <=? 90) then n - 55 else 36)%N in
  if (d <? b)%N then Some d else None.

(** The digits of [n] in base [b], most significant first; [fuel] bounds their number. *)
Fixpoint to_digits (fuel : nat) (b n : N) (acc : list ascii) : list ascii :=
  match fuel with
  | O => acc
  | S fuel =>
      let acc := digit_char (n mod b) :: acc in
      if (n <? b)%N then acc else to_digits fuel b (n / b)%N acc
  end.

(** Exactly [w] digits, as the format [%032x] of [UUID.__str__]. *)
Fixpoint to_digits_width (w : nat) (b n : N) (acc : list ascii) : list ascii :=
  match w with
  | O => acc
  | S w => to_digits_width w b (n / b)%N (digit_char (n mod b) :: acc)
  end.

(** [_PyLong_FromString]: a digit, then digits or single underscores between digits. *)
Fixpoint parse_digits (b acc : N) (l : list ascii) : option N :=
  match l with
  | [] => Some acc
  | c :: l' =>
      match char_digit b c with
      | Some d => parse_digits b (acc * b + d)%N l'
      | None =>
          match l' with
          | c' :: l'' =>
              if decide (c = "_"%char) then
                match char_digit b c' with
                | Some d => parse_digits b (acc * b + d)%N l''
                | None => None
                end
              else None
          | [] => None
          end
      end
  end.

Definition parse_number (b : N) (l : list ascii) : option N :=
  match l with
  | c :: l' => d ← char_digit b c; parse_digits b d l'
  | [] => None
  end.

Fixpoint lstrip (p : ascii → bool) (l : list ascii) : list ascii :=
  match l with
  | c :: l' => if p c then lstrip p l' else l
  | [] => []
  end.

Definition strip (p : ascii → bool) (l : list ascii) : list ascii :=
  rev (lstrip p (rev (lstrip p l))).

(** A base-16 literal may carry the prefix [0x], itself followed by one underscore. *)
Definition drop_prefix16 (b : N) (l : list ascii) : list ascii :=
  match l with
  | "0"%char :: x :: l' =>
      if ((b =? 16)%N && (Ascii.eqb x "x" || Ascii.eqb x "X"))%bool then
        match l' with "_"%char :: l'' => l'' | _ => l' end
      else l
  | _ => l
  end.

Definition py_int_unsigned (b : N) (l : list ascii) : option Z :=
  Z.of_N <$> parse_number b (drop_prefix16 b l).

(** [int(s, b)] for [b] = 10 or 16; [None] is [ValueError]. *)
Definition py_int_chars (b : N) (l : list ascii) : option Z :=
  match strip py_isspace l with
  | "-"%char :: l' => Z.opp <$> py_int_unsigned b l'
  | "+"%char :: l' => py_int_unsigned b l'
  | l' => py_int_unsigned b l'
  end.

Definition py_int (s : string) : option Z := py_int_chars 10 (chars s).

(** [str(n)] of an [int]. *)
Definition str_N_chars (n : N) : list ascii := to_digits (S (N.size_nat n)) 10 n [].

Definition py_str_Z (z : Z) : string :=
  text (if (z <? 0)%Z then "-"%char :: str_N_chars (Z.abs_N z) else str_N_chars (Z.abs_N z)).

(** ** UUIDs *)

(** [UUID.__str__]: 32 hexadecimal digits grouped 8-4-4-4-12. *)
Definition uuid_chars (u : uuid) : list ascii :=
  let h := to_digits_width 32 16 u [] in
  take 8 h ++ "-"%char :: take 4 (drop 8 h) ++ "-"%char :: take 4 (drop 12 h) ++
  "-"%char :: take 4 (drop 16 h) ++ "-"%char :: drop 20 h.

Definition uuid_str (u : uuid) : string := text (uuid_chars u).

(** [s.replace(pat, '')] for a non-empty [pat]; [skip] counts characters of a
    match still to be dropped. *)
Fixpoint remove_sub (pat : list ascii) (skip : nat) (l : list ascii) : list ascii :=
  match l with
  | [] => []
  | c :: l' =>
      match skip with
      | S k => remove_sub pat k l'
      | O => if decide (pat `prefix_of` l) then remove_sub pat (pred (length pat)) l'
             else c :: remove_sub pat 0 l'
      end
  end.

Definition is_brace (c : ascii) : bool := Ascii.eqb c "{" || Ascii.eqb c "}".

(** [UUID(hex=s)]: drop [urn:], [uuid:], outer braces and dashes; 32 characters
    must remain and read as a base-16 integer. *)
Definition uuid_parse (s : string) : option uuid :=
  let l := remove_sub (chars "urn:") 0 (chars s) in
  let l := remove_sub (chars "uuid:") 0 l in
  let l := remove_sub (chars "-") 0 (strip is_brace l) in
  if (length l =? 32)%nat then
    match py_int_chars 16 l with
    | Some z => if ((0 <=? z) && (z <? 2 ^ 128))%Z then Some (Z.to_N z) else None
    | None => None
    end
  else None.

Example uuid_str_ex : uuid_str 0xabc = "00000000-0000-0000-0000-000000000abc"%string.
Proof. reflexivity. Qed.
Example uuid_parse_ex :
  uuid_parse "{urn:uuid:00000000-0000-0000-0000-000000000ABC}" = Some 0xabc%N.
Proof. reflexivity. Qed.
Example py_int_ex : py_int " -1_2 " = Some (-12)%Z.
Proof. reflexivity. Qed.
Example py_int_bad : py_int "1__2" = None.
Proof. reflexivity. Qed.
Example py_str_ex : py_str_Z (-120) = "-120"%string.
Proof. reflexivity. Qed.

(** ** Round trips *)

(** Characters [str] prints for digits below 16. *)
Definition hexit (c : ascii) : Prop := ∃ d, (d < 16)%N ∧ c = digit_char d.

Lemma N_below_16 (P : N → Prop) :
  Forall P [0;1;2;3;4;5;6;7;8;9;10;11;12;13;14;15]%N → ∀ d, (d < 16)%N → P d.
Proof.
  intros HP d Hd. rewrite Forall_forall in HP. apply HP.
  assert (d = 0 ∨ d = 1 ∨ d = 2 ∨ d = 3 ∨ d = 4 ∨ d = 5 ∨ d = 6 ∨ d = 7 ∨ d = 8 ∨ d = 9 ∨
          d = 10 ∨ d = 11 ∨ d = 12 ∨ d = 13 ∨ d = 14 ∨ d = 15)%N as H by lia.
  rewrite !elem_of_cons. tauto.
Qed.

Lemma char_digit_char b d : (d < b)%N → (b ≤ 16)%N → char_digit b (digit_char d) = Some d.
Proof.
  intros Hd Hb. assert (d < 16)%N as H by lia. revert d H Hd.
  apply (N_below_16 (fun d => (d < b)%N → char_digit b (digit_char d) = Some d)).
  repeat (apply Forall_cons_2; [|]); try (by apply Forall_nil_2); intros Hd; unfold char_digit; simpl;
    (case_match eqn:E; [done|apply N.ltb_ge in E; lia]).
Qed.

Lemma hexit_not p c :
  Forall (fun d => p (digit_char d) = false) [0;1;2;3;4;5;6;7;8;9;10;11;12;13;14;15]%N →
  hexit c → p c = false.
Proof. intros Hp (d & Hd & ->). by apply (N_below_16 (fun d => p (digit_char d) = false)). Qed.

Lemma Forall_hexit_not p l :
  Forall (fun d => p (digit_char d) = false) [0;1;2;3;4;5;6;7;8;9;10;11;12;13;14;15]%N →
  Forall hexit l → Forall (fun c => p c = false) l.
Proof. intros Hp Hl. eapply Forall_impl; [exact Hl|]. intros c. by apply hexit_not. Qed.

Lemma parse_digits_cons b acc d l :
  (d < b)%N → (b ≤ 16)%N →
  parse_digits b acc (digit_char d :: l) = parse_digits b (acc * b + d)%N l.
Proof. intros. simpl. by rewrite char_digit_char. Qed.

Lemma parse_digits_width w b n acc l :
  (1 < b ≤ 16)%N →
  parse_digits b acc (to_digits_width w b n l) =
  parse_digits b (acc * b ^ N.of_nat w + n mod b ^ N.of_nat w)%N l.
Proof.
  intros Hb. revert n acc l. induction w as [|w IH]; intros n acc l.
  { cbn [to_digits_width N.of_nat]. f_equal. rewrite N.pow_0_r, N.mod_1_r. lia. }
  cbn [to_digits_width]. rewrite IH, parse_digits_cons; [|apply N.mod_lt; lia|lia].
  f_equal. rewrite Nat2N.inj_succ, N.pow_succ_r'.
  rewrite N.Div0.mod_mul_r. lia.
Qed.

Lemma to_digits_hexit fuel b n acc :
  (1 < b ≤ 16)%N → Forall hexit acc → Forall hexit (to_digits fuel b n acc).
Proof.
  intros Hb. revert n acc. induction fuel as [|fuel IH]; intros n acc Hacc; [done|].
  assert (hexit (digit_char (n mod b))) as Hd.
  { exists (n mod b)%N. split; [|done]. pose proof (N.mod_lt n b). lia. }
  cbn [to_digits]. case_match; [by constructor|]. apply IH. by constructor.
Qed.

Lemma to_digits_width_hexit w b n acc :
  (1 < b ≤ 16)%N → Forall hexit acc → Forall hexit (to_digits_width w b n acc).
Proof.
  intros Hb. revert n acc. induction w as [|w IH]; intros n acc Hacc; [done|].
  cbn [to_digits_width]. apply IH. constructor; [|done].
  exists (n mod b)%N. split; [|done]. pose proof (N.mod_lt n b). lia.
Qed.

Lemma to_digits_width_length w b n acc :
  length (to_digits_width w b n acc) = (w + length acc)%nat.
Proof.
  revert n acc. induction w as [|w IH]; intros n acc; [done|].
  cbn [to_digits_width]. rewrite IH. simpl. lia.
Qed.

(** With enough fuel the printed digits read back as the number. *)
Lemma parse_to_digits fuel b n l :
  (1 < b ≤ 16)%N → (n < b ^ N.of_nat fuel)%N → (0 < fuel)%nat →
  parse_digits b 0 (to_digits fuel b n l) = parse_digits b n l.
Proof.
  intros Hb. revert n l. induction fuel as [|fuel IH]; intros n l Hn Hf; [lia|].
  cbn [to_digits]. destruct (N.ltb_spec n b) as [Hlt|Hge].
  { rewrite N.mod_small, parse_digits_cons by lia. done. }
  rewrite Nat2N.inj_succ, N.pow_succ_r' in Hn.
  assert (n / b < b ^ N.of_nat fuel)%N as Hdiv by (apply N.Div0.div_lt_upper_bound; lia).
  destruct fuel as [|fuel].
  { cbn in Hdiv. assert (0 < n / b)%N by (apply N.div_str_pos; lia). lia. }
  rewrite IH by (done || lia). rewrite parse_digits_cons; [|apply N.mod_lt; lia|lia].
  f_equal. rewrite (N.div_mod' n b) at 3. lia.
Qed.

Lemma lstrip_id p l : Forall (fun c => p c = false) l → lstrip p l = l.
Proof. intros [|c l' Hc _]; simpl; [done|]. by rewrite Hc. Qed.

Lemma strip_id p l : Forall (fun c => p c = false) l → strip p l = l.
Proof.
  intros Hl. unfold strip. rewrite (lstrip_id p l) by done.
  rewrite lstrip_id; [apply rev_involutive|].
  apply Forall_forall. intros c Hc. rewrite Forall_forall in Hl. apply Hl.
  by rewrite list_elem_of_In, in_rev, <- list_elem_of_In.
Qed.

Lemma py_int_chars_digits b l n :
  (1 < b ≤ 16)%N → Forall hexit l →
  (∃ c l', l = c :: l' ∧ is_Some (char_digit b c)) →
  parse_digits b 0 l = Some n →
  py_int_chars b l = Some (Z.of_N n) ∧
  py_int_chars b ("-"%char :: l) = Some (- Z.of_N n)%Z.
Proof.
  intros Hb Hl (c & l' & -> & [d Hd]) Hp.
  pose proof (Forall_inv Hl) as Hc. pose proof (Forall_inv_tail Hl) as Htl.
  assert (Forall (fun c => py_isspace c = false) (c :: l')) as Hsp.
  { apply Forall_hexit_not; [repeat constructor|done]. }
  assert (drop_prefix16 b (c :: l') = c :: l') as Hdrop.
  { destruct c as [[] [] [] [] [] [] [] []]; try reflexivity. destruct l' as [|x l']; [done|].
    unfold drop_prefix16.
    assert (Ascii.eqb x "x" || Ascii.eqb x "X" = false)%bool as ->.
    { apply (hexit_not (fun x => Ascii.eqb x "x" || Ascii.eqb x "X")%bool);
        [repeat constructor|by inversion Htl]. }
    by rewrite andb_false_r. }
  assert (py_int_unsigned b (c :: l') = Some (Z.of_N n)) as Hnum.
  { unfold py_int_unsigned. rewrite Hdrop. cbn in Hp |- *. rewrite Hd in Hp |- *.
    rewrite N.mul_0_l, N.add_0_l in Hp. cbn. by rewrite Hp. }
  assert (Ascii.eqb c "-" || Ascii.eqb c "+" = false)%bool as Hsign.
  { apply (hexit_not (fun x => Ascii.eqb x "-" || Ascii.eqb x "+")%bool);
      [repeat constructor|done]. }
  unfold py_int_chars. rewrite !strip_id; [|by apply Forall_cons_2|done].
  split; [|by rewrite Hnum].
  destruct c as [[] [] [] [] [] [] [] []]; try discriminate Hsign; apply Hnum.
Qed.

Lemma to_digits_head fuel b n acc :
  (1 < b ≤ 16)%N → (0 < fuel)%nat →
  ∃ d l, to_digits fuel b n acc = digit_char d :: l ∧ (d < b)%N.
Proof.
  intros Hb. revert n acc. induction fuel as [|fuel IH]; intros n acc Hf; [lia|].
  assert (n mod b < b)%N as Hm by (apply N.mod_lt; lia).
  cbn [to_digits]. case_match; [by eauto|].
  destruct fuel; [by cbn; eauto|]. apply IH. lia.
Qed.

Lemma N_size_nat_gt n b : (1 < b)%N → (n < b ^ N.of_nat (S (N.size_nat n)))%N.
Proof.
  intros Hb. apply N.lt_le_trans with (2 ^ N.of_nat (S (N.size_nat n)))%N.
  - rewrite Nat2N.inj_succ, N.pow_succ_r'.
    pose proof (N.size_gt n) as Hgt.
    replace (N.size n) with (N.of_nat (N.size_nat n)) in Hgt; [lia|].
    clear. destruct n as [|p]; [done|]. cbn. induction p; cbn; lia.
  - apply N.pow_le_mono_l. lia.
Qed.

(** [int(str(n))] is [n]. *)
Lemma py_int_str z : py_int (py_str_Z z) = Some z.
Proof.
  unfold py_int, py_str_Z. rewrite String.list_ascii_of_string_of_list_ascii.
  set (n := Z.abs_N z).
  destruct (to_digits_head (S (N.size_nat n)) 10 n []) as (d & l' & Hl & Hd); [lia..|].
  destruct (py_int_chars_digits 10 (str_N_chars n) n) as [Hpos Hneg]; [lia| | | |].
  - by apply to_digits_hexit.
  - exists (digit_char d), l'. split; [done|]. rewrite char_digit_char by lia. done.
  - unfold str_N_chars. rewrite parse_to_digits; [done|lia| |lia]. by apply N_size_nat_gt.
  - unfold n in *. destruct (Z.ltb_spec z 0); [rewrite Hneg|rewrite Hpos]; f_equal; lia.
Qed.

Lemma remove_sub_absent pat c0 l :
  Forall (fun c => Ascii.eqb c c0 = false) l → remove_sub (c0 :: pat) 0 l = l.
Proof.
  induction 1 as [|c l Hc _ IH]; [done|]. cbn [remove_sub].
  destruct (decide _) as [Hp|_]; [|by rewrite IH].
  apply prefix_cons_inv_1 in Hp as ->. by rewrite Ascii.eqb_refl in Hc.
Qed.

Lemma remove_sub_single c0 l :
  remove_sub [c0] 0 l = filter (fun c => c ≠ c0) l.
Proof.
  induction l as [|c l IH]; [done|]. cbn [remove_sub]. rewrite filter_cons.
  destruct (decide ([c0] `prefix_of` c :: l)) as [Hp|Hp].
  - apply prefix_cons_inv_1 in Hp as ->. by rewrite decide_False by auto.
  - rewrite decide_True; [by rewrite IH|]. intros ->. apply Hp. by exists l.
Qed.

Lemma filter_hexit l : Forall hexit l → filter (fun c => c ≠ "-"%char) l = l.
Proof.
  induction 1 as [|c l Hc _ IH]; [done|]. rewrite filter_cons_True; [by f_equal|].
  intros ->. apply (hexit_not (fun x => Ascii.eqb x "-")) in Hc; [done|repeat constructor].
Qed.

(** Characters [str(uuid)] prints are neither braces nor the [u] of a scheme. *)
Lemma uuid_chars_plain p u :
  Forall (fun d => p (digit_char d) = false) [0;1;2;3;4;5;6;7;8;9;10;11;12;13;14;15]%N →
  p "-"%char = false → Forall (fun c => p c = false) (uuid_chars u).
Proof.
  intros Hp Hd. unfold uuid_chars.
  assert (Forall (fun c => p c = false) (to_digits_width 32 16 u [])) as H.
  { apply Forall_hexit_not; [done|]. by apply to_digits_width_hexit. }
  revert H. generalize (to_digits_width 32 16 u []). intros h H.
  repeat first [ assumption | apply Forall_app_2 | apply Forall_cons_2
               | apply Forall_take | apply Forall_drop ].
Qed.

Lemma uuid_groups {A} (h : list A) :
  take 8 h ++ take 4 (drop 8 h) ++ take 4 (drop 12 h) ++ take 4 (drop 16 h) ++ drop 20 h = h.
Proof.
  replace (drop 20 h) with (drop 4 (drop 16 h)) by apply drop_drop.
  rewrite take_drop. replace (drop 16 h) with (drop 4 (drop 12 h)) by apply drop_drop.
  rewrite take_drop. replace (drop 12 h) with (drop 4 (drop 8 h)) by apply drop_drop.
  by rewrite !take_drop.
Qed.

(** [UUID(str(u))] is [u]. *)
Lemma uuid_parse_str (u : N) : (u < 2 ^ 128)%N → uuid_parse (uuid_str u) = Some u.
Proof.
  intros Hu. unfold uuid_parse, uuid_str. rewrite String.list_ascii_of_string_of_list_ascii.
  cbn [String.list_ascii_of_string].
  assert (∀ pat, remove_sub ("u"%char :: pat) 0 (uuid_chars u) = uuid_chars u) as Hno_u.
  { intros pat. apply remove_sub_absent, uuid_chars_plain; repeat constructor. }
  rewrite !Hno_u.
  rewrite strip_id by (apply uuid_chars_plain; repeat constructor).
  rewrite remove_sub_single.
  set (h := to_digits_width 32 16 u []).
  assert (Forall hexit h) as Hh by (by apply to_digits_width_hexit).
  assert (length h = 32%nat) as Hlen by apply to_digits_width_length.
  assert (filter (fun c => c ≠ "-"%char) (uuid_chars u) = h) as ->.
  { unfold uuid_chars. fold h. clearbody h.
    repeat (rewrite filter_app || rewrite (filter_cons_False _ "-"%char) by auto).
    rewrite !filter_hexit by auto using Forall_take, Forall_drop.
    apply uuid_groups. }
  rewrite Hlen. cbn [Nat.eqb].
  destruct (py_int_chars_digits 16 h u) as [-> _]; [done|done| | |].
  - destruct h as [|c l'] eqn:E; [done|]. exists c, l'. split; [done|].
    apply Forall_inv in Hh as (d & Hd & ->). rewrite char_digit_char by lia. done.
  - unfold h. rewrite parse_digits_width by done. cbn [parse_digits].
    f_equal. rewrite N.mul_0_l, N.add_0_l. by apply N.mod_small.
  - assert ((0 <=? Z.of_N u)%Z && (Z.of_N u <? 2 ^ 128)%Z = true) as ->.
    { apply andb_true_iff. split; [apply Z.leb_le; lia|apply Z.ltb_lt].
      change (2 ^ 128)%Z with (Z.of_N (2 ^ 128)). lia. }
    by rewrite N2Z.id.
Qed.

#[global] Arguments uuid_str : simpl never.
#[global] Arguments uuid_parse : simpl never.
#[global] Arguments py_str_Z : simpl never.
#[global] Arguments py_int : simpl never.
