(* ===== verification/Json.v ===== *)
(** * JSON values as Python objects

    Payloads, executor configurations and log metadata are [dict[str, Any]]
    values that came out of [json.loads]; the definitions here are the Python
    operations the services apply to them. A [dict] keeps insertion order, so it
    is an association list; a [float] is an IEEE binary64 value of the Standard
    Library's [spec_float]. *)

From Stdlib Require Import SpecFloat.
From S2P Require Import Prelude.

#[warnings="-register-all"]
Inductive json : Type :=
| JNull
| JBool (b : bool)
| JInt (z : Z)
| JFloat (f : spec_float)
| JStr (s : string)
| JList (l : list json)
| JDict (l : list (string * json)).

(** A Python [dict[str, Any]]. *)
Abbreviation pydict := (list (string * json)) (only parsing).

(** [d.get(k)] and [k in d]. *)
Fixpoint dict_get {A} (k : string) (d : list (string * A)) : option A :=
  match d with
  | [] => None
  | (k', v) :: d' => if decide (k = k') then Some v else dict_get k d'
  end.

Definition dict_mem {A} (k : string) (d : list (string * A)) : bool :=
  match dict_get k d with Some _ => true | None => false end.

(** [d[k] = v]: an existing key keeps its position. *)
Fixpoint dict_set {A} (k : string) (v : A) (d : list (string * A)) : list (string * A) :=
  match d with
  | [] => [(k, v)]
  | (k', v') :: d' => if decide (k = k') then (k, v) :: d' else (k', v') :: dict_set k v d'
  end.

(** ** Numbers *)

Inductive num : Type := NInt (z : Z) | NFloat (f : spec_float).

(** [bool] is a subclass of [int]. *)
Definition as_num (v : json) : option num :=
  match v with
  | JBool b => Some (NInt (if b then 1 else 0))
  | JInt z => Some (NInt z)
  | JFloat f => Some (NFloat f)
  | _ => None
  end.

(** Python compares an [int] with a [float] exactly; a NaN is unordered. *)
Definition cmp_int_float (z : Z) (f : spec_float) : option comparison :=
  match f with
  | S754_zero _ => Some (z ?= 0)%Z
  | S754_infinity s => Some (if s then Gt else Lt)
  | S754_nan => None
  | S754_finite s m e =>
      let v := if s then Z.neg m else Z.pos m in
      Some (if (0 <=? e)%Z then (z ?= v * 2 ^ e)%Z else (z * 2 ^ (- e) ?= v)%Z)
  end.

Definition num_cmp (a b : num) : option comparison :=
  match a, b with
  | NInt x, NInt y => Some (x ?= y)%Z
  | NInt x, NFloat g => cmp_int_float x g
  | NFloat f, NInt y => CompOpp <$> cmp_int_float y f
  | NFloat f, NFloat g => SFcompare f g
  end.

Definition num_eqb (a b : num) : bool :=
  match num_cmp a b with Some Eq => true | _ => false end.
Definition num_ltb (a b : num) : bool :=
  match num_cmp a b with Some Lt => true | _ => false end.
Definition num_leb (a b : num) : bool :=
  match num_cmp a b with Some Lt | Some Eq => true | _ => false end.

(** ** Truth and equality *)

(** [bool(v)]. *)
Definition py_truthy (v : json) : bool :=
  match v with
  | JNull => false
  | JBool b => b
  | JInt z => negb (z =? 0)%Z
  | JFloat (S754_zero _) => false
  | JFloat _ => true
  | JStr s => negb (String.eqb s "")
  | JList l => match l with [] => false | _ => true end
  | JDict l => match l with [] => false | _ => true end
  end.

(** [a == b]. *)
Fixpoint py_eq (a b : json) {struct a} : bool :=
  match a, b with
  | JNull, JNull => true
  | JStr s, JStr t => String.eqb s t
  | JList l, JList k =>
      (fix go (l k : list json) : bool :=
         match l, k with
         | [], [] => true
         | x :: l', y :: k' => py_eq x y && go l' k'
         | _, _ => false
         end) l k
  | JDict l, JDict k =>
      (length l =? length k)%nat &&
      (fix go (l : list (string * json)) : bool :=
         match l with
         | [] => true
         | (key, x) :: l' =>
             match dict_get key k with Some y => py_eq x y && go l' | None => false end
         end) l
  | _, _ =>
      match as_num a, as_num b with
      | Some x, Some y => num_eqb x y
      | _, _ => false
      end
  end.

(** [a != b]. *)
Definition py_ne (a b : json) : bool := negb (py_eq a b).

(** Objects a [set] or [dict] key accepts: a [list] or [dict] raises [TypeError]. *)
Definition hashable (v : json) : bool :=
  match v with JList _ | JDict _ => false | _ => true end.

Lemma dict_get_set {A} k k' (v : A) d :
  dict_get k (dict_set k' v d) = if decide (k = k') then Some v else dict_get k d.
Proof.
  induction d as [|[k0 v0] d IH]; simpl; [done|].
  destruct (decide (k' = k0)) as [->|Hne]; simpl.
  - repeat case_decide; naive_solver.
  - rewrite IH. repeat case_decide; naive_solver.
Qed.

Example py_eq_bool_int : py_eq (JBool true) (JInt 1) = true.
Proof. reflexivity. Qed.
Example py_eq_dict :
  py_eq (JDict [("a", JInt 1); ("b", JNull)]) (JDict [("b", JNull); ("a", JBool true)]) = true.
Proof. reflexivity. Qed.
