(* ===== verification/Dumps.v ===== *)
(** * [json.dumps]

    The text of a JSON value. src/backend/app/services/workflow_service.py hashes
    [json.dumps(v, sort_keys=True, separators=(",", ":"))], and
    src/backend/app/websocket/broadcaster.py publishes [json.dumps(v)]. [float_repr] is
    [float.__repr__] of a finite number. *)

From Stdlib Require Import Ascii SpecFloat.
From stdpp Require Import sorting.
From S2P Require Import Prelude Json PyStr.

(** Induction on a value with hypotheses for the elements of lists and dicts. *)
Lemma json_rect_nested (P : json → Prop) :
  P JNull → (∀ b, P (JBool b)) → (∀ z, P (JInt z)) → (∀ f, P (JFloat f)) → (∀ s, P (JStr s)) →
  (∀ l, Forall P l → P (JList l)) → (∀ l, Forall (fun p => P p.2) l → P (JDict l)) →
  ∀ v, P v.
Proof.
  intros Hn Hb Hi Hf Hs Hl Hd. fix IH 1. intros [|b|z|f|s|l|l]; [done|auto..| |].
  - apply Hl. induction l as [|v l IHl]; constructor; [apply IH|done].
  - apply Hd. induction l as [|[k v] l IHl]; constructor; [apply IH|done].
Qed.

(** ** Text *)

(** A double quote, and the backslash escapes of [ESCAPE_ASCII]. *)
Definition quote : ascii := "034"%char.

Definition esc_char (c : ascii) : list ascii :=
  match N_of_ascii c with
  | 34%N => ["\"%char; quote]
  | 92%N => ["\"%char; "\"%char]
  | 10%N => ["\"%char; "n"%char]
  | 13%N => ["\"%char; "r"%char]
  | 9%N => ["\"%char; "t"%char]
  | 12%N => ["\"%char; "f"%char]
  | 8%N => ["\"%char; "b"%char]
  | n => if (n <? 32)%N then "\"%char :: "u"%char :: to_digits_width 4 16 n [] else [c]
  end.

Definition string_chars (s : string) : list ascii := quote :: (chars s ≫= esc_char) ++ [quote].

Definition int_chars (z : Z) : list ascii :=
  if (z <? 0)%Z then "-"%char :: str_N_chars (Z.abs_N z) else str_N_chars (Z.abs_N z).

(** [sep.join(l)]. *)
Fixpoint intercalate {A} (sep : list A) (l : list (list A)) : list A :=
  match l with
  | [] => []
  | [x] => x
  | x :: l' => x ++ sep ++ intercalate sep l'
  end.

(** [sorted(dct.items())]: the keys of a dict are distinct, so they decide. *)
Definition key_le {A} (p q : string * A) : Prop := String.le p.1 q.1.

#[export] Instance key_le_dec {A} : RelDecision (@key_le A).
Proof. intros p q. unfold key_le. apply _. Defined.

Definition sort_keys {A} (l : list (string * A)) : list (string * A) := merge_sort key_le l.

(** The arguments [sort_keys] and [separators]. *)
Record DumpsStyle : Type := mkDumpsStyle {
  sorted_keys : bool;
  item_separator : string;
  key_separator : string
}.

Definition canonical_style : DumpsStyle := mkDumpsStyle true "," ":".
Definition default_style : DumpsStyle := mkDumpsStyle false ", " ": ".

Section dumps.
Context (float_repr : spec_float → string) (style : DumpsStyle).

Definition float_chars (f : spec_float) : list ascii :=
  match f with
  | S754_nan => chars "NaN"
  | S754_infinity s => if s then chars "-Infinity" else chars "Infinity"
  | _ => chars (float_repr f)
  end.

Definition items {A} (l : list (string * A)) : list (string * A) :=
  if sorted_keys style then sort_keys l else l.

Definition member_chars (p : string * list ascii) : list ascii :=
  string_chars p.1 ++ chars (key_separator style) ++ p.2.

Fixpoint json_chars (v : json) : list ascii :=
  match v with
  | JNull => chars "null"
  | JBool b => if b then chars "true" else chars "false"
  | JInt z => int_chars z
  | JFloat f => float_chars f
  | JStr s => string_chars s
  | JList l => "["%char :: intercalate (chars (item_separator style)) (map json_chars l) ++ ["]"%char]
  | JDict l =>
      "{"%char :: intercalate (chars (item_separator style))
        (map member_chars (items (map (fun '(k, x) => (k, json_chars x)) l))) ++ ["}"%char]
  end.

Definition json_dumps (v : json) : string := text (json_chars v).

(** ** Key order does not matter *)

(** Equal up to the order of the entries of dicts. *)
#[warnings="-register-all"]
Inductive json_similar : json → json → Prop :=
| sim_refl v : json_similar v v
| sim_list l k : Forall2 json_similar l k → json_similar (JList l) (JList k)
| sim_dict l m k :
    NoDup l.*1 → Forall2 (fun p q => p.1 = q.1 ∧ json_similar p.2 q.2) l m → m ≡ₚ k →
    json_similar (JDict l) (JDict k).

Lemma same_keys_perm {A} (l k : list (string * A)) :
  NoDup k.*1 → l ≡ₚ k → l.*1 = k.*1 → l = k.
Proof.
  revert k. induction l as [|[x a] l IH]; intros [|[y b] k] Hnd Hp Hk; try done.
  simpl in Hk. injection Hk as -> Hk. simpl in Hnd. apply NoDup_cons in Hnd as [Hy Hnd].
  assert (a = b) as ->.
  { assert ((y, a) ∈ (y, b) :: k) as Hin by (rewrite <- Hp; by left).
    apply elem_of_cons in Hin as [[= ->]|Hin]; [done|]. destruct Hy.
    apply list_elem_of_fmap. by exists (y, a). }
  f_equal. apply IH; [done| |done]. by eapply Permutation_cons_inv.
Qed.

Lemma sort_keys_perm {A} (l k : list (string * A)) :
  NoDup k.*1 → l ≡ₚ k → sort_keys l = sort_keys k.
Proof.
  intros Hnd Hp. unfold sort_keys.
  pose proof (merge_sort_Permutation key_le l) as Pl.
  pose proof (merge_sort_Permutation key_le k) as Pk.
  assert (∀ l : list (string * A), StronglySorted String.le (merge_sort key_le l).*1) as Hsort.
  { intros l0.
    assert (Total (@key_le A)) as Htot by (intros p q; apply (total String.le)).
    assert (Transitive (@key_le A)) as Htr by (intros p q r; unfold key_le; apply transitivity).
    pose proof (StronglySorted_merge_sort key_le l0) as Hs.
    induction Hs as [|p l1 Hs IHs Hall]; simpl; constructor; [done|].
    apply Forall_fmap. eapply Forall_impl; [exact Hall|]. done. }
  apply same_keys_perm.
  - by rewrite Pk.
  - by rewrite Pl, Hp, Pk.
  - apply (StronglySorted_unique String.le); [apply Hsort..|]. by rewrite Pl, Pk, Hp.
Qed.

Lemma json_chars_similar a b :
  sorted_keys style = true → json_similar a b → json_chars a = json_chars b.
Proof.
  intros Hs. revert b. induction a as [| | | | |l IH|l IH] using json_rect_nested; intros b' Hab;
    inversion Hab as [|l0 k Hlk|l0 m k Hnd Hlm Hmk]; subst; try done; cbn [json_chars].
  - do 3 f_equal. clear Hab. induction Hlk as [|x y l k Hxy Hlk IHl]; [done|].
    inversion IH; subst. simpl. f_equal; auto.
  - set (dump := fun p : string * json => let '(k, x) := p in (k, json_chars x)).
    assert (map dump l = map dump m) as ->.
    { clear -IH Hlm. induction Hlm as [|[x v] [y v'] l m [Hx Hv] Hlm IHl]; [done|].
      inversion IH; subst. simpl in *. f_equal; [f_equal; auto|auto]. }
    assert (map fst (map dump k) = k.*1) as Hk.
    { clear. induction k as [|[x v] k IHk]; [done|]. simpl. by f_equal. }
    unfold items. rewrite Hs, (sort_keys_perm (map dump m) (map dump k)); [done| |].
    + change ((map dump k).*1) with (map fst (map dump k)). rewrite Hk, <- Hmk.
      assert (m.*1 = l.*1) as ->; [|done].
      clear -Hlm. induction Hlm as [|p q l m [Hx _] Hlm IHl]; [done|].
      rewrite !fmap_cons. congruence.
    + by apply Permutation_map.
Qed.

End dumps.
