(* ===== verification/JsonParse.v ===== *)
(** * [json.loads]

    The parser of the Standard Library's [json] module, as
    src/backend/app/services/executor_registry.py uses it on the literal of a condition and
    src/backend/app/main.py on the messages of the Redis channel. Strings are UTF-8; a
    lone surrogate keeps its three bytes. [None] is [ValueError]; an integer of more than
    4300 digits is one. The recursion limit of the interpreter is not modelled. *)

From Stdlib Require Import Ascii SpecFloat.
From S2P Require Import Prelude Json PyStr Dumps.

(** ** Lexical elements *)

Definition is_json_space (c : ascii) : bool :=
  match N_of_ascii c with 32%N | 9%N | 10%N | 13%N => true | _ => false end.

Definition skip_ws (l : list ascii) : list ascii := lstrip is_json_space l.

Definition hex4 (a b c d : ascii) : option N :=
  a ← char_digit 16 a; b ← char_digit 16 b; c ← char_digit 16 c; d ← char_digit 16 d;
  Some (((a * 16 + b) * 16 + c) * 16 + d)%N.

(** The UTF-8 bytes of a code point. *)
Definition utf8 (n : N) : list ascii :=
  (if n <? 128 then [ascii_of_N n]
   else if n <? 2048 then [ascii_of_N (192 + n / 64); ascii_of_N (128 + n mod 64)]
   else if n <? 65536 then
     [ascii_of_N (224 + n / 4096); ascii_of_N (128 + n / 64 mod 64); ascii_of_N (128 + n mod 64)]
   else [ascii_of_N (240 + n / 262144); ascii_of_N (128 + n / 4096 mod 64);
         ascii_of_N (128 + n / 64 mod 64); ascii_of_N (128 + n mod 64)])%N.

Definition simple_escape (e : ascii) : option ascii :=
  match N_of_ascii e with
  | 34%N => Some e
  | 92%N => Some e
  | 47%N => Some e
  | 98%N => Some (ascii_of_N 8)
  | 102%N => Some (ascii_of_N 12)
  | 110%N => Some (ascii_of_N 10)
  | 114%N => Some (ascii_of_N 13)
  | 116%N => Some (ascii_of_N 9)
  | _ => None
  end.

Definition high_surrogate (n : N) : bool := ((55296 <=? n) && (n <=? 56319))%N.
Definition low_surrogate (n : N) : bool := ((56320 <=? n) && (n <=? 57343))%N.
Definition join_surrogates (h l : N) : N := (65536 + (h - 55296) * 1024 + (l - 56320))%N.

(** [scanstring]: after the opening quote, the characters and what follows the closing
    one. *)
Fixpoint scan_string (l : list ascii) : option (list ascii * list ascii) :=
  match l with
  | [] => None
  | c :: l =>
      if Ascii.eqb c quote then Some ([], l)
      else if Ascii.eqb c "\" then
        match l with
        | [] => None
        | e :: l =>
            match simple_escape e with
            | Some x => '(s, r) ← scan_string l; Some (x :: s, r)
            | None =>
                if Ascii.eqb e "u" then
                  match l with
                  | a :: b :: c :: d :: l1 =>
                      u ← hex4 a b c d;
                      if high_surrogate u then
                        match l1 with
                        | b1 :: u1 :: a' :: b' :: c' :: d' :: l2 =>
                            if Ascii.eqb b1 "\" && Ascii.eqb u1 "u" then
                              u' ← hex4 a' b' c' d';
                              if low_surrogate u' then
                                '(s, r) ← scan_string l2; Some (utf8 (join_surrogates u u') ++ s, r)
                              else '(s, r) ← scan_string l1; Some (utf8 u ++ s, r)
                            else '(s, r) ← scan_string l1; Some (utf8 u ++ s, r)
                        | _ => '(s, r) ← scan_string l1; Some (utf8 u ++ s, r)
                        end
                      else '(s, r) ← scan_string l1; Some (utf8 u ++ s, r)
                  | _ => None
                  end
                else None
            end
        end
      else if (N_of_ascii c <? 32)%N then None
      else '(s, r) ← scan_string l; Some (c :: s, r)
  end.

(** ** Numbers *)

Definition is_digit (c : ascii) : bool := match char_digit 10 c with Some _ => true | None => false end.

Fixpoint span_digits (l : list ascii) : list ascii * list ascii :=
  match l with
  | c :: l' => if is_digit c then let '(ds, r) := span_digits l' in (c :: ds, r) else ([], l)
  | [] => ([], [])
  end.

Definition digits_value (ds : list ascii) : N := default 0%N (parse_digits 10 0 ds).

(** [float] of a decimal: the nearest binary64 value, ties to even. *)
Definition decimal_float (neg : bool) (m : N) (e : Z) : spec_float :=
  match m with
  | N0 => S754_zero neg
  | Npos p =>
      if (0 <=? e)%Z then
        let z := (Z.pos p * 10 ^ e)%Z in
        binary_normalize 53 1024 (if neg then (- z)%Z else z) 0 neg
      else SFdiv 53 1024 (S754_finite neg p 0) (S754_finite false (Z.to_pos (10 ^ (- e))) 0)
  end.

(** The digits before the point: a leading zero stands alone. *)
Definition scan_int (l : list ascii) : option (list ascii * list ascii) :=
  match span_digits l with
  | ([], _) => None
  | (d :: ds, r) => if Ascii.eqb d "0" then Some ([d], ds ++ r) else Some (d :: ds, r)
  end.

Definition scan_frac (l : list ascii) : list ascii * list ascii :=
  match l with
  | c :: l' =>
      if Ascii.eqb c "." then
        match span_digits l' with ([], _) => ([], l) | (ds, r) => (ds, r) end
      else ([], l)
  | [] => ([], l)
  end.

Definition scan_sign (l : list ascii) : bool * list ascii :=
  match l with
  | c :: l' => if Ascii.eqb c "-" then (true, l') else if Ascii.eqb c "+" then (false, l') else (false, l)
  | [] => (false, l)
  end.

Definition scan_exp (l : list ascii) : option Z * list ascii :=
  match l with
  | c :: l' =>
      if Ascii.eqb c "e" || Ascii.eqb c "E" then
        let '(neg, l'') := scan_sign l' in
        match span_digits l'' with
        | ([], _) => (None, l)
        | (ds, r) => let e := Z.of_N (digits_value ds) in (Some (if neg then - e else e)%Z, r)
        end
      else (None, l)
  | [] => (None, l)
  end.

Definition int_max_str_digits : nat := N.to_nat 4300.

Definition scan_number (neg : bool) (l : list ascii) : option (json * list ascii) :=
  '(ds, l) ← scan_int l;
  let '(fs, l) := scan_frac l in
  let '(ex, l) := scan_exp l in
  match fs, ex with
  | [], None =>
      if (length ds <=? int_max_str_digits)%nat then
        let z := Z.of_N (digits_value ds) in Some (JInt (if neg then - z else z)%Z, l)
      else None
  | _, _ =>
      Some (JFloat (decimal_float neg (digits_value (ds ++ fs)) (default 0%Z ex - Z.of_nat (length fs))), l)
  end.

(** ** Values *)

Fixpoint drop_prefix (p l : list ascii) : option (list ascii) :=
  match p, l with
  | [], _ => Some l
  | a :: p', c :: l' => if Ascii.eqb a c then drop_prefix p' l' else None
  | _ :: _, [] => None
  end.

(** The constants [scan_once] knows. *)
Definition scan_constant (c : ascii) (l : list ascii) : option (json * list ascii) :=
  match N_of_ascii c with
  | 110%N => r ← drop_prefix (chars "null") l; Some (JNull, r)
  | 116%N => r ← drop_prefix (chars "true") l; Some (JBool true, r)
  | 102%N => r ← drop_prefix (chars "false") l; Some (JBool false, r)
  | 78%N => r ← drop_prefix (chars "NaN") l; Some (JFloat S754_nan, r)
  | 73%N => r ← drop_prefix (chars "Infinity") l; Some (JFloat (S754_infinity false), r)
  | 45%N =>
      match drop_prefix (chars "-Infinity") l with
      | Some r => Some (JFloat (S754_infinity true), r)
      | None => scan_number true (tail l)
      end
  | _ => scan_number false l
  end.

(** [scan_once], [JSONArray] after its first element starts, [JSONObject] likewise. *)
Fixpoint parse_value (fuel : nat) (l : list ascii) {struct fuel} : option (json * list ascii) :=
  match fuel, l with
  | S fuel, c :: r =>
      if Ascii.eqb c quote then '(s, r) ← scan_string r; Some (JStr (text s), r)
      else if Ascii.eqb c "{" then
        match skip_ws r with
        | c' :: r' => if Ascii.eqb c' "}" then Some (JDict [], r') else parse_members fuel [] (c' :: r')
        | [] => None
        end
      else if Ascii.eqb c "[" then
        match skip_ws r with
        | c' :: r' => if Ascii.eqb c' "]" then Some (JList [], r') else parse_elems fuel [] (c' :: r')
        | [] => None
        end
      else scan_constant c (c :: r)
  | _, _ => None
  end
with parse_elems (fuel : nat) (acc : list json) (l : list ascii) {struct fuel} :
    option (json * list ascii) :=
  match fuel with
  | O => None
  | S fuel =>
      '(v, r) ← parse_value fuel l;
      match skip_ws r with
      | c :: r' =>
          if Ascii.eqb c "," then parse_elems fuel (acc ++ [v]) (skip_ws r')
          else if Ascii.eqb c "]" then Some (JList (acc ++ [v]), r')
          else None
      | [] => None
      end
  end
with parse_members (fuel : nat) (acc : list (string * json)) (l : list ascii) {struct fuel} :
    option (json * list ascii) :=
  match fuel, l with
  | S fuel, c :: l' =>
      if Ascii.eqb c quote then
        '(k, r) ← scan_string l';
        match skip_ws r with
        | c1 :: r1 =>
            if Ascii.eqb c1 ":" then
              '(v, r2) ← parse_value fuel (skip_ws r1);
              match skip_ws r2 with
              | c3 :: r3 =>
                  if Ascii.eqb c3 "," then parse_members fuel (dict_set (text k) v acc) (skip_ws r3)
                  else if Ascii.eqb c3 "}" then Some (JDict (dict_set (text k) v acc), r3)
                  else None
              | [] => None
              end
            else None
        | [] => None
        end
      else None
  | _, _ => None
  end.

(** Every element and every member takes a character, and so does every bracket. *)
Definition parse_fuel (l : list ascii) : nat := 2 * length l + 2.

Definition json_loads_chars (l : list ascii) : option json :=
  let l := skip_ws l in
  '(v, r) ← parse_value (parse_fuel l) l;
  match skip_ws r with [] => Some v | _ => None end.

Definition json_loads (s : string) : option json := json_loads_chars (chars s).

Local Abbreviation q s := (text (quote :: chars s ++ [quote])).

Example loads_numbers : json_loads "[1, -20,0.5 ,1e2]" =
  Some (JList [JInt 1; JInt (-20); JFloat (S754_finite false 4503599627370496 (-53));
               JFloat (S754_finite false 7036874417766400 (-46))]).
Proof. vm_compute. reflexivity. Qed.
Example loads_tenth : json_loads "0.1" = Some (JFloat (S754_finite false 7205759403792794 (-56))).
Proof. vm_compute. reflexivity. Qed.
Example loads_object : json_loads ("{" +:+ q "a" +:+ " : [ true, null ], " +:+ q "a" +:+ ":" +:+ q "x\n\u0041" +:+ "}") =
  Some (JDict [("a"%string, JStr (text (chars "x" ++ [ascii_of_N 10] ++ chars "A")))]).
Proof. vm_compute. reflexivity. Qed.
Example loads_bad : json_loads "[1,]" = None ∧ json_loads "01" = None ∧ json_loads "1 2" = None.
Proof. vm_compute. done. Qed.
