(* ===== verification/JsonRoundtrip.v ===== *)
(** * The parser reads what [json.dumps] writes

    The parser's fuel is enough, and parsing the text of a value gives the value back. *)

From Stdlib Require Import Ascii SpecFloat.
From S2P Require Import Prelude Json PyStr Dumps JsonParse.

#[local] Arguments N.mul : simpl never.

(** ** What is left is shorter *)

Lemma lstrip_length p l : (length (lstrip p l) ≤ length l)%nat.
Proof. induction l as [|c l IH]; simpl; [done|]. destruct (p c); simpl; lia. Qed.

Lemma skip_ws_length l : (length (skip_ws l) ≤ length l)%nat.
Proof. apply lstrip_length. Qed.

Lemma bind_Some {A B} (m : option A) (f : A → option B) b :
  (m ≫= f) = Some b → ∃ a, m = Some a ∧ f a = Some b.
Proof. destruct m as [a|]; [by exists a|done]. Qed.

(** Take apart a successful computation in [option]. *)
Ltac option_inv :=
  repeat match goal with
  | H : (_ ≫= _) = Some _ |- _ =>
      let x := fresh "x" in let E := fresh "E" in
      apply bind_Some in H as (x & E & H); try destruct x; cbv beta iota in H
  | H : Some _ = Some _ |- _ => injection H as <- <-
  | H : (if ?b then _ else _) = Some _ |- _ => destruct b
  | H : match ?l with [] => _ | _ :: _ => _ end = Some _ |- _ => destruct l
  | H : match ?o with Some _ => _ | None => _ end = Some _ |- _ => destruct o
  | H : None = Some _ |- _ => discriminate H
  end.

Lemma scan_string_length l s r : scan_string l = Some (s, r) → (length r < length l)%nat.
Proof.
  revert s r. induction l as [l IH] using (induction_ltof1 _ (@length ascii)). unfold ltof in IH.
  intros s r Hl.
  assert (∀ l' s r, (length l' < length l)%nat → scan_string l' = Some (s, r) → (length r < length l)%nat)
    as Hrec by (intros l' s' r' Hl' Hr'; specialize (IH l' Hl' _ _ Hr'); lia).
  destruct l as [|c l]; [done|]. cbn [scan_string] in Hl. simpl in Hrec.
  option_inv; simpl; try lia; (eapply Hrec; [|eassumption]; simpl; lia).
Qed.

Lemma span_digits_app l ds r : span_digits l = (ds, r) → l = ds ++ r.
Proof.
  revert ds r. induction l as [|c l IH]; simpl; intros ds r; [by intros [= <- <-]|].
  destruct (is_digit c); [|by intros [= <- <-]].
  destruct (span_digits l) as [ds' r']. intros [= <- <-]. simpl. f_equal. by apply IH.
Qed.

Lemma scan_int_length l ds r : scan_int l = Some (ds, r) → (length r < length l)%nat.
Proof.
  unfold scan_int. destruct (span_digits l) as [ds' r'] eqn:Hs. apply span_digits_app in Hs as ->.
  destruct ds' as [|d ds']; [done|]. case_match; intros [= <- <-]; simpl; rewrite ?length_app; lia.
Qed.

Lemma scan_frac_length l ds r : scan_frac l = (ds, r) → (length r ≤ length l)%nat.
Proof.
  unfold scan_frac. destruct l as [|c l]; [by intros [= _ <-]|].
  destruct (Ascii.eqb c "."); [|by intros [= _ <-]].
  destruct (span_digits l) as [ds' r'] eqn:Hs. apply span_digits_app in Hs as ->.
  destruct ds'; intros [= _ <-]; simpl; rewrite ?length_app; lia.
Qed.

Lemma scan_sign_length l b r : scan_sign l = (b, r) → (length r ≤ length l)%nat.
Proof.
  unfold scan_sign. destruct l as [|c l]; [by intros [= _ <-]|].
  repeat case_match; intros [= _ <-]; simpl; lia.
Qed.

Lemma scan_exp_length l ex r : scan_exp l = (ex, r) → (length r ≤ length l)%nat.
Proof.
  unfold scan_exp. destruct l as [|c l]; [by intros [= _ <-]|].
  destruct (_ || _); [|by intros [= _ <-]].
  destruct (scan_sign l) as [neg l2] eqn:Hsign. apply scan_sign_length in Hsign.
  destruct (span_digits l2) as [ds' r'] eqn:Hs. apply span_digits_app in Hs as ->.
  rewrite length_app in Hsign. destruct ds'; intros [= _ <-]; simpl in *; lia.
Qed.

Lemma scan_number_length neg l v r : scan_number neg l = Some (v, r) → (length r < length l)%nat.
Proof.
  unfold scan_number. intros Hl. apply bind_Some in Hl as ([ds l1] & Hi & Hl).
  apply scan_int_length in Hi.
  destruct (scan_frac l1) as [fs l2] eqn:Hf. apply scan_frac_length in Hf.
  destruct (scan_exp l2) as [ex l3] eqn:He. apply scan_exp_length in He.
  assert (r = l3) as -> by (repeat case_match; by simplify_eq). lia.
Qed.

Lemma drop_prefix_app p l r : drop_prefix p l = Some r → l = p ++ r.
Proof.
  revert l. induction p as [|a p IH]; intros l; simpl; [by intros [= ->]|].
  destruct l as [|c l]; [done|]. destruct (Ascii.eqb_spec a c); [|done]. subst.
  intros Hl. f_equal. by apply IH.
Qed.

Lemma scan_constant_length c l v r :
  scan_constant c l = Some (v, r) → (length r < length l)%nat.
Proof.
  unfold scan_constant. intros Hl.
  assert (∀ p r, p ≠ [] → drop_prefix p l = Some r → (length r < length l)%nat) as Hp.
  { intros p r0 Hne Hd. apply drop_prefix_app in Hd as ->. rewrite length_app.
    destruct p; [done|]. simpl. lia. }
  assert (∀ neg, scan_number neg (tail l) = Some (v, r) → (length r < length l)%nat) as Ht.
  { intros neg Hn%scan_number_length. destruct l; simpl in *; lia. }
  repeat (case_match; try discriminate Hl); option_inv;
    solve [by eapply scan_number_length|by eapply Hp; [|eassumption]|by eapply Ht].
Qed.

(** What a successful parse leaves is shorter. *)
Lemma parse_length n :
  (∀ l v r, parse_value n l = Some (v, r) → (length r < length l)%nat) ∧
  (∀ acc l v r, parse_elems n acc l = Some (v, r) → (length r < length l)%nat) ∧
  (∀ acc l v r, parse_members n acc l = Some (v, r) → (length r < length l)%nat).
Proof.
  induction n as [|n (IHv & IHe & IHm)]; [done|].
  assert (∀ l c r, skip_ws l = c :: r → (length r < length l)%nat) as Hws.
  { intros l c r Hl. pose proof (skip_ws_length l) as Hle. rewrite Hl in Hle. simpl in Hle. lia. }
  split_and!.
  - intros [|c l] v r Hl; [done|]. cbn [parse_value] in Hl.
    destruct (Ascii.eqb c quote).
    { option_inv. apply scan_string_length in E. simpl. lia. }
    destruct (Ascii.eqb c "{").
    { destruct (skip_ws l) as [|c' l'] eqn:Hs; [done|]. apply Hws in Hs.
      destruct (Ascii.eqb c' "}"); [option_inv|apply IHm in Hl]; simpl in *; lia. }
    destruct (Ascii.eqb c "[").
    { destruct (skip_ws l) as [|c' l'] eqn:Hs; [done|]. apply Hws in Hs.
      destruct (Ascii.eqb c' "]"); [option_inv|apply IHe in Hl]; simpl in *; lia. }
    by apply scan_constant_length in Hl.
  - intros acc l v r Hl. cbn [parse_elems] in Hl. apply bind_Some in Hl as ([v' r1] & Hv & Hl).
    apply IHv in Hv. destruct (skip_ws r1) as [|c r2] eqn:Hs; [done|]. apply Hws in Hs.
    destruct (Ascii.eqb c ","); [|destruct (Ascii.eqb c "]"); option_inv; lia].
    apply IHe in Hl. pose proof (skip_ws_length r2). lia.
  - intros acc [|c l] v r Hl; [done|]. cbn [parse_members] in Hl.
    destruct (Ascii.eqb c quote); [|done]. apply bind_Some in Hl as ([k r1] & Hk & Hl).
    apply scan_string_length in Hk. destruct (skip_ws r1) as [|c2 r2] eqn:Hs; [done|]. apply Hws in Hs.
    destruct (Ascii.eqb c2 ":"); [|done]. apply bind_Some in Hl as ([v' r3] & Hv & Hl).
    apply IHv in Hv. pose proof (skip_ws_length r2).
    destruct (skip_ws r3) as [|c4 r4] eqn:Hs4; [done|]. apply Hws in Hs4. simpl.
    destruct (Ascii.eqb c4 ","); [|destruct (Ascii.eqb c4 "}"); option_inv; lia].
    apply IHm in Hl. pose proof (skip_ws_length r4). lia.
Qed.

(** A parse that succeeds with some fuel succeeds with the fuel the length gives. *)
Lemma parse_enough m :
  (∀ l x, parse_value m l = Some x → ∀ n, (2 * length l + 1 ≤ n)%nat → parse_value n l = Some x) ∧
  (∀ acc l x, parse_elems m acc l = Some x → ∀ n, (2 * length l + 2 ≤ n)%nat → parse_elems n acc l = Some x) ∧
  (∀ acc l x, parse_members m acc l = Some x → ∀ n, (2 * length l + 2 ≤ n)%nat → parse_members n acc l = Some x).
Proof.
  induction m as [|m (IHv & IHe & IHm)]; [done|].
  assert (∀ l c r, skip_ws l = c :: r → (length (c :: r) ≤ length l)%nat) as Hws.
  { intros l c r Hl. rewrite <- Hl. apply skip_ws_length. }
  split_and!.
  - intros [|c l] x Hl [|n] Hn; [done..|simpl in Hn; lia|]. cbn [parse_value] in Hl |- *.
    destruct (Ascii.eqb c quote); [done|]. simpl in Hn.
    destruct (Ascii.eqb c "{").
    { destruct (skip_ws l) as [|c' l'] eqn:Hs; [done|]. apply Hws in Hs.
      destruct (Ascii.eqb c' "}"); [done|]. apply (IHm _ _ _ Hl). lia. }
    destruct (Ascii.eqb c "["); [|done].
    destruct (skip_ws l) as [|c' l'] eqn:Hs; [done|]. apply Hws in Hs.
    destruct (Ascii.eqb c' "]"); [done|]. apply (IHe _ _ _ Hl). lia.
  - intros acc l x Hl [|n] Hn; [lia|]. cbn [parse_elems] in Hl |- *.
    apply bind_Some in Hl as ([v r] & Hv & Hl). rewrite (IHv _ _ Hv) by lia.
    apply parse_length in Hv. simpl. destruct (skip_ws r) as [|c r'] eqn:Hs; [done|]. apply Hws in Hs.
    destruct (Ascii.eqb c ","); [|done]. apply (IHe _ _ _ Hl).
    pose proof (skip_ws_length r'). simpl in Hs. lia.
  - intros acc [|c l] x Hl [|n] Hn; [done|done|lia|]. cbn [parse_members] in Hl |- *. simpl in Hn.
    destruct (Ascii.eqb c quote); [|done]. apply bind_Some in Hl as ([k r1] & Hk & Hl). rewrite Hk. simpl.
    apply scan_string_length in Hk. destruct (skip_ws r1) as [|c2 r2] eqn:Hs; [done|]. apply Hws in Hs.
    simpl in Hs. destruct (Ascii.eqb c2 ":"); [|done]. apply bind_Some in Hl as ([v r3] & Hv & Hl).
    pose proof (skip_ws_length r2). rewrite (IHv _ _ Hv) by lia. simpl. apply parse_length in Hv.
    destruct (skip_ws r3) as [|c4 r4] eqn:Hs4; [done|]. apply Hws in Hs4. simpl in Hs4.
    destruct (Ascii.eqb c4 ","); [|done]. apply (IHm _ _ _ Hl). pose proof (skip_ws_length r4). lia.
Qed.

(** ** Strings *)

Lemma scan_esc_char c l :
  scan_string (esc_char c ++ l) = '(s, r) ← scan_string l; Some (c :: s, r).
Proof. destruct c as [[] [] [] [] [] [] [] []]; reflexivity. Qed.

Lemma scan_string_chars s rest :
  scan_string ((s ≫= esc_char) ++ quote :: rest) = Some (s, rest).
Proof.
  induction s as [|c s IH]; [done|]. rewrite bind_cons, <- app_assoc, scan_esc_char, IH. done.
Qed.

Lemma text_chars s : text (chars s) = s.
Proof. apply String.string_of_list_ascii_of_string. Qed.

Lemma chars_text l : chars (text l) = l.
Proof. apply String.list_ascii_of_string_of_list_ascii. Qed.

(** ** Integers *)

(** What may follow a number. *)
Definition ends_number (l : list ascii) : bool :=
  match l with
  | [] => true
  | c :: _ => negb (is_digit c || Ascii.eqb c "." || Ascii.eqb c "e" || Ascii.eqb c "E")
  end.

Lemma to_digits_decimal fuel n acc :
  Forall (fun c => is_digit c = true) acc → Forall (fun c => is_digit c = true) (to_digits fuel 10 n acc).
Proof.
  revert n acc. induction fuel as [|fuel IH]; intros n acc Hacc; [done|]. cbn [to_digits].
  assert (is_digit (digit_char (n mod 10)) = true) as Hd.
  { unfold is_digit. rewrite char_digit_char; [done| |lia]. apply N.mod_lt. lia. }
  case_match; [by constructor|]. apply IH. by constructor.
Qed.

(** The digits of a positive number start with a positive digit. *)
Lemma to_digits_no_zero fuel n acc :
  (0 < n)%N → (n < 10 ^ N.of_nat fuel)%N →
  ∃ d l, to_digits fuel 10 n acc = digit_char d :: l ∧ (0 < d < 10)%N.
Proof.
  revert n acc. induction fuel as [|fuel IH]; intros n acc Hn Hf; [cbn in Hf; lia|].
  cbn [to_digits]. destruct (N.ltb_spec n 10) as [Hlt|Hge].
  - exists n, acc. rewrite N.mod_small by done. split; [done|lia].
  - apply IH; [apply N.div_str_pos; lia|]. rewrite Nat2N.inj_succ, N.pow_succ_r' in Hf.
    apply N.Div0.div_lt_upper_bound. lia.
Qed.

Lemma digit_char_not d c :
  (d < 10)%N → is_digit c = false → Ascii.eqb (digit_char d) c = false.
Proof.
  intros Hd Hc. apply Ascii.eqb_neq. intros <-. unfold is_digit in Hc.
  by rewrite char_digit_char in Hc by lia.
Qed.

Lemma span_digits_all ds rest :
  Forall (fun c => is_digit c = true) ds → ends_number rest = true →
  span_digits (ds ++ rest) = (ds, rest).
Proof.
  intros Hds Hr. induction Hds as [|c ds Hc _ IH]; simpl; [|by rewrite Hc, IH].
  destruct rest as [|c rest]; [done|]. simpl in *. apply negb_true_iff in Hr.
  repeat apply orb_false_iff in Hr as [Hr _]. by rewrite Hr.
Qed.

Lemma scan_tail rest :
  ends_number rest = true → scan_frac rest = ([], rest) ∧ scan_exp rest = (None, rest).
Proof.
  unfold ends_number, scan_frac, scan_exp. destruct rest as [|c rest]; [done|].
  intros Hr%negb_true_iff. apply orb_false_iff in Hr as [[[_ Hp]%orb_false_iff He]%orb_false_iff HE].
  by rewrite Hp, He, HE.
Qed.

Lemma scan_number_str neg n rest :
  (length (str_N_chars n) ≤ int_max_str_digits)%nat → ends_number rest = true →
  scan_number neg (str_N_chars n ++ rest) =
    Some (JInt (if neg then - Z.of_N n else Z.of_N n)%Z, rest).
Proof.
  intros Hlen Hr. unfold scan_number.
  assert (scan_int (str_N_chars n ++ rest) = Some (str_N_chars n, rest)) as ->.
  { unfold scan_int. rewrite span_digits_all; [|by apply to_digits_decimal|done].
    destruct (decide (n = 0)%N) as [->|Hn]; [done|].
    destruct (to_digits_no_zero (S (N.size_nat n)) n []) as (d & l & Heq & Hd);
      [lia|by apply N_size_nat_gt|].
    unfold str_N_chars. rewrite Heq. assert (Ascii.eqb (digit_char d) "0" = false) as ->; [|done].
    apply Ascii.eqb_neq. intros H0. assert (char_digit 10 (digit_char d) = Some 0%N) as H1 by (by rewrite H0).
    rewrite char_digit_char in H1 by lia. injection H1 as ->. lia. }
  cbn [mbind option_bind]. destruct (scan_tail rest Hr) as [-> ->].
  rewrite (proj2 (Nat.leb_le _ _) Hlen). unfold digits_value, str_N_chars.
  rewrite parse_to_digits; [done|lia| |lia]. by apply N_size_nat_gt.
Qed.

(** ** Values *)

(** The values [json.loads] gives back unchanged: no finite floats, whose text is
    [float.__repr__], no integers beyond [sys.int_info.str_digits], distinct keys. *)
Fixpoint json_plain (v : json) : bool :=
  match v with
  | JInt z => (length (str_N_chars (Z.abs_N z)) <=? int_max_str_digits)%nat
  | JFloat S754_nan | JFloat (S754_infinity _) => true
  | JFloat _ => false
  | JList l => forallb json_plain l
  | JDict l => bool_decide (NoDup l.*1) && forallb (fun p => json_plain p.2) l
  | _ => true
  end.

Section roundtrip.
Context (float_repr : spec_float → string) (style : DumpsStyle) (isp ksp : list ascii).
Hypothesis Hunsorted : sorted_keys style = false.
Hypothesis Hitem : chars (item_separator style) = ","%char :: isp ∧ Forall (fun c => is_json_space c = true) isp.
Hypothesis Hkey : chars (key_separator style) = ":"%char :: ksp ∧ Forall (fun c => is_json_space c = true) ksp.
Local Abbreviation dump := (json_chars float_repr style).

Lemma skip_ws_spaces sp l :
  Forall (fun c => is_json_space c = true) sp → skip_ws (sp ++ l) = skip_ws l.
Proof. induction 1 as [|c sp Hc _ IH]; [done|]. unfold skip_ws in *. cbn [app lstrip]. by rewrite Hc. Qed.

Lemma skip_ws_id c l : is_json_space c = false → skip_ws (c :: l) = c :: l.
Proof. intros Hc. unfold skip_ws. cbn [lstrip]. by rewrite Hc. Qed.

Lemma str_N_chars_head n :
  ∃ d l, str_N_chars n = digit_char d :: l ∧ (d < 10)%N.
Proof. apply to_digits_head; lia. Qed.

(** The first character of a value is no space and no closing bracket. *)
Lemma dump_head v :
  json_plain v = true →
  ∃ c l, dump v = c :: l ∧ is_json_space c = false ∧ Ascii.eqb c "]" = false.
Proof.
  destruct v as [|[]|z|f|s|l|l]; intros Hv; try (eexists _, _; split_and!; [reflexivity|done|done]).
  - cbn [json_chars]. unfold int_chars.
    destruct (z <? 0)%Z; [eexists _, _; split_and!; [reflexivity|done|done]|].
    destruct (str_N_chars_head (Z.abs_N z)) as (d & l & -> & Hd). exists (digit_char d), l.
    split; [done|]. revert d Hd. assert (∀ d, (d < 16)%N → (d < 10)%N →
      is_json_space (digit_char d) = false ∧ Ascii.eqb (digit_char d) "]" = false) as H.
    { apply (N_below_16 (fun d => (d < 10)%N → _)).
      repeat (apply Forall_cons_2; [done|]). by apply Forall_nil_2. }
    intros d Hd. apply H; lia.
  - destruct f as [|[]| |]; try done; (eexists _, _; split_and!; [reflexivity|done|done]).
Qed.

Definition parses v : Prop :=
  ∀ rest n, ends_number rest = true → (2 * length (dump v ++ rest) + 1 ≤ n)%nat →
    parse_value n (dump v ++ rest) = Some (v, rest).

Lemma intercalate_cons {A} (sep x y : list A) l :
  intercalate sep (x :: y :: l) = x ++ sep ++ intercalate sep (y :: l).
Proof. done. Qed.

Lemma dump_elems_head v l :
  json_plain v = true →
  ∃ c t, intercalate (chars (item_separator style)) (map dump (v :: l)) = c :: t ∧
         is_json_space c = false.
Proof.
  intros Hv. destruct (dump_head v Hv) as (c & t & Hd & Hc & _). rewrite map_cons, Hd.
  destruct l; [by exists c, t|]. rewrite map_cons, intercalate_cons. cbn [app]. by eexists _, _.
Qed.

Lemma parse_elems_dump l :
  l ≠ [] → Forall parses l → forallb json_plain l = true → ∀ acc rest n,
  let text := intercalate (chars (item_separator style)) (map dump l) ++ "]"%char :: rest in
  (2 * length text + 2 ≤ n)%nat → parse_elems n acc text = Some (JList (acc ++ l), rest).
Proof using Hitem.
  destruct Hitem as [Hsep Hsp]. intros Hne Hl. induction Hl as [|v l Hv Hl IH]; [done|].
  intros Hp acc rest n text Hn. simpl in Hp. apply andb_true_iff in Hp as [Hpv Hpl].
  destruct n as [|n]; [lia|]. cbn [parse_elems]. destruct l as [|v' l].
  - subst text. cbn [map intercalate] in *. rewrite Hv; [|done|lia]. done.
  - subst text. rewrite !map_cons, intercalate_cons, <- map_cons, <- !app_assoc in *. rewrite Hsep in *.
    destruct (dump_elems_head v' l) as (c & t & Ht & Hc); [by simpl in Hpl; apply andb_true_iff in Hpl as []|].
    rewrite Hsep in Ht. set (tail := intercalate _ _) in *. rewrite length_app in Hn. simpl in Hn.
    rewrite Hv; [|done|rewrite length_app; simpl; lia]. cbn [mbind option_bind].
    cbn [app]. rewrite skip_ws_id by done.
    rewrite (skip_ws_spaces isp) by done. rewrite (Ascii.eqb_refl ",").
    rewrite Ht. cbn [app]. rewrite skip_ws_id by done. rewrite app_comm_cons, <- Ht.
    rewrite IH; [by rewrite <- app_assoc|done|done|].
    rewrite !length_app in *. simpl in *. lia.
Qed.

Lemma dict_set_new {A} k (v : A) d : k ∉ d.*1 → dict_set k v d = d ++ [(k, v)].
Proof.
  induction d as [|[k' v'] d IH]; [done|]. rewrite fmap_cons, not_elem_of_cons. intros [Hne Hd].
  simpl in *. rewrite decide_False by done. by rewrite IH.
Qed.

Local Abbreviation pair_chars := (fun p : string * json => member_chars style (p.1, dump p.2)).

Lemma parse_members_dump l :
  l ≠ [] → Forall (fun p => parses p.2) l → forallb (fun p => json_plain p.2) l = true →
  ∀ acc rest n, NoDup (acc.*1 ++ l.*1) →
  let text := intercalate (chars (item_separator style)) (map pair_chars l) ++ "}"%char :: rest in
  (2 * length text + 2 ≤ n)%nat → parse_members n acc text = Some (JDict (acc ++ l), rest).
Proof using Hitem Hkey.
  destruct Hitem as [Hsep Hsp]. destruct Hkey as [Hks Hksp]. intros Hne Hl.
  induction Hl as [|[k v] l Hv Hl IH]; [done|].
  intros Hp acc rest n Hnd text0 Hn. cbn [snd] in Hv. simpl in Hp. apply andb_true_iff in Hp as [Hpv Hpl].
  assert (k ∉ acc.*1) as Hk.
  { apply NoDup_app in Hnd as (_ & Hdis & _). intros Hin. apply (Hdis k Hin). by left. }
  (* the text after the value *)
  assert (∃ tl, text0 = string_chars k ++ ":"%char :: ksp ++ dump v ++ tl ∧ ends_number tl = true ∧
    (tl = "}"%char :: rest ∧ l = [] ∨
     l ≠ [] ∧ tl = ","%char :: isp ++ intercalate (chars (item_separator style)) (map pair_chars l) ++
                    "}"%char :: rest)) as (tl & Htext & Hend & Htl).
  { subst text0. destruct l as [|p l].
    - exists ("}"%char :: rest). split_and!; [|done|by left]. cbn [map intercalate].
      unfold member_chars. cbn [fst snd]. rewrite Hks, <- !app_assoc. done.
    - eexists. split_and!; [| |by right].
      + rewrite !map_cons, intercalate_cons. unfold member_chars at 1. cbn [fst snd].
        rewrite Hks, Hsep, <- !app_assoc. cbn [app]. reflexivity.
      + done. }
  clearbody text0. subst text0. unfold string_chars in *. cbn [app] in *.
  destruct n as [|n]; [lia|]. cbn [parse_members]. rewrite Ascii.eqb_refl.
  rewrite <- app_assoc. cbn [app]. rewrite scan_string_chars. cbn [mbind option_bind].
  rewrite skip_ws_id by done. rewrite Ascii.eqb_refl. rewrite skip_ws_spaces by done.
  destruct (dump_head v Hpv) as (c & t & Hd & Hc & _).
  assert (skip_ws (dump v ++ tl) = dump v ++ tl) as -> by (rewrite Hd; by apply skip_ws_id).
  repeat (rewrite length_app in Hn || rewrite length_cons in Hn). cbn [length] in Hn.
  rewrite Hv; [|done|rewrite length_app; lia]. cbn [mbind option_bind].
  rewrite text_chars, dict_set_new by done.
  destruct Htl as [[-> ->]|[Hne' ->]].
  - rewrite skip_ws_id by done. done.
  - rewrite skip_ws_id by done. rewrite Ascii.eqb_refl, skip_ws_spaces by done.
    destruct l as [|[k' v'] l]; [done|].
    assert (∃ t, intercalate (chars (item_separator style)) (map pair_chars ((k', v') :: l)) ++
                 "}"%char :: rest = quote :: t) as [t' Ht'].
    { rewrite map_cons. destruct l; [|rewrite map_cons, intercalate_cons]; by eexists. }
    rewrite Ht', skip_ws_id, <- Ht' by done. rewrite IH; [by rewrite <- app_assoc|done|done| |].
    + rewrite fmap_app, <- app_assoc. done.
    + rewrite !length_app in *. cbn [length] in *. rewrite !length_app in Hn. cbn [length] in Hn. lia.
Qed.

Lemma map_pair_chars (l : list (string * json)) :
  map (member_chars style) (map (fun '(k, x) => (k, dump x)) l) = map pair_chars l.
Proof. rewrite map_map. apply map_ext. by intros [k v]. Qed.

Lemma Forall_forallb {A} (p : A → bool) (P : A → Prop) l :
  Forall (fun x => p x = true → P x) l → forallb p l = true → Forall P l.
Proof.
  induction 1 as [|x l Hx _ IH]; [constructor|]. simpl. intros [Hp Hl]%andb_true_iff.
  constructor; auto.
Qed.

(** Parsing the text of a value, followed by what does not continue a number, gives the
    value and what followed. *)
Lemma parses_int z : json_plain (JInt z) = true → parses (JInt z).
Proof.
  intros Hp rest n Hr Hn. destruct n as [|n]; [lia|].
  cbn [json_chars] in *. unfold int_chars in *. apply Nat.leb_le in Hp.
  destruct (str_N_chars_head (Z.abs_N z)) as (d & t & Hd & Hlt). destruct (Z.ltb_spec z 0) as [Hz|Hz].
  - cbn [app parse_value]. unfold scan_constant. cbn [tail].
    assert (drop_prefix (chars "-Infinity") ("-"%char :: str_N_chars (Z.abs_N z) ++ rest) = None) as Hno.
    { rewrite Hd. assert (∀ p l, drop_prefix ("-"%char :: "I"%char :: p) ("-"%char :: digit_char d :: l) = None)
        as Hdrop; [|apply Hdrop].
      intros p l. cbn [drop_prefix]. by rewrite Ascii.eqb_refl, Ascii.eqb_sym, digit_char_not. }
    change (match drop_prefix (chars "-Infinity") ("-"%char :: str_N_chars (Z.abs_N z) ++ rest) with
            | Some r => Some (JFloat (S754_infinity true), r)
            | None => scan_number true (str_N_chars (Z.abs_N z) ++ rest)
            end = Some (JInt z, rest)).
    rewrite Hno, scan_number_str by done. do 3 f_equal. lia.
  - assert (∀ l, parse_value (S n) (digit_char d :: l) = scan_number false (digit_char d :: l)) as Heq.
    { intros l. clear -Hlt. assert (d < 16)%N as H by lia. revert d H Hlt.
      apply (N_below_16 (fun d => (d < 10)%N → _)).
      repeat (apply Forall_cons_2; [done|]). by apply Forall_nil_2. }
    rewrite Hd. cbn [app]. rewrite Heq, app_comm_cons, <- Hd, scan_number_str by done.
    do 3 f_equal. lia.
Qed.

Lemma parses_list l : json_plain (JList l) = true → Forall parses l → parses (JList l).
Proof using Hitem.
  intros Hp Hl rest n Hr Hn. destruct n as [|n]; [lia|].
  cbn [json_chars] in *. cbn [app parse_value] in *. simpl (Ascii.eqb "[" _). cbv iota.
  destruct l as [|v l]; [done|]. rewrite <- app_assoc in *. cbn [app] in *. cbn [json_plain] in Hp.
  assert (json_plain v = true) as Hpv by (simpl in Hp; by apply andb_true_iff in Hp as []).
  destruct (dump_head v Hpv) as (c & t & Hd & Hc & Hb).
  assert (∃ t, intercalate (chars (item_separator style)) (map dump (v :: l)) ++
               "]"%char :: rest = c :: t) as [t' Ht'].
  { rewrite map_cons, Hd. destruct l; [|rewrite map_cons, intercalate_cons]; by eexists. }
  rewrite length_cons in Hn. rewrite Ht', skip_ws_id, Hb, <- Ht' by done.
  rewrite parse_elems_dump; [done|done|done|done|]. lia.
Qed.

Lemma parses_dict l :
  json_plain (JDict l) = true → Forall (fun p => parses p.2) l → parses (JDict l).
Proof using Hunsorted Hitem Hkey.
  intros Hp Hl rest n Hr Hn. destruct n as [|n]; [lia|].
  cbn [json_chars] in *. unfold items in *. rewrite Hunsorted, map_pair_chars in *.
  cbn [app parse_value] in *. simpl (Ascii.eqb "{" _). cbv iota.
  destruct l as [|[k v] l]; [done|]. rewrite <- app_assoc in *. cbn [app] in *.
  cbn [json_plain] in Hp. apply andb_true_iff in Hp as [Hnd Hp]. apply bool_decide_eq_true in Hnd.
  assert (∃ t, intercalate (chars (item_separator style)) (map pair_chars ((k, v) :: l)) ++
               "}"%char :: rest = quote :: t) as [t' Ht'].
  { rewrite map_cons. destruct l; [|rewrite map_cons, intercalate_cons]; by eexists. }
  rewrite length_cons in Hn. rewrite Ht', skip_ws_id by done. simpl (Ascii.eqb quote _). cbv iota.
  rewrite <- Ht', (parse_members_dump ((k, v) :: l)); [done|done|done|done|done|]. lia.
Qed.

Lemma parse_dump v : json_plain v = true → parses v.
Proof using Hunsorted Hitem Hkey.
  induction v as [|b|z|f|s|l IH|l IH] using json_rect_nested; intros Hp.
  3: { by apply parses_int. }
  5: { apply parses_list; [done|]. by apply (Forall_forallb json_plain parses). }
  5: { apply parses_dict; [done|]. apply andb_true_iff in Hp as [_ Hp].
       by apply (Forall_forallb (fun p => json_plain p.2) (fun p => parses p.2)). }
  all: intros rest n Hr Hn; destruct n as [|n]; [lia|].
  - done.
  - by destruct b.
  - by destruct f as [|[]| |].
  - cbn [json_chars app parse_value]. unfold string_chars. cbn [app parse_value].
    rewrite Ascii.eqb_refl, <- app_assoc. cbn [app]. rewrite scan_string_chars. cbn. by rewrite text_chars.
Qed.

(** [json.loads(json.dumps(v))] is [v]. *)
Lemma loads_dumps v : json_plain v = true → json_loads (json_dumps float_repr style v) = Some v.
Proof using Hunsorted Hitem Hkey.
  intros Hp. unfold json_loads, json_dumps, json_loads_chars. rewrite chars_text.
  destruct (dump_head v Hp) as (c & t & Hd & Hc & _). rewrite Hd, skip_ws_id, <- Hd by done.
  pose proof (parse_dump v Hp [] (parse_fuel (dump v)) eq_refl) as H. rewrite app_nil_r in H.
  unfold parse_fuel in *. rewrite H by lia. done.
Qed.

End roundtrip.
