(* ===== verification/Errors.v ===== *)
(** * Errors (src/backend/app/core/errors.py)

    [AppError] is the exception the services raise; [exc] adds the Python and
    SQLAlchemy exceptions the same code can raise. *)

From S2P Require Import Prelude Json.

Record AppError : Type := mkAppError {
  ae_message : string;
  ae_code : string;
  ae_status_code : Z;
  ae_details : option json
}.

(** [AppError(message, code=...)]: the status defaults to 400. *)
Definition app_error (message code : string) : AppError := mkAppError message code 400 None.

(** [AppError(message, code=..., status_code=...)]. *)
Definition app_error_status (message code : string) (status : Z) : AppError :=
  mkAppError message code status None.

(** Exceptions. [OutOfFuel] is none of Python's: a loop of the model that ran out
    of fuel yields it, and theorems exclude it. *)
Inductive exc : Type :=
| EApp (e : AppError)
| EKeyError
| EValueError
| ETypeError
| EAttributeError
| ERuntimeError
| ENotImplementedError
| EMultipleResultsFound
| EIntegrityError
| EStaleDataError
| ERedisError
| ERpcError (status_code : string)
| EOutOfFuel.

(** [ErrorDetail] inside [ErrorEnvelope], as [_envelope] dumps it. *)
Definition error_envelope (code message : string) (details : option json) : json :=
  JDict [("error", JDict [("code", JStr code); ("message", JStr message);
                          ("details", default JNull details)])].

(** The JSON response the registered handlers build for an exception that leaves
    a router: an [AppError] keeps its status and code, anything else is a 500. *)
Definition handle_exception (e : exc) : Z * json :=
  match e with
  | EApp a => (ae_status_code a, error_envelope (ae_code a) (ae_message a) (ae_details a))
  | _ => (500, error_envelope "internal_error" "An unexpected error occurred" None)%Z
  end.

Definition exc_code (e : exc) : option string :=
  match e with EApp a => Some (ae_code a) | _ => None end.
