(* ===== verification/Models.v ===== *)
(** * Data model

    The enumerations of src/backend/app/models/enums.py, the rows of
    src/backend/app/models, the workflow schema of
    src/backend/app/schemas/workflow.py and the transfer objects of
    src/backend/app/transport/contracts.py. A [datetime] is the number of
    microseconds since the epoch. *)

From Stdlib Require Import SpecFloat.
From S2P Require Import Prelude Json PyStr.

Abbreviation datetime := Z (only parsing).

(** ** Enumerations *)

Inductive ExecutionStatus : Type :=
| ECREATED | ERUNNING | ESUCCEEDED | EFAILED | EPARTIAL_FAILED | ECANCELLED.

Inductive NodeExecutionStatus : Type :=
| NPENDING | NQUEUED | NRUNNING | NSUCCEEDED | NFAILED | NRETRYING | NSKIPPED | NDEAD_LETTERED.

Inductive WorkerStatus : Type :=
| WSTARTING | WIDLE | WBUSY | WSTOPPING | WOFFLINE.

Inductive LogLevel : Type := LDEBUG | LINFO | LWARNING | LERROR.

#[export] Instance ExecutionStatus_eq_dec : EqDecision ExecutionStatus.
Proof. solve_decision. Defined.
#[export] Instance NodeExecutionStatus_eq_dec : EqDecision NodeExecutionStatus.
Proof. solve_decision. Defined.
#[export] Instance WorkerStatus_eq_dec : EqDecision WorkerStatus.
Proof. solve_decision. Defined.
#[export] Instance LogLevel_eq_dec : EqDecision LogLevel.
Proof. solve_decision. Defined.

(** [status.name]; in these [StrEnum]s name and value coincide. *)
Definition execution_status_name (s : ExecutionStatus) : string :=
  match s with
  | ECREATED => "CREATED" | ERUNNING => "RUNNING" | ESUCCEEDED => "SUCCEEDED"
  | EFAILED => "FAILED" | EPARTIAL_FAILED => "PARTIAL_FAILED" | ECANCELLED => "CANCELLED"
  end.

Definition node_status_name (s : NodeExecutionStatus) : string :=
  match s with
  | NPENDING => "PENDING" | NQUEUED => "QUEUED" | NRUNNING => "RUNNING"
  | NSUCCEEDED => "SUCCEEDED" | NFAILED => "FAILED" | NRETRYING => "RETRYING"
  | NSKIPPED => "SKIPPED" | NDEAD_LETTERED => "DEAD_LETTERED"
  end.

Definition worker_status_name (s : WorkerStatus) : string :=
  match s with
  | WSTARTING => "STARTING" | WIDLE => "IDLE" | WBUSY => "BUSY"
  | WSTOPPING => "STOPPING" | WOFFLINE => "OFFLINE"
  end.

Definition log_level_name (l : LogLevel) : string :=
  match l with LDEBUG => "DEBUG" | LINFO => "INFO" | LWARNING => "WARNING" | LERROR => "ERROR" end.

(** [ExecutionStatus[name]]; [None] is [KeyError]. *)
Definition execution_status_of_name (s : string) : option ExecutionStatus :=
  list_find (fun st => execution_status_name st = s)
    [ECREATED; ERUNNING; ESUCCEEDED; EFAILED; EPARTIAL_FAILED; ECANCELLED] ≫= fun p => Some p.2.

(** ** Workflow definitions (schemas/workflow.py) *)

Record RetryPolicy : Type := mkRetryPolicy {
  max_attempts : Z;
  initial_interval : Z;
  max_interval : Z;
  backoff_multiplier : spec_float
}.

Record Node : Type := mkNode {
  node_id : string;
  node_type : string;
  node_name : string;
  node_config : pydict;
  node_retry_policy : option RetryPolicy
}.

Record Edge : Type := mkEdge {
  from_node : string;
  to_node : string;
  edge_condition : option string
}.

Record WorkflowDefinition : Type := mkWorkflowDefinition {
  wf_name : string;
  wf_description : string;
  wf_nodes : list Node;
  wf_edges : list Edge;
  default_retry_policy : option RetryPolicy
}.

(** The [Field] bounds pydantic enforces on a [RetryPolicy]: [ge=1, le=10] on
    [max_attempts], [ge=1] on the intervals, [ge=1.0] on the multiplier. *)
Definition retry_policy_wf (p : RetryPolicy) : bool :=
  ((1 <=? max_attempts p) && (max_attempts p <=? 10) &&
   (1 <=? initial_interval p) && (1 <=? max_interval p))%Z &&
  num_leb (NInt 1) (NFloat (backoff_multiplier p)).

(** The [Field] bounds of a whole definition. *)
Definition definition_wf (d : WorkflowDefinition) : bool :=
  negb (String.eqb (wf_name d) "") &&
  forallb (fun n => negb (String.eqb (node_id n) "") && negb (String.eqb (node_type n) "") &&
                    match node_retry_policy n with Some p => retry_policy_wf p | None => true end)
    (wf_nodes d) &&
  match default_retry_policy d with Some p => retry_policy_wf p | None => true end.

(** ** Rows (app/models) *)

Record Workflow : Type := mkWorkflow {
  w_id : uuid;
  w_owner_api_key_id : uuid;
  w_name : string;
  w_description : option string;
  w_created_at : datetime;
  w_updated_at : datetime
}.

(** [definition] is stored as the JSON dump of the validated schema object; the
    model keeps the object. *)
Record WorkflowVersion : Type := mkWorkflowVersion {
  wv_id : uuid;
  wv_workflow_id : uuid;
  wv_version_number : Z;
  wv_definition : WorkflowDefinition;
  wv_checksum : string;
  wv_created_at : datetime
}.

Record Execution : Type := mkExecution {
  ex_id : uuid;
  ex_workflow_id : uuid;
  ex_workflow_version_id : uuid;
  ex_status : ExecutionStatus;
  ex_started_at : option datetime;
  ex_finished_at : option datetime;
  ex_triggered_by : option string;
  ex_input_payload : option pydict;
  ex_error_message : option string
}.

Record NodeExecution : Type := mkNodeExecution {
  ne_id : uuid;
  ne_execution_id : uuid;
  ne_node_id : string;
  ne_node_type : string;
  ne_status : NodeExecutionStatus;
  ne_attempt : Z;
  ne_max_attempts : Z;
  ne_input_payload : option pydict;
  ne_output_payload : option pydict;
  ne_error_message : option string;
  ne_idempotency_key : option string;
  ne_redis_message_id : option string;
  ne_worker_id : option uuid;
  ne_queued_at : option datetime;
  ne_started_at : option datetime;
  ne_finished_at : option datetime
}.

Record DeadLetterJob : Type := mkDeadLetterJob {
  dl_id : uuid;
  dl_execution_id : uuid;
  dl_node_execution_id : uuid;
  dl_redis_message_id : option string;
  dl_reason : string;
  dl_attempts : Z;
  dl_payload : option pydict;
  dl_created_at : datetime;
  dl_resolved_at : option datetime;
  dl_resolution_note : option string
}.

Record ExecutionLog : Type := mkExecutionLog {
  log_id : uuid;
  log_execution_id : uuid;
  log_node_execution_id : option uuid;
  log_level : LogLevel;
  log_event_type : string;
  log_message : string;
  log_metadata : option pydict;
  log_created_at : datetime
}.

(** ** Transfer objects (transport/contracts.py) *)

Record StartExecutionCommand : Type := mkStartExecutionCommand {
  cmd_workflow_version_id : uuid;
  cmd_input_payload : pydict
}.

Record NodeExecutionDTO : Type := mkNodeExecutionDTO {
  nd_id : uuid;
  nd_execution_id : uuid;
  nd_node_id : string;
  nd_node_type : string;
  nd_status : string;
  nd_attempt : Z;
  nd_max_attempts : Z;
  nd_input_payload : option pydict;
  nd_output_payload : option pydict;
  nd_error_message : option string
}.

Record ExecutionDTO : Type := mkExecutionDTO {
  ed_id : uuid;
  ed_workflow_id : uuid;
  ed_workflow_version_id : uuid;
  ed_status : string;
  ed_input_payload : option pydict;
  ed_error_message : option string;
  ed_node_executions : list NodeExecutionDTO
}.

(** A status round trips through its name. *)
Lemma execution_status_of_name_name s :
  execution_status_of_name (execution_status_name s) = Some s.
Proof. by destruct s. Qed.
