(* ===== verification/Registry.v ===== *)
(** * Executor registry (src/backend/app/services/executor_registry.py)

    The [Executor] protocol and the registry of executors by type. [Net] is the
    outside world an executor reaches (name resolution, HTTP, the passage of
    time); the registry and its clients do not look inside it. *)

From S2P Require Import Prelude Json Errors PyStr.

(** [ExecutionContext]. *)
Record ExecutionContext : Type := mkExecutionContext {
  cx_execution_id : uuid;
  cx_node_execution_id : uuid;
  cx_node_id : string;
  cx_config : pydict;
  cx_workflow_input : pydict;
  cx_upstream_outputs : pydict;
  cx_attempt : Z;
  cx_idempotency_key : string
}.

(** [ExecutorResult]. *)
Record ExecutorResult : Type := mkExecutorResult {
  success : bool;
  output : pydict;
  error : option string
}.

Definition failed_result (msg : string) : ExecutorResult := mkExecutorResult false [] (Some msg).
Definition success_result (out : pydict) : ExecutorResult := mkExecutorResult true out None.

(** The [Executor] protocol: [validate_config] raises or returns; [execute]
    raises or returns a result, depending on what [Net] answers. *)
Record Executor (Net : Type) : Type := mkExecutor {
  ex_type : string;
  validate_config : pydict → res exc unit;
  execute : Net → ExecutionContext → res exc ExecutorResult
}.

Arguments mkExecutor {Net} _ _ _.
Arguments ex_type {Net} _.
Arguments validate_config {Net} _ _.
Arguments execute {Net} _ _ _.

Section registry.
Context {Net : Type}.

(** [ExecutorRegistry._executors]. *)
Definition ExecutorRegistry : Type := list (string * Executor Net).

(** [ExecutorRegistry.register]. *)
Definition register (e : Executor Net) (reg : ExecutorRegistry) : ExecutorRegistry :=
  dict_set (ex_type e) e reg.

(** [ExecutorRegistry.get]. *)
Definition registry_get (reg : ExecutorRegistry) (t : string) : res exc (Executor Net) :=
  match dict_get t reg with
  | None => Err (EApp (app_error ("Unknown executor type: " +:+ t) "unknown_executor_type"))
  | Some e => Ok e
  end.

Lemma registry_get_register reg e t :
  registry_get (register e reg) t = if decide (t = ex_type e) then Ok e else registry_get reg t.
Proof. unfold registry_get, register. rewrite dict_get_set. by case_decide. Qed.

End registry.

Arguments ExecutorRegistry : clear implicits.
