(* ===== verification/Conditions.v ===== *)
(** * Condition expressions

    [evaluate_condition_expression] of src/backend/app/services/executor_registry.py: the
    regular expression, the path lookup, the literal, and Python's comparisons. [\w] is
    modelled on ASCII. *)

From Stdlib Require Import Ascii SpecFloat.
From S2P Require Import Prelude Json PyStr Errors Dumps JsonParse JsonRoundtrip.

(** ** The regular expression *)

(** [[\w.]]. *)
Definition is_path_char (c : ascii) : bool :=
  let n := N_of_ascii c in
  ((48 <=? n) && (n <=? 57) || (65 <=? n) && (n <=? 90) || (97 <=? n) && (n <=? 122) ||
   (n =? 95) || (n =? 46))%N.

Definition newline : ascii := "010"%char.

Fixpoint span (p : ascii → bool) (l : list ascii) : list ascii * list ascii :=
  match l with
  | c :: l' => if p c then let '(a, b) := span p l' in (c :: a, b) else ([], l)
  | [] => ([], [])
  end.

Definition rstrip (p : ascii → bool) (l : list ascii) : list ascii := rev (lstrip p (rev l)).

(** [\s*(.+?)\s*$]: the literal without the spaces around it; of a tail of spaces only,
    the last that is no newline. *)
Definition match_tail (l : list ascii) : option (list ascii) :=
  match lstrip py_isspace l with
  | [] =>
      match lstrip (Ascii.eqb newline) (rev l) with
      | c :: _ => Some [c]
      | [] => None
      end
  | r => let t := rstrip py_isspace r in if existsb (Ascii.eqb newline) t then None else Some t
  end.

Definition operators : list string := ["=="; "!="; ">="; "<="; ">"; "<"]%string.

Fixpoint match_operator (ops : list string) (l : list ascii) : option (string * list ascii) :=
  match ops with
  | [] => None
  | op :: ops' =>
      match drop_prefix (chars op) l ≫= match_tail with
      | Some t => Some (op, t)
      | None => match_operator ops' l
      end
  end.

(** [_COMPARISON_RE.match(expression)] and its groups. *)
Definition comparison_match (l : list ascii) : option (list ascii * string * list ascii) :=
  match span is_path_char (lstrip py_isspace l) with
  | ([], _) => None
  | (path, l') =>
      '(op, lit) ← match_operator operators (lstrip py_isspace l');
      Some (path, op, lit)
  end.

(** ** Path and literal *)

(** [path.split(".")]. *)
Fixpoint split_dots (l : list ascii) : list (list ascii) :=
  match l with
  | [] => [[]]
  | c :: l' =>
      if Ascii.eqb c "." then [] :: split_dots l'
      else match split_dots l' with
           | w :: ws => (c :: w) :: ws
           | [] => [[c]]
           end
  end.

Fixpoint resolve_parts (value : json) (parts : list (list ascii)) : json :=
  match parts with
  | [] => value
  | part :: parts' =>
      match value with
      | JDict d => resolve_parts (default JNull (dict_get (text part) d)) parts'
      | _ => JNull
      end
  end.

Definition _resolve_path (data : pydict) (path : list ascii) : json :=
  resolve_parts (JDict data) (split_dots path).

Definition is_quote_char (c : ascii) : bool := Ascii.eqb c quote || Ascii.eqb c "'".

Definition _parse_literal (raw : list ascii) : json :=
  let raw := strip py_isspace raw in
  match json_loads_chars raw with
  | Some v => v
  | None => JStr (text (strip is_quote_char raw))
  end.

(** ** Comparisons *)

(** [type(v).__name__]. *)
Definition py_type_name (v : json) : string :=
  match v with
  | JNull => "NoneType" | JBool _ => "bool" | JInt _ => "int" | JFloat _ => "float"
  | JStr _ => "str" | JList _ => "list" | JDict _ => "dict"
  end.

Definition num_order (op : string) (x y : num) : bool :=
  if String.eqb op ">" then num_ltb y x
  else if String.eqb op "<" then num_ltb x y
  else if String.eqb op ">=" then num_leb y x
  else num_leb x y.

(** An ordering operator on the outcome of a three-way comparison. *)
Definition order_of (op : string) (c : comparison) : bool :=
  if String.eqb op ">" then match c with Gt => true | _ => false end
  else if String.eqb op "<" then match c with Lt => true | _ => false end
  else if String.eqb op ">=" then match c with Lt => false | _ => true end
  else match c with Gt => false | _ => true end.

(** [a op b] for [>], [<], [>=] and [<=]; a [TypeError] carries its text. *)
Fixpoint py_order (op : string) (a b : json) {struct a} : res string bool :=
  match a, b with
  | JStr s, JStr t => Ok (order_of op (String.compare s t))
  | JList l, JList k =>
      (fix go (l k : list json) : res string bool :=
         match l, k with
         | x :: l', y :: k' => if py_eq x y then go l' k' else py_order op x y
         | [], [] => Ok (order_of op Eq)
         | [], _ :: _ => Ok (order_of op Lt)
         | _ :: _, [] => Ok (order_of op Gt)
         end) l k
  | _, _ =>
      match as_num a, as_num b with
      | Some x, Some y => Ok (num_order op x y)
      | _, _ => Err ("'" +:+ op +:+ "' not supported between instances of '" +:+ py_type_name a +:+
                     "' and '" +:+ py_type_name b +:+ "'")
      end
  end.

(** A pattern that is no string makes [re] raise [TypeError]. *)
Definition evaluate_condition_expression (expression : json) (data : pydict) : res exc bool :=
  match expression with
  | JStr s =>
      match comparison_match (chars s) with
      | None => Err (EApp (app_error ("Unsupported condition expression: " +:+ s) "invalid_expression"))
      | Some (left_path, operator, right_raw) =>
          let left := _resolve_path data left_path in
          let right := _parse_literal right_raw in
          if String.eqb operator "==" then Ok (py_eq left right)
          else if String.eqb operator "!=" then Ok (py_ne left right)
          else
            match py_order operator left right with
            | Ok b => Ok b
            | Err e => Err (EApp (app_error ("Type error evaluating condition: " +:+ e) "evaluation_error"))
            end
      end
  | _ => Err ETypeError
  end.

Local Abbreviation eval e d := (evaluate_condition_expression (JStr e) d).

Example eval_number : eval "input.n >= 3" [("input", JDict [("n", JInt 3)])]%string = Ok true.
Proof. vm_compute. reflexivity. Qed.
Example eval_string : eval "upstream.a.status == 'done'"
  [("upstream", JDict [("a", JDict [("status", JStr "done")])])]%string = Ok true.
Proof. vm_compute. reflexivity. Qed.
Example eval_missing : eval "input.x > 1" [("input", JDict [])]%string =
  Err (EApp (app_error ("Type error evaluating condition: '>' not supported between instances of " +:+
                        "'NoneType' and 'int'") "evaluation_error")).
Proof. vm_compute. reflexivity. Qed.
Example eval_backtracks : comparison_match (chars "x >=") = Some (chars "x", ">"%string, chars "=").
Proof. vm_compute. reflexivity. Qed.

(** ** What the regular expression accepts *)

Local Abbreviation spaces := (Forall (fun c => py_isspace c = true)).

(** [^\s*([\w.]+)\s*(==|!=|>=|<=|>|<)\s*(.+?)\s*$], its groups being [p], [op] and [r]. *)
Definition comparison_form (l p : list ascii) (op : string) (r : list ascii) : Prop :=
  ∃ s1 s2 s3 s4, l = s1 ++ p ++ s2 ++ chars op ++ s3 ++ r ++ s4 ∧
    spaces s1 ∧ spaces s2 ∧ spaces s3 ∧ spaces s4 ∧
    p ≠ [] ∧ Forall (fun c => is_path_char c = true) p ∧ op ∈ operators ∧
    r ≠ [] ∧ newline ∉ r.

Lemma lstrip_app p s l : Forall (fun c => p c = true) s → lstrip p (s ++ l) = lstrip p l.
Proof. induction 1 as [|c s Hc _ IH]; simpl; [done|]. by rewrite Hc. Qed.

Lemma lstrip_split p l :
  ∃ s, l = s ++ lstrip p l ∧ Forall (fun c => p c = true) s ∧
    match lstrip p l with c :: _ => p c = false | [] => True end.
Proof.
  induction l as [|c l (s & Hl & Hs & Hh)]; simpl; [by exists []|].
  destruct (p c) eqn:Hc.
  - exists (c :: s). split_and!; [by rewrite Hl at 1|by constructor|done].
  - by exists [].
Qed.

Lemma rstrip_split p l :
  ∃ s, l = rstrip p l ++ s ∧ Forall (fun c => p c = true) s.
Proof.
  destruct (lstrip_split p (rev l)) as (s & Hl & Hs & _). exists (rev s). unfold rstrip. split.
  - rewrite <- rev_app_distr, <- Hl. by rewrite rev_involutive.
  - by apply Forall_rev.
Qed.

Lemma rstrip_app p l s : Forall (fun c => p c = true) s → rstrip p (l ++ s) = rstrip p l.
Proof.
  intros Hs. unfold rstrip. rewrite rev_app_distr, lstrip_app; [done|]. by apply Forall_rev.
Qed.

Lemma span_split p l a b :
  span p l = (a, b) → l = a ++ b ∧ Forall (fun c => p c = true) a.
Proof.
  revert a b. induction l as [|c l IH]; simpl; intros a b; [by intros [= <- <-]|].
  destruct (p c) eqn:Hc; [|by intros [= <- <-]].
  destruct (span p l) as [a' b'] eqn:Hs. intros [= <- <-].
  destruct (IH a' b' eq_refl) as [-> Ha]. split; [done|by constructor].
Qed.

Lemma span_app p a b :
  Forall (fun c => p c = true) a → match b with c :: _ => p c = false | [] => True end →
  span p (a ++ b) = (a, b).
Proof.
  intros Ha Hb. induction Ha as [|c a Hc _ IH]; simpl; [|by rewrite Hc, IH].
  destruct b as [|c b]; [done|]. simpl. by rewrite Hb.
Qed.

Lemma drop_prefix_refl p l : drop_prefix p (p ++ l) = Some l.
Proof. induction p as [|c p IH]; simpl; [done|]. by rewrite Ascii.eqb_refl. Qed.

(** ** The literal *)

Lemma py_isspace_newline : py_isspace newline = true.
Proof. reflexivity. Qed.

Lemma existsb_newline l : existsb (Ascii.eqb newline) l = true ↔ newline ∈ l.
Proof.
  rewrite existsb_exists. split.
  - intros (c & Hc & Heq%Ascii.eqb_eq). subst. by apply list_elem_of_In.
  - intros Hc. exists newline. split; [by apply list_elem_of_In|apply Ascii.eqb_refl].
Qed.

Lemma lstrip_nil_spaces p l : lstrip p l = [] → Forall (fun c => p c = true) l.
Proof.
  intros Hl. destruct (lstrip_split p l) as (s & -> & Hs & _). rewrite Hl, app_nil_r. done.
Qed.

Lemma match_tail_sound l r :
  match_tail l = Some r →
  ∃ s3 s4, l = s3 ++ r ++ s4 ∧ spaces s3 ∧ spaces s4 ∧ r ≠ [] ∧ newline ∉ r.
Proof.
  unfold match_tail. destruct (lstrip py_isspace l) as [|c x] eqn:Hl.
  - apply lstrip_nil_spaces in Hl. destruct (lstrip _ (rev l)) as [|c x] eqn:Hr; [done|]. intros [= <-].
    destruct (lstrip_split (Ascii.eqb newline) (rev l)) as (s & Hrev & Hs & Hc). rewrite Hr in Hrev, Hc.
    assert (l = rev x ++ [c] ++ rev s) as ->.
    { rewrite <- (rev_involutive l), Hrev, rev_app_distr. simpl. by rewrite <- app_assoc. }
    apply Forall_app in Hl as [Hx [_ Hs']%Forall_app]. exists (rev x), (rev s). split_and!; try done.
    intros Hin%list_elem_of_singleton. rewrite Hin, Ascii.eqb_refl in Hc. done.
  - destruct (existsb _ _) eqn:Hnl; [done|]. intros [= <-].
    destruct (lstrip_split py_isspace l) as (s3 & Heq & Hs3 & Hc). rewrite Hl in Heq, Hc.
    destruct (rstrip_split py_isspace (c :: x)) as (s4 & Hx & Hs4).
    exists s3, s4. split_and!; [by rewrite <- Hx|done|done| |].
    + intros Hnil. rewrite Hnil in Hx. simpl in Hx. rewrite <- Hx in Hs4.
      apply Forall_cons in Hs4 as [Hc' _]. congruence.
    + intros Hin%existsb_newline. congruence.
Qed.

Lemma match_tail_complete s3 r s4 :
  spaces s3 → spaces s4 → r ≠ [] → newline ∉ r → is_Some (match_tail (s3 ++ r ++ s4)).
Proof.
  intros Hs3 Hs4 Hne Hnl. unfold match_tail. rewrite lstrip_app by done.
  destruct (lstrip py_isspace (r ++ s4)) as [|c x] eqn:Hl.
  - destruct (lstrip _ (rev (s3 ++ r ++ s4))) as [|c x] eqn:Hr; [|by eexists].
    apply lstrip_nil_spaces in Hr. apply Forall_rev in Hr. rewrite rev_involutive in Hr.
    apply Forall_app in Hr as [_ [Hr _]%Forall_app]. destruct r as [|c r]; [done|].
    apply Forall_cons in Hr as [Hc%Ascii.eqb_eq _]. subst. destruct Hnl. by left.
  - assert (∃ y, c :: x = y ++ s4 ∧ y ⊆ r) as (y & Hy & Hsub).
    { destruct (lstrip_split py_isspace r) as (s & Hr & Hs & Hh).
      exists (lstrip py_isspace r). split.
      - rewrite <- Hl. rewrite Hr at 1. rewrite <- app_assoc, lstrip_app by done.
        destruct (lstrip py_isspace r) as [|a y] eqn:Hy.
        + exfalso. rewrite app_nil_r in Hr. subst r. rewrite lstrip_app in Hl by done.
          destruct (lstrip_split py_isspace s4) as (t & Ht & _ & Hh4). rewrite Hl in Ht, Hh4.
          rewrite Ht in Hs4. apply Forall_app in Hs4 as [_ [Hc' _]%Forall_cons]. congruence.
        + simpl. by rewrite Hh.
      - intros a Ha. rewrite Hr. apply elem_of_app. by right. }
    rewrite Hy, rstrip_app by done. destruct (existsb _ _) eqn:Hex; [|by eexists].
    apply existsb_newline in Hex. destruct Hnl, (rstrip_split py_isspace y) as (t & Ht & _).
    apply Hsub. rewrite Ht. apply elem_of_app. by left.
Qed.

Lemma match_operator_sound ops l op r :
  match_operator ops l = Some (op, r) →
  op ∈ ops ∧ ∃ t, l = chars op ++ t ∧ match_tail t = Some r.
Proof.
  induction ops as [|o ops IH]; simpl; [done|].
  destruct (drop_prefix (chars o) l) as [t|] eqn:Hd; simpl.
  - destruct (match_tail t) as [r'|] eqn:Ht.
    + intros [= <- <-]. split; [by left|]. exists t. split; [by apply drop_prefix_app|done].
    + intros [? ?]%IH. split; [by right|done].
  - intros [? ?]%IH. split; [by right|done].
Qed.

Lemma match_operator_complete ops l op t :
  op ∈ ops → l = chars op ++ t → is_Some (match_tail t) → is_Some (match_operator ops l).
Proof.
  intros Hop -> [r Hr]. induction Hop as [op ops|op o ops _ IH]; simpl.
  - rewrite drop_prefix_refl. simpl. rewrite Hr. by eexists.
  - destruct (_ ≫= match_tail); [by eexists|]. by apply IH.
Qed.

Lemma operator_head op :
  op ∈ operators → ∃ c t, chars op = c :: t ∧ py_isspace c = false ∧ is_path_char c = false.
Proof.
  unfold operators. rewrite !elem_of_cons, elem_of_nil.
  intros [->|[->|[->|[->|[->|[->|[]]]]]]]; eexists _, _; split_and!; reflexivity.
Qed.

Lemma path_not_space c : is_path_char c = true → py_isspace c = false.
Proof. destruct c as [[] [] [] [] [] [] [] []]; try done; discriminate. Qed.

(** The alternatives are tried in order. *)
Lemma match_operator_first ops l op r :
  match_operator ops l = Some (op, r) →
  ∃ pre post, ops = pre ++ op :: post ∧ Forall (fun o => drop_prefix (chars o) l ≫= match_tail = None) pre.
Proof.
  induction ops as [|o ops IH]; simpl; [done|].
  destruct (drop_prefix (chars o) l ≫= match_tail) as [t|] eqn:Ho.
  - intros [= <- <-]. exists [], ops. by split.
  - intros (pre & post & -> & Hpre)%IH. exists (o :: pre), post. by split; [|constructor].
Qed.

(** How a text is read: in the form, with the first operator that allows it. *)
Definition reads (l p : list ascii) (op : string) (r : list ascii) : Prop :=
  comparison_form l p op r ∧
  ∃ pre post, operators = pre ++ op :: post ∧ ∀ op' p' r', op' ∈ pre → ¬ comparison_form l p' op' r'.

(** [_COMPARISON_RE] matches exactly the texts of its form, and its groups are how the text
    is read. *)
Lemma comparison_match_form l :
  match comparison_match l with
  | Some (p, op, r) => reads l p op r
  | None => ∀ p op r, ¬ comparison_form l p op r
  end.
Proof.
  unfold comparison_match.
  destruct (lstrip_split py_isspace l) as (s1 & Hl & Hs1 & Hh1). set (l1 := lstrip py_isspace l) in *.
  destruct (span is_path_char l1) as [p l2] eqn:Hsp. apply span_split in Hsp as Hl1.
  destruct Hl1 as [Hl1 Hp]. destruct (lstrip_split py_isspace l2) as (s2 & Hl2 & Hs2 & _).
  set (l3 := lstrip py_isspace l2) in *.
  (* any form of the text has this path and these spaces *)
  assert (∀ p' op r, comparison_form l p' op r →
    p' = p ∧ op ∈ operators ∧ ∃ s3 s4, l3 = chars op ++ s3 ++ r ++ s4 ∧
      spaces s3 ∧ spaces s4 ∧ r ≠ [] ∧ newline ∉ r) as Hform.
  { intros p' op r (t1 & t2 & t3 & t4 & Heq & Ht1 & Ht2 & Ht3 & Ht4 & Hne & Hp' & Hop & Hr & Hnl).
    destruct (operator_head op Hop) as (c & t & Hc & Hcs & Hcp).
    assert (l1 = p' ++ t2 ++ chars op ++ t3 ++ r ++ t4) as Hl1'.
    { subst l1. rewrite Heq, lstrip_app by done. destruct p' as [|a p']; [done|].
      apply Forall_cons in Hp' as [Ha _]. simpl. by rewrite path_not_space. }
    rewrite Hl1', span_app in Hsp; [|done|].
    - injection Hsp as <- <-. split_and!; [done|done|]. exists t3, t4. split_and!; try done.
      subst l3. rewrite lstrip_app by done. rewrite Hc. simpl. by rewrite Hcs.
    - destruct t2 as [|a t2]; [rewrite Hc; done|]. simpl. apply Forall_cons in Ht2 as [Ha _].
      apply not_true_iff_false. intros Hpc. rewrite (path_not_space _ Hpc) in Ha. done. }
  destruct p as [|c p].
  { intros p' op r Hf. destruct (Hform _ _ _ Hf) as [-> _].
    destruct Hf as (? & ? & ? & ? & _ & _ & _ & _ & _ & Hne & _). done. }
  destruct (match_operator operators l3) as [[op r]|] eqn:Hm; simpl.
  - split.
    + apply match_operator_sound in Hm as (Hop & t & Ht & Hmt).
      apply match_tail_sound in Hmt as (s3 & s4 & -> & Hs3 & Hs4 & Hr & Hnl).
      exists s1, s2, s3, s4. split_and!; try done. by rewrite <- Ht, <- Hl2, <- Hl1.
    + apply match_operator_first in Hm as (pre & post & Hops & Hpre). exists pre, post. split; [done|].
      intros op' p' r' Hin Hf. rewrite Forall_forall in Hpre. specialize (Hpre _ Hin).
      destruct (Hform _ _ _ Hf) as (_ & _ & s3 & s4 & Heq & Hs3 & Hs4 & Hr & Hnl).
      rewrite Heq, drop_prefix_refl in Hpre. simpl in Hpre.
      destruct (match_tail_complete s3 r' s4) as [x Hx]; try done. congruence.
  - intros p' op r Hf. destruct (Hform _ _ _ Hf) as (_ & Hop & s3 & s4 & Heq & Hs3 & Hs4 & Hr & Hnl).
    destruct (match_operator_complete operators l3 op (s3 ++ r ++ s4) Hop Heq) as [x Hx];
      [by apply match_tail_complete|]. congruence.
Qed.

(** ** Evaluation *)

(** The three-way comparison of two operands: numbers, of which a NaN compares with none;
    strings; lists, by their first elements that differ. Other operands have none. *)
Inductive compares : json → json → option comparison → Prop :=
| compares_num a b x y : as_num a = Some x → as_num b = Some y → compares a b (num_cmp x y)
| compares_str s t : compares (JStr s) (JStr t) (Some (String.compare s t))
| compares_nil : compares (JList []) (JList []) (Some Eq)
| compares_shorter y k : compares (JList []) (JList (y :: k)) (Some Lt)
| compares_longer x l : compares (JList (x :: l)) (JList []) (Some Gt)
| compares_same x y l k o :
    py_eq x y = true → compares (JList l) (JList k) o → compares (JList (x :: l)) (JList (y :: k)) o
| compares_differ x y l k o :
    py_eq x y = false → compares x y o → compares (JList (x :: l)) (JList (y :: k)) o.

(** What each ordering operator asks of it. *)
Definition holds (op : string) (o : option comparison) : Prop :=
  (op = ">"%string ∧ o = Some Gt) ∨ (op = "<"%string ∧ o = Some Lt) ∨
  (op = ">="%string ∧ (o = Some Gt ∨ o = Some Eq)) ∨ (op = "<="%string ∧ (o = Some Lt ∨ o = Some Eq)).

Definition orderings : list string := [">="; "<="; ">"; "<"]%string.

Lemma SFcompare_opp f g : SFcompare g f = CompOpp <$> SFcompare f g.
Proof.
  destruct f as [[]|[]| |[] m e], g as [[]|[]| |[] m' e']; try done; cbn [SFcompare fmap option_fmap option_map];
    f_equal; rewrite (Z.compare_antisym e e'); destruct (e ?= e')%Z; cbn [CompOpp]; try done;
    change (Pos.compare_cont Eq m' m) with (m' ?= m)%positive;
    change (Pos.compare_cont Eq m m') with (m ?= m')%positive;
    rewrite (Pos.compare_antisym m m'); by destruct (m ?= m')%positive.
Qed.

Lemma num_cmp_opp x y : num_cmp y x = CompOpp <$> num_cmp x y.
Proof.
  destruct x as [x|f], y as [y|g]; cbn [num_cmp].
  - simpl. by rewrite Z.compare_antisym.
  - done.
  - by destruct (cmp_int_float y f) as [[]|].
  - apply SFcompare_opp.
Qed.

Lemma num_order_holds op x y : op ∈ orderings → num_order op x y = true ↔ holds op (num_cmp x y).
Proof.
  unfold orderings, num_order, num_ltb, num_leb, holds. rewrite !elem_of_cons, elem_of_nil.
  rewrite (num_cmp_opp x y). intros Hop; destruct_or? Hop; try done; subst op; simpl;
    destruct (num_cmp x y) as [[]|]; simpl; naive_solver.
Qed.

Lemma order_of_holds op c : op ∈ orderings → order_of op c = true ↔ holds op (Some c).
Proof.
  unfold orderings, order_of, holds. rewrite !elem_of_cons, elem_of_nil.
  intros Hop; destruct_or? Hop; try done; subst op; simpl; destruct c; naive_solver.
Qed.

(** What [py_order] answers. *)
Definition ordered (op : string) (a b : json) (r : res string bool) : Prop :=
  match r with
  | Ok c => ∃ o, compares a b o ∧ (c = true ↔ holds op o)
  | Err _ => ∀ o, ¬ compares a b o
  end.

Lemma py_order_list op l : op ∈ orderings →
  Forall (fun x => ∀ y, ordered op x y (py_order op x y)) l → ∀ k,
  ordered op (JList l) (JList k) (py_order op (JList l) (JList k)).
Proof.
  intros Hop Hl. induction Hl as [|x l Hx _ IH]; intros [|y k].
  - exists (Some Eq). by split; [constructor|apply order_of_holds].
  - exists (Some Lt). by split; [constructor|apply order_of_holds].
  - exists (Some Gt). by split; [constructor|apply order_of_holds].
  - specialize (IH k). specialize (Hx y). cbn [py_order] in *. destruct (py_eq x y) eqn:He.
    + destruct ((fix go (l k : list json) : res string bool := _) l k) as [c|m]; simpl in *.
      * destruct IH as (o & Ho & Hc). exists o. by split; [apply compares_same|].
      * intros o Ho. inversion Ho; subst; simplify_eq/=; try congruence. by eapply IH.
    + destruct (py_order op x y) as [c|m]; simpl in *.
      * destruct Hx as (o & Ho & Hc). exists o. by split; [apply compares_differ|].
      * intros o Ho. inversion Ho; subst; simplify_eq/=; try congruence. by eapply Hx.
Qed.

Lemma py_order_spec op : op ∈ orderings → ∀ a b, ordered op a b (py_order op a b).
Proof.
  intros Hop a. assert (∀ a b x y, as_num a = Some x → as_num b = Some y →
    ordered op a b (Ok (num_order op x y))) as Hnum.
  { intros a' b' x y Ha Hb. exists (num_cmp x y). split; [by apply compares_num|by apply num_order_holds]. }
  induction a as [|v|z|f|s|l IH|l IH] using json_rect_nested; intros b.
  all: try (destruct b; first [by apply Hnum|by intros o Ho; inversion Ho]).
  - destruct b; try (by intros o Ho; inversion Ho). exists (Some (String.compare s s0)).
    by split; [constructor|apply order_of_holds].
  - destruct b; try (by intros o Ho; inversion Ho). by apply py_order_list.
Qed.

(** C27. What a condition that is a string evaluates to. If the text has not the form path,
    operator, literal, [invalid_expression]. Otherwise, read with the first operator that
    allows it, [==] and [!=] answer whether the operands are equal or not; an ordering
    operator answers what the three-way comparison of the operands says, which for a NaN is
    False, and raises [evaluation_error] if they have none, and only then. *)
Theorem condition_outcome s data :
  let outcome := evaluate_condition_expression (JStr s) data in
  ((∀ p op r, ¬ comparison_form (chars s) p op r) ∧
     outcome = Err (EApp (app_error ("Unsupported condition expression: " +:+ s) "invalid_expression"))) ∨
  ∃ p op r, reads (chars s) p op r ∧
    let a := _resolve_path data p in
    let b := _parse_literal r in
    (op = "=="%string ∧ outcome = Ok (py_eq a b)) ∨
    (op = "!="%string ∧ outcome = Ok (negb (py_eq a b))) ∨
    (op ∈ orderings ∧
       ((∃ o c, compares a b o ∧ outcome = Ok c ∧ (c = true ↔ holds op o)) ∨
        (∀ o, ¬ compares a b o) ∧ ∃ m, outcome = Err (EApp (app_error m "evaluation_error")))).
Proof.
  cbv zeta. unfold evaluate_condition_expression. pose proof (comparison_match_form (chars s)) as Hform.
  destruct (comparison_match (chars s)) as [[[p op] r]|]; [|by left].
  right. exists p, op, r. split; [done|].
  destruct (String.eqb_spec op "==") as [->|Hne]; [by left|right].
  destruct (String.eqb_spec op "!=") as [->|Hne']; [by left|right].
  assert (op ∈ orderings) as Hop.
  { destruct Hform as [(? & ? & ? & ? & _ & _ & _ & _ & _ & _ & _ & Hop & _) _]. revert Hop.
    unfold operators, orderings. rewrite !elem_of_cons. tauto. }
  split; [done|]. pose proof (py_order_spec op Hop (_resolve_path data p) (_parse_literal r)) as Ho.
  destruct (py_order op _ _) as [c|m]; simpl in Ho.
  - left. destruct Ho as (o & Ho & Hc). by exists o, c.
  - right. split; [exact Ho|by eexists].
Qed.
