(* ===== verification/Executors.v ===== *)
(** * The executors

    The six executors of src/backend/app/services/executor_registry.py, the check of
    outbound URLs they make, and the default registry.

    An execution is a tree of the effects it has on the outside, [Effects]: resolving a host
    name, an HTTP request through httpx, [asyncio.sleep]. [Outside] answers them:
    [run_effects] is the outcome against it, [requests] the requests sent on the way.
    [ip_address] is the classification of the [ipaddress] module, whose tables differ
    between versions of Python. [urlparse] is the part of [urllib.parse] that yields scheme
    and host name, for ASCII URLs. *)

From Stdlib Require Import Ascii SpecFloat.
From S2P Require Import Prelude Json PyStr Errors Dumps JsonParse JsonRoundtrip Registry Conditions.

(** ** [urllib.parse.urlparse] *)

Definition find_char (x : ascii) (l : list ascii) : bool := existsb (Ascii.eqb x) l.

(** [l.partition(x)]: before, whether it occurs, after. *)
Definition partition (x : ascii) (l : list ascii) : list ascii * bool * list ascii :=
  match span (fun c => negb (Ascii.eqb x c)) l with
  | (a, _ :: b) => (a, true, b)
  | (a, []) => (a, false, [])
  end.

(** [l.rpartition(x)[2]]. *)
Definition after_last (x : ascii) (l : list ascii) : list ascii :=
  rev (span (fun c => negb (Ascii.eqb x c)) (rev l)).1.

Definition ascii_lower (c : ascii) : ascii :=
  let n := N_of_ascii c in if ((65 <=? n) && (n <=? 90))%N then ascii_of_N (n + 32) else c.

Definition is_alpha (c : ascii) : bool :=
  let n := N_of_ascii c in ((65 <=? n) && (n <=? 90) || (97 <=? n) && (n <=? 122))%N.

(** Letters, digits, [+], [-] and [.]. *)
Definition is_scheme_char (c : ascii) : bool :=
  is_alpha c || is_digit c || Ascii.eqb c "+" || Ascii.eqb c "-" || Ascii.eqb c ".".

(** Characters up to the space are stripped in front; tab, newline and return go. *)
Definition is_unsafe_url_char (c : ascii) : bool :=
  match N_of_ascii c with 9%N | 10%N | 13%N => true | _ => false end.

Definition clean_url (l : list ascii) : list ascii :=
  filter (fun c => is_unsafe_url_char c = false)
    (lstrip (fun c => (N_of_ascii c <=? 32)%N) l).

Definition split_scheme (l : list ascii) : list ascii * list ascii :=
  match partition ":" l with
  | (c :: s, true, r) =>
      if is_alpha c && forallb is_scheme_char (c :: s) then (map ascii_lower (c :: s), r) else ([], l)
  | _ => ([], l)
  end.

(** The part after [//] up to the first of [/?#]. *)
Definition split_netloc (l : list ascii) : list ascii :=
  match l with
  | a :: b :: r =>
      if Ascii.eqb a "/" && Ascii.eqb b "/" then
        (span (fun c => negb (Ascii.eqb c "/" || Ascii.eqb c "?" || Ascii.eqb c "#")) r).1
      else []
  | _ => []
  end.

(** The classes of [ipaddress.ip_address], and [str(ip)]. *)
Record IpAddress : Type := mkIpAddress {
  ip_version4 : bool;
  is_private : bool;
  is_loopback : bool;
  is_link_local : bool;
  is_reserved : bool;
  is_multicast : bool;
  is_unspecified : bool;
  ip_str : string
}.

Section urls.
Context (ip_address : string → option IpAddress).

(** [_check_bracketed_host]: [v], hexadecimal digits, a point and more; or an IPv6 address. *)
Definition bracketed_host_ok (host : list ascii) : bool :=
  match host with
  | c :: r =>
      if Ascii.eqb c "v" then
        match span (fun c => match char_digit 16 c with Some _ => true | None => false end) r with
        | (_ :: _, d :: x :: l) => Ascii.eqb d "." && forallb (fun c => negb (Ascii.eqb c newline)) (x :: l)
        | _ => false
        end
      else match ip_address (text host) with Some ip => negb (ip_version4 ip) | None => false end
  | [] => match ip_address "" with Some ip => negb (ip_version4 ip) | None => false end
  end.

(** [_check_bracketed_netloc]. *)
Definition bracketed_netloc_ok (netloc : list ascii) : bool :=
  let hostinfo := after_last "@" netloc in
  match partition "[" hostinfo with
  | (before, true, bracketed) =>
      match before, partition "]" bracketed with
      | [], (host, _, port) =>
          match port with [] => true | c :: _ => Ascii.eqb c ":" end && bracketed_host_ok host
      | _ :: _, _ => false
      end
  | (_, false, _) => bracketed_host_ok (partition ":" hostinfo).1.1
  end.

(** [ParseResult.hostname]: a zone after [%] keeps its case. *)
Definition url_hostname (netloc : list ascii) : option string :=
  let hostinfo := after_last "@" netloc in
  let host := match partition "[" hostinfo with
              | (_, true, bracketed) => (partition "]" bracketed).1.1
              | _ => (partition ":" hostinfo).1.1
              end in
  match host with
  | [] => None
  | _ =>
      let '(name, percent, zone) := partition "%" host in
      Some (text (map ascii_lower name ++ (if percent then ["%"%char] else []) ++ zone))
  end.

(** [urlparse(url)]: its [scheme] and [hostname]. *)
Definition urlparse (url : string) : res exc (string * option string) :=
  let '(scheme, rest) := split_scheme (clean_url (chars url)) in
  let netloc := split_netloc rest in
  let op := find_char "[" netloc in
  let cl := find_char "]" netloc in
  if negb (Bool.eqb op cl) then Err EValueError
  else if op && negb (bracketed_netloc_ok netloc) then Err EValueError
  else Ok (text scheme, url_hostname netloc).


(** ** What the executors reach *)

(** A request to httpx; [timeout], [query] and [body] are passed on as they are. *)
Record HttpRequest : Type := mkHttpRequest {
  rq_method : string;
  rq_url : json;
  rq_headers : list (json * json);
  rq_query : option json;
  rq_body : option json;
  rq_timeout : json
}.

(** [httpx.HTTPError] with its text, another exception, or a response: its status, its
    text, and its body if that is JSON. *)
Inductive HttpOutcome : Type :=
| HttpFailed (msg : string)
| HttpRaised (e : exc)
| HttpResponse (status : Z) (body_text : string) (body_json : option json).

Record Outside : Type := mkOutside {
  getaddrinfo : string → res string (list string);
  http_request : HttpRequest → HttpOutcome;
  asyncio_sleep : json → res exc unit
}.

(** What an execution does, with what it does with each answer. *)
Inductive Effects (A : Type) : Type :=
| Returns (r : res exc A)
| Resolve (host : string) (k : res string (list string) → Effects A)
| Request (rq : HttpRequest) (k : HttpOutcome → Effects A)
| Sleep (duration : json) (k : res exc unit → Effects A).

Arguments Returns {A} _.
Arguments Resolve {A} _ _.
Arguments Request {A} _ _.
Arguments Sleep {A} _ _.

Implicit Types net : Outside.

Fixpoint and_then {A B} (p : Effects A) (k : res exc A → Effects B) : Effects B :=
  match p with
  | Returns r => k r
  | Resolve host f => Resolve host (fun x => and_then (f x) k)
  | Request rq f => Request rq (fun x => and_then (f x) k)
  | Sleep d f => Sleep d (fun x => and_then (f x) k)
  end.

(** The outcome against a network. *)
Fixpoint run_effects {A} net (p : Effects A) : res exc A :=
  match p with
  | Returns r => r
  | Resolve host k => run_effects net (k (getaddrinfo net host))
  | Request rq k => run_effects net (k (http_request net rq))
  | Sleep d k => run_effects net (k (asyncio_sleep net d))
  end.

(** The requests sent on the way, whatever becomes of their answers. *)
Fixpoint requests {A} net (p : Effects A) : list HttpRequest :=
  match p with
  | Returns _ => []
  | Resolve host k => requests net (k (getaddrinfo net host))
  | Request rq k => rq :: requests net (k (http_request net rq))
  | Sleep d k => requests net (k (asyncio_sleep net d))
  end.

Lemma run_effects_and_then {A B} net (p : Effects A) (k : res exc A → Effects B) :
  run_effects net (and_then p k) = run_effects net (k (run_effects net p)).
Proof. induction p; simpl; auto. Qed.

Lemma requests_and_then {A B} net (p : Effects A) (k : res exc A → Effects B) :
  requests net (and_then p k) = requests net p ++ requests net (k (run_effects net p)).
Proof. induction p; simpl; [done|auto| |auto]. f_equal. auto. Qed.

Definition config_error (msg : string) : exc := EApp (app_error msg "invalid_executor_config").
Definition ssrf_error (msg : string) : exc := EApp (app_error msg "ssrf_blocked").

Definition local_names : list string := ["localhost"; "127.0.0.1"; "::1"; "0.0.0.0"]%string.

Definition metadata_addresses : list string := ["169.254.169.254"; "169.254.170.2"]%string.

(** The disjunction over the classes of an address. *)
Definition forbidden_address (ip : IpAddress) : bool :=
  is_private ip || is_loopback ip || is_link_local ip || is_reserved ip || is_multicast ip ||
  is_unspecified ip || existsb (String.eqb (ip_str ip)) metadata_addresses.

(** The body of the loop over the addresses. *)
Definition check_address (ip_text : string) : res exc unit :=
  match ip_address ip_text with
  | None => Err (ssrf_error ("Invalid IP address format: " +:+ ip_text))
  | Some ip =>
      if forbidden_address ip then
        Err (ssrf_error ("Access to private/reserved IP address (" +:+ ip_text +:+
                         ") is forbidden (SSRF Protection)"))
      else Ok tt
  end.

Definition validate_outbound_url (url : json) : Effects unit :=
  match url with
  | JStr url =>
      match urlparse url with
      | Err e => Returns (Err e)
      | Ok (scheme, hostname) =>
          if negb (String.eqb scheme "http" || String.eqb scheme "https") then
            Returns (Err (config_error "URL scheme must be http or https"))
          else
            match hostname with
            | None | Some ""%string => Returns (Err (config_error "Invalid URL: missing hostname"))
            | Some hostname =>
                if existsb (String.eqb (text (map ascii_lower (chars hostname)))) local_names then
                  Returns (Err (ssrf_error "Access to local hostnames is forbidden (SSRF Protection)"))
                else
                  Resolve hostname (fun answer => Returns (
                    match answer with
                    | Err e => Err (ssrf_error ("Failed to resolve hostname '" +:+ hostname +:+ "': " +:+ e))
                    | Ok addrs => foldM (fun _ a => check_address a) tt addrs
                    end))
            end
      end
  | _ => Returns (Err (config_error "URL must be a string"))
  end.

(** ** Configurations *)

Definition http_prefixed (v : json) : bool :=
  match v with
  | JStr s => match drop_prefix (chars "http://") (chars s), drop_prefix (chars "https://") (chars s) with
              | None, None => false
              | _, _ => true
              end
  | _ => false
  end.

(** The check of ["url"] and ["target_url"], [kind] being the executor. *)
Definition validate_url_field (field kind : string) (config : pydict) : res exc unit :=
  match dict_get field config with
  | None => Err (config_error ("Missing '" +:+ field +:+ "' in " +:+ kind +:+ " executor config"))
  | Some v =>
      if http_prefixed v then Ok tt
      else Err (config_error ("Invalid '" +:+ field +:+ "' in " +:+ kind +:+ " executor config"))
  end.

Definition http_validate_config : pydict → res exc unit := validate_url_field "url" "http".
Definition webhook_validate_config : pydict → res exc unit := validate_url_field "target_url" "webhook".

(** [not isinstance(duration, int | float) or duration <= 0 or duration > 3600]. *)
Definition bad_duration (v : json) : bool :=
  match as_num v with
  | None => true
  | Some d => num_leb d (NInt 0) || num_ltb (NInt 3600) d
  end.

Definition delay_validate_config (config : pydict) : res exc unit :=
  match dict_get "duration_seconds" config with
  | None => Err (config_error "Missing 'duration_seconds' in delay executor config")
  | Some v =>
      if bad_duration v then Err (config_error "'duration_seconds' must be a positive number and at most 3600")
      else Ok tt
  end.

(** [re.search(r"(import|exec|eval|os|sys|open)", expr)]. *)
Definition unsafe_words : list string := ["import"; "exec"; "eval"; "os"; "sys"; "open"]%string.

Fixpoint contains_word (l : list ascii) : bool :=
  existsb (fun word => match drop_prefix (chars word) l with Some _ => true | None => false end) unsafe_words ||
  match l with [] => false | _ :: l' => contains_word l' end.

Definition condition_validate_config (config : pydict) : res exc unit :=
  foldM (fun _ field_name =>
    if dict_mem field_name config then Ok tt
    else Err (config_error ("Missing '" +:+ field_name +:+ "' in condition executor config")))
    tt ["expression"; "true_path"; "false_path"]%string ≫= fun _ =>
  match dict_get "expression" config with
  | Some (JStr expr) =>
      if contains_word (chars expr) then Err (config_error "Unsafe expression detected") else Ok tt
  | _ => Err (config_error "'expression' must be a string")
  end.

Definition required_field (field kind : string) (config : pydict) : res exc unit :=
  if dict_mem field config then Ok tt
  else Err (config_error ("Missing '" +:+ field +:+ "' in " +:+ kind +:+ " executor config")).

Definition transform_validate_config : pydict → res exc unit := required_field "mapping_rules" "transform".
Definition notification_validate_config : pydict → res exc unit := required_field "message" "notification".

(** ** Execution *)

(** A dict with any keys, and [d[k] = v]. *)
Fixpoint any_set (k v : json) (d : list (json * json)) : list (json * json) :=
  match d with
  | [] => [(k, v)]
  | (k', v') :: d' => if py_eq k' k then (k', v) :: d' else (k', v') :: any_set k v d'
  end.

(** One element of [dict(l)]: a pair of a key and a value. *)
Definition dict_item (v : json) : res exc (json * json) :=
  match v with
  | JList [k; x] => if hashable k then Ok (k, x) else Err ETypeError
  | JStr (String a (String b "")) => Ok (JStr (String a ""), JStr (String b ""))
  | JDict [(a, _); (b, _)] => Ok (JStr a, JStr b)
  | JList _ | JStr _ | JDict _ => Err EValueError
  | _ => Err ETypeError
  end.

(** [dict(config.get("headers") or {})]. *)
Definition base_headers (config : pydict) : res exc (list (json * json)) :=
  let v := default JNull (dict_get "headers" config) in
  if py_truthy v then
    match v with
    | JDict d => Ok ((fun p => (JStr p.1, p.2)) <$> d)
    | JList l => foldM (fun d x => p ← dict_item x; Ok (any_set p.1 p.2 d)) [] l
    | JStr _ => Err EValueError
    | _ => Err ETypeError
    end
  else Ok [].

Definition IDEMPOTENCY_KEY : json := JStr "Idempotency-Key".

Definition has_key (k : json) (d : list (json * json)) : bool := existsb (fun p => py_eq p.1 k) d.

(** [headers.setdefault("Idempotency-Key", key)]. *)
Definition request_headers (context : ExecutionContext) : res exc (list (json * json)) :=
  headers ← base_headers (cx_config context);
  Ok (if String.eqb (cx_idempotency_key context) "" then headers
      else if has_key IDEMPOTENCY_KEY headers then headers
      else any_set IDEMPOTENCY_KEY (JStr (cx_idempotency_key context)) headers).

Definition timeout_of (config : pydict) : json := default (JInt 10) (dict_get "timeout_seconds" config).

Definition ascii_upper (c : ascii) : ascii :=
  let n := N_of_ascii c in if ((97 <=? n) && (n <=? 122))%N then ascii_of_N (n - 32) else c.

(** [config.get("method", "GET").upper()]. *)
Definition request_method (config : pydict) : res exc string :=
  match default (JStr "GET") (dict_get "method" config) with
  | JStr m => Ok (text (map ascii_upper (chars m)))
  | _ => Err EAttributeError
  end.

(** [try: await validate_outbound_url(url) except AppError], then the rest. *)
Definition guarded (url : json) (send : Effects ExecutorResult) : Effects ExecutorResult :=
  and_then (validate_outbound_url url) (fun r =>
    match r with
    | Err (EApp e) => Returns (Ok (failed_result ("SSRF Blocked: " +:+ ae_message e)))
    | Err e => Returns (Err e)
    | Ok _ => send
    end).

Definition status_failure (status : Z) (body_text : string) : ExecutorResult :=
  failed_result ("HTTP " +:+ py_str_Z status +:+ ": " +:+ text (take 200 (chars body_text))).

(** What is done with the answer to a request, [success] building the output. *)
Definition sent (rq : HttpRequest) (success : Z → string → option json → ExecutorResult) : Effects ExecutorResult :=
  Request rq (fun answer =>
    match answer with
    | HttpFailed msg => Returns (Ok (failed_result msg))
    | HttpRaised e => Returns (Err e)
    | HttpResponse status body_text body_json =>
        Returns (Ok (if (400 <=? status)%Z then status_failure status body_text
                     else success status body_text body_json))
    end).

(** [config["url"]] raises [KeyError] when it is missing. *)
Definition http_effects (context : ExecutionContext) : Effects ExecutorResult :=
  let config := cx_config context in
  match dict_get "url" config with
  | None => Returns (Err EKeyError)
  | Some url =>
      guarded url (
        match request_headers context, request_method config with
        | Err e, _ => Returns (Err e)
        | Ok _, Err e => Returns (Err e)
        | Ok headers, Ok method =>
            sent (mkHttpRequest method url headers (dict_get "query" config) (dict_get "body" config)
                    (timeout_of config))
              (fun status body_text body_json =>
                 success_result [("status_code", JInt status);
                                 ("body", default (JStr body_text) body_json)]%string)
        end)
  end.

Definition webhook_effects (context : ExecutionContext) : Effects ExecutorResult :=
  let config := cx_config context in
  match dict_get "target_url" config with
  | None => Returns (Err EKeyError)
  | Some url =>
      guarded url (
        match request_headers context with
        | Err e => Returns (Err e)
        | Ok headers =>
            sent (mkHttpRequest "POST" url headers None (dict_get "payload_template" config)
                    (timeout_of config))
              (fun status _ _ => success_result [("status_code", JInt status)]%string)
        end)
  end.

Definition delay_effects (context : ExecutionContext) : Effects ExecutorResult :=
  match dict_get "duration_seconds" (cx_config context) with
  | None => Returns (Err EKeyError)
  | Some duration =>
      Sleep duration (fun answer => Returns (
        _ ← answer; Ok (success_result [("slept_seconds", duration)]%string)))
  end.

Definition http_execute (net : Outside) (context : ExecutionContext) : res exc ExecutorResult :=
  run_effects net (http_effects context).
Definition webhook_execute (net : Outside) (context : ExecutionContext) : res exc ExecutorResult :=
  run_effects net (webhook_effects context).
Definition delay_execute (net : Outside) (context : ExecutionContext) : res exc ExecutorResult :=
  run_effects net (delay_effects context).

(** [{"input": context.workflow_input, "upstream": context.upstream_outputs}]. *)
Definition context_data (context : ExecutionContext) : pydict :=
  [("input", JDict (cx_workflow_input context)); ("upstream", JDict (cx_upstream_outputs context))]%string.

Definition condition_execute (net : Outside) (context : ExecutionContext) : res exc ExecutorResult :=
  match dict_get "expression" (cx_config context) with
  | None => Err EKeyError
  | Some expression =>
      match evaluate_condition_expression expression (context_data context) with
      | Err (EApp e) => Ok (failed_result (ae_message e))
      | Err e => Err e
      | Ok result =>
          let path := if (result : bool) then "true_path"%string else "false_path"%string in
          Ok (success_result [("result", JBool result);
                              ("next_node", default JNull (dict_get path (cx_config context)))]%string)
      end
  end.

(** One rule of [mapping_rules]; a source that is no string has no [split]. *)
Definition apply_rule (data : pydict) (out : pydict) (p : string * json) : res exc pydict :=
  match p.2 with
  | JDict rule =>
      match dict_get "value" rule, dict_get "source" rule with
      | Some v, _ => Ok (dict_set p.1 v out)
      | None, Some (JStr path) => Ok (dict_set p.1 (_resolve_path data (chars path)) out)
      | None, Some _ => Err EAttributeError
      | None, None => Ok out
      end
  | v => Ok (dict_set p.1 v out)
  end.

Definition transform_execute (net : Outside) (context : ExecutionContext) : res exc ExecutorResult :=
  match default (JDict []) (dict_get "mapping_rules" (cx_config context)) with
  | JDict rules =>
      out ← foldM (apply_rule (context_data context)) [] rules;
      Ok (success_result out)
  | _ => Err EAttributeError
  end.

Definition notification_execute (net : Outside) (context : ExecutionContext) : res exc ExecutorResult :=
  Ok (success_result [("notified", JBool true)]%string).

(** ** The registry *)

Definition HttpExecutor : Executor Outside := mkExecutor "http" http_validate_config http_execute.
Definition DelayExecutor : Executor Outside := mkExecutor "delay" delay_validate_config delay_execute.
Definition ConditionExecutor : Executor Outside :=
  mkExecutor "condition" condition_validate_config condition_execute.
Definition TransformExecutor : Executor Outside :=
  mkExecutor "transform" transform_validate_config transform_execute.
Definition WebhookExecutor : Executor Outside :=
  mkExecutor "webhook" webhook_validate_config webhook_execute.
Definition NotificationExecutor : Executor Outside :=
  mkExecutor "notification" notification_validate_config notification_execute.

Definition get_executor_registry : ExecutorRegistry Outside :=
  foldl (fun reg e => register e reg) []
    [HttpExecutor; DelayExecutor; ConditionExecutor; TransformExecutor; WebhookExecutor;
     NotificationExecutor].


(** ** The check of outbound URLs *)

(** The URLs a request may go to, name by name and class by class: http or https, a host
    that is none of the local names, and addresses, as the resolver gives them, that are
    public unicast addresses and not those of a cloud's metadata service. *)
Record public_address (ip : IpAddress) : Prop := {
  pa_private : is_private ip = false;
  pa_loopback : is_loopback ip = false;
  pa_link_local : is_link_local ip = false;
  pa_reserved : is_reserved ip = false;
  pa_multicast : is_multicast ip = false;
  pa_unspecified : is_unspecified ip = false;
  pa_metadata : ip_str ip ≠ "169.254.169.254"%string ∧ ip_str ip ≠ "169.254.170.2"%string
}.

Definition outbound_allowed net (url : json) : Prop :=
  ∃ s scheme host addrs, url = JStr s ∧ urlparse s = Ok (scheme, Some host) ∧
    (scheme = "http"%string ∨ scheme = "https"%string) ∧ host ≠ ""%string ∧
    (let name := text (map ascii_lower (chars host)) in
     name ≠ "localhost"%string ∧ name ≠ "127.0.0.1"%string ∧ name ≠ "::1"%string ∧ name ≠ "0.0.0.0"%string) ∧
    getaddrinfo net host = Ok addrs ∧
    Forall (fun a => ∃ ip, ip_address a = Some ip ∧ public_address ip) addrs.

Lemma existsb_eqb_false s l : existsb (String.eqb s) l = false ↔ Forall (fun x => s ≠ x) l.
Proof.
  induction l as [|x l IH]; simpl; [done|].
  rewrite orb_false_iff, IH, Forall_cons, String.eqb_neq. done.
Qed.

Lemma forbidden_address_spec ip : forbidden_address ip = false ↔ public_address ip.
Proof.
  unfold forbidden_address, metadata_addresses.
  rewrite !orb_false_iff, existsb_eqb_false, !Forall_cons, Forall_nil. split.
  - intros [[[[[[? ?] ?] ?] ?] ?] (? & ? & _)]. by split.
  - intros [? ? ? ? ? ? [? ?]]. by split_and!.
Qed.

Lemma check_address_spec a : check_address a = Ok tt ↔ ∃ ip, ip_address a = Some ip ∧ public_address ip.
Proof.
  unfold check_address. destruct (ip_address a) as [ip|]; [|naive_solver].
  destruct (forbidden_address ip) eqn:Hf.
  - split; [done|]. intros (ip' & [= <-] & Hp%forbidden_address_spec). congruence.
  - split; [|done]. intros _. exists ip. by rewrite <- forbidden_address_spec.
Qed.

Lemma check_addresses addrs :
  foldM (fun _ a => check_address a) tt addrs = Ok tt ↔
  Forall (fun a => ∃ ip, ip_address a = Some ip ∧ public_address ip) addrs.
Proof.
  induction addrs as [|a addrs IH]; simpl; [done|].
  rewrite res_bind_Ok, Forall_cons, <- check_address_spec, <- IH. split.
  - by intros ([] & Ha & Hrest).
  - intros [Ha Hrest]. by exists tt.
Qed.

Lemma validate_outbound_url_spec net url :
  run_effects net (validate_outbound_url url) = Ok tt ↔ outbound_allowed net url.
Proof.
  destruct url as [| | | |s| |]; try (split; [done|by intros (? & ? & ? & ? & ? & _)]).
  cbn [validate_outbound_url]. split.
  - destruct (urlparse s) as [[scheme hostname]|e] eqn:Hp; [|done].
    destruct (negb _) eqn:Hs; [done|]. apply negb_false_iff, orb_true_iff in Hs.
    destruct hostname as [[|c host]|]; [done| |done].
    destruct (existsb _ local_names) eqn:Hl; [done|]. cbn [run_effects].
    destruct (getaddrinfo net _) as [addrs|e] eqn:Ha; [|done]. intros H%check_addresses.
    apply existsb_eqb_false in Hl. unfold local_names in Hl. rewrite !Forall_cons in Hl.
    exists s, scheme, (String c host), addrs. rewrite !String.eqb_eq in Hs.
    destruct Hl as (? & ? & ? & ? & _). by split_and!.
  - intros (s' & scheme & host & addrs & [= <-] & -> & Hscheme & Hhost & Hl & Ha & H).
    assert (String.eqb scheme "http" || String.eqb scheme "https" = true) as ->
      by (by destruct Hscheme as [-> | ->]).
    cbv zeta in Hl. destruct host as [|c host]; [done|]. cbn [negb].
    rewrite (proj2 (existsb_eqb_false _ local_names)) by (unfold local_names; rewrite !Forall_cons, Forall_nil; tauto).
    cbn [run_effects]. rewrite Ha. by apply check_addresses.
Qed.

Lemma validate_requests net url : requests net (validate_outbound_url url) = [].
Proof. destruct url; try done. cbn [validate_outbound_url]. by repeat case_match. Qed.

(** The two executors that make requests, and the field of their URL. *)
Definition requesting (effects : ExecutionContext → Effects ExecutorResult) (field : string) : Prop :=
  (effects = http_effects ∧ field = "url"%string) ∨
  (effects = webhook_effects ∧ field = "target_url"%string).

(** Past the check, one request to the URL at most; a success comes from one. *)
Definition sends_to (url : json) net (p : Effects ExecutorResult) : Prop :=
  (requests net p = [] ∧ ∀ r, run_effects net p = Ok r → success r = false) ∨
  ∃ rq, requests net p = [rq] ∧ rq_url rq = url.

Lemma sent_sends rq ok net : sends_to (rq_url rq) net (sent rq ok).
Proof. right. exists rq. unfold sent. cbn [requests]. by destruct (http_request net rq). Qed.

Lemma guarded_spec net url send :
  (run_effects net (validate_outbound_url url) = Ok tt ∧ run_effects net (guarded url send) = run_effects net send ∧
   requests net (guarded url send) = requests net send) ∨
  (run_effects net (validate_outbound_url url) ≠ Ok tt ∧ requests net (guarded url send) = [] ∧
   ∀ r, run_effects net (guarded url send) = Ok r → success r = false).
Proof.
  unfold guarded. rewrite run_effects_and_then, requests_and_then, validate_requests.
  destruct (run_effects net (validate_outbound_url url)) as [[]|e]; [by left|]. right.
  split; [done|]. destruct e; split; try done; by intros r [= <-].
Qed.

(** C26. The http and webhook executors send no request but to an allowed URL, whatever they
    would do with its answer: an execution whose URL is not allowed sends none and is no
    success; one whose URL is allowed passes the check and sends one request at most, to
    that URL. Allowed are exactly the http and https URLs whose host is none of the local
    names and all of whose addresses, as resolved by the check, are outside the private,
    loopback, link-local, reserved, multicast and unspecified ranges and no metadata
    service's. *)
Theorem ssrf_protection effects field net context url :
  requesting effects field → dict_get field (cx_config context) = Some url →
  (run_effects net (validate_outbound_url url) = Ok tt ↔ outbound_allowed net url) ∧
  (outbound_allowed net url → sends_to url net (effects context)) ∧
  (¬ outbound_allowed net url →
     requests net (effects context) = [] ∧
     ∀ r, run_effects net (effects context) = Ok r → success r = false).
Proof.
  intros Heff Hurl. split; [apply validate_outbound_url_spec|]. rewrite <- validate_outbound_url_spec.
  assert (∃ send, effects context = guarded url send ∧ sends_to url net send) as (send & -> & Hsend).
  { destruct Heff as [[-> ->]|[-> ->]]; unfold http_effects, webhook_effects; rewrite Hurl;
      eexists; (split; [reflexivity|]); repeat case_match; try (by left);
      (exact (sent_sends (mkHttpRequest _ url _ _ _ _) _ net)). }
  destruct (guarded_spec net url send) as [(Hok & Hrun & Hreq)|(Hno & Hreq & Hrun)].
  - split; [|by intros Hno]. intros _. unfold sends_to. by rewrite Hrun, Hreq.
  - by split.
Qed.

(** ** The registry and its contract with the validator *)

(** What a configuration check raises. *)
Definition raises_config_error (r : res exc unit) : Prop :=
  ∀ e, r = Err e → ∃ a, e = EApp a ∧ ae_code a = "invalid_executor_config"%string ∧
                       ae_status_code a = 400%Z.

Lemma raises_Ok : raises_config_error (Ok tt).
Proof. done. Qed.

Lemma raises_config msg : raises_config_error (Err (config_error msg)).
Proof. intros e [= <-]. by eexists. Qed.

#[local] Hint Resolve raises_Ok raises_config : core.

Lemma url_field_raises f k config : raises_config_error (validate_url_field f k config).
Proof. unfold validate_url_field. by repeat case_match. Qed.

Lemma required_field_raises f k config : raises_config_error (required_field f k config).
Proof. unfold required_field. by case_match. Qed.

Lemma delay_raises config : raises_config_error (delay_validate_config config).
Proof. unfold delay_validate_config. by repeat case_match. Qed.

Lemma condition_raises config : raises_config_error (condition_validate_config config).
Proof.
  unfold condition_validate_config. cbn [foldM]. intros e He.
  repeat match type of He with
  | context [if ?b then Ok tt else Err (config_error ?m)] =>
      destruct b; [|by apply (raises_config m e)]; cbn [mbind res_bind] in He
  end.
  destruct (dict_get _ _) as [[| | | |s| |]|]; try (by eapply raises_config).
  by destruct (contains_word _); [eapply raises_config|].
Qed.

Definition executor_types : list string :=
  ["http"; "delay"; "condition"; "transform"; "webhook"; "notification"]%string.

(** The default registry knows exactly the six types; looking up another raises
    [unknown_executor_type]. The configuration checks of all six raise nothing but
    [invalid_executor_config] with status 400, which is what validating a workflow relies
    on when it turns them into errors of the definition. *)
Theorem default_registry_contract t :
  match registry_get get_executor_registry t with
  | Ok ex => ex_type ex = t ∧ t ∈ executor_types ∧
      ∀ config, raises_config_error (validate_config ex config)
  | Err e => (t ∉ executor_types) ∧ ∃ a, e = EApp a ∧ ae_code a = "unknown_executor_type"%string
  end.
Proof.
  assert (∀ l (reg : ExecutorRegistry Outside), registry_get (foldl (fun reg e => register e reg) reg l) t =
    match list_find (fun e => ex_type e = t) (rev l) with
    | Some (_, e) => Ok e
    | None => registry_get reg t
    end) as Hreg.
  { intros l. induction l as [|e l IH] using rev_ind; intros reg; [done|].
    rewrite foldl_app, rev_app_distr. cbn [foldl rev app]. rewrite registry_get_register. cbn [list_find].
    repeat case_decide; simplify_eq; try done. rewrite IH.
    by destruct (list_find _ (rev l)) as [[]|]. }
  unfold get_executor_registry. rewrite Hreg. cbn [rev app].
  destruct (list_find _ _) as [[i ex]|] eqn:Hf.
  - apply list_find_Some in Hf as (Hi & Ht & _). split; [done|]. apply list_elem_of_lookup_2 in Hi.
    rewrite !elem_of_cons, elem_of_nil in Hi. unfold executor_types. rewrite !elem_of_cons.
    destruct Hi as [->|[->|[->|[->|[->|[->|[]]]]]]]; simpl in Ht; subst t;
      (split; [by tauto|]; intros config; cbn [validate_config]);
      [apply required_field_raises|apply url_field_raises|apply required_field_raises
      |apply condition_raises|apply delay_raises|apply url_field_raises].
  - apply list_find_None in Hf. split; [|by eexists].
    rewrite !Forall_cons in Hf. simpl in Hf. unfold executor_types. rewrite !elem_of_cons, elem_of_nil.
    naive_solver.
Qed.

(** ** Durations *)

(** A duration the delay executor accepts is NaN, which compares with nothing, or is a
    number above 0 and at most 3600. *)
Lemma delay_duration_bounds config :
  delay_validate_config config = Ok tt →
  ∃ v d, dict_get "duration_seconds" config = Some v ∧ as_num v = Some d ∧
    (d = NFloat S754_nan ∨ (num_ltb (NInt 0) d = true ∧ num_leb d (NInt 3600) = true)).
Proof.
  unfold delay_validate_config. destruct (dict_get _ config) as [v|]; [|done].
  destruct (bad_duration v) eqn:Hb; [done|]. intros _. unfold bad_duration in Hb.
  destruct (as_num v) as [d|] eqn:Hd; [|done]. exists v, d. split_and!; [done|done|].
  apply orb_false_iff in Hb as [Hlo Hhi]. unfold num_leb, num_ltb, num_cmp in *.
  destruct d as [z|f].
  - right. destruct (Z.compare_spec z 0), (Z.compare_spec 3600 z), (Z.compare_spec 0 z),
      (Z.compare_spec z 3600); try done; lia.
  - destruct (cmp_int_float 0 f) as [c|] eqn:H0.
    + right. destruct (cmp_int_float 3600 f) as [c'|] eqn:H1; [|by destruct f].
      simpl in *. by destruct c, c'.
    + left. by destruct f.
Qed.

End urls.

(** ** Witnesses *)

Definition demo_ip (a : string) : option IpAddress :=
  if String.eqb a "10.0.0.1" then Some (mkIpAddress true true false false false false false a) else None.

(** A network where every name resolves to a private address. *)
Definition demo_net (answer : HttpOutcome) : Outside :=
  mkOutside (fun _ => Ok ["10.0.0.1"%string]) (fun _ => answer) (fun _ => Ok tt).

Definition demo_context : ExecutionContext :=
  mkExecutionContext 1 2 "n" [("url", JStr "http://internal.example/x")]%string [] [] 1 "1:n:1".

Lemma ssrf_protection_witness :
  requests (demo_net (HttpResponse 200 "ok" None)) (http_effects demo_ip demo_context) = [] ∧
  match http_execute demo_ip (demo_net (HttpResponse 200 "ok" None)) demo_context with
  | Ok r => success r = false
  | Err _ => False
  end.
Proof.
  destruct (ssrf_protection demo_ip (http_effects demo_ip) "url"
    (demo_net (HttpResponse 200 "ok" None)) demo_context (JStr "http://internal.example/x"))
    as (_ & _ & Hblocked); [by left|reflexivity|].
  destruct Hblocked as [Hnone Hrun].
  - intros (s & scheme & host & addrs & _ & _ & _ & _ & _ & [= <-] & Hall).
    apply Forall_cons in Hall as [(ip & [= <-] & Hf) _]. destruct Hf as [Hf _ _ _ _ _ _]. discriminate Hf.
  - split; [exact Hnone|]. destruct (http_execute _ _ _) as [r|e] eqn:Hr; [by apply Hrun|].
    vm_compute in Hr. discriminate Hr.
Defined.
