(* ===== verification/DagValidator.v ===== *)
(** * DAG validation (src/backend/app/services/dag_validator.py)

    [validate_workflow] checks node identifiers, executor configurations and edge
    endpoints, then runs Kahn's algorithm. The theorems show that a definition is
    accepted exactly when its graph is acyclic and well-formed, and that the
    order returned is a topological order. *)

From S2P Require Import Prelude Json Errors PyStr Models Registry.

Record ValidationResult : Type := mkValidationResult {
  valid : bool;
  root_nodes : list string;
  topological_order : list string
}.

Section validator.
Context {Net : Type}.
Implicit Types reg : ExecutorRegistry Net.

(** The body of the loop over [workflow.nodes]. *)
Definition check_node reg (seen : gmap string Node) (n : Node) : res exc (gmap string Node) :=
  match seen !! node_id n with
  | Some _ => Err (EApp (app_error ("Duplicate node ID detected: '" +:+ node_id n +:+ "'")
                                   "duplicate_node_id"))
  | None =>
      match registry_get reg (node_type n) with
      | Err (EApp _) =>
          Err (EApp (app_error ("Unknown executor type '" +:+ node_type n +:+ "' for node '" +:+
                                node_id n +:+ "'") "unknown_executor_type"))
      | Err e => Err e
      | Ok executor =>
          match validate_config executor (node_config n) with
          | Err (EApp e) =>
              Err (EApp (app_error ("Invalid config for node '" +:+ node_id n +:+ "': " +:+
                                    ae_message e) "invalid_executor_config"))
          | Err e => Err e
          | Ok _ => Ok (<[node_id n := n]> seen)
          end
      end
  end.

(** The body of the loop over [workflow.edges]; the state is [adj] and [in_degree]. *)
Definition add_edge (nodes_by_id : gmap string Node)
    (st : gmap string (list string) * gmap string Z) (e : Edge) :
    res exc (gmap string (list string) * gmap string Z) :=
  let '(adj, in_degree) := st in
  match nodes_by_id !! from_node e with
  | None => Err (EApp (app_error ("Edge refers to missing source node: '" +:+ from_node e +:+ "'")
                                 "missing_edge_reference"))
  | Some _ =>
      match nodes_by_id !! to_node e with
      | None => Err (EApp (app_error ("Edge refers to missing target node: '" +:+ to_node e +:+ "'")
                                     "missing_edge_reference"))
      | Some _ =>
          match in_degree !! to_node e with
          | None => Err EKeyError
          | Some d =>
              Ok (<[from_node e := default [] (adj !! from_node e) ++ [to_node e]]> adj,
                  <[to_node e := d + 1]> in_degree)%Z
          end
      end
  end.

(** The body of [for neighbor in adj[curr]]; the state is [in_degree] and [queue]. *)
Definition relax (st : gmap string Z * list string) (neighbor : string) :
    res exc (gmap string Z * list string) :=
  let '(in_degree, queue) := st in
  match in_degree !! neighbor with
  | None => Err EKeyError
  | Some d =>
      Ok (<[neighbor := d - 1]> in_degree,
          if (d - 1 =? 0)%Z then queue ++ [neighbor] else queue)%Z
  end.

(** [while queue: ...]. *)
Fixpoint kahn_loop (fuel : nat) (adj : gmap string (list string)) (in_degree : gmap string Z)
    (queue order : list string) : res exc (list string) :=
  match queue with
  | [] => Ok order
  | curr :: rest =>
      match fuel with
      | O => Err EOutOfFuel
      | S fuel =>
          st ← foldM relax (in_degree, rest) (default [] (adj !! curr));
          kahn_loop fuel adj st.1 st.2 (order ++ [curr])
      end
  end.

Definition cycle_error (message : string) : exc := EApp (app_error message "cycle_detected").

(** [validate_workflow]. [in_degree] iterates in the order of [workflow.nodes],
    whose identifiers are distinct by then. Each pass of the loop takes one node,
    so [length nodes] units of fuel are enough. *)
Definition validate_workflow (wf : WorkflowDefinition) reg : res exc ValidationResult :=
  nodes_by_id ← foldM (check_node reg) ∅ (wf_nodes wf);
  let ids := node_id <$> wf_nodes wf in
  st ← foldM (add_edge nodes_by_id) (∅, list_to_map ((fun id => (id, 0%Z)) <$> ids)) (wf_edges wf);
  let roots := filter (fun id => st.2 !! id = Some 0%Z) ids in
  if bool_decide (roots = [] ∧ wf_nodes wf ≠ []) then
    Err (cycle_error "Workflow contains a cycle and has no root nodes.")
  else
    order ← kahn_loop (length (wf_nodes wf)) st.1 st.2 roots [];
    if (length order =? length (wf_nodes wf))%nat then
      Ok (mkValidationResult true roots order)
    else Err (cycle_error "Workflow contains a cycle.").

End validator.

(** ** The graph of a definition *)

Definition edge_pairs (wf : WorkflowDefinition) : list (string * string) :=
  (fun e => (from_node e, to_node e)) <$> wf_edges wf.

Definition node_ids (wf : WorkflowDefinition) : list string := node_id <$> wf_nodes wf.

(** [wf_edge wf a b]: the definition has an edge from [a] to [b]. *)
Definition wf_edge (wf : WorkflowDefinition) (a b : string) : Prop := (a, b) ∈ edge_pairs wf.

(** No node reaches itself. *)
Definition acyclic (wf : WorkflowDefinition) : Prop := ∀ x, ¬ tc (wf_edge wf) x x.

(** Every node comes after all its predecessors. *)
Definition topological (wf : WorkflowDefinition) (order : list string) : Prop :=
  ∀ l1 b l2, order = l1 ++ b :: l2 → ∀ a, wf_edge wf a b → a ∈ l1.

(** ** Counting edges *)

Definition occurrences (v : string) (l : list string) : nat := length (filter (fun x => x = v) l).

Definition successors (E : list (string * string)) (a : string) : list string :=
  snd <$> filter (fun e => e.1 = a) E.

(** Edges into [v] whose source is not in [done]. *)
Definition pending (E : list (string * string)) (done : list string) (v : string) : nat :=
  length (filter (fun e => e.2 = v ∧ e.1 ∉ done) E).

Lemma occurrences_cons v x l :
  occurrences v (x :: l) = ((if decide (x = v) then 1 else 0) + occurrences v l)%nat.
Proof. unfold occurrences. rewrite filter_cons. by case_decide. Qed.

Lemma occurrences_0 v l : occurrences v l = 0%nat ↔ v ∉ l.
Proof.
  induction l as [|x l IH]; [split; [intros _; apply not_elem_of_nil|done]|].
  rewrite occurrences_cons, not_elem_of_cons. case_decide; naive_solver lia.
Qed.

Lemma pending_step E done c v :
  c ∉ done → (pending E (done ++ [c]) v + occurrences v (successors E c) = pending E done v)%nat.
Proof.
  intros Hc. unfold pending, successors. induction E as [|[a b] E IH]; [done|].
  rewrite !filter_cons. cbn [fst snd].
  repeat case_decide; rewrite ?fmap_cons, ?occurrences_cons; cbn [length fst snd];
    repeat case_decide; set_unfold; naive_solver lia.
Qed.

Lemma pending_app E1 E2 done v : pending (E1 ++ E2) done v = (pending E1 done v + pending E2 done v)%nat.
Proof. unfold pending. by rewrite filter_app, length_app. Qed.

Lemma pending_singleton a b v : pending [(a, b)] [] v = if decide (b = v) then 1%nat else 0%nat.
Proof.
  unfold pending. rewrite filter_cons, filter_nil. simpl.
  repeat case_decide; set_solver.
Qed.

Lemma pending_0 E done v : pending E done v = 0%nat ↔ (∀ a, (a, v) ∈ E → a ∈ done).
Proof.
  unfold pending. rewrite length_zero_iff_nil. split.
  - intros Hf a Ha. destruct (decide (a ∈ done)) as [|Hn]; [done|].
    exfalso. eapply (filter_nil_not_elem_of _ _ (a, v)); [exact Hf| |exact Ha]. done.
  - intros H. apply elem_of_nil_inv. intros [a b] [[Hb Ha] Hin]%list_elem_of_filter.
    simpl in *. subst. by apply Ha, H.
Qed.

Lemma elem_of_successors E a b : b ∈ successors E a ↔ (a, b) ∈ E.
Proof.
  unfold successors. rewrite list_elem_of_fmap. split.
  - intros ([a' b'] & -> & [Ha Hin]%list_elem_of_filter). simpl in *. by subst.
  - intros H. exists (a, b). split; [done|]. by apply list_elem_of_filter.
Qed.

(** ** Kahn's loop *)

(** One pass: every neighbour's degree drops by its number of occurrences, and
    the neighbours whose degree reaches zero join the queue, once each. *)
Lemma relax_spec l : ∀ (ind : gmap string Z) q,
  (∀ v, v ∈ l → ∃ n, ind !! v = Some (Z.of_nat n) ∧ (occurrences v l ≤ n)%nat) →
  ∃ ind' new, foldM relax (ind, q) l = Ok (ind', q ++ new) ∧
    (∀ v, ind' !! v = (fun d => d - Z.of_nat (occurrences v l))%Z <$> ind !! v) ∧
    NoDup new ∧
    (∀ v, v ∈ new ↔ v ∈ l ∧ ind !! v = Some (Z.of_nat (occurrences v l))).
Proof.
  induction l as [|x l IH]; intros ind q Hdeg.
  { exists ind, []. rewrite app_nil_r. split_and!; [done| |apply NoDup_nil_2|set_solver].
    intros v. change (occurrences v []) with 0%nat. destruct (ind !! v); simpl; [f_equal; lia|done]. }
  destruct (Hdeg x) as (n & Hn & Hle); [by left|].
  rewrite occurrences_cons, decide_True in Hle by done.
  set (ind1 := <[x := (Z.of_nat n - 1)%Z]> ind).
  set (q1 := if (Z.of_nat n - 1 =? 0)%Z then q ++ [x] else q).
  destruct (IH ind1 q1) as (ind' & new & Hf & Hind & Hnd & Hnew).
  { intros v Hv. destruct (decide (x = v)) as [<-|Hne].
    - exists (n - 1)%nat. split; [|lia]. unfold ind1. rewrite lookup_insert_eq. f_equal. lia.
    - destruct (Hdeg v) as (m & Hm & Hm'); [by right|].
      rewrite occurrences_cons, decide_False in Hm' by done.
      exists m. unfold ind1. by rewrite lookup_insert_ne by done. }
  exists ind', (if (Z.of_nat n - 1 =? 0)%Z then x :: new else new). split_and!.
  - simpl. rewrite Hn. simpl. fold ind1 q1. rewrite Hf. unfold q1.
    case_match; [by rewrite <- app_assoc|done].
  - intros v. rewrite Hind, occurrences_cons. unfold ind1. rewrite lookup_insert.
    destruct (decide (x = v)) as [->|]; [|done]. rewrite Hn. simpl. f_equal. lia.
  - case_match eqn:Hz; [|done]. apply Z.eqb_eq in Hz. apply NoDup_cons_2; [|done].
    rewrite Hnew. intros [Hin _]. apply occurrences_0 in Hin; [done|lia].
  - intros v. assert (v ∈ new ↔ v ∈ l ∧ ind1 !! v = Some (Z.of_nat (occurrences v l))) as Hv by done.
    unfold ind1 in Hv. rewrite lookup_insert in Hv. rewrite occurrences_cons.
    pose proof (occurrences_0 v l) as H0.
    destruct (Z.eqb_spec (Z.of_nat n - 1) 0) as [Hz|Hz];
      rewrite ?elem_of_cons, Hv; (destruct (decide (x = v)) as [->|Hne]; [|naive_solver]);
      rewrite Hn; split.
    + intros _. split; [by left|]. f_equal. lia.
    + by left.
    + intros [Hin [= Heq]]. split; [by left|]. f_equal. lia.
    + intros [_ [= Heq]]. split; [|f_equal; lia].
      destruct (decide (v ∈ l)) as [|Hni]; [done|]. apply H0 in Hni. lia.
Qed.

Section kahn.
Context (E : list (string * string)) (ids : list string) (adj : gmap string (list string)).
Hypothesis Hadj : ∀ a, default [] (adj !! a) = successors E a.
Hypothesis Hends : ∀ a b, (a, b) ∈ E → a ∈ ids ∧ b ∈ ids.
Hypothesis Hids : NoDup ids.

(** The invariant of [while queue]: the queue and the order hold, once each, the
    nodes whose predecessors have all been placed. *)
Record kahn_inv (ind : gmap string Z) (queue order : list string) : Prop := {
  ki_nodup : NoDup (order ++ queue);
  ki_ids : ∀ x, x ∈ order ++ queue → x ∈ ids;
  ki_degree : ∀ v, v ∈ ids → ind !! v = Some (Z.of_nat (pending E order v));
  ki_ready : ∀ v, v ∈ ids → (pending E order v = 0%nat ↔ v ∈ order ++ queue);
  ki_topo : ∀ l1 b l2, order = l1 ++ b :: l2 → ∀ a, (a, b) ∈ E → a ∈ l1
}.

Lemma kahn_inv_step ind curr rest order :
  kahn_inv ind (curr :: rest) order →
  ∃ ind' queue', foldM relax (ind, rest) (successors E curr) = Ok (ind', queue') ∧
    kahn_inv ind' queue' (order ++ [curr]).
Proof using Hends.
  clear Hadj adj Hids.
  intros [Hnd Hin Hdeg Hready Htopo].
  assert ((curr ∉ order ++ rest) ∧ NoDup (order ++ rest)) as [Hcurr Hnd'].
  { apply NoDup_cons. by rewrite Permutation_middle. }
  assert (curr ∈ ids) as Hcid by (apply Hin; set_solver).
  assert (curr ∉ order) as Hco by set_solver.
  pose proof (fun v => pending_step E order curr v Hco) as Hstep.
  destruct (relax_spec (successors E curr) ind rest) as (ind' & new & Hf & Hind & Hndn & Hnew).
  { intros v Hv. apply elem_of_successors in Hv. exists (pending E order v).
    split; [apply Hdeg; by eapply Hends|]. specialize (Hstep v). lia. }
  assert (∀ v, v ∈ new ↔ v ∈ ids ∧ v ∈ successors E curr ∧ pending E (order ++ [curr]) v = 0%nat)
    as Hnew'.
  { intros v. rewrite Hnew. specialize (Hstep v). split.
    - intros [Hs Hi]. assert (v ∈ ids) as Hv by (apply elem_of_successors in Hs; by eapply Hends).
      rewrite Hdeg in Hi by done. injection Hi as Hi. split_and!; [done..|lia].
    - intros (Hv & Hs & Hp). split; [done|]. rewrite Hdeg by done. f_equal. lia. }
  exists ind', (rest ++ new). split; [done|]. split.
  - rewrite <- app_assoc. cbn [app]. rewrite <- Permutation_middle, app_assoc.
    apply NoDup_cons. split.
    + rewrite elem_of_app. intros [?|Hn]; [done|].
      apply Hnew' in Hn as (_ & Hs & _). apply elem_of_successors in Hs.
      assert (pending E order curr = 0%nat) as Hz by (apply Hready; set_solver).
      rewrite pending_0 in Hz. by apply Hco, Hz.
    + apply NoDup_app. split_and!; [done| |done]. intros x Hx Hn.
      apply Hnew' in Hn as (_ & Hs & _). apply elem_of_successors in Hs.
      assert (pending E order x = 0%nat) as Hz by (apply Hready; [by eapply Hends|set_solver]).
      rewrite pending_0 in Hz. by apply Hco, Hz.
  - intros x. rewrite !elem_of_app, Hnew'. set_solver.
  - intros v Hv. rewrite Hind, Hdeg by done. simpl. f_equal. specialize (Hstep v). lia.
  - intros v Hv. specialize (Hstep v). specialize (Hready v Hv).
    rewrite !elem_of_app, elem_of_cons, Hnew' in *. split.
    + intros Hp. destruct (decide (v ∈ successors E curr)) as [Hs|Hs]; [naive_solver|].
      apply occurrences_0 in Hs. set_solver by lia.
    + intros [[?|?]|[?|(_ & _ & ?)]]; [| | |done]; set_solver by lia.
  - intros l1 b l2 Hsplit a Hab. destruct l2 as [|y l2 _] using rev_ind.
    + apply app_inj_tail in Hsplit as [-> ->].
      assert (pending E l1 b = 0%nat) as Hz by (apply Hready; set_solver).
      rewrite pending_0 in Hz. by apply Hz.
    + rewrite app_comm_cons, app_assoc in Hsplit. apply app_inj_tail in Hsplit as [-> ->].
      by eapply Htopo.
Qed.

(** The loop ends within [length ids] passes, with an empty queue. *)
Lemma kahn_loop_spec fuel : ∀ ind queue order,
  kahn_inv ind queue order → (length ids ≤ length order + fuel)%nat →
  ∃ ind' order', kahn_loop fuel adj ind queue order = Ok order' ∧ kahn_inv ind' [] order'.
Proof using Hadj Hends.
  clear Hids. induction fuel as [|fuel IH]; intros ind [|curr rest] order Hinv Hlen;
    try (by exists ind, order).
  - exfalso. destruct Hinv as [Hnd Hin _ _ _].
    pose proof (submseteq_length _ _ (NoDup_submseteq _ _ Hnd Hin)) as Hl.
    rewrite length_app in Hl. simpl in Hl. lia.
  - destruct (kahn_inv_step _ _ _ _ Hinv) as (ind' & queue' & Hf & Hinv').
    simpl. rewrite Hadj, Hf. simpl. apply IH; [done|]. rewrite length_app. simpl. lia.
Qed.

Lemma topological_acyclic order :
  NoDup order → (∀ l1 b l2, order = l1 ++ b :: l2 → ∀ a, (a, b) ∈ E → a ∈ l1) →
  (∀ a b, (a, b) ∈ E → b ∈ order) →
  ∀ x, ¬ tc (fun a b => (a, b) ∈ E) x x.
Proof.
  clear Hadj Hends Hids adj. intros Hnd Htopo Hin.
  assert (∀ a b, tc (fun a b => (a, b) ∈ E) a b →
          ∀ l1 l2, order = l1 ++ b :: l2 → a ∈ l1) as Hbefore.
  { induction 1 as [a b Hab|a c b Hac _ IH]; intros l1 l2 Hsplit; [by eapply Htopo|].
    destruct (list_elem_of_split l1 c) as (l3 & l4 & ->); [by eapply IH|].
    rewrite <- app_assoc in Hsplit. apply elem_of_app. left. by eapply Htopo. }
  intros x Hx.
  assert (x ∈ order) as Hxo.
  { clear Hbefore. assert (∃ c, (c, x) ∈ E) as [c Hc]; [|by eapply Hin].
    assert (∀ a b, tc (fun a b => (a, b) ∈ E) a b → ∃ c, (c, b) ∈ E) as H; [|by eapply H].
    induction 1; eauto. }
  apply list_elem_of_split in Hxo as (l1 & l2 & Hsplit).
  pose proof (Hbefore _ _ Hx _ _ Hsplit) as Hl1.
  rewrite Hsplit in Hnd. apply NoDup_app in Hnd as (_ & Hdis & _).
  eapply Hdis; [exact Hl1|by left].
Qed.

(** Kahn's algorithm places every node exactly when the graph is acyclic. *)
Lemma kahn_complete ind order :
  kahn_inv ind [] order →
  (length order = length ids ↔ ∀ x, ¬ tc (fun a b => (a, b) ∈ E) x x).
Proof using Hends Hids.
  clear Hadj adj. intros [Hnd Hin _ Hready Htopo]. rewrite app_nil_r in *.
  assert (order ⊆+ ids) as Hsub by (by apply NoDup_submseteq).
  split.
  - intros Hlen. apply topological_acyclic with order; [done..|].
    intros a b Hab. assert (order ≡ₚ ids) as -> by (apply submseteq_length_Permutation; [done|lia]).
    by eapply Hends.
  - intros Hacyc. apply Permutation_length, (anti_symm submseteq); [done|].
    apply NoDup_submseteq; [done|]. intros x Hx.
    assert (sn (flip (fun a b => (a, b) ∈ E)) x) as Hsn.
    { apply tc_finite_sn.
      - intros y Hy. apply (Hacyc y). by apply tc_flip.
      - exists (fst <$> E). intros y Hy. apply list_elem_of_fmap.
        induction Hy as [x y Hxy|x z y Hxz Hzy IH].
        + exists (y, x). split; [done|exact Hxy].
        + apply IH. exact (proj1 (Hends _ _ Hxz)). }
    induction Hsn as [x _ IH]. apply Hready; [done|]. apply pending_0.
    intros a Ha. apply IH; [done|]. exact (proj1 (Hends _ _ Ha)).
Qed.

End kahn.

(** ** The passes before the loop *)

Section passes.
Context {Net : Type} (reg : ExecutorRegistry Net).

(** The node's type is registered and its executor accepts its configuration. *)
Definition node_accepted (n : Node) : Prop :=
  ∃ ex u, registry_get reg (node_type n) = Ok ex ∧ validate_config ex (node_config n) = Ok u.

(** What the first two loops of [validate_workflow] check. *)
Record well_formed (wf : WorkflowDefinition) : Prop := {
  wf_ids_nodup : NoDup (node_ids wf);
  wf_accepted : Forall node_accepted (wf_nodes wf);
  wf_endpoints : ∀ a b, wf_edge wf a b → a ∈ node_ids wf ∧ b ∈ node_ids wf
}.

Lemma check_node_Ok m n m' :
  check_node reg m n = Ok m' ↔
  m !! node_id n = None ∧ node_accepted n ∧ m' = <[node_id n := n]> m.
Proof.
  unfold check_node, node_accepted. split.
  - repeat case_match; naive_solver.
  - intros (-> & (ex & u & -> & ->) & ->). done.
Qed.

Lemma check_nodes_Ok nodes : ∀ m m',
  foldM (check_node reg) m nodes = Ok m' →
  NoDup (node_id <$> nodes) ∧ Forall node_accepted nodes ∧
  (∀ i, i ∈ node_id <$> nodes → m !! i = None) ∧
  (∀ i, is_Some (m' !! i) ↔ is_Some (m !! i) ∨ i ∈ node_id <$> nodes).
Proof.
  induction nodes as [|n nodes IH]; simpl; intros m m' Hf.
  { injection Hf as <-. split_and!; [apply NoDup_nil_2|done|set_solver|set_solver]. }
  res_inv. apply check_node_Ok in H as (Hn & Hacc & ->). apply IH in H0 as (Hnd & Hall & Hno & Hdom).
  assert (node_id n ∉ node_id <$> nodes) as Hni.
  { intros Hin. apply Hno in Hin. by rewrite lookup_insert_eq in Hin. }
  split_and!; [by apply NoDup_cons_2|by constructor| |].
  - intros i [->|Hi]%elem_of_cons; [done|]. specialize (Hno i Hi).
    rewrite lookup_insert_ne in Hno; [done|]. by intros <-.
  - intros i. rewrite Hdom, elem_of_cons, lookup_insert.
    case_decide; subst; naive_solver.
Qed.

Lemma check_nodes_complete nodes : ∀ m,
  NoDup (node_id <$> nodes) → Forall node_accepted nodes →
  (∀ i, i ∈ node_id <$> nodes → m !! i = None) →
  ∃ m', foldM (check_node reg) m nodes = Ok m'.
Proof.
  induction nodes as [|n nodes IH]; simpl; intros m Hnd Hacc Hno; [by eexists|].
  apply NoDup_cons in Hnd as [Hni Hnd]. apply Forall_cons in Hacc as [Hn Hacc].
  assert (check_node reg m n = Ok (<[node_id n := n]> m)) as ->.
  { apply check_node_Ok. split_and!; [apply Hno; by left|done..]. }
  simpl. apply IH; [done..|]. intros i Hi.
  rewrite lookup_insert_ne; [apply Hno; by right|]. by intros <-.
Qed.

Lemma add_edge_Ok nodes_by_id adj ind e adj' ind' :
  add_edge nodes_by_id (adj, ind) e = Ok (adj', ind') →
  is_Some (nodes_by_id !! from_node e) ∧ is_Some (nodes_by_id !! to_node e).
Proof. simpl. repeat case_match; naive_solver. Qed.

Lemma add_edges_endpoints nodes_by_id edges st st' :
  foldM (add_edge nodes_by_id) st edges = Ok st' →
  ∀ e, e ∈ edges → is_Some (nodes_by_id !! from_node e) ∧ is_Some (nodes_by_id !! to_node e).
Proof.
  apply (foldM_ind (add_edge nodes_by_id) (fun done _ => ∀ e, e ∈ done →
    is_Some (nodes_by_id !! from_node e) ∧ is_Some (nodes_by_id !! to_node e))); [set_solver|].
  intros done x [adj ind] [adj' ind'] Hdone Hx e. rewrite elem_of_app, list_elem_of_singleton.
  intros [He|He]; [by apply Hdone|subst; by eapply add_edge_Ok].
Qed.

Definition initial_degrees (ids : list string) : gmap string Z :=
  list_to_map ((fun id => (id, 0%Z)) <$> ids).

Lemma initial_degrees_lookup ids v : v ∈ ids → initial_degrees ids !! v = Some 0%Z.
Proof.
  intros Hv. unfold initial_degrees. induction ids as [|i ids IH]; [set_solver|]. simpl.
  rewrite lookup_insert. case_decide; [done|]. apply IH. set_solver.
Qed.

(** The second loop builds the successor lists and the in-degrees. *)
Lemma add_edges_spec nodes_by_id ids edges :
  (∀ i, is_Some (nodes_by_id !! i) ↔ i ∈ ids) →
  (∀ e, e ∈ edges → from_node e ∈ ids ∧ to_node e ∈ ids) →
  ∃ adj ind, foldM (add_edge nodes_by_id) (∅, initial_degrees ids) edges = Ok (adj, ind) ∧
    let E := (fun e => (from_node e, to_node e)) <$> edges in
    (∀ a, default [] (adj !! a) = successors E a) ∧
    (∀ v, v ∈ ids → ind !! v = Some (Z.of_nat (pending E [] v))).
Proof.
  intros Hdom. induction edges as [|e edges IH] using rev_ind; intros Hends.
  { exists ∅, (initial_degrees ids). split; [done|split].
    - intros a. by rewrite lookup_empty.
    - intros v Hv. by rewrite initial_degrees_lookup. }
  destruct IH as (adj & ind & Hf & Hadj & Hind); [set_solver|].
  destruct (Hends e) as [Hfrom Hto]; [set_solver|].
  pose proof Hfrom as [n1 Hn1]%Hdom. pose proof Hto as [n2 Hn2]%Hdom.
  do 2 eexists. split.
  { rewrite foldM_app, Hf. simpl. rewrite Hn1, Hn2, Hind by done. simpl. done. }
  cbv zeta. rewrite fmap_app. cbn [fmap list_fmap]. split.
  - intros a. rewrite lookup_insert. unfold successors. rewrite filter_app, fmap_app.
    rewrite filter_cons, filter_nil. cbn [fst]. destruct (decide (from_node e = a)) as [->|]; simpl.
    + by rewrite Hadj.
    + rewrite app_nil_r. apply Hadj.
  - intros v Hv. rewrite lookup_insert, pending_app, pending_singleton.
    destruct (decide (to_node e = v)) as [->|Hne]; [f_equal; lia|].
    rewrite Hind by done. f_equal. lia.
Qed.

(** On a well-formed definition the outcome is decided by how many nodes Kahn's
    loop placed, and that number by acyclicity. *)
Lemma validate_workflow_run wf :
  well_formed wf →
  ∃ order msg,
    NoDup order ∧ order ⊆ node_ids wf ∧ topological wf order ∧
    (length order = length (wf_nodes wf) ↔ acyclic wf) ∧
    validate_workflow wf reg =
      if (length order =? length (wf_nodes wf))%nat then
        Ok (mkValidationResult true
              (filter (fun v => pending (edge_pairs wf) [] v = 0%nat) (node_ids wf)) order)
      else Err (cycle_error msg).
Proof.
  intros [Hnd Hacc Hends].
  destruct (check_nodes_complete (wf_nodes wf) ∅) as [m Hm]; [done|done|by intros; apply lookup_empty|].
  destruct (check_nodes_Ok _ _ _ Hm) as (_ & _ & _ & Hdom).
  destruct (add_edges_spec m (node_ids wf) (wf_edges wf)) as (adj & ind & Hf & Hadj & Hind).
  { intros i. rewrite Hdom, lookup_empty, is_Some_alt. naive_solver. }
  { intros e He. apply Hends. apply list_elem_of_fmap. by exists e. }
  fold (edge_pairs wf) in Hadj, Hind.
  set (roots := filter (fun v => pending (edge_pairs wf) [] v = 0%nat) (node_ids wf)).
  assert (filter (fun id => ind !! id = Some 0%Z) (node_ids wf) = roots) as Hroots.
  { apply list_filter_ext. intros x Hx. rewrite Hind by done.
    split; [intros [= ?]; lia|by intros ->]. }
  assert (kahn_inv (edge_pairs wf) (node_ids wf) ind roots []) as Hinv.
  { split; simpl.
    - by apply NoDup_filter.
    - intros x [_ Hx]%list_elem_of_filter. done.
    - done.
    - intros v Hv. unfold roots. rewrite list_elem_of_filter. naive_solver.
    - intros l1 b l2 Hl. by destruct l1. }
  destruct (kahn_loop_spec (edge_pairs wf) (node_ids wf) adj Hadj Hends (length (wf_nodes wf))
              ind roots [] Hinv) as (ind' & order & Hk & Hinv').
  { unfold node_ids. rewrite length_fmap. simpl. lia. }
  pose proof (kahn_complete _ _ Hends Hnd _ _ Hinv') as Hcomp.
  unfold node_ids in Hcomp at 1. rewrite length_fmap in Hcomp.
  destruct Hinv' as [Hnd' Hin' _ _ Htopo]. rewrite app_nil_r in *.
  exists order. unfold validate_workflow. rewrite Hm. cbn [mbind res_bind].
  fold (node_ids wf). fold (initial_degrees (node_ids wf)). rewrite Hf. cbn [mbind res_bind fst snd].
  rewrite Hroots. case_bool_decide as Hb.
  - destruct Hb as [Hr Hne]. rewrite Hr in Hk. eexists.
    assert (order = []) as -> by (destruct (length (wf_nodes wf)); by injection Hk as <-).
    split_and!; [done..|]. destruct (wf_nodes wf); [done|reflexivity].
  - eexists. split_and!; [done..|]. rewrite Hk. reflexivity.
Qed.

(** Acceptance implies the checks passed. *)
Lemma validate_workflow_Ok_wf wf r : validate_workflow wf reg = Ok r → well_formed wf.
Proof.
  unfold validate_workflow. intros Hv. res_inv.
  apply check_nodes_Ok in H as (Hnd & Hacc & _ & Hdom). split; [done..|].
  intros a b (e & [= -> ->] & He)%list_elem_of_fmap.
  destruct (add_edges_endpoints _ _ _ _ H0 e He) as [Hfrom Hto].
  rewrite !Hdom, !lookup_empty, !is_Some_alt in Hfrom, Hto. naive_solver.
Qed.

End passes.

(** ** Properties *)

Section properties.
Context {Net : Type} (reg : ExecutorRegistry Net).

(** Acceptance, in full. *)
Lemma validate_workflow_Ok wf r :
  validate_workflow wf reg = Ok r →
  valid r = true ∧
  NoDup (topological_order r) ∧
  topological_order r ≡ₚ node_ids wf ∧
  topological wf (topological_order r) ∧
  root_nodes r `sublist_of` node_ids wf ∧
  (∀ x, x ∈ root_nodes r ↔ x ∈ node_ids wf ∧ ∀ a, ¬ wf_edge wf a x).
Proof.
  intros Hv. pose proof (validate_workflow_Ok_wf reg wf r Hv) as Hwf.
  destruct (validate_workflow_run reg wf Hwf) as (order & msg & Hnd & Hsub & Htopo & _ & Hrun).
  rewrite Hrun in Hv. case_match eqn:Hlen; [|done]. apply Nat.eqb_eq in Hlen.
  injection Hv as <-. simpl. split_and!; try done.
  - apply submseteq_length_Permutation; [by apply NoDup_submseteq|].
    unfold node_ids. rewrite length_fmap. lia.
  - apply sublist_filter.
  - intros x. rewrite list_elem_of_filter, pending_0. unfold wf_edge. set_solver.
Qed.

Lemma validate_workflow_is_ok wf :
  is_ok (validate_workflow wf reg) = true ↔ well_formed reg wf ∧ acyclic wf.
Proof.
  split.
  - intros Hok. destruct (validate_workflow wf reg) as [r|e] eqn:Hv; [|done].
    pose proof (validate_workflow_Ok_wf reg wf r Hv) as Hwf. split; [done|].
    destruct (validate_workflow_run reg wf Hwf) as (order & msg & _ & _ & _ & Hac & Hrun).
    rewrite Hrun in Hv. case_match eqn:Hlen; [|done]. apply Hac. by apply Nat.eqb_eq.
  - intros [Hwf Hac].
    destruct (validate_workflow_run reg wf Hwf) as (order & msg & _ & _ & _ & Hac' & ->).
    assert ((length order =? length (wf_nodes wf))%nat = true) as -> by (by apply Nat.eqb_eq, Hac').
    done.
Qed.

(** C13. When [validate_workflow] returns, its [topological_order] lists every
    node exactly once with each node after all its predecessors, and its
    [root_nodes] are, in the order of the definition, the nodes no edge enters. *)
Theorem validate_workflow_topological wf r :
  validate_workflow wf reg = Ok r →
  valid r = true ∧
  NoDup (topological_order r) ∧
  topological_order r ≡ₚ node_ids wf ∧
  topological wf (topological_order r) ∧
  root_nodes r `sublist_of` node_ids wf ∧
  (∀ x, x ∈ root_nodes r ↔ x ∈ node_ids wf ∧ ∀ a, ¬ wf_edge wf a x).
Proof. apply validate_workflow_Ok. Qed.

(** C14. [validate_workflow] accepts a definition exactly when its identifiers are
    distinct, every configuration is accepted, every edge joins two nodes of the
    definition, and the graph has no cycle. *)
Theorem validate_workflow_accepts_iff wf :
  is_ok (validate_workflow wf reg) = true ↔ well_formed reg wf ∧ acyclic wf.
Proof. apply validate_workflow_is_ok. Qed.

(** Executors whose [validate_config] raises nothing but [AppError]. *)
Definition raises_only_app_errors : Prop :=
  ∀ t ex cfg e, registry_get reg t = Ok ex → validate_config ex cfg = Err e → ∃ a, e = EApp a.

Definition validation_codes : list string :=
  ["duplicate_node_id"; "unknown_executor_type"; "invalid_executor_config";
   "missing_edge_reference"]%string.

(** The call raised a literal [AppError] of the source. *)
Ltac raised_app_error := simplify_eq/=; eexists; split_and!; [done|done|]; (done || set_solver).

Lemma check_nodes_errors nodes : ∀ m e,
  raises_only_app_errors → foldM (check_node reg) m nodes = Err e →
  ∃ a, e = EApp a ∧ ae_status_code a = 400%Z ∧ ae_code a ∈ validation_codes.
Proof.
  induction nodes as [|n nodes IH]; intros m e Hraise Hf; [done|]. simpl in Hf.
  apply res_bind_Err in Hf as [Hf|(m' & _ & Hf)]; [|by eapply IH].
  unfold check_node, registry_get in Hf.
  destruct (m !! node_id n); [raised_app_error|].
  destruct (dict_get (node_type n) reg) as [ex|] eqn:Hget;
    [|raised_app_error].
  destruct (validate_config ex (node_config n)) as [u|e'] eqn:Hcfg; [done|].
  destruct (Hraise (node_type n) ex (node_config n) e') as [a ->];
    [unfold registry_get; by rewrite Hget|done|].
  raised_app_error.
Qed.

Lemma add_edges_errors (nodes_by_id : gmap string Node) edges : ∀ adj ind e,
  (∀ i, is_Some (nodes_by_id !! i) → is_Some (ind !! i)) →
  foldM (add_edge nodes_by_id) (adj, ind) edges = Err e →
  ∃ a, e = EApp a ∧ ae_status_code a = 400%Z ∧ ae_code a = "missing_edge_reference"%string.
Proof.
  induction edges as [|x edges IH]; intros adj ind e Hdom Hf; [done|]. simpl in Hf.
  destruct (nodes_by_id !! from_node x) eqn:Hfrom; [|raised_app_error].
  destruct (nodes_by_id !! to_node x) eqn:Hto; [|raised_app_error].
  destruct (Hdom (to_node x)) as [d Hd]; [by eexists|]. rewrite Hd in Hf. simpl in Hf.
  eapply IH; [|exact Hf]. intros i Hi. rewrite lookup_insert_is_Some'. by right; apply Hdom.
Qed.

(** C15. The only exceptions of [validate_workflow] are 400 [AppError]s: the code
    is [cycle_detected] exactly when everything but acyclicity holds, and
    otherwise one of the four codes of the earlier passes. In particular the
    [while] loop always ends and no [KeyError] escapes. *)
Theorem validate_workflow_errors wf e :
  raises_only_app_errors → validate_workflow wf reg = Err e →
  ∃ a, e = EApp a ∧ ae_status_code a = 400%Z ∧
    (if decide (ae_code a = "cycle_detected"%string)
     then well_formed reg wf ∧ ¬ acyclic wf
     else ae_code a ∈ validation_codes ∧ ¬ well_formed reg wf).
Proof.
  intros Hraise Hv.
  assert (well_formed reg wf → ∃ msg, e = cycle_error msg ∧ ¬ acyclic wf) as Hcyc.
  { intros Hwf. destruct (validate_workflow_run reg wf Hwf) as (order & msg & _ & _ & _ & Hac & Hrun).
    rewrite Hrun in Hv. case_match eqn:Hlen; [done|]. apply Nat.eqb_neq in Hlen.
    injection Hv as <-. exists msg. split; [done|]. by rewrite <- Hac. }
  pose proof Hv as Hv'. unfold validate_workflow in Hv'.
  apply res_bind_Err in Hv' as [Hn|(m & Hm & Hv')].
  { destruct (check_nodes_errors _ _ _ Hraise Hn) as (a & -> & Hs & Hc).
    exists a. split_and!; [done..|].
    rewrite decide_False by (intros Heq; rewrite Heq in Hc; set_solver).
    split; [done|]. intros Hwf. destruct (Hcyc Hwf) as (msg & [= ->] & _). set_solver. }
  pose proof (check_nodes_Ok _ _ _ _ Hm) as (Hnd & Hacc & _ & Hdom).
  destruct (decide (Forall (fun e' => is_Some (m !! from_node e') ∧ is_Some (m !! to_node e'))
                      (wf_edges wf))) as [Hends|Hends]; rewrite Forall_forall in Hends.
  - assert (well_formed reg wf) as Hwf.
    { split; [done..|]. intros a b (e' & [= -> ->] & He)%list_elem_of_fmap.
      specialize (Hends e' He). rewrite !Hdom, !lookup_empty, !is_Some_alt in Hends. naive_solver. }
    destruct (Hcyc Hwf) as (msg & -> & Hac). eexists. split_and!; [done..|]. by rewrite decide_True.
  - assert (¬ well_formed reg wf) as Hnwf.
    { intros Hwf. apply Hends. intros e' He. rewrite !Hdom.
      assert (from_node e' ∈ node_ids wf ∧ to_node e' ∈ node_ids wf) as [??]; [|by auto].
      apply (wf_endpoints _ _ Hwf). apply list_elem_of_fmap. by exists e'. }
    apply res_bind_Err in Hv' as [Hv'|(st & Hst & _)].
    + apply add_edges_errors in Hv' as (a & -> & Hs & Hc).
      * exists a. split_and!; [done..|]. rewrite Hc. cbn. split; [|done]. set_solver.
      * intros i Hi. rewrite Hdom, lookup_empty, is_Some_alt in Hi. destruct Hi as [Hi|Hi]; [done|].
        fold (initial_degrees (node_id <$> wf_nodes wf)). by rewrite initial_degrees_lookup.
    + exfalso. apply Hends. by eapply add_edges_endpoints.
Qed.

End properties.

(** ** Witnesses *)

(** A registry with one executor type that accepts every configuration. *)
Definition noop_executor : Executor unit :=
  mkExecutor "noop" (fun _ => Ok tt) (fun _ _ => Ok (success_result [])).
Definition noop_registry : ExecutorRegistry unit := register noop_executor [].

Definition noop_node (id : string) : Node := mkNode id "noop" "" [] None.

(** a -> b, a -> c, b -> d, c -> d. *)
Definition diamond : WorkflowDefinition :=
  mkWorkflowDefinition "diamond" "" (noop_node <$> ["a"; "b"; "c"; "d"]%string)
    [mkEdge "a" "b" None; mkEdge "a" "c" None; mkEdge "b" "d" None; mkEdge "c" "d" None] None.

Definition two_cycle : WorkflowDefinition :=
  mkWorkflowDefinition "loop" "" (noop_node <$> ["r"; "a"; "b"]%string)
    [mkEdge "r" "a" None; mkEdge "a" "b" None; mkEdge "b" "a" None] None.

Example diamond_order :
  validate_workflow diamond noop_registry =
    Ok (mkValidationResult true ["a"] ["a"; "b"; "c"; "d"])%string.
Proof. vm_compute. reflexivity. Qed.

Lemma validate_workflow_topological_witness :
  ∃ r, validate_workflow diamond noop_registry = Ok r ∧ topological diamond (topological_order r).
Proof.
  exists (mkValidationResult true ["a"] ["a"; "b"; "c"; "d"])%string.
  assert (validate_workflow diamond noop_registry =
          Ok (mkValidationResult true ["a"] ["a"; "b"; "c"; "d"])%string) as H
    by (vm_compute; reflexivity).
  split; [exact H|].
  apply (validate_workflow_topological noop_registry diamond _ H).
Defined.

Lemma validate_workflow_errors_witness :
  ∃ a, validate_workflow two_cycle noop_registry = Err (EApp a) ∧
       ae_code a = "cycle_detected"%string ∧ ¬ acyclic two_cycle.
Proof.
  assert (raises_only_app_errors noop_registry) as Hr.
  { intros t ex cfg e Hget Hcfg. unfold registry_get in Hget. simpl in Hget.
    case_decide; [|done]. injection Hget as <-. done. }
  set (a := app_error "Workflow contains a cycle." "cycle_detected").
  assert (validate_workflow two_cycle noop_registry = Err (EApp a)) as H
    by (vm_compute; reflexivity).
  exists a. split; [exact H|]. split; [reflexivity|].
  destruct (validate_workflow_errors noop_registry two_cycle _ Hr H) as (a' & Ha & _ & Hc).
  injection Ha as <-. apply Hc.
Defined.
