(* ===== verification/Events.v ===== *)
(** * WebSocket event envelopes (src/backend/app/websocket/events.py) *)

From S2P Require Import Prelude Json PyStr Models.

(** The dictionary [_envelope] builds. The timestamp is the instant that the code
    prints in ISO format. *)
Record Envelope : Type := mkEnvelope {
  env_type : string;
  env_execution_id : option string;
  env_timestamp : datetime;
  env_data : pydict
}.

Definition EVENT_EXECUTION_UPDATED : string := "execution_updated".
Definition EVENT_NODE_UPDATED : string := "node_updated".
Definition EVENT_EXECUTION_LOG : string := "execution_log".
Definition EVENT_WORKER_UPDATED : string := "worker_updated".
Definition EVENT_PING : string := "ping".

Definition envelope (event_type : string) (execution_id : option uuid) (now : datetime)
    (data : pydict) : Envelope :=
  mkEnvelope event_type (uuid_str <$> execution_id) now data.

Definition execution_updated (execution_id : uuid) (status : string) (now : datetime) : Envelope :=
  envelope EVENT_EXECUTION_UPDATED (Some execution_id) now [("status", JStr status)].

Definition node_updated (execution_id node_execution_id : uuid) (node_id status : string)
    (attempt : Z) (now : datetime) : Envelope :=
  envelope EVENT_NODE_UPDATED (Some execution_id) now
    [("node_execution_id", JStr (uuid_str node_execution_id));
     ("node_id", JStr node_id); ("status", JStr status); ("attempt", JInt attempt)].

Definition json_opt_str (o : option string) : json :=
  match o with Some s => JStr s | None => JNull end.

Definition json_opt_dict (o : option pydict) : json :=
  match o with Some d => JDict d | None => JNull end.

Definition execution_log (execution_id : uuid) (level event_type message : string)
    (node_execution_id : option uuid) (metadata : option pydict) (now : datetime) : Envelope :=
  envelope EVENT_EXECUTION_LOG (Some execution_id) now
    [("node_execution_id", json_opt_str (uuid_str <$> node_execution_id));
     ("level", JStr level); ("event_type", JStr event_type); ("message", JStr message);
     ("metadata", json_opt_dict metadata)].

Definition worker_updated (execution_id : option uuid) (worker_id : uuid) (status : string)
    (current_job_id : option string) (now : datetime) : Envelope :=
  envelope EVENT_WORKER_UPDATED execution_id now
    [("worker_id", JStr (uuid_str worker_id)); ("status", JStr status);
     ("current_job_id", json_opt_str current_job_id)].

Definition ping (now : datetime) : Envelope := envelope EVENT_PING None now [].
