(* ===== verification/Monad.v ===== *)
(** * The state and exception monad

    A call maps the state to a value or an exception, and the state after it; effects that
    happened before an exception stay. Equations run a call one step, and [wp] is the
    weakest precondition of a call, with one postcondition for its value and one for its
    exception. [wp m Φ no_error w] says that [m] returns: it is total correctness. *)

From S2P Require Import Prelude Json Errors.

Definition SE (S A : Type) : Type := S → res exc A * S.

#[export] Instance SE_ret {S} : MRet (SE S) := fun A a w => (Ok a, w).
#[export] Instance SE_bind {S} : MBind (SE S) := fun A B f m w =>
  match m w with (Ok a, w') => f a w' | (Err e, w') => (Err e, w') end.

Section effects.
Context {S : Type}.

Definition raise {A} (e : exc) : SE S A := fun w => (Err e, w).
Definition gets {A} (f : S → A) : SE S A := fun w => (Ok (f w), w).
Definition modify (f : S → S) : SE S () := fun w => (Ok (), f w).

(** A pure computation that may raise. *)
Definition lift {A} (r : res exc A) : SE S A := fun w => (r, w).

(** [for x in l: body(x)]. *)
Fixpoint for_each {A} (body : A → SE S ()) (l : list A) : SE S () :=
  match l with
  | [] => mret ()
  | x :: l' => body x ≫= fun _ => for_each body l'
  end.

(** [[body(x) for x in l]] and list-building loops. *)
Fixpoint for_collect {A B} (body : A → SE S B) (l : list A) : SE S (list B) :=
  match l with
  | [] => mret []
  | x :: l' => y ← body x; ys ← for_collect body l'; mret (y :: ys)
  end.

(** Loops that append to a list in some passes. *)
Fixpoint for_omap {A B} (body : A → SE S (option B)) (l : list A) : SE S (list B) :=
  match l with
  | [] => mret []
  | x :: l' =>
      y ← body x; ys ← for_omap body l';
      mret (match y with Some y => y :: ys | None => ys end)
  end.

End effects.

Section running.
Context {S : Type}.
Implicit Types w : S.

Lemma run_bind {A B} (m : SE S A) (f : A → SE S B) w :
  (m ≫= f) w = match m w with (Ok a, w') => f a w' | (Err e, w') => (Err e, w') end.
Proof. reflexivity. Qed.

Lemma run_bind_Ok {A B} (m : SE S A) (f : A → SE S B) w a w' :
  m w = (Ok a, w') → (m ≫= f) w = f a w'.
Proof. rewrite run_bind. by intros ->. Qed.

Lemma run_bind_Err {A B} (m : SE S A) (f : A → SE S B) w e w' :
  m w = (Err e, w') → (m ≫= f) w = (Err e, w').
Proof. rewrite run_bind. by intros ->. Qed.

(** A bind that returned. *)
Lemma run_bind_inv {A B} (m : SE S A) (f : A → SE S B) w b w' :
  (m ≫= f) w = (Ok b, w') → ∃ a w1, m w = (Ok a, w1) ∧ f a w1 = (Ok b, w').
Proof. rewrite run_bind. destruct (m w) as [[a|e] w1]; [by exists a, w1|done]. Qed.

(** ** Weakest preconditions *)

Definition wp {A} (m : SE S A) (Φ : A → S → Prop) (Ψ : exc → S → Prop) w : Prop :=
  match m w with (Ok a, w') => Φ a w' | (Err e, w') => Ψ e w' end.

Definition no_error : exc → S → Prop := fun _ _ => False.

Lemma wp_run {A} (m : SE S A) Φ Ψ w a w' : m w = (Ok a, w') → Φ a w' → wp m Φ Ψ w.
Proof. unfold wp. by intros ->. Qed.

Lemma wp_run_err {A} (m : SE S A) Φ Ψ w e w' : m w = (Err e, w') → Ψ e w' → wp m Φ Ψ w.
Proof. unfold wp. by intros ->. Qed.

Lemma wp_ret {A} (a : A) (Φ : A → S → Prop) Ψ w : Φ a w → wp (mret a) Φ Ψ w.
Proof. done. Qed.

Lemma wp_raise {A} e (Φ : A → S → Prop) (Ψ : exc → S → Prop) w :
  Ψ e w → wp (raise e) Φ Ψ w.
Proof. done. Qed.

Lemma wp_gets {A} (f : S → A) (Φ : A → S → Prop) Ψ w : Φ (f w) w → wp (gets f) Φ Ψ w.
Proof. done. Qed.

Lemma wp_modify f (Φ : () → S → Prop) Ψ w : Φ () (f w) → wp (modify f) Φ Ψ w.
Proof. done. Qed.

Lemma wp_lift {A} (r : res exc A) (Φ : A → S → Prop) (Ψ : exc → S → Prop) w :
  match r with Ok a => Φ a w | Err e => Ψ e w end → wp (lift r) Φ Ψ w.
Proof. by destruct r. Qed.

Lemma wp_bind {A B} (m : SE S A) (f : A → SE S B) Φ Ψ w :
  wp m (fun a w' => wp (f a) Φ Ψ w') Ψ w → wp (m ≫= f) Φ Ψ w.
Proof. unfold wp. rewrite run_bind. by destruct (m w) as [[a|e] w']. Qed.

Lemma wp_mono {A} (m : SE S A) (Φ Φ' : A → S → Prop) (Ψ Ψ' : exc → S → Prop) w :
  wp m Φ Ψ w → (∀ a w', Φ a w' → Φ' a w') → (∀ e w', Ψ e w' → Ψ' e w') → wp m Φ' Ψ' w.
Proof. unfold wp. destruct (m w) as [[a|e] w']; auto. Qed.

Lemma wp_total {A} (m : SE S A) (Φ : A → S → Prop) Ψ w :
  wp m Φ no_error w → wp m Φ Ψ w.
Proof. intros H. eapply wp_mono; [exact H|done|done]. Qed.

Lemma wp_total_run {A} (m : SE S A) (Φ : A → S → Prop) w :
  wp m Φ no_error w → ∃ a w', m w = (Ok a, w') ∧ Φ a w'.
Proof. unfold wp. destruct (m w) as [[a|e] w']; [eauto|done]. Qed.

(** What a run of a call satisfies. *)
Lemma wp_adequate {A} (m : SE S A) (P : res exc A → S → Prop) w r w' :
  m w = (r, w') → wp m (fun a => P (Ok a)) (fun e => P (Err e)) w → P r w'.
Proof. unfold wp. intros ->. by destruct r. Qed.

(** A loop keeps an invariant indexed by the elements still to do. *)
Lemma wp_for_each {A} (body : A → SE S ()) (l : list A) (I : list A → S → Prop) Ψ w :
  I l w →
  (∀ x l' w, I (x :: l') w → wp (body x) (fun _ => I l') Ψ w) →
  wp (for_each body l) (fun _ => I []) Ψ w.
Proof.
  intros HI Hstep. revert w HI. induction l as [|x l IH]; intros w HI; [done|]. simpl.
  apply wp_bind. eapply wp_mono; [by apply Hstep|auto|auto].
Qed.

Lemma wp_for_collect {A B} (body : A → SE S B) (l : list A)
    (I : list A → list B → S → Prop) Ψ w :
  I [] [] w →
  (∀ dn ys x l' w, l = dn ++ x :: l' → I dn ys w →
     wp (body x) (fun y => I (dn ++ [x]) (ys ++ [y])) Ψ w) →
  wp (for_collect body l) (I l) Ψ w.
Proof.
  intros HI Hstep.
  assert (∀ l' dn ys w, l = dn ++ l' → I dn ys w →
          wp (for_collect body l') (fun zs => I l (ys ++ zs)) Ψ w) as Hgen.
  { induction l' as [|x l' IH]; intros dn ys w0 Hl HI0; simpl.
    - apply wp_ret. rewrite app_nil_r in Hl. subst. by rewrite app_nil_r.
    - apply wp_bind. eapply wp_mono; [by eapply Hstep| |done]. intros y w1 HI1.
      apply wp_bind. eapply wp_mono; [apply (IH (dn ++ [x]) (ys ++ [y])); [|done]| |done].
      + by rewrite <- app_assoc.
      + cbv beta. intros zs w2 Hz. apply wp_ret. by rewrite <- app_assoc in Hz. }
  by apply (Hgen l [] []).
Qed.

Lemma wp_for_omap {A B} (body : A → SE S (option B)) (l : list A)
    (I : list A → list B → S → Prop) Ψ w :
  I [] [] w →
  (∀ dn ys x l' w, l = dn ++ x :: l' → I dn ys w →
     wp (body x) (fun y => I (dn ++ [x]) (ys ++ option_list y)) Ψ w) →
  wp (for_omap body l) (I l) Ψ w.
Proof.
  intros HI Hstep.
  assert (∀ l' dn ys w, l = dn ++ l' → I dn ys w →
          wp (for_omap body l') (fun zs => I l (ys ++ zs)) Ψ w) as Hgen.
  { induction l' as [|x l' IH]; intros dn ys w0 Hl HI0; simpl.
    - apply wp_ret. rewrite app_nil_r in Hl. subst. by rewrite app_nil_r.
    - apply wp_bind. eapply wp_mono; [by eapply Hstep| |done]. intros y w1 HI1.
      apply wp_bind. eapply wp_mono; [apply (IH (dn ++ [x]) (ys ++ option_list y)); [|done]| |done].
      + by rewrite <- app_assoc.
      + cbv beta. intros zs w2 Hz. apply wp_ret. rewrite <- app_assoc in Hz. by destruct y. }
  by apply (Hgen l [] []).
Qed.

End running.

Create HintDb wp.
#[export] Hint Resolve wp_ret wp_raise wp_gets wp_modify wp_lift : wp.
