(* ===== verification/Store.v ===== *)
(** * The database, the session and the effect monad

    The tables the engine and the worker share, the SQLAlchemy session through
    which the code reads and writes them (src/backend/app/db/session.py creates
    it with [expire_on_commit=False]), and the monad in which the services are
    written.

    A session keeps one object per row it has seen (the identity map) and its
    objects stay as loaded until a query with [populate_existing]. A write
    updates the object and, at the flush, the assigned columns of the row. The
    transaction's view becomes the committed database at [commit]; closing the
    session drops what was not committed. *)

From S2P Require Import Prelude Json PyStr Errors Models Events Monad.

(** ** Tables *)

Record DB : Type := mkDB {
  db_workflows : gmap uuid Workflow;
  db_versions : gmap uuid WorkflowVersion;
  db_executions : gmap uuid Execution;
  db_nodes : gmap uuid NodeExecution;
  db_dlq : gmap uuid DeadLetterJob;
  db_logs : list ExecutionLog
}.

Definition empty_db : DB := mkDB ∅ ∅ ∅ ∅ ∅ [].

Definition db_set_workflows f d : DB :=
  mkDB (f (db_workflows d)) (db_versions d) (db_executions d) (db_nodes d) (db_dlq d) (db_logs d).
Definition db_set_versions f d : DB :=
  mkDB (db_workflows d) (f (db_versions d)) (db_executions d) (db_nodes d) (db_dlq d) (db_logs d).
Definition db_set_executions f d : DB :=
  mkDB (db_workflows d) (db_versions d) (f (db_executions d)) (db_nodes d) (db_dlq d) (db_logs d).
Definition db_set_nodes f d : DB :=
  mkDB (db_workflows d) (db_versions d) (db_executions d) (f (db_nodes d)) (db_dlq d) (db_logs d).
Definition db_set_dlq f d : DB :=
  mkDB (db_workflows d) (db_versions d) (db_executions d) (db_nodes d) (f (db_dlq d)) (db_logs d).
Definition db_set_logs f d : DB :=
  mkDB (db_workflows d) (db_versions d) (db_executions d) (db_nodes d) (db_dlq d) (f (db_logs d)).

(** ** Session *)

(** [s_nodes] and [s_execs] are the identity map; [s_events] is
    [session.info["ws_events"]]. *)
Record Session : Type := mkSession {
  s_nodes : gmap uuid NodeExecution;
  s_execs : gmap uuid Execution;
  s_events : list Envelope
}.

Definition new_session : Session := mkSession ∅ ∅ [].

Definition s_set_nodes f s : Session := mkSession (f (s_nodes s)) (s_execs s) (s_events s).
Definition s_set_execs f s : Session := mkSession (s_nodes s) (f (s_execs s)) (s_events s).
Definition s_set_events f s : Session := mkSession (s_nodes s) (s_execs s) (f (s_events s)).

(** ** World

    [Q] is the state of the queue publisher. [w_channel] holds the messages
    published on the Redis channel [eventflow:ws], [w_redis_up] whether that
    publishing works. [uuid.uuid4()] draws the next identifier of a supply that
    never repeats one; [datetime.now] reads [w_now], which only the environment
    advances. *)
Record World (Q : Type) : Type := mkWorld {
  w_db : DB;
  w_committed : DB;
  w_session : Session;
  w_queue : Q;
  w_channel : list (string * Envelope);
  w_redis_up : bool;
  w_now : datetime;
  w_next_uuid : uuid
}.

Arguments mkWorld {Q} _ _ _ _ _ _ _ _.
Arguments w_db {Q} _.
Arguments w_committed {Q} _.
Arguments w_session {Q} _.
Arguments w_queue {Q} _.
Arguments w_channel {Q} _.
Arguments w_redis_up {Q} _.
Arguments w_now {Q} _.
Arguments w_next_uuid {Q} _.

Section world.
Context {Q : Type}.
Implicit Types w : World Q.

Definition w_set_db (f : DB → DB) w : World Q :=
  mkWorld (f (w_db w)) (w_committed w) (w_session w) (w_queue w) (w_channel w) (w_redis_up w)
    (w_now w) (w_next_uuid w).
Definition w_set_session (f : Session → Session) w : World Q :=
  mkWorld (w_db w) (w_committed w) (f (w_session w)) (w_queue w) (w_channel w) (w_redis_up w)
    (w_now w) (w_next_uuid w).
Definition w_set_queue (q : Q) w : World Q :=
  mkWorld (w_db w) (w_committed w) (w_session w) q (w_channel w) (w_redis_up w)
    (w_now w) (w_next_uuid w).
Definition w_set_channel (f : list (string * Envelope) → list (string * Envelope)) w : World Q :=
  mkWorld (w_db w) (w_committed w) (w_session w) (w_queue w) (f (w_channel w)) (w_redis_up w)
    (w_now w) (w_next_uuid w).
Definition w_commit w : World Q :=
  mkWorld (w_db w) (w_db w) (w_session w) (w_queue w) (w_channel w) (w_redis_up w)
    (w_now w) (w_next_uuid w).
Definition w_close w : World Q :=
  mkWorld (w_committed w) (w_committed w) new_session (w_queue w) (w_channel w) (w_redis_up w)
    (w_now w) (w_next_uuid w).
Definition w_bump w : World Q :=
  mkWorld (w_db w) (w_committed w) (w_session w) (w_queue w) (w_channel w) (w_redis_up w)
    (w_now w) (N.succ (w_next_uuid w)).

End world.

(** A service call maps the world to a value or an exception, and the world after it. *)
Abbreviation M Q := (SE (World Q)).

Section effects.
Context {Q : Type}.

Definition datetime_now : M Q datetime := gets w_now.
Definition uuid4 : M Q uuid := fun w => (Ok (w_next_uuid w), w_bump w).

(** [session.commit()]. *)
Definition commit : M Q () := modify w_commit.

(** Leaving [async with session_factory() as session]. *)
Definition close_session : M Q () := modify w_close.

(** [async with session_factory() as session: m]: closing rolls back what is not committed. *)
Definition with_session {A} (m : M Q A) : M Q A := fun w =>
  let '(r, w') := m (w_close w) in (r, w_close w').

Definition update_db (f : DB → DB) : M Q () := modify (w_set_db f).

(** ** Node executions *)

(** [session.get(NodeExecution, id)]: the session's object if it has one,
    otherwise the row. *)
Definition get_node (id : uuid) : M Q (option NodeExecution) := fun w =>
  match s_nodes (w_session w) !! id with
  | Some n => (Ok (Some n), w)
  | None =>
      match db_nodes (w_db w) !! id with
      | Some n => (Ok (Some n), w_set_session (s_set_nodes (<[id := n]>)) w)
      | None => (Ok None, w)
      end
  end.

(** [select(NodeExecution).where(NodeExecution.id == id)] and
    [scalar_one_or_none]: no row, no object; an object already loaded keeps its
    attributes. *)
Definition select_node (id : uuid) : M Q (option NodeExecution) := fun w =>
  match db_nodes (w_db w) !! id with
  | None => (Ok None, w)
  | Some _ => get_node id w
  end.

(** The attributes of an object the session holds, as they are now. *)
Definition node_object (id : uuid) : M Q NodeExecution := fun w =>
  match s_nodes (w_session w) !! id with
  | Some n => (Ok n, w)
  | None => (Err EAttributeError, w)
  end.

(** Assign columns of an object and flush: [f] sets the assigned columns, of the
    object and of the row. An update that finds no row is [StaleDataError]. *)
Definition update_node (id : uuid) (f : NodeExecution → NodeExecution) : M Q () := fun w =>
  match db_nodes (w_db w) !! id with
  | None => (Err EStaleDataError, w)
  | Some _ =>
      (Ok (), w_set_db (db_set_nodes (alter f id)) (w_set_session (s_set_nodes (alter f id)) w))
  end.

(** [session.add(NodeExecution(...))] and flush. *)
Definition insert_node (n : NodeExecution) : M Q () := fun w =>
  (Ok (), w_set_db (db_set_nodes (<[ne_id n := n]>))
            (w_set_session (s_set_nodes (<[ne_id n := n]>)) w)).

(** The rows of an execution; the order of an unordered [SELECT] is that of
    the table. *)
Definition nodes_of_execution (d : DB) (execution_id : uuid) : gmap uuid NodeExecution :=
  filter (fun p => ne_execution_id p.2 = execution_id) (db_nodes d).

(** [select(NodeExecution).where(NodeExecution.execution_id == id)]; with
    [populate] the option [populate_existing] overwrites the loaded objects. *)
Definition select_nodes (populate : bool) (execution_id : uuid) : M Q (list NodeExecution) :=
  fun w =>
    let rows := nodes_of_execution (w_db w) execution_id in
    let cache := s_nodes (w_session w) in
    let cache' := if populate then rows ∪ cache else cache ∪ rows in
    (Ok (omap (fun id => cache' !! id) (map_to_list rows).*1),
     w_set_session (s_set_nodes (fun _ => cache')) w).

(** ** Executions *)

(** [session.get(Execution, id)]. *)
Definition get_execution_object (id : uuid) : M Q (option Execution) := fun w =>
  match s_execs (w_session w) !! id with
  | Some e => (Ok (Some e), w)
  | None =>
      match db_executions (w_db w) !! id with
      | Some e => (Ok (Some e), w_set_session (s_set_execs (<[id := e]>)) w)
      | None => (Ok None, w)
      end
  end.

(** [select(Execution).where(Execution.id == id)]; [with_for_update] locks the
    row and leaves a loaded object as it is. *)
Definition select_execution (id : uuid) : M Q (option Execution) := fun w =>
  match db_executions (w_db w) !! id with
  | None => (Ok None, w)
  | Some _ => get_execution_object id w
  end.

Definition execution_object (id : uuid) : M Q Execution := fun w =>
  match s_execs (w_session w) !! id with
  | Some e => (Ok e, w)
  | None => (Err EAttributeError, w)
  end.

Definition update_execution (id : uuid) (f : Execution → Execution) : M Q () := fun w =>
  match db_executions (w_db w) !! id with
  | None => (Err EStaleDataError, w)
  | Some _ =>
      (Ok (), w_set_db (db_set_executions (alter f id))
                (w_set_session (s_set_execs (alter f id)) w))
  end.

Definition insert_execution (e : Execution) : M Q () := fun w =>
  (Ok (), w_set_db (db_set_executions (<[ex_id e := e]>))
            (w_set_session (s_set_execs (<[ex_id e := e]>)) w)).

End effects.
