(* ===== verification/LogHelpers.v ===== *)
(** * Staged events and execution logs

    src/backend/app/websocket/broadcaster.py and
    src/backend/app/observability/log_helpers.py: events are buffered on the
    session and published after the commit; each log helper inserts one
    [ExecutionLog] row and stages its event. *)

From S2P Require Import Prelude Json PyStr Errors Models Events Monad Store.

Section broadcaster.
Context {Q : Type}.

(** [stage_event]. *)
Definition stage_event (e : Envelope) : M Q () :=
  modify (w_set_session (s_set_events (fun l => l ++ [e]))).

(** [_safe_broadcast]: publish on [eventflow:ws]; a failure is logged and dropped. *)
Definition safe_broadcast (execution_id : string) (message : Envelope) : M Q () := fun w =>
  (Ok (), if w_redis_up w then w_set_channel (fun c => c ++ [(execution_id, message)]) w else w).

(** The body of the loop of [broadcast_envelopes]: envelopes without an
    [execution_id] are skipped. *)
Definition broadcast_envelope (message : Envelope) : M Q () :=
  match env_execution_id message with
  | None => mret ()
  | Some execution_id => safe_broadcast execution_id message
  end.

(** [broadcast_envelopes]. *)
Definition broadcast_envelopes (messages : list Envelope) : M Q () :=
  for_each broadcast_envelope messages.

(** [flush_events]. *)
Definition flush_events : M Q () :=
  staged ← gets (fun w => s_events (w_session w));
  modify (w_set_session (s_set_events (fun _ => []))) ≫= fun _ =>
  broadcast_envelopes staged.

(** [broadcast_execution_updated], [broadcast_node_updated],
    [broadcast_execution_log] and [broadcast_worker_updated]. *)
Definition broadcast_execution_updated (execution_id : uuid) (status : string) : M Q () :=
  now ← datetime_now;
  safe_broadcast (uuid_str execution_id) (execution_updated execution_id status now).

Definition broadcast_node_updated (execution_id node_execution_id : uuid)
    (node_id status : string) (attempt : Z) : M Q () :=
  now ← datetime_now;
  safe_broadcast (uuid_str execution_id)
    (node_updated execution_id node_execution_id node_id status attempt now).

Definition broadcast_execution_log (execution_id : uuid) (level event_type message : string)
    (node_execution_id : option uuid) (metadata : option pydict) : M Q () :=
  now ← datetime_now;
  safe_broadcast (uuid_str execution_id)
    (execution_log execution_id level event_type message node_execution_id metadata now).

Definition broadcast_worker_updated (execution_id : option uuid) (worker_id : uuid)
    (status : string) (current_job_id : option string) : M Q () :=
  match execution_id with
  | None => mret ()
  | Some eid =>
      now ← datetime_now;
      safe_broadcast (uuid_str eid) (worker_updated (Some eid) worker_id status current_job_id now)
  end.

(** ** Log helpers *)

(** The event types. *)
Definition EVENT_EXECUTION_STARTED : string := "execution_started".
Definition EVENT_NODE_STARTED : string := "node_started".
Definition EVENT_NODE_SUCCEEDED : string := "node_succeeded".
Definition EVENT_NODE_FAILED : string := "node_failed".
Definition EVENT_RETRY_SCHEDULED : string := "retry_scheduled".
Definition EVENT_DEAD_LETTERED : string := "dead_lettered".
Definition EVENT_WORKER_RECOVERED_JOB : string := "job_recovered".

(** A log row refers to an existing execution and, if it names one, an existing
    node execution: the insert violates a foreign key otherwise. *)
Definition log_refers (d : DB) (execution_id : uuid) (node_execution_id : option uuid) : bool :=
  bool_decide (is_Some (db_executions d !! execution_id)) &&
  match node_execution_id with
  | Some nid => bool_decide (is_Some (db_nodes d !! nid))
  | None => true
  end.

(** [_add_log]. *)
Definition add_log (execution_id : uuid) (node_execution_id : option uuid) (level : LogLevel)
    (event_type message : string) (metadata : option pydict) : M Q () :=
  now ← datetime_now;
  log_id ← uuid4;
  d ← gets w_db;
  if log_refers d execution_id node_execution_id then
    update_db (db_set_logs (fun l => l ++ [mkExecutionLog log_id execution_id node_execution_id
                                             level event_type message metadata now])) ≫= fun _ =>
    stage_event (execution_log execution_id (log_level_name level) event_type message
                   node_execution_id metadata now)
  else raise EIntegrityError.

Definition execution_started (execution_id : uuid) : M Q () :=
  add_log execution_id None LINFO EVENT_EXECUTION_STARTED "Execution started" None.

Definition node_started (execution_id node_execution_id : uuid) (node_id : string) : M Q () :=
  add_log execution_id (Some node_execution_id) LINFO EVENT_NODE_STARTED
    ("Node " +:+ node_id +:+ " started") (Some [("node_id", JStr node_id)]).

Definition node_succeeded (execution_id node_execution_id : uuid) (node_id : string) : M Q () :=
  add_log execution_id (Some node_execution_id) LINFO EVENT_NODE_SUCCEEDED
    ("Node " +:+ node_id +:+ " succeeded") (Some [("node_id", JStr node_id)]).

Definition node_failed (execution_id node_execution_id : uuid) (node_id : string)
    (error : option string) : M Q () :=
  add_log execution_id (Some node_execution_id) LERROR EVENT_NODE_FAILED
    ("Node " +:+ node_id +:+ " failed")
    (Some [("node_id", JStr node_id); ("error", json_opt_str error)]).

Definition retry_scheduled (execution_id node_execution_id : uuid) (node_id : string)
    (attempt : Z) : M Q () :=
  add_log execution_id (Some node_execution_id) LWARNING EVENT_RETRY_SCHEDULED
    ("Node " +:+ node_id +:+ " retry scheduled (attempt " +:+ py_str_Z attempt +:+ ")")
    (Some [("node_id", JStr node_id); ("attempt", JInt attempt)]).

Definition dead_lettered (execution_id node_execution_id : uuid) (node_id : string)
    (reason : option string) : M Q () :=
  add_log execution_id (Some node_execution_id) LERROR EVENT_DEAD_LETTERED
    ("Node " +:+ node_id +:+ " dead-lettered")
    (Some [("node_id", JStr node_id); ("reason", json_opt_str reason)]).

Definition worker_recovered_job (execution_id node_execution_id : uuid)
    (redis_message_id : string) (previous_worker : option string) (claiming_worker reason : string)
    : M Q () :=
  add_log execution_id (Some node_execution_id) LINFO EVENT_WORKER_RECOVERED_JOB
    "Stale pending job reclaimed"
    (Some [("previous_worker", json_opt_str previous_worker);
           ("claiming_worker", JStr claiming_worker);
           ("redis_message_id", JStr redis_message_id);
           ("recovery_reason", JStr reason)]).

End broadcaster.
