(* ===== verification/StateTransition.v ===== *)
(** * State transitions (src/backend/app/services/state_transition.py) *)

From S2P Require Import Prelude Json PyStr Errors Models Events Monad Store LogHelpers.

(** Statuses that end a run of a node and of an execution. *)
Definition node_finished_statuses : list NodeExecutionStatus :=
  [NSUCCEEDED; NFAILED; NSKIPPED; NDEAD_LETTERED].
Definition execution_finished_statuses : list ExecutionStatus :=
  [ESUCCEEDED; EFAILED; EPARTIAL_FAILED; ECANCELLED].

(** The columns a transition of an execution assigns. *)
Definition enter_execution_status (to_status : ExecutionStatus) (now : datetime)
    (e : Execution) : Execution :=
  mkExecution (ex_id e) (ex_workflow_id e) (ex_workflow_version_id e) to_status
    (if decide (to_status = ERUNNING) then Some now else ex_started_at e)
    (if decide (to_status ≠ ERUNNING ∧ to_status ∈ execution_finished_statuses)
     then Some now else ex_finished_at e)
    (ex_triggered_by e) (ex_input_payload e) (ex_error_message e).

(** The columns a transition of a node assigns; [attempt] is the object's counter
    plus one when the node enters [QUEUED]. *)
Definition enter_node_status (to_status : NodeExecutionStatus) (now : datetime) (attempt : Z)
    (n : NodeExecution) : NodeExecution :=
  mkNodeExecution (ne_id n) (ne_execution_id n) (ne_node_id n) (ne_node_type n) to_status
    (if decide (to_status = NQUEUED) then attempt + 1 else ne_attempt n)%Z
    (ne_max_attempts n) (ne_input_payload n) (ne_output_payload n) (ne_error_message n)
    (ne_idempotency_key n) (ne_redis_message_id n) (ne_worker_id n)
    (if decide (to_status = NQUEUED) then Some now else ne_queued_at n)
    (if decide (to_status = NRUNNING) then Some now else ne_started_at n)
    (if decide (to_status ∈ node_finished_statuses) then Some now else ne_finished_at n).

Section transitions.
Context {Q : Type}.

Definition not_found (what : string) : exc :=
  EApp (app_error_status (what +:+ " not found") "not_found" 404).

Definition invalid_transition (what from to expected : string) : exc :=
  EApp (app_error ("Invalid " +:+ what +:+ " transition: cannot transition from " +:+ from +:+
                   " to " +:+ to +:+ " (expected " +:+ expected +:+ ")") "invalid_transition").

(** [transition_execution_status]. *)
Definition transition_execution_status (execution_id : uuid)
    (from_status to_status : ExecutionStatus) : M Q Execution :=
  execution ← select_execution execution_id;
  match execution with
  | None => raise (not_found "Execution")
  | Some execution =>
      if decide (ex_status execution ≠ from_status) then
        raise (invalid_transition "execution" (execution_status_name (ex_status execution))
                 (execution_status_name to_status) (execution_status_name from_status))
      else
        now ← datetime_now;
        update_execution execution_id (enter_execution_status to_status now) ≫= fun _ =>
        stage_event (execution_updated execution_id (execution_status_name to_status) now) ≫= fun _ =>
        execution_object execution_id
  end.

(** [transition_node_status]. *)
Definition transition_node_status (node_execution_id : uuid)
    (from_status to_status : NodeExecutionStatus) : M Q NodeExecution :=
  node ← select_node node_execution_id;
  match node with
  | None => raise (not_found "NodeExecution")
  | Some node =>
      if decide (ne_status node ≠ from_status) then
        raise (invalid_transition "node" (node_status_name (ne_status node))
                 (node_status_name to_status) (node_status_name from_status))
      else
        now ← datetime_now;
        update_node node_execution_id (enter_node_status to_status now (ne_attempt node)) ≫= fun _ =>
        node ← node_object node_execution_id;
        stage_event (node_updated (ne_execution_id node) (ne_id node) (ne_node_id node)
                       (node_status_name to_status) (ne_attempt node) now) ≫= fun _ =>
        mret node
  end.

(** ** Running a transition *)

Lemma transition_node_eq (id : uuid) from to (w : World Q) :
  let loaded := (get_node id w).2 in
  transition_node_status id from to w =
  match db_nodes (w_db w) !! id with
  | None => (Err (not_found "NodeExecution"), w)
  | Some row =>
      let node := default row (s_nodes (w_session w) !! id) in
      if decide (ne_status node = from) then
        let enter := enter_node_status to (w_now w) (ne_attempt node) in
        let written := w_set_db (db_set_nodes (alter enter id))
                         (w_set_session (s_set_nodes (alter enter id)) loaded) in
        (Ok (enter node),
         w_set_session (s_set_events (fun l => l ++
           [node_updated (ne_execution_id node) (ne_id node) (ne_node_id node)
              (node_status_name to) (ne_attempt (enter node)) (w_now w)])) written)
      else
        (Err (invalid_transition "node" (node_status_name (ne_status node)) (node_status_name to)
                (node_status_name from)), loaded)
  end.
Proof.
  cbv zeta. unfold transition_node_status, select_node, get_node. rewrite run_bind.
  destruct (db_nodes (w_db w) !! id) as [row|] eqn:Hrow; [|done].
  destruct (s_nodes (w_session w) !! id) as [obj|] eqn:Hobj; cbn;
    [destruct (decide (ne_status obj = from)) as [Hst|Hst]
    |destruct (decide (ne_status row = from)) as [Hst|Hst]];
    rewrite ?decide_True by done; try (rewrite decide_False by auto); try reflexivity;
    rewrite run_bind; cbn [datetime_now gets]; rewrite run_bind; unfold update_node; cbn;
    rewrite Hrow, run_bind; unfold stage_event, modify, node_object; cbn;
    rewrite ?lookup_alter_eq, ?lookup_insert_eq, ?Hobj; reflexivity.
Qed.

Lemma transition_execution_eq (id : uuid) from to (w : World Q) :
  let loaded := (get_execution_object id w).2 in
  transition_execution_status id from to w =
  match db_executions (w_db w) !! id with
  | None => (Err (not_found "Execution"), w)
  | Some row =>
      let execution := default row (s_execs (w_session w) !! id) in
      if decide (ex_status execution = from) then
        let enter := enter_execution_status to (w_now w) in
        let written := w_set_db (db_set_executions (alter enter id))
                         (w_set_session (s_set_execs (alter enter id)) loaded) in
        (Ok (enter execution),
         w_set_session (s_set_events (fun l => l ++
           [execution_updated id (execution_status_name to) (w_now w)])) written)
      else
        (Err (invalid_transition "execution" (execution_status_name (ex_status execution))
                (execution_status_name to) (execution_status_name from)), loaded)
  end.
Proof.
  cbv zeta. unfold transition_execution_status, select_execution, get_execution_object. rewrite run_bind.
  destruct (db_executions (w_db w) !! id) as [row|] eqn:Hrow; [|done].
  destruct (s_execs (w_session w) !! id) as [obj|] eqn:Hobj; cbn;
    [destruct (decide (ex_status obj = from)) as [Hst|Hst]
    |destruct (decide (ex_status row = from)) as [Hst|Hst]];
    rewrite ?decide_True by done; try (rewrite decide_False by auto); try reflexivity;
    rewrite run_bind; cbn [datetime_now gets]; rewrite run_bind; unfold update_execution; cbn;
    rewrite Hrow, run_bind; unfold stage_event, modify, execution_object; cbn;
    rewrite ?lookup_alter_eq, ?lookup_insert_eq, ?Hobj; reflexivity.
Qed.

(** ** Properties *)

(** [transition_node_status] on every branch: a missing row is a 404; an object in another
    status than [from_status] is a 400 [invalid_transition] and nothing is written; otherwise
    the status, the attempt counter (plus one on entering [QUEUED]) and the timestamps of that
    row, and of no other, are set, one [node_updated] event is staged, and the object is
    returned. The guard reads the session's object where the session has one. *)
Theorem transition_node_status_spec (id : uuid) from to (w : World Q) :
  let loaded := (get_node id w).2 in
  transition_node_status id from to w =
  match db_nodes (w_db w) !! id with
  | None => (Err (not_found "NodeExecution"), w)
  | Some row =>
      let node := default row (s_nodes (w_session w) !! id) in
      if decide (ne_status node = from) then
        let enter := enter_node_status to (w_now w) (ne_attempt node) in
        let written := w_set_db (db_set_nodes (alter enter id))
                         (w_set_session (s_set_nodes (alter enter id)) loaded) in
        (Ok (enter node),
         w_set_session (s_set_events (fun l => l ++
           [node_updated (ne_execution_id node) (ne_id node) (ne_node_id node)
              (node_status_name to) (ne_attempt (enter node)) (w_now w)])) written)
      else
        (Err (invalid_transition "node" (node_status_name (ne_status node)) (node_status_name to)
                (node_status_name from)), loaded)
  end.
Proof. apply transition_node_eq. Qed.

(** [transition_execution_status] on every branch, in the same way; [started_at] is set on
    entering [RUNNING] and [finished_at] on entering one of the four final statuses. *)
Theorem transition_execution_status_spec (id : uuid) from to (w : World Q) :
  let loaded := (get_execution_object id w).2 in
  transition_execution_status id from to w =
  match db_executions (w_db w) !! id with
  | None => (Err (not_found "Execution"), w)
  | Some row =>
      let execution := default row (s_execs (w_session w) !! id) in
      if decide (ex_status execution = from) then
        let enter := enter_execution_status to (w_now w) in
        let written := w_set_db (db_set_executions (alter enter id))
                         (w_set_session (s_set_execs (alter enter id)) loaded) in
        (Ok (enter execution),
         w_set_session (s_set_events (fun l => l ++
           [execution_updated id (execution_status_name to) (w_now w)])) written)
      else
        (Err (invalid_transition "execution" (execution_status_name (ex_status execution))
                (execution_status_name to) (execution_status_name from)), loaded)
  end.
Proof. apply transition_execution_eq. Qed.

End transitions.
