(* ===== verification/Tx.v ===== *)
(** * A transaction on one execution

    The services that move an execution forward read and write the rows of that
    execution only. [in_tx] describes what such a transaction works on: the node rows
    by node id, the execution's row and the session's object for it, and the dead
    letter table. [tx_frame] says what a transaction leaves alone. Each operation has
    a [wp] rule that updates the description. *)

From S2P Require Import Prelude Json PyStr Errors Models Events Monad Store LogHelpers.
From S2P Require Import StateTransition.

(** ** Rows of an execution *)

(** The node rows of an execution, by node id. *)
Definition rows_of (d : DB) (eid : uuid) : gmap string NodeExecution :=
  list_to_map ((fun p => (ne_node_id p.2, p.2)) <$> map_to_list (nodes_of_execution d eid)).

(** Primary keys, foreign keys and unique constraints of the tables. *)
Record db_wf (d : DB) : Prop := {
  dw_node_key id n : db_nodes d !! id = Some n → ne_id n = id;
  dw_exec_key id e : db_executions d !! id = Some e → ex_id e = id;
  dw_version_key id v : db_versions d !! id = Some v → wv_id v = id;
  dw_workflow_key id wf : db_workflows d !! id = Some wf → w_id wf = id;
  dw_node_unique i j n m :
    db_nodes d !! i = Some n → db_nodes d !! j = Some m →
    ne_execution_id n = ne_execution_id m → ne_node_id n = ne_node_id m → i = j;
  dw_node_exec id n : db_nodes d !! id = Some n → is_Some (db_executions d !! ne_execution_id n);
  dw_exec_version id e : db_executions d !! id = Some e →
    ∃ v wf, db_versions d !! ex_workflow_version_id e = Some v ∧
            db_workflows d !! ex_workflow_id e = Some wf ∧
            wv_workflow_id v = ex_workflow_id e;
  dw_dlq id j : db_dlq d !! id = Some j →
    ∃ n, db_nodes d !! dl_node_execution_id j = Some n ∧ ne_execution_id n = dl_execution_id j
}.

Lemma elem_of_nodes_of_execution d eid id n :
  nodes_of_execution d eid !! id = Some n ↔ db_nodes d !! id = Some n ∧ ne_execution_id n = eid.
Proof. unfold nodes_of_execution. by rewrite map_lookup_filter_Some. Qed.

Lemma rows_of_lookup d eid x n :
  db_wf d →
  rows_of d eid !! x = Some n ↔
    db_nodes d !! ne_id n = Some n ∧ ne_execution_id n = eid ∧ ne_node_id n = x.
Proof.
  intros Hwf. unfold rows_of. rewrite <- elem_of_list_to_map.
  - rewrite list_elem_of_fmap. split.
    + intros ([id m] & [= -> ->] & Hin). simpl. apply elem_of_map_to_list in Hin.
      apply elem_of_nodes_of_execution in Hin as [Hm He].
      by rewrite (dw_node_key _ Hwf _ _ Hm).
    + intros (Hn & He & Hx). exists (ne_id n, n). simpl. split; [by subst|].
      apply elem_of_map_to_list. by apply elem_of_nodes_of_execution.
  - rewrite <- list_fmap_compose. apply NoDup_fmap_2_strong; [|apply NoDup_map_to_list].
    intros [i n1] [j n2] Hi Hj Hx. simpl in *.
    apply elem_of_map_to_list, elem_of_nodes_of_execution in Hi as [Hi He1].
    apply elem_of_map_to_list, elem_of_nodes_of_execution in Hj as [Hj He2].
    assert (i = j) as -> by (eapply (dw_node_unique _ Hwf); [done|done|congruence|done]).
    congruence.
Qed.

(** ** The view of a transaction *)

Record Tx : Type := mkTx {
  tx_now : datetime;
  tx_rows : gmap string NodeExecution;
  tx_exec : Execution;
  tx_obj : Execution;
  tx_dlq : gmap uuid DeadLetterJob
}.

Definition tx_set_rows (f : gmap string NodeExecution → gmap string NodeExecution) (t : Tx) : Tx :=
  mkTx (tx_now t) (f (tx_rows t)) (tx_exec t) (tx_obj t) (tx_dlq t).
Definition tx_set_exec (f : Execution → Execution) (t : Tx) : Tx :=
  mkTx (tx_now t) (tx_rows t) (f (tx_exec t)) (f (tx_obj t)) (tx_dlq t).
Definition tx_set_dlq (f : gmap uuid DeadLetterJob → gmap uuid DeadLetterJob) (t : Tx) : Tx :=
  mkTx (tx_now t) (tx_rows t) (tx_exec t) (tx_obj t) (f (tx_dlq t)).

(** Columns no service assigns after the insert. *)
Definition same_node (n n' : NodeExecution) : Prop :=
  ne_id n' = ne_id n ∧ ne_execution_id n' = ne_execution_id n ∧ ne_node_id n' = ne_node_id n ∧
  ne_node_type n' = ne_node_type n ∧ ne_max_attempts n' = ne_max_attempts n ∧
  ne_input_payload n' = ne_input_payload n.

#[export] Instance same_node_preorder : PreOrder same_node.
Proof. split; [by intros n|]. unfold same_node. intros n1 n2 n3. naive_solver congruence. Qed.

Section tx.
Context {Q : Type}.
Implicit Types w : World Q.

Record in_tx (eid : uuid) (t : Tx) w : Prop := {
  it_now : w_now w = tx_now t;
  it_rows x n : tx_rows t !! x = Some n →
    db_nodes (w_db w) !! ne_id n = Some n ∧ s_nodes (w_session w) !! ne_id n = Some n ∧
    ne_node_id n = x ∧ ne_execution_id n = eid;
  it_cover id n : db_nodes (w_db w) !! id = Some n → ne_execution_id n = eid →
    ne_id n = id ∧ tx_rows t !! ne_node_id n = Some n;
  it_exec : db_executions (w_db w) !! eid = Some (tx_exec t);
  it_obj : s_execs (w_session w) !! eid = Some (tx_obj t);
  it_dlq : db_dlq (w_db w) = tx_dlq t
}.

(** A row of the execution keeps its identity; other rows are unchanged. *)
Definition node_step (eid : uuid) (n n' : NodeExecution) : Prop :=
  same_node n n' ∧ (ne_execution_id n ≠ eid → n' = n).

#[export] Instance node_step_preorder eid : PreOrder (node_step eid).
Proof.
  split; [by intros n; split|]. intros n1 n2 n3 [H1 E1] [H2 E2]. split; [by etrans|].
  intros Hne. pose proof H1 as (_ & He & _). rewrite E2, E1 by congruence. done.
Qed.

Record tx_frame (eid : uuid) w w' : Prop := {
  tf_workflows : db_workflows (w_db w') = db_workflows (w_db w);
  tf_versions : db_versions (w_db w') = db_versions (w_db w);
  tf_execs e : e ≠ eid → db_executions (w_db w') !! e = db_executions (w_db w) !! e;
  tf_nodes id : option_relation (node_step eid) (fun _ => False) (fun n => ne_execution_id n = eid)
                  (db_nodes (w_db w) !! id) (db_nodes (w_db w') !! id);
  tf_logs : ∃ l, db_logs (w_db w') = db_logs (w_db w) ++ l ∧
                 Forall (fun x => log_execution_id x = eid) l;
  tf_events : ∃ l, s_events (w_session w') = s_events (w_session w) ++ l ∧
                   Forall (fun x => env_execution_id x = Some (uuid_str eid)) l;
  tf_committed : w_committed w' = w_committed w;
  tf_queue : w_queue w' = w_queue w;
  tf_channel : w_channel w' = w_channel w;
  tf_redis : w_redis_up w' = w_redis_up w;
  tf_now : w_now w' = w_now w;
  tf_next : (w_next_uuid w ≤ w_next_uuid w')%N
}.

Lemma tx_frame_refl eid w : tx_frame eid w w.
Proof.
  split; try done; try (exists []; by rewrite app_nil_r).
  intros id. destruct (db_nodes (w_db w) !! id); simpl; [reflexivity|done].
Qed.

Lemma tx_frame_trans eid w1 w2 w3 : tx_frame eid w1 w2 → tx_frame eid w2 w3 → tx_frame eid w1 w3.
Proof.
  intros [A1 A2 A3 A4 A5 A6 A7 A8 A9 A10 A11 A12] [B1 B2 B3 B4 B5 B6 B7 B8 B9 B10 B11 B12].
  split; try congruence.
  - intros e He. by rewrite B3, A3.
  - intros id. specialize (A4 id). specialize (B4 id).
    destruct (db_nodes (w_db w1) !! id), (db_nodes (w_db w2) !! id), (db_nodes (w_db w3) !! id);
      simpl in *; try done; [by etrans|]. destruct B4 as [(_ & -> & _) _]. done.
  - destruct A5 as (l1 & E1 & F1), B5 as (l2 & E2 & F2). exists (l1 ++ l2).
    rewrite E2, E1, app_assoc. split; [done|]. by apply Forall_app_2.
  - destruct A6 as (l1 & E1 & F1), B6 as (l2 & E2 & F2). exists (l1 ++ l2).
    rewrite E2, E1, app_assoc. split; [done|]. by apply Forall_app_2.
  - lia.
Qed.

#[export] Instance tx_frame_preorder eid : PreOrder (tx_frame eid).
Proof. split; [intros w; apply tx_frame_refl|intros w1 w2 w3; apply tx_frame_trans]. Qed.

(** ** Updating one row *)

Lemma in_tx_row_id eid t w x y n m :
  in_tx eid t w → tx_rows t !! x = Some n → tx_rows t !! y = Some m → ne_id n = ne_id m → x = y.
Proof.
  intros Ht Hx Hy Hid.
  apply (it_rows _ _ _ Ht) in Hx as (Hn & _ & <- & _).
  apply (it_rows _ _ _ Ht) in Hy as (Hm & _ & <- & _). congruence.
Qed.

(** What assigning columns of one object of the execution does to the world. *)
Definition w_alter_node (id : uuid) (f : NodeExecution → NodeExecution) w : World Q :=
  w_set_db (db_set_nodes (alter f id)) (w_set_session (s_set_nodes (alter f id)) w).

Lemma in_tx_alter_node eid t w x n f :
  in_tx eid t w → tx_rows t !! x = Some n → same_node n (f n) →
  in_tx eid (tx_set_rows (<[x := f n]>) t) (w_alter_node (ne_id n) f w) ∧
  tx_frame eid w (w_alter_node (ne_id n) f w).
Proof.
  intros Ht Hx Hsame. pose proof (it_rows _ _ _ Ht _ _ Hx) as (Hdb & Hs & Hnid & Heid).
  pose proof Hsame as (Hid & He & Hni & _). split; [split|split]; simpl; try apply Ht; try done.
  - intros y m. rewrite lookup_insert. case_decide as Hxy.
    + intros [= <-]. rewrite Hid, !lookup_alter_eq, Hdb, Hs. split_and!; simpl; congruence.
    + intros Hy. assert (ne_id n ≠ ne_id m).
      { intros Hc. apply Hxy. by eapply in_tx_row_id. }
      rewrite !lookup_alter_ne by done. by apply (it_rows _ _ _ Ht).
  - intros i m. rewrite lookup_alter. case_decide as Hi.
    + rewrite <- Hi, Hdb. intros [= <-] _. rewrite Hid, Hni, Hnid. by rewrite lookup_insert_eq.
    + intros Hm Hme. destruct (it_cover _ _ _ Ht _ _ Hm Hme) as [Hmi Hmr]. split; [done|].
      rewrite lookup_insert_ne; [done|]. intros ->.
      rewrite Hmr in Hx. injection Hx as ->. done.
  - intros i. rewrite lookup_alter. case_decide as Hi.
    + rewrite <- Hi, Hdb. simpl. split; [done|]. intros Hne. done.
    + destruct (db_nodes (w_db w) !! i); simpl; [reflexivity|done].
  - exists []. by rewrite app_nil_r.
  - exists []. by rewrite app_nil_r.
Qed.

(** Staging events leaves the tables alone. *)
Lemma in_tx_stage eid t w l :
  in_tx eid t w → Forall (fun x => env_execution_id x = Some (uuid_str eid)) l →
  in_tx eid t (w_set_session (s_set_events (fun evs => evs ++ l)) w) ∧
  tx_frame eid w (w_set_session (s_set_events (fun evs => evs ++ l)) w).
Proof.
  intros [] Hl. split; split; simpl; try done.
  - intros id. destruct (db_nodes (w_db w) !! id); simpl; [reflexivity|done].
  - exists []. by rewrite app_nil_r.
  - by exists l.
Qed.

Lemma same_node_enter to now a n : same_node n (enter_node_status to now a n).
Proof. done. Qed.

(** ** Rules *)

Lemma wp_update_node eid t w x n f (Φ : () → World Q → Prop) Ψ :
  in_tx eid t w → tx_rows t !! x = Some n → same_node n (f n) →
  (∀ w', in_tx eid (tx_set_rows (<[x := f n]>) t) w' → tx_frame eid w w' → Φ tt w') →
  wp (update_node (ne_id n) f) Φ Ψ w.
Proof.
  intros Ht Hx Hsame HΦ. pose proof (it_rows _ _ _ Ht _ _ Hx) as (Hdb & _).
  eapply wp_run; [unfold update_node; rewrite Hdb; reflexivity|].
  destruct (in_tx_alter_node eid t w x n f) as [??]; auto.
Qed.

Lemma wp_node_object eid t w x n (Φ : NodeExecution → World Q → Prop) Ψ :
  in_tx eid t w → tx_rows t !! x = Some n → Φ n w → wp (node_object (ne_id n)) Φ Ψ w.
Proof.
  intros Ht Hx HΦ. pose proof (it_rows _ _ _ Ht _ _ Hx) as (_ & Hs & _).
  eapply wp_run; [unfold node_object; rewrite Hs; reflexivity|done].
Qed.

Lemma wp_execution_object eid t w (Φ : Execution → World Q → Prop) Ψ :
  in_tx eid t w → Φ (tx_obj t) w → wp (execution_object eid) Φ Ψ w.
Proof.
  intros Ht HΦ. eapply wp_run; [unfold execution_object; rewrite (it_obj _ _ _ Ht); reflexivity|done].
Qed.

(** The row a transition writes. *)
Definition entered (now : datetime) (to : NodeExecutionStatus) (n : NodeExecution) : NodeExecution :=
  enter_node_status to now (ne_attempt n) n.

Lemma wp_transition_node eid t w x n from to (Φ : NodeExecution → World Q → Prop) Ψ :
  in_tx eid t w → tx_rows t !! x = Some n → ne_status n = from →
  (∀ w', in_tx eid (tx_set_rows (<[x := entered (tx_now t) to n]>) t) w' →
         tx_frame eid w w' → Φ (entered (tx_now t) to n) w') →
  wp (transition_node_status (ne_id n) from to) Φ Ψ w.
Proof.
  intros Ht Hx Hst HΦ. pose proof (it_rows _ _ _ Ht _ _ Hx) as (Hdb & Hs & _ & He).
  eapply wp_run.
  { rewrite transition_node_eq, Hdb. unfold get_node. rewrite Hs. simpl.
    rewrite decide_True by done. reflexivity. }
  cbn [from_option]. rewrite (it_now _ _ _ Ht).
  destruct (in_tx_alter_node eid t w x n (entered (tx_now t) to)) as [Ht1 Hf1]; [done..|].
  destruct (in_tx_stage eid _ _ [node_updated (ne_execution_id n) (ne_id n) (ne_node_id n)
     (node_status_name to) (ne_attempt (entered (tx_now t) to n)) (tx_now t)] Ht1) as [Ht2 Hf2].
  { constructor; [|done]. simpl. by rewrite He. }
  assert (∀ T (m : gmap uuid NodeExecution), m !! ne_id n = Some n → T = ne_id n →
          alter (enter_node_status to (tx_now t) (ne_attempt n)) T m =
          alter (entered (tx_now t) to) T m) as Halt.
  { intros T m Hm ->. apply map_eq. intros i. rewrite !lookup_alter. case_decide; [|done].
    subst. by rewrite Hm. }
  unfold w_alter_node, w_set_db, w_set_session, db_set_nodes, s_set_nodes in *. simpl in *.
  rewrite <- !(Halt (ne_id n)) in * by done.
  apply HΦ; [done|]. by etrans.
Qed.

Lemma in_tx_alter_exec eid t w f :
  in_tx eid t w →
  let w' := w_set_db (db_set_executions (alter f eid))
              (w_set_session (s_set_execs (alter f eid)) w) in
  in_tx eid (tx_set_exec f t) w' ∧ tx_frame eid w w'.
Proof.
  intros []. split; split; simpl; try done.
  - by rewrite lookup_alter_eq, it_exec0.
  - by rewrite lookup_alter_eq, it_obj0.
  - intros e He. by rewrite lookup_alter_ne by done.
  - intros id. destruct (db_nodes (w_db w) !! id); simpl; [reflexivity|done].
  - exists []. by rewrite app_nil_r.
  - exists []. by rewrite app_nil_r.
Qed.

Lemma wp_transition_execution eid t w from to (Φ : Execution → World Q → Prop) Ψ :
  in_tx eid t w → ex_status (tx_obj t) = from →
  (∀ w' e, in_tx eid (tx_set_exec (enter_execution_status to (tx_now t)) t) w' →
           tx_frame eid w w' → Φ e w') →
  wp (transition_execution_status eid from to) Φ Ψ w.
Proof.
  intros Ht Hst HΦ. eapply wp_run.
  { rewrite transition_execution_eq, (it_exec _ _ _ Ht). unfold get_execution_object.
    rewrite (it_obj _ _ _ Ht). simpl. rewrite decide_True by done. reflexivity. }
  cbn [from_option]. rewrite (it_now _ _ _ Ht).
  destruct (in_tx_alter_exec eid t w (enter_execution_status to (tx_now t)) Ht) as [Ht1 Hf1].
  destruct (in_tx_stage eid _ _ [execution_updated eid (execution_status_name to) (tx_now t)] Ht1)
    as [Ht2 Hf2]; [by constructor|].
  apply HΦ; [exact Ht2|by etrans].
Qed.

(** The foreign keys of a log row. *)
Lemma log_refers_in_tx eid t w (node : option NodeExecution) :
  in_tx eid t w → match node with Some n => ∃ x, tx_rows t !! x = Some n | None => True end →
  log_refers (w_db w) eid (ne_id <$> node) = true.
Proof.
  intros Ht Hn. unfold log_refers. rewrite (it_exec _ _ _ Ht).
  rewrite bool_decide_eq_true_2 by done. destruct node as [n|]; [|done]. simpl.
  destruct Hn as [x Hx]. apply (it_rows _ _ _ Ht) in Hx as (-> & _).
  by rewrite bool_decide_eq_true_2.
Qed.

Lemma wp_add_log eid t w (node : option NodeExecution) level event_type message metadata
    (Φ : () → World Q → Prop) Ψ :
  in_tx eid t w → match node with Some n => ∃ x, tx_rows t !! x = Some n | None => True end →
  (∀ w', in_tx eid t w' → tx_frame eid w w' → Φ tt w') →
  wp (add_log eid (ne_id <$> node) level event_type message metadata) Φ Ψ w.
Proof.
  intros Ht Hn HΦ. eapply wp_run.
  { unfold add_log, datetime_now, uuid4. rewrite run_bind. cbn [gets].
    rewrite run_bind, run_bind. cbn [gets].
    change (w_db (w_bump w)) with (w_db w).
    rewrite (log_refers_in_tx _ _ _ _ Ht Hn). reflexivity. }
  match goal with |- Φ _ (w_set_session (s_set_events (fun l => l ++ [?ev])) ?w1) =>
    assert (in_tx eid t w1 ∧ tx_frame eid w w1) as [Ht1 Hf1] end.
  { destruct Ht. split; split; simpl; try done; try lia.
    - intros id. destruct (db_nodes (w_db w) !! id); simpl; [reflexivity|done].
    - eexists. split; [done|]. by constructor.
    - exists []. by rewrite app_nil_r. }
  match goal with |- Φ _ (w_set_session (s_set_events (fun l => l ++ [?ev])) ?w1) =>
    destruct (in_tx_stage eid t w1 [ev] Ht1) as [Ht2 Hf2]; [by constructor|] end.
  apply HΦ; [exact Ht2|by etrans].
Qed.

(** ** Opening a transaction *)

(** [select_nodes] with [populate_existing] makes the session agree with the rows of
    the execution. *)
Lemma wp_select_nodes_populate eid e obj w (Φ : list NodeExecution → World Q → Prop) Ψ :
  db_wf (w_db w) → db_executions (w_db w) !! eid = Some e →
  s_execs (w_session w) !! eid = Some obj →
  (∀ w' l, l = (map_to_list (nodes_of_execution (w_db w) eid)).*2 → w_db w' = w_db w →
     in_tx eid (mkTx (w_now w) (rows_of (w_db w) eid) e obj (db_dlq (w_db w))) w' →
     tx_frame eid w w' → Φ l w') →
  wp (select_nodes true eid) Φ Ψ w.
Proof.
  intros Hwf He Hobj HΦ. unfold wp, select_nodes.
  set (rows := nodes_of_execution (w_db w) eid). set (cache := rows ∪ s_nodes (w_session w)).
  assert (omap (fun id => cache !! id) (map_to_list rows).*1 = (map_to_list rows).*2) as ->.
  { assert (∀ l, l ⊆ map_to_list rows → omap (fun id => cache !! id) l.*1 = l.*2) as Hl;
      [|by apply Hl].
    induction l as [|[i n] l IH]; intros Hsub; [done|]. simpl.
    assert (rows !! i = Some n) as Hi by (apply elem_of_map_to_list, Hsub; by left).
    unfold cache at 1. rewrite (lookup_union_Some_l _ _ _ _ Hi). f_equal. apply IH. set_solver. }
  apply HΦ; [done|done| |].
  - split; simpl; try done.
    + intros x n Hx. apply rows_of_lookup in Hx as (Hn & Hne & Hnx); [|done].
      split_and!; [done| |done|done]. apply lookup_union_Some_l.
      by apply elem_of_nodes_of_execution.
    + intros id n Hn Hne. pose proof (dw_node_key _ Hwf _ _ Hn) as Hk. split; [done|].
      apply rows_of_lookup; [done|]. by rewrite Hk.
  - split; simpl; try done; try (exists []; by rewrite app_nil_r).
    intros id. destruct (db_nodes (w_db w) !! id); simpl; [reflexivity|done].
Qed.

End tx.

#[export] Hint Resolve tx_frame_refl : wp.
