(* ===== verification/Publisher.v ===== *)
(** * Job payloads and queue publishers (src/backend/app/queue/publisher.py)

    The payload of a job as Redis stream fields and back, the [QueuePublisher]
    protocol as a class, and its two implementations. Redis itself is a
    parameter: [StreamOps] are the client's calls, [StreamLaws] what the
    publisher relies on. *)

From Stdlib Require Import Ascii.
From S2P Require Import Prelude PyStr Json Errors Models Events Monad Store LogHelpers.

(** ** Payloads *)

(** The typed values of a job: the arguments of [publish_node_execution] and the
    dictionary [deserialize_job_payload] returns. *)
Record Job : Type := mkJob {
  job_execution_id : uuid;
  job_node_execution_id : uuid;
  job_workflow_version_id : uuid;
  job_node_id : string;
  job_attempt : Z
}.

(** A stream entry: string fields. *)
Abbreviation fields := (list (string * string)) (only parsing).

Definition serialize_job_payload (j : Job) : fields :=
  [("execution_id", uuid_str (job_execution_id j));
   ("node_execution_id", uuid_str (job_node_execution_id j));
   ("workflow_version_id", uuid_str (job_workflow_version_id j));
   ("node_id", job_node_id j);
   ("attempt", py_str_Z (job_attempt j))]%string.

(** [fields[k]]. *)
Definition field (fs : fields) (k : string) : res exc string :=
  match dict_get k fs with Some v => Ok v | None => Err EKeyError end.

(** A conversion that raises [ValueError]. *)
Definition or_value_error {A} (o : option A) : res exc A :=
  match o with Some a => Ok a | None => Err EValueError end.

Definition deserialize_job_payload (fs : fields) : res exc Job :=
  e ← field fs "execution_id"; e ← or_value_error (uuid_parse e);
  n ← field fs "node_execution_id"; n ← or_value_error (uuid_parse n);
  v ← field fs "workflow_version_id"; v ← or_value_error (uuid_parse v);
  i ← field fs "node_id";
  a ← field fs "attempt"; a ← or_value_error (py_int a);
  Ok (mkJob e n v i a).

(** ** The protocol *)

(** [publish_node_execution] returns the message id, if there is one, or raises. *)
Class QueuePublisher (Q : Type) :=
  publish_node_execution : Job → Q → res exc (option string) * Q.

(** What the services rely on: [published q js] says that the jobs [js] went into
    the queue, oldest first. *)
Class QueuePublisherLaws (Q : Type) `{QueuePublisher Q} := {
  published : Q → list Job → Prop;
  publish_ok q js j m q' :
    published q js → publish_node_execution j q = (Ok m, q') → published q' (js ++ [j]);
  publish_err q js j e q' :
    published q js → publish_node_execution j q = (Err e, q') → published q' js ∧ e = ERedisError
}.

(** The call inside a service. *)
Definition publish {Q} `{QueuePublisher Q} (j : Job) : M Q (option string) := fun w =>
  let '(r, q) := publish_node_execution j (w_queue w) in (r, w_set_queue q w).

Definition set_redis_message_id (m : string) (n : NodeExecution) : NodeExecution :=
  mkNodeExecution (ne_id n) (ne_execution_id n) (ne_node_id n) (ne_node_type n) (ne_status n)
    (ne_attempt n) (ne_max_attempts n) (ne_input_payload n) (ne_output_payload n)
    (ne_error_message n) (ne_idempotency_key n) (Some m) (ne_worker_id n) (ne_queued_at n)
    (ne_started_at n) (ne_finished_at n).

(** The body of [for n in nodes_to_publish] in [process_job], and of the loop over the root
    nodes in [start_execution]: publish the object's job and keep the message id. *)
Definition publish_node {Q} `{QueuePublisher Q} (workflow_version_id execution_id : uuid) (n : uuid) : M Q () :=
  node ← node_object n;
  message_id ← publish (mkJob execution_id (ne_id node) workflow_version_id (ne_node_id node)
                          (ne_attempt node));
  match message_id with
  | Some m => if String.eqb m "" then mret () else update_node n (set_redis_message_id m)
  | None => mret ()
  end.

(** Lines 188 to 200 of [process_job], and the first lines after the commit of
    [start_execution]: publish the queued nodes, commit their message ids, send the events. *)
Definition publish_nodes {Q} `{QueuePublisher Q} (workflow_version_id execution_id : uuid)
    (nodes_to_publish : list uuid) : M Q () :=
  for_each (publish_node workflow_version_id execution_id) nodes_to_publish ≫= fun _ =>
  commit ≫= fun _ =>
  flush_events.

(** ** InMemoryQueuePublisher *)

(** [self.published_jobs]; a type of its own, so that instances are not confused. *)
Record InMemoryQueuePublisher : Type := mkInMemory { published_jobs : list pydict }.

Definition in_memory_payload (j : Job) : pydict :=
  [("execution_id", JStr (uuid_str (job_execution_id j)));
   ("node_execution_id", JStr (uuid_str (job_node_execution_id j)));
   ("workflow_version_id", JStr (uuid_str (job_workflow_version_id j)));
   ("node_id", JStr (job_node_id j));
   ("attempt", JInt (job_attempt j))]%string.

#[export] Instance in_memory_publish : QueuePublisher InMemoryQueuePublisher := fun j q =>
  (Ok None, mkInMemory (published_jobs q ++ [in_memory_payload j])).

#[export] Instance in_memory_laws : QueuePublisherLaws InMemoryQueuePublisher.
Proof.
  refine {| published q js := published_jobs q = in_memory_payload <$> js |}.
  - intros q js j m q' Hq [= <- <-]. simpl. by rewrite Hq, fmap_app.
  - intros q js j e q' _ [=].
Defined.

(** ** RedisStreamQueuePublisher *)

(** [redis.exceptions.ResponseError] with its text, and every other failure. *)
Inductive redis_error : Type := RResponseError (msg : string) | ROtherError.

(** [pat in s]. *)
Definition str_contains (pat s : string) : bool :=
  match String.index 0 pat s with Some _ => true | None => false end.

Class StreamOps (R : Type) := {
  xgroup_create : string → string → R → res redis_error () * R;
  xadd : string → fields → R → res redis_error string * R;
  xlen : string → R → res redis_error Z * R
}.

(** Documented behaviour of the streams: [XADD] appends an entry and returns its
    identifier; [XGROUP CREATE ... MKSTREAM] touches no entry, and fails with
    [BUSYGROUP] when the group exists; a failed command changes nothing. *)
Class StreamLaws (R : Type) `{StreamOps R} := {
  entries : R → string → list (string * fields);
  group_exists : R → string → string → Prop;
  xadd_ok r s f id r' : xadd s f r = (Ok id, r') →
    entries r' s = entries r s ++ [(id, f)] ∧ id ≠ ""%string ∧
    (∀ s' g, group_exists r s' g → group_exists r' s' g);
  xadd_err r s f e r' : xadd s f r = (Err e, r') → r' = r;
  xgroup_create_ok r s g r' : xgroup_create s g r = (Ok tt, r') →
    (∀ s', entries r' s' = entries r s') ∧ group_exists r' s g;
  xgroup_create_err r s g e r' : xgroup_create s g r = (Err e, r') → r' = r;
  xgroup_create_busy r s g msg r' : xgroup_create s g r = (Err (RResponseError msg), r') →
    str_contains "BUSYGROUP" msg = true → group_exists r s g;
  xlen_ok r s n r' : xlen s r = (Ok n, r') → n = Z.of_nat (length (entries r s)) ∧ r' = r;
  xlen_err r s e r' : xlen s r = (Err e, r') → r' = r
}.

Record RedisStreamQueuePublisher (R : Type) : Type := mkRedisPublisher {
  redis : R;
  stream_name : string;
  consumer_group : string;
  group_ready : bool
}.

Arguments mkRedisPublisher {R} _ _ _ _.
Arguments redis {R} _.
Arguments stream_name {R} _.
Arguments consumer_group {R} _.
Arguments group_ready {R} _.

Section redis.
Context {R : Type} `{StreamOps R}.
Implicit Types p : RedisStreamQueuePublisher R.

Definition with_redis (r : R) (ready : bool) p : RedisStreamQueuePublisher R :=
  mkRedisPublisher r (stream_name p) (consumer_group p) ready.

(** [ensure_consumer_group]. *)
Definition ensure_consumer_group p : res exc () * RedisStreamQueuePublisher R :=
  if group_ready p then (Ok tt, p)
  else
    match xgroup_create (stream_name p) (consumer_group p) (redis p) with
    | (Ok _, r) => (Ok tt, with_redis r true p)
    | (Err (RResponseError msg), r) =>
        if str_contains "BUSYGROUP" msg then (Ok tt, with_redis r true p)
        else (Err ERedisError, with_redis r false p)
    | (Err ROtherError, r) => (Err ERedisError, with_redis r false p)
    end.

(** [ensure_consumer_group] of worker/runtime.py: a publisher made for the call. *)
Definition ensure_worker_group (redis_client : R) (stream group : string) : res exc () * R :=
  let '(r, p) := ensure_consumer_group (mkRedisPublisher redis_client stream group false) in (r, redis p).

(** [publish_node_execution]. *)
#[export] Instance redis_publish : QueuePublisher (RedisStreamQueuePublisher R) := fun j p =>
  match ensure_consumer_group p with
  | (Err e, p) => (Err e, p)
  | (Ok _, p) =>
      match xadd (stream_name p) (serialize_job_payload j) (redis p) with
      | (Ok id, r) => (Ok (Some id), with_redis r (group_ready p) p)
      | (Err _, r) => (Err ERedisError, with_redis r (group_ready p) p)
      end
  end.

(** [queue_depth]. *)
Definition queue_depth p : res exc Z * RedisStreamQueuePublisher R :=
  match xlen (stream_name p) (redis p) with
  | (Ok n, r) => (Ok n, with_redis r (group_ready p) p)
  | (Err _, r) => (Err ERedisError, with_redis r (group_ready p) p)
  end.

End redis.

(** ** Laws of the Redis publisher *)

Section redis_laws.
Context {R : Type} `{StreamLaws R}.
Implicit Types p : RedisStreamQueuePublisher R.

(** What [ensure_consumer_group] leaves alone, and what its success gives. *)
Lemma ensure_consumer_group_spec p r p' :
  ensure_consumer_group p = (r, p') →
  stream_name p' = stream_name p ∧ consumer_group p' = consumer_group p ∧
  (∀ s, entries (redis p') s = entries (redis p) s) ∧
  match r with Ok _ => group_ready p' = true | Err _ => r = Err ERedisError ∧ p' = p end.
Proof.
  unfold ensure_consumer_group. destruct (group_ready p) eqn:Hr; [by intros [= <- <-]|].
  destruct (xgroup_create _ _ _) as [[[]|[msg|]] rd] eqn:Hx; intros Heq.
  - apply xgroup_create_ok in Hx as [He _]. injection Heq as <- <-. done.
  - apply xgroup_create_err in Hx as ->.
    case_match; injection Heq as <- <-; [done|]. destruct p; simpl in *; by subst.
  - apply xgroup_create_err in Hx as ->. injection Heq as <- <-. destruct p; simpl in *; by subst.
Qed.

#[export] Instance redis_laws : QueuePublisherLaws (RedisStreamQueuePublisher R).
Proof.
  refine {| published p js := (entries (redis p) (stream_name p)).*2 = serialize_job_payload <$> js |}.
  - intros p js j m p' Hp Hpub. cbv [publish_node_execution redis_publish] in Hpub.
    destruct (ensure_consumer_group p) as [[[]|e] p1] eqn:He; [|done].
    apply ensure_consumer_group_spec in He as (Hs & _ & Hent & _).
    destruct (xadd _ _ _) as [[id|e] r] eqn:Hx; [|done]. injection Hpub as <- <-. simpl.
    apply xadd_ok in Hx as (-> & _ & _). by rewrite Hent, Hs, !fmap_app, Hp.
  - intros p js j e p' Hp Hpub. cbv [publish_node_execution redis_publish] in Hpub.
    destruct (ensure_consumer_group p) as [[[]|e1] p1] eqn:He;
      apply ensure_consumer_group_spec in He as (Hs & _ & Hent & Hok).
    + destruct (xadd _ _ _) as [[id|e1] r] eqn:Hx; [done|].
      apply xadd_err in Hx as ->. injection Hpub as <- <-. simpl. by rewrite Hent, Hs.
    + destruct Hok as [[= ->] ->]. by injection Hpub as <- <-.
Defined.

End redis_laws.

(** ** Properties *)

(** The identifiers of a job are 128-bit. *)
Definition job_wf (j : Job) : Prop :=
  (job_execution_id j < 2 ^ 128 ∧ job_node_execution_id j < 2 ^ 128 ∧
   job_workflow_version_id j < 2 ^ 128)%N.

(** C16. A job survives the trip through the string fields of a Redis stream. *)
Theorem job_payload_roundtrip j :
  job_wf j → deserialize_job_payload (serialize_job_payload j) = Ok j.
Proof.
  intros (He & Hn & Hv).
  assert (∀ u, (u < 2 ^ 128)%N → or_value_error (uuid_parse (uuid_str u)) = Ok u) as Hu.
  { intros u Hu. by rewrite uuid_parse_str. }
  unfold deserialize_job_payload.
  repeat (eapply res_bind_eq; [first [reflexivity | by apply Hu]|]).
  eapply res_bind_eq; [by rewrite py_int_str|]. by destruct j.
Qed.

(** [deserialize_job_payload] answers every entry: it returns the job the five fields
    spell when they are there and parse; it raises [KeyError] only when one is missing,
    [ValueError] only when one does not parse, and nothing else. *)
Theorem deserialize_job_payload_total fs :
  match deserialize_job_payload fs with
  | Ok j =>
      (dict_get "execution_id" fs ≫= uuid_parse) = Some (job_execution_id j) ∧
      (dict_get "node_execution_id" fs ≫= uuid_parse) = Some (job_node_execution_id j) ∧
      (dict_get "workflow_version_id" fs ≫= uuid_parse) = Some (job_workflow_version_id j) ∧
      dict_get "node_id" fs = Some (job_node_id j) ∧
      (dict_get "attempt" fs ≫= py_int) = Some (job_attempt j)
  | Err EKeyError =>
      ∃ k, k ∈ ["execution_id"; "node_execution_id"; "workflow_version_id"; "node_id"; "attempt"] ∧
           dict_get k fs = None
  | Err EValueError =>
      (∃ k v, k ∈ ["execution_id"; "node_execution_id"; "workflow_version_id"] ∧
              dict_get k fs = Some v ∧ uuid_parse v = None) ∨
      (∃ v, dict_get "attempt" fs = Some v ∧ py_int v = None)
  | Err _ => False
  end%string.
Proof.
  unfold deserialize_job_payload, field.
  repeat (match goal with
  | |- context [dict_get ?k fs] => destruct (dict_get k fs) eqn:?
  | |- context [uuid_parse ?v] => destruct (uuid_parse v) eqn:?
  | |- context [py_int ?v] => destruct (py_int v) eqn:?
  end; simpl);
  first [ by eauto 10
        | match goal with H : uuid_parse ?v = None |- _ =>
            left; eexists _, v; split_and!; [|eassumption|exact H]; set_solver end
        | match goal with H : py_int ?v = None |- _ => right; by exists v end
        | match goal with H : dict_get ?k _ = None |- _ => exists k; split; [set_solver|exact H] end ].
Qed.

Section redis_properties.
Context {R : Type} `{StreamLaws R}.
Implicit Types p : RedisStreamQueuePublisher R.

(** [_group_ready] is set only once the group exists. *)
Definition publisher_ok p : Prop :=
  group_ready p = true → group_exists (redis p) (stream_name p) (consumer_group p).

(** [ensure_consumer_group] is idempotent: once it has returned, the group exists, no entry
    was touched, and calling it again does nothing; when it raises, nothing changed. A group
    that some other client created ([BUSYGROUP]) counts as success. *)
Theorem ensure_consumer_group_idempotent p r p' :
  publisher_ok p → ensure_consumer_group p = (r, p') →
  match r with
  | Ok _ =>
      group_exists (redis p') (stream_name p) (consumer_group p) ∧
      (∀ s, entries (redis p') s = entries (redis p) s) ∧
      ensure_consumer_group p' = (Ok tt, p')
  | Err e => e = ERedisError ∧ p' = p
  end.
Proof.
  intros Hp He. pose proof (ensure_consumer_group_spec _ _ _ He) as (Hs & Hc & Hent & Hr).
  destruct r as [[]|e]; [|by destruct Hr as [[= ->] ->]].
  split_and!; [|done|].
  - unfold ensure_consumer_group in He. destruct (group_ready p) eqn:Hready.
    { injection He as <-. by apply Hp. }
    destruct (xgroup_create _ _ _) as [[[]|[msg|]] rd] eqn:Hx.
    + apply xgroup_create_ok in Hx as [_ Hg]. by injection He as <-.
    + destruct (str_contains _ _) eqn:Hb; [|done]. injection He as <-. simpl.
      pose proof (xgroup_create_busy _ _ _ _ _ Hx Hb). by apply xgroup_create_err in Hx as ->.
    + done.
  - unfold ensure_consumer_group. by rewrite Hr.
Qed.

(** Publishing to Redis appends exactly one entry, the serialized job, to the stream and
    returns its identifier; when it raises, no stream has changed. *)
Theorem redis_publish_appends p j r p' :
  publish_node_execution j p = (r, p') →
  match r with
  | Ok m => ∃ id, m = Some id ∧ id ≠ ""%string ∧
      entries (redis p') (stream_name p) =
      entries (redis p) (stream_name p) ++ [(id, serialize_job_payload j)]
  | Err e => e = ERedisError ∧ ∀ s, entries (redis p') s = entries (redis p) s
  end.
Proof.
  cbv [publish_node_execution redis_publish].
  destruct (ensure_consumer_group p) as [[[]|e] p1] eqn:He;
    apply ensure_consumer_group_spec in He as (Hs & _ & Hent & Hok).
  - destruct (xadd _ _ _) as [[id|e] rd] eqn:Hx; intros [= <- <-].
    + apply xadd_ok in Hx as (Ha & Hid & _). exists id. simpl. rewrite <- Hs, Ha, Hent. done.
    + apply xadd_err in Hx as ->. done.
  - intros [= <- <-]. by destruct Hok as [[= ->] ->].
Qed.

End redis_properties.

(** ** A Redis of lists, for the witnesses *)

Record ListRedis : Type := mkListRedis {
  lr_up : bool;
  lr_streams : gmap string (list (string * fields));
  lr_groups : list (string * string)
}.

#[export] Instance list_redis_ops : StreamOps ListRedis := {|
  xgroup_create s g r :=
    if lr_up r then
      if decide ((s, g) ∈ lr_groups r) then
        (Err (RResponseError "BUSYGROUP Consumer Group name already exists"), r)
      else (Ok tt, mkListRedis true (lr_streams r) ((s, g) :: lr_groups r))
    else (Err ROtherError, r);
  xadd s f r :=
    if lr_up r then
      let l := default [] (lr_streams r !! s) in
      let id := "1-" +:+ py_str_Z (Z.of_nat (length l)) in
      (Ok id, mkListRedis true (<[s := l ++ [(id, f)]]> (lr_streams r)) (lr_groups r))
    else (Err ROtherError, r);
  xlen s r :=
    (if lr_up r then Ok (Z.of_nat (length (default [] (lr_streams r !! s)))) else Err ROtherError, r)
|}.

#[export] Instance list_redis_laws : StreamLaws ListRedis.
Proof.
  refine {| entries r s := default [] (lr_streams r !! s);
            group_exists r s g := (s, g) ∈ lr_groups r |};
    simpl; intros r s; intros; repeat (case_match || case_decide); simplify_eq/=; try done.
  - split_and!; [by rewrite lookup_insert_eq|done|done].
  - split; [done|by left].
Defined.

Definition sample_job : Job := mkJob 1 2 3 "a" 1.
Definition sample_publisher : RedisStreamQueuePublisher ListRedis :=
  mkRedisPublisher (mkListRedis true ∅ [("jobs", "workers")]) "jobs" "workers" false.

Lemma job_payload_roundtrip_witness :
  deserialize_job_payload (serialize_job_payload sample_job) = Ok sample_job.
Proof. apply job_payload_roundtrip. vm_compute. done. Defined.

Lemma ensure_consumer_group_idempotent_witness :
  ∃ p', ensure_consumer_group sample_publisher = (Ok tt, p') ∧
        ensure_consumer_group p' = (Ok tt, p').
Proof.
  eexists. split; [reflexivity|].
  eapply (ensure_consumer_group_idempotent sample_publisher (Ok tt)); [done|reflexivity].
Defined.

Lemma redis_publish_appends_witness :
  ∃ p', publish_node_execution sample_job sample_publisher = (Ok (Some "1-0"%string), p') ∧
        ∃ id, entries (redis p') "jobs" = [(id, serialize_job_payload sample_job)].
Proof.
  set (p' := (publish_node_execution sample_job sample_publisher).2).
  assert (publish_node_execution sample_job sample_publisher = (Ok (Some "1-0"%string), p')) as Hp
    by reflexivity.
  exists p'. split; [exact Hp|].
  destruct (redis_publish_appends _ _ _ _ Hp) as (id & _ & _ & He). exists id. exact He.
Defined.
