(* ===== verification/Runtime.v ===== *)
(** * The worker's job handler (src/backend/app/worker/runtime.py)

    [process_job] in its four stretches between the points where other workers
    can be observed: claim the node and commit; load the context and run the
    executor; complete under the lock of the execution row and commit; publish
    the nodes that were queued and commit. *)

From S2P Require Import Prelude Json PyStr Errors Models Registry Events Monad Store LogHelpers.
From S2P Require Import StateTransition Publisher.

Definition TERMINAL_NODE_STATUSES : list NodeExecutionStatus :=
  [NSUCCEEDED; NFAILED; NSKIPPED; NDEAD_LETTERED].

(** [[e.to_node for e in definition.edges if e.from_node == x]] and its converse. *)
Definition children_of (definition : WorkflowDefinition) (x : string) : list string :=
  to_node <$> filter (fun e => from_node e = x) (wf_edges definition).
Definition parents_of (definition : WorkflowDefinition) (x : string) : list string :=
  from_node <$> filter (fun e => to_node e = x) (wf_edges definition).

(** [{ne.node_id: ne for ne in node_execs}]: the values are references to the
    session's objects. *)
Definition node_exec_by_node_id (node_execs : list NodeExecution) : gmap string uuid :=
  foldl (fun m ne => <[ne_node_id ne := ne_id ne]> m) ∅ node_execs.

(** [{n.id: n for n in definition.nodes}]. *)
Definition node_def_by_id (definition : WorkflowDefinition) : gmap string Node :=
  foldl (fun m n => <[node_id n := n]> m) ∅ (wf_nodes definition).

Section runtime.
Context {Q : Type} `{QueuePublisher Q} {Net : Type}.

(** [str(exc)] of an exception other than [AppError], whose text is its message. *)
Context (str_exc : exc → string).

(** [list(s)] of a set of at most two elements: in which order is up to the hash seed. *)
Context (set_order : list json → list json).

(** ** Claim (lines 57 to 81) *)

Definition claim_job (fs : fields) : M Q (option uuid) :=
  job ← lift (deserialize_job_payload fs);
  node ← get_node (job_node_execution_id job);
  match node with
  | None => mret None
  | Some node =>
      if decide (ne_status node ∈ TERMINAL_NODE_STATUSES) then mret None
      else
        node ← transition_node_status (ne_id node) NQUEUED NRUNNING;
        node_started (ne_execution_id node) (ne_id node) (ne_node_id node) ≫= fun _ =>
        commit ≫= fun _ =>
        flush_events ≫= fun _ =>
        mret (Some (ne_id node))
  end.

(** ** Load and execute (lines 83 to 116) *)

(** What the rest of [process_job] keeps in its local variables. *)
Record Loaded : Type := mkLoaded {
  ld_execution : Execution;
  ld_definition : WorkflowDefinition;
  ld_node_def : Node;
  ld_node : uuid;
  ld_context : ExecutionContext
}.

(** [{pid: node_exec_by_node_id[pid].output_payload for pid in parent_ids if ...}]. *)
Definition upstream_outputs (node_execs : list NodeExecution) (parent_ids : list string) : pydict :=
  foldl (fun d pid =>
    match list_find (fun ne => ne_node_id ne = pid) (rev node_execs) with
    | Some (_, ne) => dict_set pid (json_opt_dict (ne_output_payload ne)) d
    | None => d
    end) [] parent_ids.

Definition load_job (node_ref : uuid) : M Q Loaded :=
  node ← node_object node_ref;
  execution ← get_execution_object (ne_execution_id node);
  match execution with
  | None => raise EAttributeError
  | Some execution =>
      version ← gets (fun w => db_versions (w_db w) !! ex_workflow_version_id execution);
      match version with
      | None => raise EAttributeError
      | Some version =>
          let definition := wv_definition version in
          match node_def_by_id definition !! ne_node_id node with
          | None => raise EKeyError
          | Some node_def =>
              all_node_execs ← select_nodes false (ex_id execution);
              let parent_ids := parents_of definition (ne_node_id node) in
              mret (mkLoaded execution definition node_def node_ref
                (mkExecutionContext (ex_id execution) (ne_id node) (ne_node_id node)
                   (node_config node_def) (default [] (ex_input_payload execution))
                   (upstream_outputs all_node_execs parent_ids) (ne_attempt node)
                   (uuid_str (ex_id execution) +:+ ":" +:+ ne_node_id node +:+ ":" +:+
                    py_str_Z (ne_attempt node))))
          end
      end
  end.

Definition exc_text (e : exc) : string :=
  match e with EApp a => ae_message a | _ => str_exc e end.

(** [registry.get] is outside the [try]; an exception of [execute] becomes a failure. *)
Definition run_executor (reg : ExecutorRegistry Net) (net : Net) (ld : Loaded) :
    res exc ExecutorResult :=
  executor ← registry_get reg (node_type (ld_node_def ld));
  Ok (match execute executor net (ld_context ld) with
      | Ok result => result
      | Err e => failed_result (exc_text e)
      end).

(** ** Downstream nodes *)

(** [skip_ids.add(candidate)]. *)
Definition set_add (x : json) (s : list json) : list json :=
  if existsb (fun y => py_eq y x) s then s else s ++ [x].

(** The branches of a condition node that were not chosen. *)
Definition skip_seeds (node_def : Node) (result : ExecutorResult) : res exc (list json) :=
  if String.eqb (node_type node_def) "condition" then
    let chosen := default JNull (dict_get "next_node" (output result)) in
    foldM (fun skip_ids candidate =>
      if py_truthy candidate && py_ne candidate chosen then
        if hashable candidate then Ok (set_add candidate skip_ids) else Err ETypeError
      else Ok skip_ids) []
      [default JNull (dict_get "true_path" (node_config node_def));
       default JNull (dict_get "false_path" (node_config node_def))]
  else Ok [].

(** [for c_id in skipped_children: if c_id not in queue: queue.append(c_id)]. *)
Definition enqueue_children (queue : list json) (skipped_children : list string) : list json :=
  foldl (fun queue c =>
    if existsb (fun q => py_eq q (JStr c)) queue then queue else queue ++ [JStr c])
    queue skipped_children.

(** [node_exec_by_node_id.get(skip_id)]: only strings are keys. *)
Definition by_key (by_node_id : gmap string uuid) (k : json) : option (string * uuid) :=
  match k with JStr x => (fun id => (x, id)) <$> by_node_id !! x | _ => None end.

(** [while queue: ...]. *)
Fixpoint skip_cascade (fuel : nat) (definition : WorkflowDefinition)
    (by_node_id : gmap string uuid) (queue : list json) : M Q () :=
  match queue with
  | [] => mret ()
  | skip_id :: queue =>
      match fuel with
      | O => raise EOutOfFuel
      | S fuel =>
          match by_key by_node_id skip_id with
          | None => skip_cascade fuel definition by_node_id queue
          | Some (x, id) =>
              skip_exec ← node_object id;
              if decide (ne_status skip_exec = NPENDING) then
                transition_node_status (ne_id skip_exec) NPENDING NSKIPPED ≫= fun _ =>
                skip_cascade fuel definition by_node_id
                  (enqueue_children queue (children_of definition x))
              else skip_cascade fuel definition by_node_id queue
          end
      end
  end.

(** [all(node_exec_by_node_id[p].status == SUCCEEDED for p in parent_ids)]. *)
Fixpoint all_parents_succeeded (by_node_id : gmap string uuid) (parent_ids : list string) :
    M Q bool :=
  match parent_ids with
  | [] => mret true
  | p :: parent_ids =>
      match by_node_id !! p with
      | None => raise EKeyError
      | Some id =>
          parent ← node_object id;
          if decide (ne_status parent = NSUCCEEDED)
          then all_parents_succeeded by_node_id parent_ids
          else mret false
      end
  end.

(** The body of [for child_id in children]; [Some] is appended to [nodes_to_publish]. *)
Definition queue_child (definition : WorkflowDefinition) (by_node_id : gmap string uuid)
    (child_id : string) : M Q (option uuid) :=
  match by_node_id !! child_id with
  | None => mret None
  | Some id =>
      child_exec ← node_object id;
      if decide (ne_status child_exec ≠ NPENDING) then mret None
      else
        ready ← all_parents_succeeded by_node_id (parents_of definition child_id);
        if (ready : bool) then
          queued ← transition_node_status (ne_id child_exec) NPENDING NQUEUED;
          mret (Some (ne_id queued))
        else mret None
  end.

(** [_queue_downstream_nodes]. A pass of the skip loop takes one element of the
    queue, and elements are added only when a pending node becomes skipped, its
    children once: the seeds plus the number of edges bound the passes. *)
Definition _queue_downstream_nodes (definition : WorkflowDefinition) (node_def : Node)
    (node : NodeExecution) (by_node_id : gmap string uuid) (result : ExecutorResult) :
    M Q (list uuid) :=
  let children := children_of definition (ne_node_id node) in
  match children with
  | [] => mret []
  | _ =>
      skip_ids ← lift (skip_seeds node_def result);
      let queue := set_order skip_ids in
      skip_cascade (length queue + length (wf_edges definition)) definition by_node_id queue ≫= fun _ =>
      for_omap (queue_child definition by_node_id) children
  end.

(** ** Failure *)

(** [DeadLetterJob(...)]. *)
Definition dead_letter_job (id : uuid) (now : datetime) (execution : Execution)
    (node : NodeExecution) : DeadLetterJob :=
  mkDeadLetterJob id (ex_id execution) (ne_id node) (ne_redis_message_id node)
    (match ne_error_message node with
     | Some m => if String.eqb m "" then "max attempts exceeded" else m
     | None => "max attempts exceeded"
     end)
    (ne_attempt node)
    (Some ((fun p => (p.1, JStr p.2)) <$>
           serialize_job_payload (mkJob (ex_id execution) (ne_id node)
             (ex_workflow_version_id execution) (ne_node_id node) (ne_attempt node))))
    now None None.

(** [session.add(DeadLetterJob(...))] and flush. *)
Definition add_dead_letter_job (execution : Execution) (node : NodeExecution) : M Q () :=
  id ← uuid4;
  now ← datetime_now;
  d ← gets w_db;
  if log_refers d (ex_id execution) (Some (ne_id node)) then
    update_db (db_set_dlq (<[id := dead_letter_job id now execution node]>))
  else raise EIntegrityError.

(** [_handle_node_failure]. *)
Definition _handle_node_failure (execution : Execution) (node_ref : uuid) : M Q (list uuid) :=
  node ← node_object node_ref;
  if (ne_attempt node <? ne_max_attempts node)%Z then
    transition_node_status (ne_id node) NFAILED NRETRYING ≫= fun _ =>
    retried ← transition_node_status (ne_id node) NRETRYING NQUEUED;
    retry_scheduled (ex_id execution) (ne_id retried) (ne_node_id retried)
      (ne_attempt retried) ≫= fun _ =>
    mret [ne_id retried]
  else
    transition_node_status (ne_id node) NFAILED NDEAD_LETTERED ≫= fun _ =>
    node ← node_object node_ref;
    dead_lettered (ex_id execution) (ne_id node) (ne_node_id node) (ne_error_message node) ≫= fun _ =>
    add_dead_letter_job execution node ≫= fun _ =>
    execution_now ← execution_object (ex_id execution);
    (if decide (ex_status execution_now = ERUNNING) then
       transition_execution_status (ex_id execution) ERUNNING EFAILED ≫= fun _ => mret ()
     else mret ()) ≫= fun _ =>
    mret [].

(** ** Complete (lines 118 to 186) *)

Definition set_output_payload (o : pydict) (n : NodeExecution) : NodeExecution :=
  mkNodeExecution (ne_id n) (ne_execution_id n) (ne_node_id n) (ne_node_type n) (ne_status n)
    (ne_attempt n) (ne_max_attempts n) (ne_input_payload n) (Some o) (ne_error_message n)
    (ne_idempotency_key n) (ne_redis_message_id n) (ne_worker_id n) (ne_queued_at n)
    (ne_started_at n) (ne_finished_at n).

Definition set_error_message (m : option string) (n : NodeExecution) : NodeExecution :=
  mkNodeExecution (ne_id n) (ne_execution_id n) (ne_node_id n) (ne_node_type n) (ne_status n)
    (ne_attempt n) (ne_max_attempts n) (ne_input_payload n) (ne_output_payload n) m
    (ne_idempotency_key n) (ne_redis_message_id n) (ne_worker_id n) (ne_queued_at n)
    (ne_started_at n) (ne_finished_at n).

(** Lines 170 to 184: the execution ends once all its nodes have. *)
Definition finish_execution (execution : Execution) (all_node_execs : list uuid) : M Q () :=
  nodes ← for_collect node_object all_node_execs;
  execution_now ← execution_object (ex_id execution);
  if forallb (fun ne => bool_decide (ne_status ne ∈ TERMINAL_NODE_STATUSES)) nodes &&
     bool_decide (ex_status execution_now = ERUNNING) then
    let final_status :=
      if existsb (fun ne => bool_decide (ne_status ne ∈ [NFAILED; NDEAD_LETTERED])) nodes
      then EFAILED else ESUCCEEDED in
    transition_execution_status (ex_id execution) ERUNNING final_status ≫= fun _ => mret ()
  else mret ().

(** [None] is the early return of a job whose node is no longer running. *)
Definition complete_job (ld : Loaded) (result : ExecutorResult) : M Q (option (list uuid)) :=
  let execution := ld_execution ld in
  select_execution (ex_id execution) ≫= fun _ =>
  all_node_execs ← select_nodes true (ex_id execution);
  let by_node_id := node_exec_by_node_id all_node_execs in
  match list_find (fun ne => ne_id ne = ld_node ld) all_node_execs with
  | None => raise ERuntimeError
  | Some (_, node) =>
      if decide (ne_status node ≠ NRUNNING) then mret None
      else
        nodes_to_publish ←
          (if success result then
             update_node (ne_id node) (set_output_payload (output result)) ≫= fun _ =>
             transition_node_status (ne_id node) NRUNNING NSUCCEEDED ≫= fun _ =>
             node_succeeded (ne_execution_id node) (ne_id node) (ne_node_id node) ≫= fun _ =>
             _queue_downstream_nodes (ld_definition ld) (ld_node_def ld) node by_node_id result
           else
             update_node (ne_id node) (set_error_message (error result)) ≫= fun _ =>
             transition_node_status (ne_id node) NRUNNING NFAILED ≫= fun _ =>
             node_failed (ne_execution_id node) (ne_id node) (ne_node_id node) (error result) ≫= fun _ =>
             _handle_node_failure execution (ne_id node));
        finish_execution execution (ne_id <$> all_node_execs) ≫= fun _ =>
        commit ≫= fun _ =>
        mret (Some nodes_to_publish)
  end.

(** ** [process_job] *)

Definition process_job (reg : ExecutorRegistry Net) (net : Net) (fs : fields) : M Q () :=
  claimed ← claim_job fs;
  match claimed with
  | None => mret ()
  | Some node_ref =>
      ld ← load_job node_ref;
      result ← lift (run_executor reg net ld);
      completed ← complete_job ld result;
      match completed with
      | None => mret ()
      | Some nodes_to_publish =>
          publish_nodes (ex_workflow_version_id (ld_execution ld)) (ex_id (ld_execution ld))
            nodes_to_publish
      end
  end.

End runtime.
