(* ===== verification/Machine.v ===== *)
(** * The abstract machine of an execution

    What the engine and the workers promise about one execution, without tables,
    sessions or queues: a status, an attempt counter and a bound per node, and the
    status of the execution. The detailed system is shown to refine this machine in
    System.v; the invariants and the termination of an execution are proved here. *)

From S2P Require Import Prelude Json PyStr Models DagValidator.

(** ** States *)

Record ANode : Type := mkANode {
  an_status : NodeExecutionStatus;
  an_attempt : Z;
  an_max : Z
}.

Record MState : Type := mkMState {
  m_exec : ExecutionStatus;
  m_nodes : gmap string ANode
}.

(** A status per node id; the definitions below do not look further. *)
Definition statuses : Type := string → option NodeExecutionStatus.

Definition m_status (nodes : gmap string ANode) : statuses := fun x => an_status <$> nodes !! x.

(** The nodes a skip that starts at the seeds reaches through pending nodes. *)
Inductive skip_reach (wf : WorkflowDefinition) (st : statuses) (seed : string → Prop) :
    string → Prop :=
| skip_seed x : seed x → st x = Some NPENDING → skip_reach wf st seed x
| skip_child x c : skip_reach wf st seed x → wf_edge wf x c →
    st c = Some NPENDING → skip_reach wf st seed c.

Lemma skip_reach_pending wf st seed x : skip_reach wf st seed x → st x = Some NPENDING.
Proof. by destruct 1. Qed.

(** Every parent has succeeded. *)
Definition parents_succeeded (wf : WorkflowDefinition) (st : statuses) (x : string) : Prop :=
  ∀ p, wf_edge wf p x → st p = Some NSUCCEEDED.

(** A node that is queued now: pending, with all its parents succeeded. *)
Definition ready (wf : WorkflowDefinition) (st : statuses) (x : string) : Prop :=
  st x = Some NPENDING ∧ parents_succeeded wf st x.

(** What a transition does to a node: entering [QUEUED] starts an attempt. *)
Definition a_enter (to : NodeExecutionStatus) (n : ANode) : ANode :=
  mkANode to (if decide (to = NQUEUED) then an_attempt n + 1 else an_attempt n)%Z (an_max n).

Definition m_terminal (s : NodeExecutionStatus) : bool :=
  match s with NSUCCEEDED | NFAILED | NSKIPPED | NDEAD_LETTERED => true | _ => false end.

Definition m_bad (s : NodeExecutionStatus) : bool :=
  match s with NFAILED | NDEAD_LETTERED => true | _ => false end.

Definition all_terminal (nodes : gmap string ANode) : Prop :=
  ∀ x n, nodes !! x = Some n → m_terminal (an_status n) = true.

Definition some_bad (nodes : gmap string ANode) : Prop :=
  ∃ x n, nodes !! x = Some n ∧ m_bad (an_status n) = true.

(** ** Steps *)

(** After the success of [x]: the branches not chosen are skipped with what they reach,
    and the children of [x] that are ready are queued. *)
Definition advance (wf : WorkflowDefinition) (x : string) (seed : string → Prop)
    (nodes nodes' : gmap string ANode) : Prop :=
  ∀ y,
    (skip_reach wf (m_status nodes) seed y ∧
       nodes' !! y = a_enter NSKIPPED <$> nodes !! y) ∨
    (¬ skip_reach wf (m_status nodes) seed y ∧ wf_edge wf x y ∧ ready wf (m_status nodes) y ∧
       nodes' !! y = a_enter NQUEUED <$> nodes !! y) ∨
    (¬ skip_reach wf (m_status nodes) seed y ∧ ¬ (wf_edge wf x y ∧ ready wf (m_status nodes) y) ∧
       nodes' !! y = nodes !! y).

(** How the status of the execution follows: once every node is terminal a running
    execution ends. A worker may act on an older reading of a status that has already
    left [RUNNING]; then the ending may be written once more. *)
Inductive finish (nodes : gmap string ANode) : ExecutionStatus → ExecutionStatus → Prop :=
| finish_open e : ¬ all_terminal nodes → finish nodes e e
| finish_failed e : all_terminal nodes → some_bad nodes → finish nodes e EFAILED
| finish_succeeded e : all_terminal nodes → ¬ some_bad nodes → finish nodes e ESUCCEEDED
| finish_again e : e ≠ ERUNNING → finish nodes e e.

Inductive Label : Type :=
| LClaim | LSucceed | LRequeue | LDeadLetter | LRecover | LManualRetry.

Inductive mstep (wf : WorkflowDefinition) : Label → MState → MState → Prop :=
| m_claim e nodes x n :
    nodes !! x = Some n → an_status n = NQUEUED →
    mstep wf LClaim (mkMState e nodes) (mkMState e (<[x := a_enter NRUNNING n]> nodes))
| m_succeed e e' nodes nodes' x n seed :
    nodes !! x = Some n → an_status n = NRUNNING →
    advance wf x seed (<[x := a_enter NSUCCEEDED n]> nodes) nodes' →
    finish nodes' e e' →
    mstep wf LSucceed (mkMState e nodes) (mkMState e' nodes')
| m_requeue e nodes x n :
    nodes !! x = Some n → an_status n = NRUNNING → (an_attempt n < an_max n)%Z →
    mstep wf LRequeue (mkMState e nodes) (mkMState e (<[x := a_enter NQUEUED n]> nodes))
| m_dead_letter e e' nodes x n :
    nodes !! x = Some n → an_status n = NRUNNING → (an_max n ≤ an_attempt n)%Z →
    (e' = EFAILED ∨ (e ≠ ERUNNING ∧ e' = e)) →
    mstep wf LDeadLetter (mkMState e nodes)
      (mkMState e' (<[x := a_enter NDEAD_LETTERED n]> nodes))
| m_recover e nodes x n :
    nodes !! x = Some n → an_status n = NRUNNING →
    mstep wf LRecover (mkMState e nodes)
      (mkMState e (<[x := mkANode NQUEUED (an_attempt n) (an_max n)]> nodes))
| m_manual_retry e nodes x n :
    nodes !! x = Some n → an_status n = NDEAD_LETTERED →
    mstep wf LManualRetry (mkMState e nodes) (mkMState e (<[x := a_enter NQUEUED n]> nodes)).

(** The bounds of a retry policy. *)
Definition max_ok (n : ANode) : Prop := (1 ≤ an_max n ≤ 10)%Z.

(** A started execution: the roots are queued, everything else is pending. *)
Definition m_initial (wf : WorkflowDefinition) (s : MState) : Prop :=
  m_exec s = ERUNNING ∧
  (∀ x, is_Some (m_nodes s !! x) ↔ x ∈ node_ids wf) ∧
  (∀ x n, m_nodes s !! x = Some n → max_ok n ∧
     ((∀ a, ¬ wf_edge wf a x) ∧ an_status n = NQUEUED ∧ an_attempt n = 1%Z ∨
      (∃ a, wf_edge wf a x) ∧ an_status n = NPENDING ∧ an_attempt n = 0%Z)).

(** ** The invariant *)

(** Statuses in which a node has been started. *)
Definition m_started (s : NodeExecutionStatus) : bool :=
  match s with NQUEUED | NRUNNING | NSUCCEEDED | NDEAD_LETTERED => true | _ => false end.

Record minv (wf : WorkflowDefinition) (s : MState) : Prop := {
  mi_dom x : is_Some (m_nodes s !! x) ↔ x ∈ node_ids wf;
  mi_status x st : m_status (m_nodes s) x = Some st → m_started st = true ∨ st = NPENDING ∨ st = NSKIPPED;
  mi_started x st : m_status (m_nodes s) x = Some st → m_started st = true →
    parents_succeeded wf (m_status (m_nodes s)) x;
  mi_skipped x c : m_status (m_nodes s) x = Some NSKIPPED → wf_edge wf x c →
    m_status (m_nodes s) c = Some NSKIPPED;
  mi_pending x : m_status (m_nodes s) x = Some NPENDING →
    ¬ parents_succeeded wf (m_status (m_nodes s)) x;
  mi_exec : m_exec s ∈ [ERUNNING; ESUCCEEDED; EFAILED];
  mi_running : m_exec s = ERUNNING →
    ¬ some_bad (m_nodes s) ∧ (wf_nodes wf ≠ [] → ¬ all_terminal (m_nodes s));
  mi_succeeded : m_exec s = ESUCCEEDED →
    ∀ x st, m_status (m_nodes s) x = Some st → st = NSUCCEEDED ∨ st = NSKIPPED
}.

Lemma m_status_insert nodes x n y :
  m_status (<[x := n]> nodes) y = if decide (x = y) then Some (an_status n) else m_status nodes y.
Proof. unfold m_status. rewrite lookup_insert. by case_decide. Qed.

Lemma m_status_Some nodes x s :
  m_status nodes x = Some s ↔ ∃ n, nodes !! x = Some n ∧ an_status n = s.
Proof. unfold m_status. rewrite fmap_Some. naive_solver. Qed.

Lemma m_status_is_Some nodes x : is_Some (m_status nodes x) ↔ is_Some (nodes !! x).
Proof. unfold m_status. by rewrite fmap_is_Some. Qed.

Section invariant.
Context (wf : WorkflowDefinition).
Hypothesis Hends : ∀ a b, wf_edge wf a b → a ∈ node_ids wf ∧ b ∈ node_ids wf.

(** Moving one node between started statuses other than [SUCCEEDED] touches none of the
    conditions on the graph. *)
Lemma minv_move e e' nodes x n n' :
  minv wf (mkMState e nodes) → nodes !! x = Some n →
  m_started (an_status n) = true → an_status n ≠ NSUCCEEDED →
  m_started (an_status n') = true → an_status n' ≠ NSUCCEEDED →
  (e = EFAILED ∨ an_status n ≠ NDEAD_LETTERED) →
  (e' = EFAILED ∨ e' = e ∧ an_status n' ≠ NDEAD_LETTERED ∨ e' = e ∧ e ≠ ERUNNING) →
  minv wf (mkMState e' (<[x := n']> nodes)).
Proof.
  clear Hends. intros [Hdom Hst Hstart Hskip Hpend Hex Hrun Hsucc] Hx Hs Hns Hs' Hns' He He'. simpl in *.
  assert (m_status nodes x = Some (an_status n)) as Hxs by (apply m_status_Some; eauto).
  assert (∀ y, m_status (<[x := n']> nodes) y = Some NSUCCEEDED ↔ m_status nodes y = Some NSUCCEEDED)
    as Hsuc. { intros y. rewrite m_status_insert. case_decide; subst; [|done].
    rewrite Hxs. by split; intros [= Heq]. }
  assert (∀ y, parents_succeeded wf (m_status (<[x := n']> nodes)) y ↔
               parents_succeeded wf (m_status nodes) y) as Hps.
  { intros y. unfold parents_succeeded. by setoid_rewrite Hsuc. }
  assert (∀ y s, s = NPENDING ∨ s = NSKIPPED →
            (m_status (<[x := n']> nodes) y = Some s ↔ m_status nodes y = Some s)) as Hcold.
  { intros y s Hc. rewrite m_status_insert. case_decide; subst; [|done]. rewrite Hxs.
    split; intros [= Heq]; rewrite Heq in *; destruct Hc; subst; done. }
  split; simpl.
  - intros y. rewrite <- Hdom, lookup_insert. case_decide; [|done]. subst. rewrite Hx.
    split; by eexists.
  - intros y s. rewrite m_status_insert. case_decide; [|by apply Hst]. intros [= <-]. by left.
  - intros y s. rewrite Hps, m_status_insert. case_decide; [|by apply Hstart].
    subst. intros _ _. by eapply Hstart.
  - intros y c Hy Hc. rewrite Hcold in Hy |- * by auto. by eapply Hskip.
  - intros y. rewrite Hps, Hcold by auto. apply Hpend.
  - destruct He' as [->|[[-> _]|[-> _]]]; [|exact Hex..]. rewrite !elem_of_cons. auto.
  - destruct He' as [->|[[-> Hd]|[-> Hne]]]; [done| |by intros ?].
    intros ->. destruct Hrun as [Hb Ht]; [done|]. split.
    + intros (y & m & Hy & Hm). rewrite lookup_insert in Hy. case_decide.
      * injection Hy as <-. destruct (an_status n') eqn:Hsn; done.
      * apply Hb. by exists y, m.
    + intros Hnil Hall. specialize (Hall x n'). rewrite lookup_insert_eq in Hall.
      specialize (Hall eq_refl). destruct (an_status n') eqn:Hsn; done.
  - destruct He' as [->|[[-> Hd]|[-> Hne]]]; [done| |];
      intros ->; exfalso; destruct (Hsucc eq_refl _ _ Hxs) as [Hc|Hc]; rewrite Hc in *; done.
Qed.

Lemma finish_running nodes e : finish nodes e ERUNNING → e = ERUNNING ∧ ¬ all_terminal nodes.
Proof. by inversion 1. Qed.

Section advance.
Context (nodes nodes' : gmap string ANode) (x : string) (n : ANode) (e : ExecutionStatus)
  (seed : string → Prop).
Hypothesis Hinv : minv wf (mkMState e nodes).
Hypothesis Hx : nodes !! x = Some n.
Hypothesis Hrun : an_status n = NRUNNING.
Let nodes1 := <[x := a_enter NSUCCEEDED n]> nodes.
Hypothesis Hadv : advance wf x seed nodes1 nodes'.

Lemma adv_x_running : m_status nodes x = Some NRUNNING.
Proof using Hx Hrun. apply m_status_Some. eauto. Qed.

Lemma adv_status1 y :
  m_status nodes1 y = if decide (x = y) then Some NSUCCEEDED else m_status nodes y.
Proof. unfold nodes1. rewrite m_status_insert. done. Qed.

(** Statuses after the step. *)
Lemma adv_cases y :
  (skip_reach wf (m_status nodes1) seed y ∧ m_status nodes y = Some NPENDING ∧
     m_status nodes' y = Some NSKIPPED) ∨
  (¬ skip_reach wf (m_status nodes1) seed y ∧ wf_edge wf x y ∧ ready wf (m_status nodes1) y ∧
     m_status nodes y = Some NPENDING ∧ m_status nodes' y = Some NQUEUED) ∨
  (¬ skip_reach wf (m_status nodes1) seed y ∧
     ¬ (wf_edge wf x y ∧ ready wf (m_status nodes1) y) ∧
     m_status nodes' y = m_status nodes1 y).
Proof using Hadv Hx Hrun.
  assert (∀ y, m_status nodes1 y = Some NPENDING → m_status nodes y = Some NPENDING) as Hp.
  { intros z. rewrite adv_status1. by case_decide. }
  destruct (Hadv y) as [[Hr Hy]|[(Hr & He & Hrd & Hy)|(Hr & He & Hy)]].
  - left. assert (m_status nodes1 y = Some NPENDING) as Hs by (by destruct Hr).
    split_and!; [done|by apply Hp|]. unfold m_status in *. rewrite Hy.
    by destruct (nodes1 !! y).
  - right; left. pose proof Hrd as [Hs _]. split_and!; [done..|by apply Hp|].
    unfold m_status in *. rewrite Hy. by destruct (nodes1 !! y).
  - right; right. split_and!; [done..|]. unfold m_status. by rewrite Hy.
Qed.

Lemma adv_succeeded y :
  m_status nodes' y = Some NSUCCEEDED ↔ m_status nodes1 y = Some NSUCCEEDED.
Proof using Hadv Hx Hrun.
  rewrite adv_status1. pose proof adv_x_running as Hxr.
  destruct (adv_cases y) as [(_ & Hp & ->)|[(_ & _ & _ & Hp & ->)|(_ & _ & ->)]];
    rewrite ?adv_status1; case_decide; subst; try done; [congruence| |congruence|]; rewrite Hp; (split; congruence).
Qed.

Lemma adv_parents y :
  parents_succeeded wf (m_status nodes') y ↔ parents_succeeded wf (m_status nodes1) y.
Proof using Hadv Hx Hrun. unfold parents_succeeded. by setoid_rewrite adv_succeeded. Qed.

(** Parents that had succeeded still have. *)
Lemma adv_parents_mono y :
  parents_succeeded wf (m_status nodes) y → parents_succeeded wf (m_status nodes1) y.
Proof using Hx Hrun.
  intros Hp p Hpy. rewrite adv_status1. case_decide; [done|]. by apply Hp.
Qed.

Lemma adv_skipped_child p c :
  m_status nodes' p = Some NSKIPPED → wf_edge wf p c → m_status nodes' c = Some NSKIPPED.
Proof using Hadv Hx Hrun Hinv Hends.
  pose proof Hinv as [Hdom Hst Hstart Hskip Hpend _ _ _]. simpl in *.
  pose proof adv_x_running as Hxr. intros Hp Hc.
  destruct (adv_cases p) as [(Hr & Hpp & _)|[(_ & _ & _ & _ & Hq)|(_ & _ & Heq)]]; [|congruence|].
  - (* newly skipped *)
    destruct (decide (m_status nodes1 c = Some NPENDING)) as [Hcp|Hcp].
    { assert (skip_reach wf (m_status nodes1) seed c) as Hrc by (by eapply skip_child).
      destruct (adv_cases c) as [(_ & _ & ?)|[(? & _)|(? & _)]]; done. }
    assert (is_Some (m_status nodes c)) as [s Hs].
    { apply m_status_is_Some, Hdom. by apply (Hends p c). }
    assert (m_started s = true → False) as Hns.
    { intros Hst'. pose proof (Hstart _ _ Hs Hst' p Hc). congruence. }
    destruct (Hst _ _ Hs) as [Hst'|[-> | ->]]; [by destruct Hns| |].
    + exfalso. apply Hcp. rewrite adv_status1. case_decide; [|done]. subst. congruence.
    + destruct (adv_cases c) as [(_ & ? & _)|[(_ & _ & _ & ? & _)|(_ & _ & ->)]]; [congruence..|].
      rewrite adv_status1. case_decide; [|done]. subst. congruence.
  - (* skipped before *)
    rewrite Heq, adv_status1 in Hp. case_decide; [done|].
    pose proof (Hskip _ _ Hp Hc) as Hs.
    destruct (adv_cases c) as [(_ & ? & _)|[(_ & _ & _ & ? & _)|(_ & _ & ->)]]; [congruence..|].
    rewrite adv_status1. case_decide; [|done]. subst. congruence.
Qed.

Lemma adv_pending y :
  m_status nodes' y = Some NPENDING → ¬ parents_succeeded wf (m_status nodes') y.
Proof using Hadv Hx Hrun Hinv.
  pose proof Hinv as [_ _ _ _ Hpend _ _ _]. simpl in *. intros Hy Hps.
  rewrite adv_parents in Hps.
  destruct (adv_cases y) as [(_ & _ & ?)|[(_ & _ & _ & _ & ?)|(_ & Hno & Heq)]]; [congruence..|].
  rewrite Heq in Hy. apply Hno. assert (ready wf (m_status nodes1) y) as Hr by done.
  split; [|done]. destruct (decide (x ∈ (fst <$> filter (fun e => e.2 = y) (edge_pairs wf)))) as [Hin|Hin].
  - apply list_elem_of_fmap in Hin as ([a b] & -> & [Hb Hin]%list_elem_of_filter). simpl in *. by subst.
  - exfalso. rewrite adv_status1 in Hy. case_decide; [done|]. apply (Hpend y Hy).
    intros p Hp. pose proof (Hps p Hp) as Hs. rewrite adv_status1 in Hs. case_decide; [|done].
    subst. exfalso. apply Hin. apply list_elem_of_fmap. exists (p, y). split; [done|].
    by apply list_elem_of_filter.
Qed.

Lemma minv_advance e' : finish nodes' e e' → minv wf (mkMState e' nodes').
Proof using Hadv Hx Hrun Hinv Hends.
  intros Hfin. pose proof Hinv as [Hdom Hst Hstart Hskip Hpend Hex Hr Hsucc]. simpl in *.
  pose proof adv_x_running as Hxr. split; simpl.
  - intros y. rewrite <- Hdom, <- !m_status_is_Some.
    destruct (adv_cases y) as [(_ & Hp & ->)|[(_ & _ & _ & Hp & ->)|(_ & _ & ->)]].
    + rewrite Hp. by split; eexists.
    + rewrite Hp. by split; eexists.
    + rewrite adv_status1. case_decide; [|done]. subst. rewrite Hxr. by split; eexists.
  - intros y s Hs. destruct (adv_cases y) as [(_ & _ & Hy)|[(_ & _ & _ & _ & Hy)|(_ & _ & Hy)]];
      rewrite Hy in Hs; [naive_solver..|]. rewrite adv_status1 in Hs. case_decide; [|by eapply Hst].
    injection Hs as <-. by left.
  - intros y s Hs Hst'. rewrite adv_parents.
    destruct (adv_cases y) as [(_ & _ & Hy)|[(_ & _ & [_ Hrd] & _ & Hy)|(_ & _ & Hy)]];
      [rewrite Hy in Hs; by injection Hs as <-|done|].
    rewrite Hy, adv_status1 in Hs. apply adv_parents_mono. case_decide; [|by eapply Hstart].
    subst. by eapply Hstart.
  - apply adv_skipped_child.
  - apply adv_pending.
  - inversion Hfin; subst; [exact Hex| | |exact Hex]; rewrite !elem_of_cons; auto.
  - intros ->. apply finish_running in Hfin as [-> Hnt]. split; [|done].
    destruct Hr as [Hb _]; [done|]. intros (y & m & Hy & Hm).
    assert (m_status nodes' y = Some (an_status m)) as Hs by (apply m_status_Some; eauto).
    destruct (adv_cases y) as [(_ & _ & Hy')|[(_ & _ & _ & _ & Hy')|(_ & _ & Hy')]];
      rewrite Hy' in Hs; [injection Hs as Hs; by rewrite <- Hs in Hm..|].
    rewrite adv_status1 in Hs. case_decide; [injection Hs as Hs; by rewrite <- Hs in Hm|].
    apply m_status_Some in Hs as (m' & Hm' & Heq). apply Hb. exists y, m'. by rewrite Heq.
  - intros -> y s Hs. inversion Hfin; subst.
    + destruct (Hsucc eq_refl _ _ Hxr); done.
    + apply m_status_Some in Hs as (m & Hm & <-).
      assert (m_terminal (an_status m) = true) as Ht by eauto.
      destruct (m_bad (an_status m)) eqn:Hb; [exfalso; match goal with H : ¬ some_bad _ |- _ =>
        apply H; by exists y, m end|].
      destruct (an_status m); simpl in *; auto; discriminate.
    + destruct (Hsucc eq_refl _ _ Hxr); done.
Qed.

End advance.

Lemma mstep_inv l s s' : minv wf s → mstep wf l s s' → minv wf s'.
Proof using Hends.
  intros Hinv Hstep. destruct Hstep as
    [e nodes x n Hx Hs|e e' nodes nodes' x n seed Hx Hs Hadv Hfin|e nodes x n Hx Hs _
    |e e' nodes x n Hx Hs _ He|e nodes x n Hx Hs|e nodes x n Hx Hs].
  - eapply minv_move; [exact Hinv|exact Hx|..]; rewrite ?Hs; simpl; auto.
  - by eapply minv_advance.
  - eapply minv_move; [exact Hinv|exact Hx|..]; rewrite ?Hs; simpl; auto.
  - eapply minv_move; [exact Hinv|exact Hx|..]; rewrite ?Hs; simpl; auto. naive_solver.
  - eapply minv_move; [exact Hinv|exact Hx|..]; rewrite ?Hs; simpl; auto.
  - eapply minv_move; [exact Hinv|exact Hx|..]; rewrite ?Hs; simpl; auto.
    left. pose proof Hinv as [_ _ _ _ _ Hex Hr Hsucc]. simpl in *.
    rewrite !elem_of_cons in Hex. destruct Hex as [-> | [-> | [-> | ?%not_elem_of_nil]]]; [| |done|done].
    + destruct Hr as [Hb _]; [done|]. exfalso. apply Hb. exists x, n. by rewrite Hs.
    + destruct (Hsucc eq_refl x NDEAD_LETTERED); [|done..]. apply m_status_Some. eauto.
Qed.

Lemma m_initial_inv s : m_initial wf s → minv wf s.
Proof using Hends.
  intros (He & Hdom & Hinit).
  assert (∀ x st, m_status (m_nodes s) x = Some st →
     (∀ a, ¬ wf_edge wf a x) ∧ st = NQUEUED ∨ (∃ a, wf_edge wf a x) ∧ st = NPENDING) as Hst.
  { intros x st (n & Hn & <-)%m_status_Some. destruct (Hinit x n Hn) as [_ Hc]. naive_solver. }
  split; try done.
  - intros x st Hx. destruct (Hst _ _ Hx) as [[_ ->]|[_ ->]]; auto.
  - intros x st Hx Hs p Hp. destruct (Hst _ _ Hx) as [[Hno ->]|[_ ->]]; [|done]. by destruct (Hno p).
  - intros x c Hx. by destruct (Hst _ _ Hx) as [[_ ?]|[_ ?]].
  - intros x Hx Hps. destruct (Hst _ _ Hx) as [[_ ?]|[[a Ha] _]]; [done|].
    pose proof (Hps a Ha) as Hs. by destruct (Hst _ _ Hs) as [[_ ?]|[_ ?]].
  - rewrite He, !elem_of_cons. auto.
  - intros _. split.
    + intros (x & n & Hn & Hb). destruct (Hst x (an_status n)) as [[_ Hq]|[_ Hq]];
        [apply m_status_Some; eauto|by rewrite Hq in Hb..].
    + intros Hne Hall. destruct (wf_nodes wf) as [|nd nds] eqn:Hnodes; [done|].
      assert (is_Some (m_nodes s !! node_id nd)) as [n Hn].
      { apply Hdom. unfold node_ids. rewrite Hnodes. by left. }
      pose proof (Hall _ _ Hn) as Ht.
      destruct (Hst (node_id nd) (an_status n)) as [[_ Hq]|[_ Hq]];
        [apply m_status_Some; eauto|by rewrite Hq in Ht..].
  - intros Hc. congruence.
Qed.

End invariant.

(** ** No deadlock *)

(** In an acyclic graph every descent through predecessors ends. *)
Lemma acyclic_sn wf x : acyclic wf → sn (flip (wf_edge wf)) x.
Proof.
  intros Hac. apply tc_finite_sn.
  - intros y Hy. apply (Hac y). by apply tc_flip.
  - exists (fst <$> edge_pairs wf). intros y Hy. apply list_elem_of_fmap.
    induction Hy as [x y Hxy|x z y Hxz Hzy IH]; [|exact IH]. by exists (y, x).
Qed.

Lemma parents_succeeded_dec wf st x :
  parents_succeeded wf st x ∨ ∃ p, wf_edge wf p x ∧ st p ≠ Some NSUCCEEDED.
Proof.
  set (ps := fst <$> filter (fun e => e.2 = x) (edge_pairs wf)).
  assert (∀ p, p ∈ ps ↔ wf_edge wf p x) as Hps.
  { intros p. unfold ps, wf_edge. rewrite list_elem_of_fmap. split.
    - intros ([a b] & -> & [Hb He]%list_elem_of_filter). simpl in *. by subst.
    - intros He. exists (p, x). split; [done|]. by apply list_elem_of_filter. }
  destruct (decide (Forall (fun p => st p = Some NSUCCEEDED) ps)) as [Hall|Hno].
  - left. intros p Hp. rewrite Forall_forall in Hall. by apply Hall, Hps.
  - right. apply not_Forall_Exists in Hno; [|apply _]. apply Exists_exists in Hno as (p & Hp & Hs).
    exists p. split; [by apply Hps|done].
Qed.

Lemma all_terminal_dec nodes :
  all_terminal nodes ∨ ∃ x n, nodes !! x = Some n ∧ m_terminal (an_status n) = false.
Proof.
  destruct (decide (map_Forall (fun _ n => m_terminal (an_status n) = true) nodes)) as [H|H].
  - by left.
  - right. apply map_not_Forall in H as (x & n & Hn & Ht); [|apply _].
    exists x, n. split; [done|]. by destruct (m_terminal (an_status n)).
Qed.

(** A running execution always has a node that a worker can claim or has claimed. *)
Lemma m_no_deadlock wf s :
  minv wf s → (∀ a b, wf_edge wf a b → a ∈ node_ids wf ∧ b ∈ node_ids wf) → acyclic wf →
  m_exec s = ERUNNING → wf_nodes wf ≠ [] →
  ∃ x, m_status (m_nodes s) x = Some NQUEUED ∨ m_status (m_nodes s) x = Some NRUNNING.
Proof.
  intros [Hdom Hst Hstart Hskip Hpend _ Hrun _] Hends Hac Hex Hne.
  destruct (Hrun Hex) as [Hbad Hopen]. specialize (Hopen Hne).
  destruct (all_terminal_dec (m_nodes s)) as [?|(x0 & n0 & Hn0 & Ht0)]; [done|].
  assert (m_status (m_nodes s) x0 = Some (an_status n0)) as Hx0 by (apply m_status_Some; eauto).
  destruct (Hst _ _ Hx0) as [Hs|[Hs|Hs]];
    [exists x0; rewrite Hx0; destruct (an_status n0); simpl in *; auto; discriminate| |
     by rewrite Hs in Ht0].
  rewrite Hs in Hx0. clear n0 Hn0 Ht0 Hs.
  pose proof (acyclic_sn wf x0 Hac) as Hsn. induction Hsn as [x _ IH].
  destruct (parents_succeeded_dec wf (m_status (m_nodes s)) x) as [Hp|(p & Hpx & Hp)];
    [by destruct (Hpend x Hx0)|].
  assert (is_Some (m_status (m_nodes s) p)) as [st Hstp].
  { apply m_status_is_Some, Hdom. by apply (Hends p x). }
  destruct (Hst _ _ Hstp) as [Hss|[->| ->]].
  - exists p. rewrite Hstp. destruct st; simpl in *; auto; try discriminate; [done|].
    exfalso. apply Hbad. apply m_status_Some in Hstp as (n & Hn & Heq). exists p, n. by rewrite Heq.
  - by apply (IH p).
  - pose proof (Hskip p x Hstp Hpx). congruence.
Qed.

(** ** Attempts *)

Definition attempt_ok (n : ANode) : Prop :=
  max_ok n ∧
  (an_status n ∈ [NPENDING; NSKIPPED] → an_attempt n = 0%Z) ∧
  (m_started (an_status n) = true → 1 ≤ an_attempt n ≤ an_max n)%Z.

Definition attempts_ok (s : MState) : Prop := ∀ x n, m_nodes s !! x = Some n → attempt_ok n.

Lemma m_initial_attempts wf s : m_initial wf s → attempts_ok s.
Proof.
  intros (_ & _ & Hinit) x n Hn. destruct (Hinit x n Hn) as (Hmax & [(_ & Hs & Ha)|(_ & Hs & Ha)]);
    unfold max_ok in Hmax; split_and!; rewrite ?Hs, ?Ha; try done; try lia.
  rewrite !elem_of_cons. by intros [|[|?%not_elem_of_nil]].
Qed.

(** Without manual retries no node is attempted more often than its policy allows. *)
Lemma mstep_attempts wf l s s' :
  l ≠ LManualRetry → attempts_ok s → mstep wf l s s' → attempts_ok s'.
Proof.
  intros Hl Hok Hstep.
  assert (∀ e e' nodes x n', attempts_ok (mkMState e nodes) → attempt_ok n' →
            attempts_ok (mkMState e' (<[x := n']> nodes))) as Hins.
  { intros e e' nodes x n' H Hn' y m. simpl. rewrite lookup_insert.
    case_decide; [by intros [= <-]|apply H]. }
  destruct Hstep as
    [e nodes x n Hx Hs|e e' nodes nodes' x n seed Hx Hs Hadv Hfin|e nodes x n Hx Hs Ha
    |e e' nodes x n Hx Hs Ha He|e nodes x n Hx Hs|e nodes x n Hx Hs]; [..|done];
    pose proof (Hok x n Hx) as (Hmax & _ & Hstart); rewrite Hs in Hstart; simpl in Hstart;
    specialize (Hstart eq_refl).
  2:{ intros y m Hy. simpl in Hy.
      assert (∀ m, <[x := a_enter NSUCCEEDED n]> nodes !! y = Some m → attempt_ok m) as H1.
      { intros k. rewrite lookup_insert. case_decide; [|apply Hok]. intros [= <-].
        split_and!; [done| |done]. rewrite !elem_of_cons. by intros [|[|?%not_elem_of_nil]]. }
      destruct (Hadv y) as [[Hr Heq]|[(Hr & _ & [Hp _] & Heq)|(_ & _ & Heq)]];
        rewrite Heq in Hy; [| |by apply H1].
      - apply fmap_Some in Hy as (k & Hk & ->). assert (m_status (<[x:=a_enter NSUCCEEDED n]> nodes) y
          = Some NPENDING) as Hp by (by destruct Hr).
        apply m_status_Some in Hp as (k' & Hk' & Hp). destruct (H1 k Hk) as (Hm & H0 & _).
        split_and!; [done| |done]. intros _. simpl. apply H0. rewrite Hk in Hk'. injection Hk' as ->.
        rewrite Hp. by left.
      - apply fmap_Some in Hy as (k & Hk & ->). apply m_status_Some in Hp as (k' & Hk' & Hp).
        rewrite Hk in Hk'. injection Hk' as ->. destruct (H1 _ Hk) as (Hm & H0 & _).
        rewrite Hp in H0. rewrite elem_of_cons in H0. specialize (H0 (or_introl eq_refl)).
        split_and!; [done| |]; simpl.
        + rewrite !elem_of_cons. by intros [|[|?%not_elem_of_nil]].
        + intros _. unfold max_ok in *. lia. }
  all: apply (Hins e); [done|]; split_and!; simpl; try done; try (unfold max_ok in *; lia);
    rewrite !elem_of_cons; by intros [|[|?%not_elem_of_nil]].
Qed.

(** ** Termination *)

(** The steps a node can still take. *)
Definition weight (o : option ANode) : nat :=
  match o with
  | None => 0
  | Some n =>
      match an_status n with
      | NPENDING => Z.to_nat (2 * an_max n + 1)
      | NQUEUED => Z.to_nat (2 * (an_max n - an_attempt n) + 2)
      | NRUNNING => Z.to_nat (2 * (an_max n - an_attempt n) + 1)
      | _ => 0
      end
  end.

Definition total_weight (wf : WorkflowDefinition) (nodes : gmap string ANode) : nat :=
  sum_list_with (fun x => weight (nodes !! x)) (node_ids wf).

Lemma sum_list_with_le {A} (f g : A → nat) l :
  (∀ x, x ∈ l → f x ≤ g x)%nat → (sum_list_with f l ≤ sum_list_with g l)%nat.
Proof.
  induction l as [|x l IH]; intros H; simpl; [lia|].
  pose proof (H x (list_elem_of_here _ _)). specialize (IH (fun y Hy => H y (list_elem_of_further _ _ _ Hy))). lia.
Qed.

Lemma sum_list_with_lt {A} (f g : A → nat) l x :
  x ∈ l → (f x < g x)%nat → (∀ y, y ∈ l → f y ≤ g y)%nat →
  (sum_list_with f l < sum_list_with g l)%nat.
Proof.
  induction 1 as [x l|x y l Hx IH]; intros Hlt H; simpl.
  - pose proof (sum_list_with_le f g l (fun y Hy => H y (list_elem_of_further _ _ _ Hy))). lia.
  - specialize (IH Hlt (fun z Hz => H z (list_elem_of_further _ _ _ Hz))).
    pose proof (H y (list_elem_of_here _ _)). lia.
Qed.

Lemma sum_list_with_bump {A} `{EqDecision A} (f g : A → nat) l x :
  NoDup l → (f x ≤ g x + 1)%nat → (∀ y, y ≠ x → f y ≤ g y)%nat →
  (sum_list_with f l ≤ sum_list_with g l + 1)%nat.
Proof.
  intros Hnd Hx H. induction Hnd as [|y l Hy Hnd IH]; simpl; [lia|].
  destruct (decide (y = x)) as [->|Hne].
  - pose proof (sum_list_with_le f g l) as Hl. cut (sum_list_with f l ≤ sum_list_with g l)%nat; [lia|].
    apply Hl. intros z Hz. apply H. by intros ->.
  - pose proof (H y Hne). lia.
Qed.

(** Every step but a recovery and a manual retry uses weight up. *)
Lemma mstep_weight wf l s s' :
  minv wf s → attempts_ok s → l ≠ LManualRetry → l ≠ LRecover → mstep wf l s s' →
  (total_weight wf (m_nodes s') < total_weight wf (m_nodes s))%nat.
Proof.
  intros Hinv Hok Hl Hl' Hstep.
  assert (∀ nodes x n n', nodes !! x = Some n → x ∈ node_ids wf →
    (weight (Some n') < weight (Some n))%nat →
    (total_weight wf (<[x := n']> nodes) < total_weight wf nodes)%nat) as Hins.
  { intros nodes x n n' Hx Hin Hw. apply (sum_list_with_lt _ _ _ x); [done| |].
    - by rewrite lookup_insert_eq, Hx.
    - intros y _. rewrite lookup_insert. case_decide; [subst; rewrite Hx; lia|lia]. }
  pose proof (mi_dom _ _ Hinv) as Hdom.
  destruct Hstep as
    [e nodes x n Hx Hs|e e' nodes nodes' x n seed Hx Hs Hadv Hfin|e nodes x n Hx Hs Ha
    |e e' nodes x n Hx Hs Ha He|e nodes x n Hx Hs|e nodes x n Hx Hs]; [..|done|done];
    pose proof (Hok x n Hx) as (Hmax & _ & Hstart); rewrite Hs in Hstart; simpl in Hstart;
    specialize (Hstart eq_refl); unfold max_ok in *; simpl in *;
    (assert (x ∈ node_ids wf) as Hin by (apply Hdom; by rewrite Hx)).
  2:{ assert (nodes' !! x = Some (a_enter NSUCCEEDED n)) as Hx'.
      { assert (m_status (<[x := a_enter NSUCCEEDED n]> nodes) x ≠ Some NPENDING) as Hnp.
        { rewrite m_status_insert, decide_True by done. simpl. congruence. }
        destruct (Hadv x) as [[Hr _]|[(_ & _ & [Hr _] & _)|(_ & _ & ->)]];
          [by destruct (Hnp (skip_reach_pending _ _ _ _ Hr))|done|by rewrite lookup_insert_eq]. }
      apply (sum_list_with_lt _ _ _ x); [done| |].
      - rewrite Hx', Hx. simpl. rewrite Hs. lia.
      - intros y _. destruct (decide (x = y)) as [<-|Hne]; [rewrite Hx'; simpl; lia|].
        destruct (Hadv y) as [[_ ->]|[(_ & _ & [Hp _] & ->)|(_ & _ & ->)]];
          rewrite !lookup_insert_ne by done; [destruct (nodes !! y); simpl; lia| |lia].
        rewrite m_status_insert, decide_False in Hp by done.
        apply m_status_Some in Hp as (k & Hk & Hp). rewrite Hk. simpl. rewrite Hp.
        destruct (Hok y k Hk) as (Hm & H0 & _). rewrite Hp, elem_of_cons in H0.
        specialize (H0 (or_introl eq_refl)). unfold max_ok in *. lia. }
  all: apply (Hins nodes x n); [done..|]; simpl; rewrite Hs; lia.
Qed.

Lemma mstep_recover_weight wf s s' :
  NoDup (node_ids wf) → attempts_ok s → mstep wf LRecover s s' →
  (total_weight wf (m_nodes s') ≤ total_weight wf (m_nodes s) + 1)%nat.
Proof.
  intros Hnd Hok Hstep. inversion Hstep as [| | | |e nodes x n Hx Hs|]; subst; simpl.
  apply (sum_list_with_bump _ _ _ x Hnd).
  - rewrite lookup_insert_eq, Hx. simpl. rewrite Hs.
    pose proof (Hok x n Hx) as (_ & _ & Ha). rewrite Hs in Ha. specialize (Ha eq_refl). lia.
  - intros y Hy. by rewrite lookup_insert_ne.
Qed.

(** Runs, with the labels of their steps. *)
Inductive mrun (wf : WorkflowDefinition) : list Label → MState → MState → Prop :=
| mrun_nil s : mrun wf [] s s
| mrun_cons l ls s1 s2 s3 : mstep wf l s1 s2 → mrun wf ls s2 s3 → mrun wf (l :: ls) s1 s3.

(** Steps no user asked for, and steps that are neither that nor a recovery. *)
Definition automatic (l : Label) : Prop := l ≠ LManualRetry.
Definition work (l : Label) : Prop := l ≠ LManualRetry ∧ l ≠ LRecover.

Lemma mrun_app wf ls1 ls2 s1 s2 s3 :
  mrun wf ls1 s1 s2 → mrun wf ls2 s2 s3 → mrun wf (ls1 ++ ls2) s1 s3.
Proof. induction 1; intros Hrun; simpl; [done|]. econstructor; eauto. Qed.

Lemma mrun_one wf l s s' : mstep wf l s s' → mrun wf [l] s s'.
Proof. intros Hs. econstructor; [exact Hs|constructor]. Qed.

(** An execution does not come back to [RUNNING]. *)
Lemma mstep_running wf l s s' : mstep wf l s s' → m_exec s' = ERUNNING → m_exec s = ERUNNING.
Proof.
  destruct 1 as [| ? ? ? ? ? ? ? ? ? ? Hfin| |? ? ? ? ? ? ? ? [-> |[? ->]]| |]; simpl; try done.
  intros ->. by apply finish_running in Hfin as [-> _].
Qed.

Lemma mrun_running wf ls s s' : mrun wf ls s s' → m_exec s' = ERUNNING → m_exec s = ERUNNING.
Proof. induction 1 as [|l ls s1 s2 s3 Hs Hrun IH]; [done|]. intros He. eapply mstep_running; eauto. Qed.

#[export] Instance Label_eq_dec : EqDecision Label.
Proof. solve_decision. Defined.

Definition count_label (p : Label → bool) (ls : list Label) : nat := length (List.filter p ls).
Definition is_recover (l : Label) : bool := bool_decide (l = LRecover).

(** Without manual retries, the steps that are no recovery are bounded by the weight at
    the start and the number of recoveries. *)
Lemma mrun_bounded wf ls s s' :
  (∀ a b, wf_edge wf a b → a ∈ node_ids wf ∧ b ∈ node_ids wf) → NoDup (node_ids wf) →
  minv wf s → attempts_ok s → LManualRetry ∉ ls → mrun wf ls s s' →
  (count_label (negb ∘ is_recover) ls + total_weight wf (m_nodes s') ≤
   total_weight wf (m_nodes s) + count_label is_recover ls)%nat ∧ minv wf s' ∧ attempts_ok s'.
Proof.
  intros Hends Hnd Hinv Hok Hno Hrun. induction Hrun as [s|l ls s1 s2 s3 Hstep Hrun IH]; [split; [unfold count_label; simpl; lia|done]|].
  apply not_elem_of_cons in Hno as [Hl Hno].
  assert (minv wf s2) as Hinv2 by (by eapply mstep_inv).
  assert (attempts_ok s2) as Hok2 by (eapply mstep_attempts; [|exact Hok|exact Hstep]; congruence).
  destruct (IH Hinv2 Hok2 Hno) as (Hb & ? & ?). split; [|done].
  assert (∀ p, count_label p (l :: ls) = (if p l then 1 else 0) + count_label p ls)%nat as Hc.
  { intros p. unfold count_label. simpl. by destruct (p l). }
  rewrite !Hc. unfold compose at 1. destruct (decide (l = LRecover)) as [->|Hr].
  - pose proof (mstep_recover_weight wf s1 s2 Hnd Hok Hstep). simpl. lia.
  - pose proof (mstep_weight wf l s1 s2 Hinv Hok (not_eq_sym Hl) Hr Hstep).
    assert (is_recover l = false) as -> by (by apply bool_decide_eq_false). simpl. lia.
Qed.

(** ** Nodes that have settled *)

Definition settled (st : NodeExecutionStatus) : Prop := st = NSUCCEEDED ∨ st = NSKIPPED.

Lemma advance_kept wf x seed nodes nodes' y st :
  advance wf x seed nodes nodes' → m_status nodes y = Some st → st ≠ NPENDING →
  m_status nodes' y = Some st.
Proof.
  intros Hadv Hy Hp. destruct (Hadv y) as [[Hr _]|[(_ & _ & [Hr _] & _)|(_ & _ & Heq)]].
  - apply skip_reach_pending in Hr. congruence.
  - congruence.
  - unfold m_status in *. by rewrite Heq.
Qed.

(** A status other than that of the node a step is about, and other than pending, stays. *)
Lemma m_status_other nodes x n n' y st :
  nodes !! x = Some n → m_status nodes y = Some st → st ≠ an_status n →
  m_status (<[x := n']> nodes) y = Some st.
Proof.
  intros Hx Hy Hne. rewrite m_status_insert, decide_False; [done|]. intros <-.
  apply m_status_Some in Hy as (m & Hm & Hs). congruence.
Qed.

Lemma mstep_settled wf l s s' y st :
  mstep wf l s s' → m_status (m_nodes s) y = Some st → settled st →
  m_status (m_nodes s') y = Some st.
Proof.
  intros Hstep Hy Hst.
  assert (∀ st', (st' = NQUEUED ∨ st' = NRUNNING ∨ st' = NDEAD_LETTERED ∨ st' = NPENDING) → st ≠ st') as Hne.
  { intros st' Hc ->. by destruct Hst as [-> | ->]; destruct Hc as [|[|[|]]]. }
  destruct Hstep as
    [e nodes x n Hx Hs|e e' nodes nodes' x n seed Hx Hs Hadv Hfin|e nodes x n Hx Hs Ha
    |e e' nodes x n Hx Hs Ha He|e nodes x n Hx Hs|e nodes x n Hx Hs]; simpl in *;
    try (eapply m_status_other; [exact Hx|exact Hy|apply Hne; rewrite Hs; tauto]).
  eapply advance_kept; [exact Hadv| |apply Hne; tauto].
  eapply m_status_other; [exact Hx|exact Hy|apply Hne; rewrite Hs; tauto].
Qed.

Lemma mrun_settled wf ls s s' y st :
  mrun wf ls s s' → m_status (m_nodes s) y = Some st → settled st →
  m_status (m_nodes s') y = Some st.
Proof. induction 1 as [|l ls s1 s2 s3 Hs Hr IH]; [done|]. intros Hy Hst. eapply IH; [|done]. by eapply mstep_settled. Qed.

(** ** Failed executions *)

Lemma some_bad_status nodes :
  some_bad nodes ↔ ∃ y st, m_status nodes y = Some st ∧ m_bad st = true.
Proof.
  split.
  - intros (y & n & Hy & Hb). exists y, (an_status n). split; [|done]. apply m_status_Some. eauto.
  - intros (y & st & (n & Hy & <-)%m_status_Some & Hb). by exists y, n.
Qed.

(** Unless a user asks for a retry, a failed execution has a node that is dead. *)
Lemma mstep_failed wf l s s' :
  automatic l → mstep wf l s s' → (m_exec s = EFAILED → some_bad (m_nodes s)) →
  m_exec s' = EFAILED → some_bad (m_nodes s').
Proof.
  intros Hl Hstep Hinv He'. rewrite some_bad_status in *.
  destruct Hstep as
    [e nodes x n Hx Hs|e e' nodes nodes' x n seed Hx Hs Hadv Hfin|e nodes x n Hx Hs Ha
    |e e' nodes x n Hx Hs Ha He|e nodes x n Hx Hs|e nodes x n Hx Hs]; simpl in *; [..|done].
  2:{ assert (e = EFAILED → ∃ y st, m_status nodes' y = Some st ∧ m_bad st = true) as Hkeep.
      { intros Hf. destruct (Hinv Hf) as (y & st & Hy & Hb). exists y, st. split; [|done].
        eapply advance_kept; [exact Hadv| |by intros ->].
        eapply m_status_other; [exact Hx|exact Hy|]. rewrite Hs. by intros ->. }
      destruct Hfin as [e Hno|e Hall Hb|e Hall Hb|e Hne]; [by apply Hkeep| |done|by apply Hkeep].
      by apply some_bad_status. }
  3:{ exists x, NDEAD_LETTERED. split; [|done]. by rewrite m_status_insert, decide_True. }
  all: destruct (Hinv He') as (y & st & Hy & Hb); exists y, st; (split; [|done]);
    (eapply m_status_other; [exact Hx|exact Hy|]); rewrite Hs; by intros ->.
Qed.

Lemma mrun_failed wf ls s s' :
  mrun wf ls s s' → Forall automatic ls → (m_exec s = EFAILED → some_bad (m_nodes s)) →
  m_exec s' = EFAILED → some_bad (m_nodes s').
Proof.
  induction 1 as [|l ls s1 s2 s3 Hs Hr IH]; [done|]. intros [Hl Hls]%Forall_cons Hinv.
  apply IH; [done|]. intros He. eapply mstep_failed; [exact Hl|exact Hs|exact Hinv|exact He].
Qed.

Lemma mrun_attempts wf ls s s' :
  mrun wf ls s s' → Forall automatic ls → attempts_ok s → attempts_ok s'.
Proof.
  induction 1 as [|l ls s1 s2 s3 Hs Hr IH]; [done|]. intros [Hl Hls]%Forall_cons Hok.
  apply IH; [done|]. by eapply mstep_attempts.
Qed.

(** A run without recoveries and manual retries uses up weight with every step. *)
Lemma mrun_weight wf ls s s' :
  (∀ a b, wf_edge wf a b → a ∈ node_ids wf ∧ b ∈ node_ids wf) →
  mrun wf ls s s' → Forall work ls → minv wf s → attempts_ok s →
  (total_weight wf (m_nodes s') + length ls ≤ total_weight wf (m_nodes s))%nat.
Proof.
  intros Hends. induction 1 as [|l ls s1 s2 s3 Hs Hr IH]; intros Hls Hinv Hok; [simpl; lia|].
  apply Forall_cons in Hls as [[Hm Hrec] Hls].
  pose proof (mstep_weight _ _ _ _ Hinv Hok Hm Hrec Hs) as Hw.
  assert (minv wf s2) as Hinv2 by (by eapply mstep_inv).
  assert (attempts_ok s2) as Hok2 by (by eapply mstep_attempts).
  specialize (IH Hls Hinv2 Hok2). simpl. lia.
Qed.

Lemma total_weight_bound wf s :
  attempts_ok s → (total_weight wf (m_nodes s) ≤ 21 * length (wf_nodes wf))%nat.
Proof.
  intros Hok. unfold total_weight. rewrite <- (length_fmap node_id (wf_nodes wf)).
  change (node_id <$> wf_nodes wf) with (node_ids wf).
  induction (node_ids wf) as [|x l IH]; [simpl; lia|].
  assert (weight (m_nodes s !! x) ≤ 21)%nat as Hx.
  { unfold weight. destruct (m_nodes s !! x) as [n|] eqn:Hn; [|lia].
    destruct (Hok x n Hn) as (Hm & _ & Hs). unfold max_ok in Hm.
    destruct (an_status n); simpl in *; try lia; specialize (Hs eq_refl); lia. }
  simpl. lia.
Qed.
