(* ===== verification/Downstream.v ===== *)
(** * Downstream nodes: skipping and queueing

    What [_queue_downstream_nodes] does to the rows of an execution: the branches a
    condition did not choose are skipped with everything pending that they reach, and
    the children whose parents have all succeeded are queued. Both loops return. *)

From S2P Require Import Prelude Json PyStr Errors Models Registry DagValidator Events Monad Store.
From S2P Require Import LogHelpers StateTransition Tx Machine Publisher Runtime.

(** ** Edges *)

Lemma elem_of_children wf x c : c ∈ children_of wf x ↔ wf_edge wf x c.
Proof.
  unfold children_of, wf_edge, edge_pairs. rewrite !list_elem_of_fmap. split.
  - intros (e & -> & [<- He]%list_elem_of_filter). by exists e.
  - intros (e & [= -> ->] & He). exists e. split; [done|]. by apply list_elem_of_filter.
Qed.

Lemma elem_of_parents wf p x : p ∈ parents_of wf x ↔ wf_edge wf p x.
Proof.
  unfold parents_of, wf_edge, edge_pairs. rewrite !list_elem_of_fmap. split.
  - intros (e & -> & [<- He]%list_elem_of_filter). by exists e.
  - intros (e & [= -> ->] & He). exists e. split; [done|]. by apply list_elem_of_filter.
Qed.

(** ** The queue of the skip loop *)

Lemma py_eq_str q c : py_eq q (JStr c) = true ↔ q = JStr c.
Proof.
  split; [|intros ->; simpl; apply String.eqb_refl].
  destruct q; simpl; try done; intros H; try (by destruct b).
  apply String.eqb_eq in H. by subst.
Qed.

Lemma existsb_py_eq queue c : existsb (fun q => py_eq q (JStr c)) queue = true ↔ JStr c ∈ queue.
Proof.
  rewrite existsb_exists. setoid_rewrite py_eq_str. setoid_rewrite <- list_elem_of_In. naive_solver.
Qed.

Lemma elem_of_enqueue q queue cs :
  q ∈ enqueue_children queue cs ↔ q ∈ queue ∨ ∃ c, c ∈ cs ∧ q = JStr c.
Proof.
  unfold enqueue_children. revert queue. induction cs as [|c cs IH]; intros queue; simpl.
  { set_solver. }
  rewrite IH. destruct (existsb _ queue) eqn:Hex.
  - apply existsb_py_eq in Hex. set_solver.
  - set_solver.
Qed.

Lemma length_enqueue queue cs :
  (length (enqueue_children queue cs) ≤ length queue + length cs)%nat.
Proof.
  unfold enqueue_children. revert queue. induction cs as [|c cs IH]; intros queue; simpl; [lia|].
  etrans; [apply IH|]. destruct (existsb _ queue); rewrite ?length_app; simpl; lia.
Qed.

(** ** Statuses by node id *)

Definition status_of (rows : gmap string NodeExecution) (x : string) : option NodeExecutionStatus :=
  ne_status <$> rows !! x.

Lemma status_of_insert rows x n y :
  status_of (<[x := n]> rows) y = if decide (x = y) then Some (ne_status n) else status_of rows y.
Proof. unfold status_of. rewrite lookup_insert. by case_decide. Qed.

Lemma status_of_Some rows x s :
  status_of rows x = Some s ↔ ∃ n, rows !! x = Some n ∧ ne_status n = s.
Proof. unfold status_of. rewrite fmap_Some. naive_solver. Qed.

(** The seeds that are node ids. *)
Definition seed_of (seeds : list json) (x : string) : Prop := JStr x ∈ seeds.

(** Edges out of nodes that are still pending. *)
Definition pending_out (wf : WorkflowDefinition) (rows : gmap string NodeExecution) : nat :=
  length (filter (fun e => status_of rows (from_node e) = Some NPENDING) (wf_edges wf)).

Lemma pending_out_le wf rows : (pending_out wf rows ≤ length (wf_edges wf))%nat.
Proof. apply length_filter. Qed.

Lemma pending_out_skip wf rows x n :
  status_of rows x = Some NPENDING → ne_status n ≠ NPENDING →
  (pending_out wf (<[x := n]> rows) + length (children_of wf x) = pending_out wf rows)%nat.
Proof.
  intros Hx Hn. unfold pending_out, children_of. rewrite length_fmap.
  induction (wf_edges wf) as [|e es IH]; [done|]. rewrite !filter_cons, status_of_insert.
  destruct (decide (x = from_node e)) as [->|Hne].
  - rewrite decide_False by congruence. rewrite (decide_True _ _ eq_refl), (decide_True _ _ Hx).
    simpl. lia.
  - rewrite (decide_False (P := from_node e = x)) by congruence.
    destruct (decide (status_of rows (from_node e) = Some NPENDING)); simpl; lia.
Qed.

Section downstream.
Context {Q : Type} `{QueuePublisher Q}.
Context (eid : uuid) (wf : WorkflowDefinition).
Implicit Types (w : World Q) (t : Tx).

(** The references of [node_exec_by_node_id] lead to the current rows. *)
Definition refs_to (by_node_id : gmap string uuid) (rows : gmap string NodeExecution) : Prop :=
  by_node_id = ne_id <$> rows.

Lemma refs_to_insert by_node_id rows x n n' :
  refs_to by_node_id rows → rows !! x = Some n → ne_id n' = ne_id n →
  refs_to by_node_id (<[x := n']> rows).
Proof.
  unfold refs_to. intros -> Hx Hid. rewrite fmap_insert, Hid.
  symmetry. apply insert_id. by rewrite lookup_fmap, Hx.
Qed.

(** ** The skip loop *)

(** The invariant: what has been skipped, and what the queue still owes. *)
Record skip_inv (now : datetime) (rows0 rows : gmap string NodeExecution) (seeds queue : list json) :
    Prop := {
  si_rows x : rows !! x = rows0 !! x ∨
    (skip_reach wf (status_of rows0) (seed_of seeds) x ∧ ∃ n, rows0 !! x = Some n ∧
     rows !! x = Some (entered now NSKIPPED n));
  si_queue x : JStr x ∈ queue → JStr x ∈ seeds ∨ ∃ p, skip_reach wf (status_of rows0) (seed_of seeds) p ∧ wf_edge wf p x;
  si_seeds x : JStr x ∈ seeds → JStr x ∈ queue ∨ status_of rows x ≠ Some NPENDING;
  si_children p x : skip_reach wf (status_of rows0) (seed_of seeds) p → status_of rows p ≠ Some NPENDING →
    wf_edge wf p x → JStr x ∈ queue ∨ status_of rows x ≠ Some NPENDING
}.

(** The rows after the loop. *)
Definition skip_post (now : datetime) (seeds : list json)
    (rows0 rows : gmap string NodeExecution) : Prop :=
  ∀ x, (skip_reach wf (status_of rows0) (seed_of seeds) x ∧ ∃ n, rows0 !! x = Some n ∧
        rows !! x = Some (entered now NSKIPPED n)) ∨
       (¬ skip_reach wf (status_of rows0) (seed_of seeds) x ∧ rows !! x = rows0 !! x).

Lemma skip_inv_end now rows0 rows seeds :
  skip_inv now rows0 rows seeds [] → skip_post now seeds rows0 rows.
Proof.
  intros [Hrows _ Hseeds Hch] x.
  assert (∀ y, skip_reach wf (status_of rows0) (seed_of seeds) y → status_of rows y ≠ Some NPENDING) as Hdone.
  { induction 1 as [y Hy Hp|y c Hy IH Hc Hp].
    - destruct (Hseeds y Hy) as [?%not_elem_of_nil|?]; done.
    - destruct (Hch y c Hy IH Hc) as [?%not_elem_of_nil|?]; done. }
  destruct (Hrows x) as [Hx|Hx]; [|by left].
  right. split; [|done]. intros Hr. apply (Hdone x Hr).
  unfold status_of. rewrite Hx. by apply skip_reach_pending in Hr.
Qed.

Lemma skip_inv_pop now rows0 rows seeds q queue :
  skip_inv now rows0 rows seeds (q :: queue) →
  (∀ x, q = JStr x → status_of rows x ≠ Some NPENDING) →
  skip_inv now rows0 rows seeds queue.
Proof.
  intros [Hrows Hq Hseeds Hch] Hx. split; [done|set_solver| |].
  - intros x Hs. destruct (Hseeds x Hs) as [[Heq|?]%elem_of_cons|?]; [|by left|by right].
    right. by apply Hx.
  - intros p x Hp Hst Hc. destruct (Hch p x Hp Hst Hc) as [[Heq|?]%elem_of_cons|?];
      [|by left|by right].
    right. by apply Hx.
Qed.

Lemma skip_inv_skip now rows0 rows seeds x queue n :
  skip_inv now rows0 rows seeds (JStr x :: queue) →
  rows !! x = Some n → ne_status n = NPENDING →
  skip_inv now rows0 (<[x := entered now NSKIPPED n]> rows) seeds
    (enqueue_children queue (children_of wf x)).
Proof.
  intros [Hrows Hq Hseeds Hch] Hx Hn.
  assert (rows0 !! x = Some n) as Hx0.
  { destruct (Hrows x) as [<-|(_ & m & _ & Hm)]; [done|]. rewrite Hm in Hx.
    injection Hx as <-. done. }
  assert (skip_reach wf (status_of rows0) (seed_of seeds) x) as Hreach.
  { assert (status_of rows0 x = Some NPENDING) as Hs by (apply status_of_Some; eauto).
    destruct (Hq x) as [?|(p & Hp & Hc)]; [by left|by constructor|by eapply skip_child]. }
  split.
  - intros y. rewrite lookup_insert. case_decide as Hxy; [|apply Hrows].
    right. subst. split; [done|]. by exists n.
  - intros y [Hy|(c & Hc & [= ->])]%elem_of_enqueue; [apply Hq; by right|].
    right. exists x. split; [done|]. by apply elem_of_children.
  - intros y Hs. rewrite status_of_insert, elem_of_enqueue. case_decide as Hxy; [by right|].
    destruct (Hseeds y Hs) as [[[= ->]|?]%elem_of_cons|?]; [done|by left; left|by right].
  - intros p y Hp Hst Hc. rewrite status_of_insert, elem_of_enqueue in *.
    destruct (decide (x = y)) as [Hxy|Hxy]; [by right|].
    destruct (decide (x = p)) as [Hxp|Hxp].
    + subst. left. right. exists y. split; [by apply elem_of_children|done].
    + destruct (Hch p y Hp Hst Hc) as [[[= ->]|?]%elem_of_cons|?]; [done|by left; left|by right].
Qed.

Lemma wp_skip_cascade now seeds rows0 by_node_id fuel :
  ∀ queue w t (Φ : () → World Q → Prop),
  in_tx eid t w → tx_now t = now → refs_to by_node_id (tx_rows t) →
  skip_inv now rows0 (tx_rows t) seeds queue →
  (length queue + pending_out wf (tx_rows t) ≤ fuel)%nat →
  (∀ rows' w', skip_post now seeds rows0 rows' → refs_to by_node_id rows' →
     in_tx eid (tx_set_rows (fun _ => rows') t) w' → tx_frame eid w w' → Φ tt w') →
  wp (skip_cascade fuel wf by_node_id queue) Φ no_error w.
Proof.
  induction fuel as [|fuel IH]; intros [|q queue] w t Φ Ht Hnow Hrefs Hinv Hfuel HΦ;
    try (simpl in Hfuel; lia).
  - apply wp_ret. apply (HΦ (tx_rows t)); [by apply skip_inv_end|done| |apply tx_frame_refl].
    by destruct t.
  - apply wp_ret. apply (HΦ (tx_rows t)); [by apply skip_inv_end|done| |apply tx_frame_refl].
    by destruct t.
  - simpl in Hfuel. cbn [skip_cascade].
    assert (∀ x, q = JStr x → by_key by_node_id q = None → status_of (tx_rows t) x ≠ Some NPENDING)
      as Hnone.
    { intros x -> Hk. unfold by_key in Hk. rewrite Hrefs, lookup_fmap in Hk. unfold status_of.
      by destruct (tx_rows t !! x). }
    destruct (by_key by_node_id q) as [[x id]|] eqn:Hkey.
    2:{ eapply IH; [exact Ht|done|done| |lia|exact HΦ]. eapply skip_inv_pop; [exact Hinv|]. eauto. }
    destruct q as [| | | |s| |]; try discriminate Hkey. unfold by_key in Hkey.
    rewrite Hrefs, lookup_fmap in Hkey.
    destruct (tx_rows t !! s) as [n|] eqn:Hn; [|done]. injection Hkey as -> <-.
    apply wp_bind. eapply wp_node_object; [exact Ht|exact Hn|]. case_decide as Hst.
    + apply wp_bind. eapply wp_transition_node; [exact Ht|exact Hn|done|]. intros w1 Ht1 Hf1.
      rewrite Hnow in *.
      eapply IH; [exact Ht1|done| | | |].
      * by eapply refs_to_insert.
      * by apply skip_inv_skip.
      * simpl. pose proof (length_enqueue queue (children_of wf x)).
        pose proof (pending_out_skip wf (tx_rows t) x (entered now NSKIPPED n)) as Hp.
        rewrite <- Hp in Hfuel; [lia|apply status_of_Some; eauto|done].
      * intros rows' w' Hpost Hr Ht' Hf'. apply (HΦ rows'); [done|done| |by etrans].
        exact Ht'.
    + eapply IH; [exact Ht|done|done| |lia|exact HΦ].
      eapply skip_inv_pop; [exact Hinv|]. intros y [= <-]. unfold status_of. rewrite Hn. naive_solver.
Qed.

(** ** The loop over the children *)

Lemma wp_all_parents_succeeded t w by_node_id ps (Φ : bool → World Q → Prop) Ψ :
  in_tx eid t w → refs_to by_node_id (tx_rows t) →
  (∀ p, p ∈ ps → is_Some (tx_rows t !! p)) →
  (∀ b : bool, (b = true ↔ ∀ p, p ∈ ps → status_of (tx_rows t) p = Some NSUCCEEDED) → Φ b w) →
  wp (all_parents_succeeded by_node_id ps) Φ Ψ w.
Proof.
  intros Ht Hrefs. induction ps as [|p ps IH]; intros Hps HΦ; cbn [all_parents_succeeded].
  { apply wp_ret, HΦ. split; [|done]. by intros _ p Hp%not_elem_of_nil. }
  destruct (Hps p) as [n Hn]; [by left|].
  assert (by_node_id !! p = Some (ne_id n)) as ->.
  { rewrite Hrefs, lookup_fmap, Hn. done. }
  apply wp_bind. eapply wp_node_object; [exact Ht|exact Hn|]. case_decide as Hst.
  - apply IH; [intros q Hq; apply Hps; by right|]. intros b Hb. apply HΦ. rewrite Hb.
    setoid_rewrite elem_of_cons. split; [|naive_solver].
    intros Hall q [->|Hq]; [|by apply Hall]. apply status_of_Some. eauto.
  - apply wp_ret, HΦ. split; [done|]. intros Hall.
    specialize (Hall p). rewrite status_of_Some in Hall. destruct Hall as (m & Hm & Hs); [by left|].
    congruence.
Qed.

(** The rows after the loop has gone through [dn]. *)
Definition queue_post (now : datetime) (dn : list string)
    (rows0 rows : gmap string NodeExecution) : Prop :=
  ∀ x, (x ∈ dn ∧ ready wf (status_of rows0) x ∧ ∃ n, rows0 !! x = Some n ∧
        rows !! x = Some (entered now NQUEUED n)) ∨
       (¬ (x ∈ dn ∧ ready wf (status_of rows0) x) ∧ rows !! x = rows0 !! x).

(** The nodes to publish: the ready children, once each, in the order of the edges. *)
Definition published_post (dn : list string) (rows0 : gmap string NodeExecution)
    (refs : list uuid) : Prop :=
  ∃ xs, NoDup xs ∧ xs `sublist_of` dn ∧ (∀ x, x ∈ xs ↔ x ∈ dn ∧ ready wf (status_of rows0) x) ∧
        Forall2 (fun x id => ne_id <$> rows0 !! x = Some id) xs refs.

Lemma queue_post_status now dn rows0 rows x :
  queue_post now dn rows0 rows →
  (status_of rows x = Some NSUCCEEDED ↔ status_of rows0 x = Some NSUCCEEDED).
Proof.
  intros Hpost. destruct (Hpost x) as [(_ & [Hst _] & n & Hn & Hx)|[_ Hx]].
  - rewrite Hst. unfold status_of. rewrite Hx. simpl. done.
  - unfold status_of. by rewrite Hx.
Qed.

Lemma queue_post_ready now dn rows0 rows x :
  queue_post now dn rows0 rows → (ready wf (status_of rows) x ↔ ready wf (status_of rows0) x ∧ x ∉ dn).
Proof.
  intros Hpost. unfold ready, parents_succeeded.
  setoid_rewrite (queue_post_status now dn rows0 rows); [|exact Hpost..].
  destruct (Hpost x) as [(Hdn & Hr & n & Hn & Hx)|[Hno Hx]].
  - unfold status_of at 1. rewrite Hx. simpl. naive_solver.
  - unfold status_of at 1 3. rewrite Hx. unfold ready, parents_succeeded, status_of in Hno.
    naive_solver.
Qed.

(** One child. *)
(** What the loop has established about the children it has seen, one child later. *)
Lemma child_kept now dn c rows0 rows refs :
  ¬ ready wf (status_of rows) c → queue_post now dn rows0 rows → published_post dn rows0 refs →
  queue_post now (dn ++ [c]) rows0 rows ∧ published_post (dn ++ [c]) rows0 (refs ++ []).
Proof.
  intros Hnc Hpost (xs & Hnd & Hsub & Hxs & Hall).
  pose proof Hnc as Hnc0. rewrite (queue_post_ready _ _ _ _ c Hpost) in Hnc. split.
  - intros x. destruct (Hpost x) as [(Hx & Hx')|[Hx Hx']]; [left; set_solver|right].
    split; [|done]. intros [[Hin| ->%list_elem_of_singleton]%elem_of_app Hrx]; [by apply Hx|].
    destruct (decide (c ∈ dn)); [by apply Hx|by apply Hnc].
  - exists xs. rewrite app_nil_r. split_and!; [done|by apply sublist_inserts_r| |done].
    intros x. rewrite Hxs, elem_of_app, list_elem_of_singleton. split; [naive_solver|].
    intros [[Hin| ->] Hrx]; [done|]. split; [|done].
    destruct (decide (c ∈ dn)); [done|]. exfalso. by apply Hnc.
Qed.

Lemma child_queued now dn c n rows0 rows refs :
  ready wf (status_of rows) c → rows !! c = Some n → queue_post now dn rows0 rows →
  published_post dn rows0 refs →
  queue_post now (dn ++ [c]) rows0 (<[c := entered now NQUEUED n]> rows) ∧
  published_post (dn ++ [c]) rows0 (refs ++ [ne_id n]).
Proof.
  intros Hready Hn Hpost (xs & Hnd & Hsub & Hxs & Hall).
  pose proof (proj1 (queue_post_ready now dn rows0 _ c Hpost) Hready) as [Hr0 Hcdn].
  assert (rows0 !! c = Some n) as Hn0 by (by destruct (Hpost c) as [[? _]|[_ <-]]). split.
  - intros x. rewrite lookup_insert. case_decide as Hx.
    + subst x. left. split; [set_solver|]. split; [done|]. by exists n.
    + destruct (Hpost x) as [(Hin & Hx')|[Hno Hx']]; [left; set_solver|right].
      split; [|done]. intros [[Hin| ->%list_elem_of_singleton]%elem_of_app Hrx]; [by apply Hno|done].
  - exists (xs ++ [c]). split_and!.
    + apply NoDup_app. split_and!; [done| |apply NoDup_singleton].
      intros x Hx ->%list_elem_of_singleton. by apply Hxs in Hx as [? _].
    + by apply sublist_app.
    + intros x. rewrite !elem_of_app, Hxs, !list_elem_of_singleton. naive_solver.
    + apply Forall2_app; [done|]. constructor; [|done]. by rewrite Hn0.
Qed.

Lemma wp_queue_child now rows0 t w by_node_id dn c refs (Φ : option uuid → World Q → Prop) :
  in_tx eid t w → tx_now t = now → refs_to by_node_id (tx_rows t) →
  (∀ p, wf_edge wf p c → is_Some (tx_rows t !! p)) →
  queue_post now dn rows0 (tx_rows t) → published_post dn rows0 refs →
  (∀ w' rows' r, in_tx eid (tx_set_rows (fun _ => rows') t) w' → tx_frame eid w w' →
     refs_to by_node_id rows' → (∀ p, is_Some (rows' !! p) ↔ is_Some (tx_rows t !! p)) →
     queue_post now (dn ++ [c]) rows0 rows' →
     published_post (dn ++ [c]) rows0 (refs ++ option_list r) → Φ r w') →
  wp (queue_child wf by_node_id c) Φ no_error w.
Proof.
  intros Ht Hnow Hrefs Hparents Hpost Hpub HΦ. unfold queue_child.
  assert (¬ ready wf (status_of (tx_rows t)) c → Φ None w) as Hkeep.
  { intros Hno. destruct (child_kept now dn c rows0 _ refs Hno Hpost Hpub) as [Hpost' Hpub'].
    by apply (HΦ w (tx_rows t) None); [destruct t|apply tx_frame_refl|..]. }
  destruct (by_node_id !! c) as [id|] eqn:Hc.
  2:{ apply wp_ret, Hkeep. intros [Hst _]. apply status_of_Some in Hst as (n & Hn & _).
      by rewrite Hrefs, lookup_fmap, Hn in Hc. }
  rewrite Hrefs, lookup_fmap in Hc. destruct (tx_rows t !! c) as [n|] eqn:Hn; [|done].
  injection Hc as <-. apply wp_bind. eapply wp_node_object; [exact Ht|exact Hn|].
  case_decide as Hst.
  { apply wp_ret, Hkeep. intros [Hp _]. unfold status_of in Hp. rewrite Hn in Hp. naive_solver. }
  apply wp_bind. eapply wp_all_parents_succeeded; [exact Ht|done| |].
  { intros p Hp. by apply Hparents, elem_of_parents. }
  intros [] Hps.
  2:{ apply wp_ret, Hkeep. intros [_ Hp]. cut (false = true); [done|]. apply Hps. intros p Hin.
      apply Hp. by apply elem_of_parents. }
  assert (ready wf (status_of (tx_rows t)) c) as Hready.
  { split; [apply status_of_Some; eauto|]. intros p Hp. by apply Hps, elem_of_parents. }
  apply wp_bind. eapply wp_transition_node; [exact Ht|exact Hn|done|]. intros w1 Ht1 Hf1.
  rewrite Hnow in *. apply wp_ret.
  destruct (child_queued now dn c n rows0 _ refs Hready Hn Hpost Hpub) as [Hpost' Hpub'].
  apply (HΦ w1 (<[c := entered now NQUEUED n]> (tx_rows t)) (Some (ne_id n)));
    [exact Ht1|done|by eapply refs_to_insert| |exact Hpost'|exact Hpub'].
  intros p. rewrite lookup_insert. case_decide; [|done]. subst. rewrite Hn. by split; eexists.
Qed.

Lemma wp_queue_children now rows0 t w by_node_id cs (Φ : list uuid → World Q → Prop) :
  in_tx eid t w → tx_now t = now → tx_rows t = rows0 → refs_to by_node_id rows0 →
  (∀ p c, wf_edge wf p c → is_Some (rows0 !! p)) →
  (∀ w' rows' refs, in_tx eid (tx_set_rows (fun _ => rows') t) w' → tx_frame eid w w' →
     queue_post now cs rows0 rows' → published_post cs rows0 refs → Φ refs w') →
  wp (for_omap (queue_child wf by_node_id) cs) Φ no_error w.
Proof.
  intros Ht Hnow Hrows Hrefs Hparents HΦ.
  set (I := fun (dn : list string) (refs : list uuid) (w' : World Q) => ∃ rows',
    in_tx eid (tx_set_rows (fun _ => rows') t) w' ∧ tx_frame eid w w' ∧
    refs_to by_node_id rows' ∧ (∀ p, is_Some (rows' !! p) ↔ is_Some (rows0 !! p)) ∧
    queue_post now dn rows0 rows' ∧ published_post dn rows0 refs).
  eapply wp_mono; [apply (wp_for_omap _ cs I no_error w)| |done].
  - exists rows0. split_and!; [by destruct t; subst|apply tx_frame_refl|done|done| |].
    + intros x. right. split; [|done]. by intros [?%not_elem_of_nil _].
    + exists []. split_and!; [apply NoDup_nil_2|done| |done].
      intros x. split; [by intros ?%not_elem_of_nil|by intros [?%not_elem_of_nil _]].
  - intros dn refs c l' w1 _ (rows1 & Ht1 & Hf1 & Hr1 & Hdom & Hq1 & Hp1).
    eapply (wp_queue_child now rows0 _ w1 by_node_id dn c refs);
      [exact Ht1|done|exact Hr1| |exact Hq1|exact Hp1|].
    + intros p Hp. simpl. by eapply Hdom, Hparents.
    + intros w2 rows2 r Ht2 Hf2 Hr2 Hdom2 Hq2 Hp2. exists rows2.
      split_and!; [exact Ht2|by etrans|done| |done|done].
      intros p. rewrite Hdom2. apply Hdom.
  - intros refs w1 (rows1 & Ht1 & Hf1 & _ & _ & Hq1 & Hp1). by eapply HΦ.
Qed.

(** ** Both loops *)

(** The rows after [_queue_downstream_nodes], and the nodes to publish. *)
Definition downstream_rows (now : datetime) (seeds : list json) (cs : list string)
    (rows0 rows : gmap string NodeExecution) : Prop :=
  ∀ x,
    let reached := skip_reach wf (status_of rows0) (seed_of seeds) x in
    let queued := x ∈ cs ∧ ready wf (status_of rows0) x in
    (reached ∧ rows !! x = entered now NSKIPPED <$> rows0 !! x) ∨
    (¬ reached ∧ queued ∧ rows !! x = entered now NQUEUED <$> rows0 !! x) ∨
    (¬ reached ∧ ¬ queued ∧ rows !! x = rows0 !! x).

Definition downstream_refs (seeds : list json) (cs : list string)
    (rows0 : gmap string NodeExecution) (refs : list uuid) : Prop :=
  ∃ xs, NoDup xs ∧ xs `sublist_of` cs ∧
    (∀ x, x ∈ xs ↔ x ∈ cs ∧ ready wf (status_of rows0) x ∧
                    ¬ skip_reach wf (status_of rows0) (seed_of seeds) x) ∧
    Forall2 (fun x id => ne_id <$> rows0 !! x = Some id) xs refs.

Lemma skip_post_succeeded now seeds rows0 rows x :
  skip_post now seeds rows0 rows →
  (status_of rows x = Some NSUCCEEDED ↔ status_of rows0 x = Some NSUCCEEDED).
Proof.
  intros Hpost. destruct (Hpost x) as [(Hr & n & Hn & Hx)|[_ Hx]].
  - apply skip_reach_pending in Hr. rewrite Hr. unfold status_of. rewrite Hx. simpl. done.
  - unfold status_of. by rewrite Hx.
Qed.

Lemma skip_post_ready now seeds rows0 rows x :
  skip_post now seeds rows0 rows →
  (ready wf (status_of rows) x ↔
   ready wf (status_of rows0) x ∧ ¬ skip_reach wf (status_of rows0) (seed_of seeds) x).
Proof.
  intros Hpost. unfold ready, parents_succeeded.
  setoid_rewrite (skip_post_succeeded now seeds rows0 rows); [|exact Hpost..].
  destruct (Hpost x) as [(Hr & n & Hn & Hx)|[Hno Hx]].
  - unfold status_of at 1. rewrite Hx. simpl. naive_solver.
  - unfold status_of at 1 3. rewrite Hx. naive_solver.
Qed.

Lemma downstream_compose now seeds cs rows0 rows1 rows2 refs :
  skip_post now seeds rows0 rows1 → queue_post now cs rows1 rows2 → published_post cs rows1 refs →
  downstream_rows now seeds cs rows0 rows2 ∧ downstream_refs seeds cs rows0 refs.
Proof.
  intros Hskip Hqueue (xs & Hnd & Hsub & Hxs & Hall). split.
  - intros x. cbv zeta. pose proof (skip_post_ready _ _ _ _ x Hskip) as Hr.
    destruct (Hskip x) as [(Hre & n & Hn & Hx1)|[Hre Hx1]];
      destruct (Hqueue x) as [(Hin & Hrd & m & Hm & Hx2)|[Hno Hx2]].
    + apply Hr in Hrd as [_ ?]. done.
    + left. split; [done|]. by rewrite Hx2, Hx1, Hn.
    + right; left. apply Hr in Hrd as [Hrd _]. split_and!; [done..|].
      rewrite Hx2. rewrite Hx1 in Hm. by rewrite Hm.
    + right; right. rewrite Hr in Hno. split_and!; [done| |by rewrite Hx2, Hx1]. tauto.
  - exists xs. split_and!; [done..| |].
    + intros x. rewrite Hxs, (skip_post_ready _ _ _ _ x Hskip). done.
    + eapply Forall2_impl; [exact Hall|]. intros x id Hid. rewrite <- Hid.
      destruct (Hskip x) as [(_ & n & Hn & ->)|[_ ->]]; [|done]. by rewrite Hn.
Qed.

(** The seeds the loop starts from; without children it is not reached. *)
Definition downstream_seeds (node_def : Node) (result : ExecutorResult) (x : string) :
    res exc (list json) :=
  match children_of wf x with [] => Ok [] | _ => skip_seeds node_def result end.

Lemma wp_queue_downstream set_order node_def node result seeds t w by_node_id
    (Φ : list uuid → World Q → Prop) Ψ :
  (∀ l, set_order l ≡ₚ l) →
  in_tx eid t w → refs_to by_node_id (tx_rows t) →
  (∀ p c, wf_edge wf p c → is_Some (tx_rows t !! p)) →
  downstream_seeds node_def result (ne_node_id node) = Ok seeds →
  (∀ w' rows' refs, in_tx eid (tx_set_rows (fun _ => rows') t) w' → tx_frame eid w w' →
     downstream_rows (tx_now t) seeds (children_of wf (ne_node_id node)) (tx_rows t) rows' →
     downstream_refs seeds (children_of wf (ne_node_id node)) (tx_rows t) refs → Φ refs w') →
  wp (_queue_downstream_nodes set_order wf node_def node by_node_id result) Φ Ψ w.
Proof.
  intros Hord Ht Hrefs Hparents Hseeds HΦ. apply wp_total.
  unfold _queue_downstream_nodes, downstream_seeds in *.
  destruct (children_of wf (ne_node_id node)) as [|c cs] eqn:Hcs.
  - injection Hseeds as <-. apply wp_ret. apply (HΦ w (tx_rows t)); [by destruct t|apply tx_frame_refl| |].
    + intros x. right; right. split_and!; [|by intros [?%not_elem_of_nil _]|done].
      induction 1 as [x Hx _|]; [by apply not_elem_of_nil in Hx|done].
    + exists []. split_and!; [apply NoDup_nil_2|done| |done].
      intros x. split; [by intros ?%not_elem_of_nil|by intros [?%not_elem_of_nil _]].
  - apply wp_bind, wp_lift. rewrite Hseeds. cbv zeta. apply wp_bind.
    eapply (wp_skip_cascade (tx_now t) seeds (tx_rows t)); [exact Ht|done|exact Hrefs| | |].
    + split; [by left| | |].
      * intros x. rewrite Hord. by left.
      * intros x. rewrite Hord. by left.
      * intros p x Hp Hs. by apply skip_reach_pending in Hp.
    + pose proof (pending_out_le wf (tx_rows t)). lia.
    + intros rows1 w1 Hskip Hr1 Ht1 Hf1.
      eapply (wp_queue_children (tx_now t) rows1); [exact Ht1|done|done|done| |].
      * intros p x Hp. destruct (Hparents p x Hp) as [n Hn].
        destruct (Hskip p) as [(_ & m & _ & ->)|[_ ->]]; [by eexists|by exists n].
      * intros w2 rows2 refs Ht2 Hf2 Hq2 Hp2.
        destruct (downstream_compose _ _ _ _ _ _ _ Hskip Hq2 Hp2) as [Hd Hr].
        apply (HΦ w2 rows2); [exact Ht2|by etrans|exact Hd|exact Hr].
Qed.

Lemma run_queue_downstream_err set_order node_def node result by_node_id e w :
  downstream_seeds node_def result (ne_node_id node) = Err e →
  _queue_downstream_nodes set_order wf node_def node by_node_id result w = (Err e, w).
Proof.
  unfold _queue_downstream_nodes, downstream_seeds. destruct (children_of _ _); [done|].
  intros He. by rewrite run_bind, He.
Qed.

End downstream.
