(* ===== verification/Complete.v ===== *)
(** * Completing a job

    [complete_job] on every branch, in terms of the rows of the execution: the early
    return, the success with its downstream nodes, the retry, the dead letter, and the
    end of the execution. *)

From S2P Require Import Prelude Json PyStr Errors Models Registry DagValidator Events Monad Store.
From S2P Require Import LogHelpers StateTransition Tx Machine Publisher Runtime.
From S2P Require Import Downstream.

(** ** References *)

(** The references [complete_job] builds lead to the rows of the execution. *)
Lemma node_exec_by_node_id_rows d eid :
  db_wf d →
  refs_to (node_exec_by_node_id (map_to_list (nodes_of_execution d eid)).*2) (rows_of d eid).
Proof.
  intros Hwf. unfold refs_to, node_exec_by_node_id. rewrite foldl_insert_nodup.
  - unfold rows_of. rewrite <- list_to_map_fmap, <- !list_fmap_compose. done.
  - rewrite <- list_fmap_compose. apply NoDup_fmap_2_strong; [|apply NoDup_map_to_list].
    intros [i n1] [j n2] Hi Hj Hx. simpl in *.
    apply elem_of_map_to_list, elem_of_nodes_of_execution in Hi as [Hi He1].
    apply elem_of_map_to_list, elem_of_nodes_of_execution in Hj as [Hj He2].
    assert (i = j) as -> by (eapply (dw_node_unique _ Hwf); [done|done|congruence|done]).
    congruence.
Qed.

(** [ids] are the references of the rows. *)
Definition ids_of (rows : gmap string NodeExecution) (ids : list uuid) : Prop :=
  ∀ id, id ∈ ids ↔ ∃ x n, rows !! x = Some n ∧ ne_id n = id.

Lemma ids_of_rows d eid :
  db_wf d → ids_of (rows_of d eid) (ne_id <$> (map_to_list (nodes_of_execution d eid)).*2).
Proof.
  intros Hwf id. rewrite <- list_fmap_compose, list_elem_of_fmap. split.
  - intros ([i n] & -> & Hin). simpl. apply elem_of_map_to_list, elem_of_nodes_of_execution in Hin.
    destruct Hin as [Hn He]. exists (ne_node_id n), n. split; [|done].
    apply rows_of_lookup; [done|]. by rewrite (dw_node_key _ Hwf _ _ Hn).
  - intros (x & n & Hn & <-). apply rows_of_lookup in Hn as (Hn & He & Hx); [|done].
    exists (ne_id n, n). split; [done|]. apply elem_of_map_to_list. by apply elem_of_nodes_of_execution.
Qed.

Lemma ids_of_same by_node_id rows rows' ids :
  refs_to by_node_id rows → refs_to by_node_id rows' → ids_of rows ids → ids_of rows' ids.
Proof.
  unfold refs_to. intros -> Heq Hids id. rewrite (Hids id).
  assert (∀ x, ne_id <$> rows !! x = ne_id <$> rows' !! x) as Hl.
  { intros x. by rewrite <- !lookup_fmap, Heq. }
  split; intros (x & n & Hn & <-); specialize (Hl x); rewrite Hn in Hl; simpl in Hl;
    [symmetry in Hl|]; apply fmap_Some in Hl as (m & Hm & ->); eauto.
Qed.

Lemma downstream_refs_to wf now seeds cs by_node_id rows rows' :
  refs_to by_node_id rows → downstream_rows wf now seeds cs rows rows' → refs_to by_node_id rows'.
Proof.
  unfold refs_to. intros -> Hd. apply map_eq. intros x. rewrite !lookup_fmap.
  destruct (Hd x) as [[_ ->]|[(_ & _ & ->)|(_ & _ & ->)]]; by destruct (rows !! x).
Qed.

(** ** The end of the execution *)

Definition rows_terminal (rows : gmap string NodeExecution) : Prop :=
  ∀ x n, rows !! x = Some n → ne_status n ∈ TERMINAL_NODE_STATUSES.

Definition rows_bad (rows : gmap string NodeExecution) : Prop :=
  ∃ x n, rows !! x = Some n ∧ ne_status n ∈ [NFAILED; NDEAD_LETTERED].

(** The transaction after [finish_execution]. *)
Inductive finished (t : Tx) : Tx → Prop :=
| finished_open : ¬ (rows_terminal (tx_rows t) ∧ ex_status (tx_obj t) = ERUNNING) → finished t t
| finished_end final : rows_terminal (tx_rows t) → ex_status (tx_obj t) = ERUNNING →
    (if decide (final = EFAILED) then rows_bad (tx_rows t)
     else final = ESUCCEEDED ∧ ¬ rows_bad (tx_rows t)) →
    finished t (tx_set_exec (enter_execution_status final (tx_now t)) t).

Lemma finished_open_inv t t' x n :
  finished t t' → tx_rows t !! x = Some n → ne_status n ∉ TERMINAL_NODE_STATUSES → t' = t.
Proof. intros [|final Ht] Hx Hn; [done|]. by destruct (Hn (Ht x n Hx)). Qed.

Section complete.
Context {Q : Type} `{QueuePublisher Q}.
Implicit Types (w : World Q) (t : Tx).

Lemma wp_node_objects eid t w ids (Φ : list NodeExecution → World Q → Prop) Ψ :
  in_tx eid t w → ids_of (tx_rows t) ids →
  (∀ l, (∀ n, n ∈ l ↔ ∃ x, tx_rows t !! x = Some n) → Φ l w) →
  wp (for_collect node_object ids) Φ Ψ w.
Proof.
  intros Ht Hids HΦ.
  set (I := fun (dn : list uuid) (l : list NodeExecution) (w' : World Q) =>
    w' = w ∧ Forall2 (fun id n => ne_id n = id ∧ ∃ x, tx_rows t !! x = Some n) dn l).
  eapply wp_mono; [apply (wp_for_collect _ ids I Ψ w)| |done].
  - done.
  - intros dn ys id l' w1 Hl [-> HI].
    destruct (proj1 (Hids id)) as (x & n & Hn & <-); [rewrite Hl; set_solver|].
    eapply wp_node_object; [exact Ht|exact Hn|]. split; [done|].
    apply Forall2_app; [done|]. constructor; [|done]. eauto.
  - intros l w1 [-> HI]. apply HΦ. intros n. split.
    + intros Hn. apply list_elem_of_lookup in Hn as [i Hi].
      destruct (Forall2_lookup_r _ _ _ _ _ HI Hi) as (id & _ & _ & Hx). done.
    + intros [x Hx]. assert (ne_id n ∈ ids) as Hin by (apply Hids; eauto).
      apply list_elem_of_lookup in Hin as [i Hi].
      destruct (Forall2_lookup_l _ _ _ _ _ HI Hi) as (m & Hm & Hid & y & Hy).
      assert (x = y) as <- by (by eapply (in_tx_row_id eid t w x y n m)).
      rewrite Hx in Hy. injection Hy as ->. by eapply list_elem_of_lookup_2.
Qed.

Lemma wp_finish_execution execution t w ids (Φ : () → World Q → Prop) Ψ :
  in_tx (ex_id execution) t w → ids_of (tx_rows t) ids →
  (∀ w' t', finished t t' → in_tx (ex_id execution) t' w' → tx_frame (ex_id execution) w w' →
     Φ tt w') →
  wp (finish_execution execution ids) Φ Ψ w.
Proof.
  intros Ht Hids HΦ. unfold finish_execution. apply wp_bind.
  eapply wp_node_objects; [exact Ht|exact Hids|]. intros l Hl. apply wp_bind.
  eapply wp_execution_object; [exact Ht|].
  set (term := forallb _ l).
  assert (term = true ↔ rows_terminal (tx_rows t)) as Hterm.
  { unfold term. rewrite forallb_forall. setoid_rewrite <- list_elem_of_In.
    setoid_rewrite bool_decide_eq_true. unfold rows_terminal. setoid_rewrite Hl. naive_solver. }
  destruct term; simpl.
  2:{ apply wp_ret. apply (HΦ w t); [|done|apply tx_frame_refl]. apply finished_open.
      intros [Hc _]. by apply Hterm in Hc. }
  case_bool_decide as Hrun.
  2:{ apply wp_ret. apply (HΦ w t); [|done|apply tx_frame_refl]. apply finished_open. tauto. }
  set (bad := existsb _ l).
  assert (bad = true ↔ rows_bad (tx_rows t)) as Hbad.
  { unfold bad. rewrite existsb_exists. setoid_rewrite <- list_elem_of_In.
    setoid_rewrite bool_decide_eq_true. unfold rows_bad. setoid_rewrite Hl. naive_solver. }
  apply wp_bind. eapply wp_transition_execution; [exact Ht|done|]. intros w1 _ Ht1 Hf1.
  apply wp_ret. eapply HΦ; [|exact Ht1|exact Hf1]. apply finished_end; [by apply Hterm|done|].
  destruct bad; simpl; [by apply Hbad|]. split; [done|]. intros Hc. by apply Hbad in Hc.
Qed.

(** ** Failure *)

Lemma wp_add_dead_letter_job execution x n t w (Φ : () → World Q → Prop) Ψ :
  in_tx (ex_id execution) t w → tx_rows t !! x = Some n →
  (∀ w', in_tx (ex_id execution) (tx_set_dlq
           (<[w_next_uuid w := dead_letter_job (w_next_uuid w) (tx_now t) execution n]>) t) w' →
         tx_frame (ex_id execution) w w' → (w_next_uuid w < w_next_uuid w')%N → Φ tt w') →
  wp (add_dead_letter_job execution n) Φ Ψ w.
Proof.
  intros Ht Hn HΦ. unfold add_dead_letter_job, uuid4, datetime_now.
  eapply wp_run; [|apply HΦ].
  - rewrite run_bind, run_bind. cbn [gets]. rewrite run_bind. cbn [gets].
    change (w_db (w_bump w)) with (w_db w).
    assert (log_refers (w_db w) (ex_id execution) (Some (ne_id n)) = true) as ->.
    { apply (log_refers_in_tx _ _ _ (Some n) Ht). by exists x. }
    unfold update_db, modify. simpl. rewrite (it_now _ _ _ Ht). reflexivity.
  - destruct Ht. split; simpl; try done. by f_equal.
  - split; simpl; try done; try lia; try (exists []; by rewrite app_nil_r).
    intros id. destruct (db_nodes (w_db w) !! id); simpl; [reflexivity|done].
  - simpl. lia.
Qed.

(** The row and the transaction after a failure with attempts left. *)
Definition retried_row (now : datetime) (n : NodeExecution) : NodeExecution :=
  entered now NQUEUED (entered now NRETRYING n).

Lemma wp_handle_failure_retry execution x n t w (Φ : list uuid → World Q → Prop) Ψ :
  in_tx (ex_id execution) t w → tx_rows t !! x = Some n → ne_status n = NFAILED →
  (ne_attempt n < ne_max_attempts n)%Z →
  (∀ w', in_tx (ex_id execution) (tx_set_rows (<[x := retried_row (tx_now t) n]>) t) w' →
         tx_frame (ex_id execution) w w' → Φ [ne_id n] w') →
  wp (_handle_node_failure execution (ne_id n)) Φ Ψ w.
Proof.
  intros Ht Hn Hst Hlt HΦ. unfold _handle_node_failure. apply wp_bind.
  eapply wp_node_object; [exact Ht|exact Hn|].
  assert ((ne_attempt n <? ne_max_attempts n)%Z = true) as -> by (by apply Z.ltb_lt).
  apply wp_bind. eapply wp_transition_node; [exact Ht|exact Hn|done|]. intros w1 Ht1 Hf1.
  apply wp_bind.
  eapply (wp_transition_node _ _ _ x (entered (tx_now t) NRETRYING n));
    [exact Ht1|by simpl; rewrite lookup_insert_eq|done|]. intros w2 Ht2 Hf2.
  simpl in Ht2. unfold tx_set_rows in Ht2. simpl in Ht2. rewrite insert_insert_eq in Ht2.
  apply wp_bind.
  eapply (wp_add_log _ _ _ (Some (retried_row (tx_now t) n))); [exact Ht2| |].
  { exists x. simpl. by rewrite lookup_insert_eq. }
  intros w3 Ht3 Hf3. apply wp_ret. apply HΦ; [exact Ht3|by do 2 (etrans; [eassumption|])].
Qed.

(** The transaction after a failure without attempts left. *)
Definition dead_lettered_tx (execution : Execution) (x : string) (n : NodeExecution)
    (k : uuid) (t : Tx) : Tx :=
  let row := entered (tx_now t) NDEAD_LETTERED n in
  let t := tx_set_dlq (<[k := dead_letter_job k (tx_now t) execution row]>)
             (tx_set_rows (<[x := row]>) t) in
  if decide (ex_status (tx_obj t) = ERUNNING)
  then tx_set_exec (enter_execution_status EFAILED (tx_now t)) t else t.

Lemma wp_handle_failure_dead execution x n t w (Φ : list uuid → World Q → Prop) Ψ :
  in_tx (ex_id execution) t w → tx_rows t !! x = Some n → ne_status n = NFAILED →
  (ne_max_attempts n ≤ ne_attempt n)%Z →
  (∀ w' k, (w_next_uuid w ≤ k)%N → (k < w_next_uuid w')%N →
     in_tx (ex_id execution) (dead_lettered_tx execution x n k t) w' →
     tx_frame (ex_id execution) w w' → Φ [] w') →
  wp (_handle_node_failure execution (ne_id n)) Φ Ψ w.
Proof.
  intros Ht Hn Hst Hge HΦ. unfold _handle_node_failure. apply wp_bind.
  eapply wp_node_object; [exact Ht|exact Hn|].
  assert ((ne_attempt n <? ne_max_attempts n)%Z = false) as -> by (by apply Z.ltb_ge).
  set (row := entered (tx_now t) NDEAD_LETTERED n).
  apply wp_bind. eapply wp_transition_node; [exact Ht|exact Hn|done|]. intros w1 Ht1 Hf1.
  fold row in Ht1. change (ne_id n) with (ne_id row).
  assert (tx_rows (tx_set_rows <[x:=row]> t) !! x = Some row) as Hrow
    by (simpl; by rewrite lookup_insert_eq).
  apply wp_bind. eapply wp_node_object; [exact Ht1|exact Hrow|].
  apply wp_bind. eapply (wp_add_log _ _ _ (Some row)); [exact Ht1|by exists x|]. intros w2 Ht2 Hf2.
  apply wp_bind. eapply wp_add_dead_letter_job; [exact Ht2|exact Hrow|]. intros w3 Ht3 Hf3 Hnext.
  apply wp_bind. eapply wp_execution_object; [exact Ht3|].
  assert (w_next_uuid w ≤ w_next_uuid w2)%N as Hk.
  { etrans; [by apply (tf_next _ _ _ Hf1)|by apply (tf_next _ _ _ Hf2)]. }
  apply wp_bind.
  assert (∀ w4, in_tx (ex_id execution) (dead_lettered_tx execution x n (w_next_uuid w2) t) w4 →
          tx_frame (ex_id execution) w3 w4 → Φ [] w4) as Hend.
  { intros w4 Ht4 Hf4. apply (HΦ w4 (w_next_uuid w2)); [done| |exact Ht4|].
    - eapply N.lt_le_trans; [exact Hnext|]. by apply (tf_next _ _ _ Hf4).
    - by do 3 (etrans; [eassumption|]). }
  unfold dead_lettered_tx in Hend. cbv zeta in Hend. fold row in Hend. simpl in *.
  case_decide as Hrun.
  - apply wp_bind. eapply wp_transition_execution; [exact Ht3|done|]. intros w4 e Ht4 Hf4.
    apply wp_ret, wp_ret. by apply Hend.
  - apply wp_ret, wp_ret. apply Hend; [done|apply tx_frame_refl].
Qed.

(** ** [complete_job] *)

(** The row of a node that has succeeded or failed, before anything else happens. *)
Definition succeeded_row (now : datetime) (result : ExecutorResult) (n : NodeExecution) :=
  entered now NSUCCEEDED (set_output_payload (output result) n).
Definition failed_row (now : datetime) (result : ExecutorResult) (n : NodeExecution) :=
  entered now NFAILED (set_error_message (error result) n).

(** What happened to a job whose node was running, before the end of the execution is
    looked at: the nodes to publish and the transaction. *)
Inductive outcome (ld : Loaded) (result : ExecutorResult) (t : Tx) (x : string)
    (n : NodeExecution) : list uuid → Tx → Prop :=
| outcome_success seeds rows' refs :
    success result = true →
    downstream_seeds (ld_definition ld) (ld_node_def ld) result x = Ok seeds →
    let rows1 := <[x := succeeded_row (tx_now t) result n]> (tx_rows t) in
    let cs := children_of (ld_definition ld) x in
    downstream_rows (ld_definition ld) (tx_now t) seeds cs rows1 rows' →
    downstream_refs (ld_definition ld) seeds cs rows1 refs →
    outcome ld result t x n refs (tx_set_rows (fun _ => rows') t)
| outcome_retry :
    success result = false → (ne_attempt n < ne_max_attempts n)%Z →
    outcome ld result t x n [ne_id n]
      (tx_set_rows (<[x := retried_row (tx_now t) (failed_row (tx_now t) result n)]>) t)
| outcome_dead k :
    success result = false → (ne_max_attempts n ≤ ne_attempt n)%Z →
    outcome ld result t x n []
      (dead_lettered_tx (ld_execution ld) x (failed_row (tx_now t) result n) k t).

(** What [complete_job] returns, and the transaction it leaves. *)
Inductive completed (ld : Loaded) (result : ExecutorResult) (t : Tx) :
    option (list uuid) → Tx → Prop :=
| completed_late x n :
    tx_rows t !! x = Some n → ne_id n = ld_node ld → ne_status n ≠ NRUNNING →
    completed ld result t None t
| completed_now x n refs t1 t' :
    tx_rows t !! x = Some n → ne_id n = ld_node ld → ne_status n = NRUNNING →
    outcome ld result t x n refs t1 → finished t1 t' →
    completed ld result t (Some refs) t'.

Section branches.
Context (set_order : list json → list json) (ld : Loaded) (result : ExecutorResult).
Hypothesis Hord : ∀ l, set_order l ≡ₚ l.
Let eid := ex_id (ld_execution ld).

Definition complete_body (node : NodeExecution) (by_node_id : gmap string uuid) :
    M Q (list uuid) :=
  if success result then
    update_node (ne_id node) (set_output_payload (output result)) ≫= fun _ =>
    transition_node_status (ne_id node) NRUNNING NSUCCEEDED ≫= fun _ =>
    node_succeeded (ne_execution_id node) (ne_id node) (ne_node_id node) ≫= fun _ =>
    _queue_downstream_nodes set_order (ld_definition ld) (ld_node_def ld) node by_node_id result
  else
    update_node (ne_id node) (set_error_message (error result)) ≫= fun _ =>
    transition_node_status (ne_id node) NRUNNING NFAILED ≫= fun _ =>
    node_failed (ne_execution_id node) (ne_id node) (ne_node_id node) (error result) ≫= fun _ =>
    _handle_node_failure (ld_execution ld) (ne_id node).

(** The first three operations of both branches. *)
Lemma wp_enter_result t w x n f to msg level event_type metadata {A} (k : M Q A)
    (Φ : A → World Q → Prop) Ψ :
  in_tx eid t w → tx_rows t !! x = Some n → ne_status n = NRUNNING →
  same_node n (f n) → ne_status (f n) = ne_status n →
  (∀ w', in_tx eid (tx_set_rows (<[x := entered (tx_now t) to (f n)]>) t) w' →
         tx_frame eid w w' → wp k Φ Ψ w') →
  wp (update_node (ne_id n) f ≫= fun _ =>
      transition_node_status (ne_id n) NRUNNING to ≫= fun _ =>
      add_log (ne_execution_id n) (Some (ne_id n)) level event_type msg metadata ≫= fun _ => k)
    Φ Ψ w.
Proof.
  intros Ht Hn Hst Hsame Hfst HΦ. pose proof (it_rows _ _ _ Ht _ _ Hn) as (_ & _ & Hx & He).
  pose proof Hsame as (Hid & _).
  apply wp_bind. eapply wp_update_node; [exact Ht|exact Hn|done|]. intros w1 Ht1 Hf1.
  apply wp_bind. rewrite <- Hid.
  eapply (wp_transition_node _ _ _ x (f n)); [exact Ht1|by simpl; rewrite lookup_insert_eq|congruence|].
  intros w2 Ht2 Hf2. simpl in Ht2. unfold tx_set_rows in Ht2. simpl in Ht2.
  rewrite insert_insert_eq in Ht2. rewrite He.
  apply wp_bind. eapply (wp_add_log _ _ _ (Some (entered (tx_now t) to (f n)))); [exact Ht2| |].
  { exists x. simpl. by rewrite lookup_insert_eq. }
  intros w3 Ht3 Hf3. apply HΦ; [exact Ht3|by do 2 (etrans; [eassumption|])].
Qed.

Lemma wp_complete_body t w x n by_node_id (Φ : list uuid → World Q → Prop)
    (Ψ : exc → World Q → Prop) :
  in_tx eid t w → tx_rows t !! x = Some n → ne_status n = NRUNNING →
  refs_to by_node_id (tx_rows t) →
  (∀ p c, wf_edge (ld_definition ld) p c → is_Some (tx_rows t !! p)) →
  (∀ refs w1 t1, outcome ld result t x n refs t1 → refs_to by_node_id (tx_rows t1) →
     in_tx eid t1 w1 → tx_frame eid w w1 → Φ refs w1) →
  (∀ w1 e, success result = true →
     downstream_seeds (ld_definition ld) (ld_node_def ld) result x = Err e →
     tx_frame eid w w1 → Ψ e w1) →
  wp (complete_body n by_node_id) Φ Ψ w.
Proof using Hord.
  intros Ht Hn Hst Hrefs Hparents HΦ HΨ.
  pose proof (it_rows _ _ _ Ht _ _ Hn) as (_ & _ & Hx & _). unfold complete_body.
  destruct (success result) eqn:Hsucc.
  - eapply wp_enter_result; [exact Ht|exact Hn|done|done|done|]. intros w1 Ht1 Hf1.
    fold (succeeded_row (tx_now t) result n) in Ht1.
    destruct (downstream_seeds (ld_definition ld) (ld_node_def ld) result x) as [seeds|e] eqn:Hseeds.
    + eapply (wp_queue_downstream eid); [exact Hord|exact Ht1| | |by rewrite Hx|].
      * by eapply refs_to_insert.
      * intros p c Hpc. simpl. apply lookup_insert_is_Some'. right. by eapply Hparents.
      * intros w2 rows' refs Ht2 Hf2 Hd Hr. rewrite Hx in Hd, Hr. simpl in *.
        eapply HΦ; [|  |exact Ht2|by etrans].
        -- by eapply (outcome_success ld result t x n seeds rows').
        -- simpl. eapply downstream_refs_to; [|exact Hd]. by eapply refs_to_insert.
    + eapply wp_run_err; [apply (run_queue_downstream_err _ _ _ _ _ _ e); by rewrite Hx|].
      by apply HΨ.
  - eapply wp_enter_result; [exact Ht|exact Hn|done|done|done|]. intros w1 Ht1 Hf1.
    fold (failed_row (tx_now t) result n) in Ht1.
    set (row := failed_row (tx_now t) result n) in *. change (ne_id n) with (ne_id row).
    assert (tx_rows (tx_set_rows <[x:=row]> t) !! x = Some row) as Hrow
      by (simpl; by rewrite lookup_insert_eq).
    destruct (Z.ltb_spec (ne_attempt n) (ne_max_attempts n)) as [Hlt|Hge].
    + eapply (wp_handle_failure_retry (ld_execution ld) x row); [exact Ht1|exact Hrow|done|done|].
      intros w2 Ht2 Hf2. unfold tx_set_rows in Ht2. simpl in Ht2. rewrite insert_insert_eq in Ht2.
      eapply HΦ; [exact (outcome_retry ld result t x n Hsucc Hlt)| |exact Ht2|by etrans]. by eapply refs_to_insert.
    + eapply (wp_handle_failure_dead (ld_execution ld) x row); [exact Ht1|exact Hrow|done|done|].
      intros w2 k _ _ Ht2 Hf2.
      assert (dead_lettered_tx (ld_execution ld) x row k (tx_set_rows <[x:=row]> t) =
              dead_lettered_tx (ld_execution ld) x row k t) as Heq.
      { unfold dead_lettered_tx, tx_set_rows, tx_set_dlq. simpl. by rewrite insert_insert_eq. }
      rewrite Heq in Ht2. eapply HΦ; [exact (outcome_dead ld result t x n k Hsucc Hge)| |exact Ht2|by etrans].
      unfold dead_lettered_tx. simpl. case_decide; by eapply refs_to_insert.
Qed.

(** The error of a completion whose node is gone or whose branches are no node ids. *)
Definition complete_error (d : DB) (e : exc) : Prop :=
  (e = ERuntimeError ∧ ∀ n, db_nodes d !! ld_node ld = Some n → ne_execution_id n ≠ eid) ∨
  (∃ n, db_nodes d !! ld_node ld = Some n ∧ ne_status n = NRUNNING ∧ success result = true ∧
        downstream_seeds (ld_definition ld) (ld_node_def ld) result (ne_node_id n) = Err e).

Lemma wp_complete_job w e obj (Φ : option (list uuid) → World Q → Prop)
    (Ψ : exc → World Q → Prop) :
  db_wf (w_db w) → db_executions (w_db w) !! eid = Some e →
  s_execs (w_session w) !! eid = Some obj →
  (∀ p c, wf_edge (ld_definition ld) p c → is_Some (rows_of (w_db w) eid !! p)) →
  let t := mkTx (w_now w) (rows_of (w_db w) eid) e obj (db_dlq (w_db w)) in
  (∀ r t' w', completed ld result t r t' → in_tx eid t' w' → tx_frame eid w w' →
     Φ r (match r with Some _ => w_commit w' | None => w' end)) →
  (∀ x w', complete_error (w_db w) x → tx_frame eid w w' → Ψ x w') →
  wp (complete_job set_order ld result) Φ Ψ w.
Proof using Hord.
  intros Hwf He Hobj Hparents t HΦ HΨ. unfold complete_job. fold eid.
  apply wp_bind. eapply (wp_run _ _ _ _ (Some obj) w).
  { unfold select_execution, get_execution_object. by rewrite He, Hobj. }
  apply wp_bind. eapply wp_select_nodes_populate; [done|exact He|exact Hobj|].
  intros w1 l Hl Hdb Ht1 Hf1. fold t in Ht1.
  destruct (list_find _ l) as [[i n]|] eqn:Hfind.
  2:{ apply wp_raise. apply HΨ; [|done]. left. split; [done|]. intros n Hn Hne.
      eapply list_find_None in Hfind. rewrite Forall_forall in Hfind. apply (Hfind n).
      - subst l. apply list_elem_of_fmap. exists (ld_node ld, n). split; [done|].
        apply elem_of_map_to_list. by apply elem_of_nodes_of_execution.
      - apply (dw_node_key _ Hwf _ _ Hn). }
  apply list_find_Some in Hfind as (Hi & Hid & _).
  assert (nodes_of_execution (w_db w) eid !! ld_node ld = Some n) as Hin.
  { apply list_elem_of_lookup_2 in Hi. subst l. apply list_elem_of_fmap in Hi as ([j m] & -> & Hin).
    apply elem_of_map_to_list in Hin. simpl in *. pose proof Hin as Hin'.
    apply elem_of_nodes_of_execution in Hin' as [Hm _].
    by rewrite <- Hid, (dw_node_key _ Hwf _ _ Hm). }
  apply elem_of_nodes_of_execution in Hin as [Hn Hne].
  assert (tx_rows t !! ne_node_id n = Some n) as Hrow.
  { apply rows_of_lookup; [done|]. by rewrite Hid. }
  case_decide as Hst.
  { apply wp_ret. by apply (HΦ None t w1); [eapply completed_late| |]. }
  apply wp_bind.
  eapply (wp_complete_body t w1 (ne_node_id n) n); [exact Ht1|exact Hrow|done| |exact Hparents| |].
  { subst l. by apply node_exec_by_node_id_rows. }
  - intros refs w2 t1 Hout Hrefs Ht2 Hf2. apply wp_bind.
    eapply wp_finish_execution; [exact Ht2| |].
    { eapply (ids_of_same _ (rows_of (w_db w) eid)); [by apply node_exec_by_node_id_rows| |].
      - subst l. exact Hrefs.
      - subst l. by apply ids_of_rows. }
    intros w3 t' Hfin Ht3 Hf3. apply wp_bind, wp_modify, wp_ret.
    apply (HΦ (Some refs) t' w3); [|exact Ht3|by do 2 (etrans; [eassumption|])].
    by eapply completed_now.
  - intros w2 x Hs Hx Hf2. apply HΨ; [|by etrans]. right. by exists n.
Qed.

End branches.

End complete.
