(* ===== verification/Engine.v ===== *)
(** * The execution engine (src/backend/app/services/execution_engine.py) and the
    retry policy (retry_policy.py)

    [start_execution] is split at its first commit, where a crash loses what
    follows. Executions are reached through a join with the owner's workflows. *)

From Stdlib Require Import SpecFloat.
From stdpp Require Import sorting.
From S2P Require Import Prelude Json PyStr Errors Models Registry DagValidator Events Monad Store.
From S2P Require Import LogHelpers StateTransition Publisher.

(** ** Retry policy *)

(** [RetryPolicy()]; 2.0 is 2^52 * 2^-51. *)
Definition DEFAULT_RETRY_POLICY : RetryPolicy :=
  mkRetryPolicy 3 1 3600 (S754_finite false 4503599627370496 (-51)).

Definition resolve_retry_policy (node : Node) (definition : WorkflowDefinition) : RetryPolicy :=
  match node_retry_policy node with
  | Some p => p
  | None =>
      match default_retry_policy definition with
      | Some p => p
      | None => DEFAULT_RETRY_POLICY
      end
  end.

(** ** Transfer objects *)

Definition node_dto (node : NodeExecution) : NodeExecutionDTO :=
  mkNodeExecutionDTO (ne_id node) (ne_execution_id node) (ne_node_id node) (ne_node_type node)
    (node_status_name (ne_status node)) (ne_attempt node) (ne_max_attempts node)
    (ne_input_payload node) (ne_output_payload node) (ne_error_message node).

Definition execution_dto (execution : Execution) (nodes : list NodeExecutionDTO) : ExecutionDTO :=
  mkExecutionDTO (ex_id execution) (ex_workflow_id execution) (ex_workflow_version_id execution)
    (execution_status_name (ex_status execution)) (ex_input_payload execution)
    (ex_error_message execution) nodes.

(** ** Ownership *)

(** The join [Workflow.id == Execution.workflow_id] with
    [Workflow.owner_api_key_id == owner]. *)
Definition owns_workflow (d : DB) (workflow_id owner : uuid) : bool :=
  match db_workflows d !! workflow_id with
  | Some wf => (w_owner_api_key_id wf =? owner)%N
  | None => false
  end.

Definition owns_execution (d : DB) (execution_id owner : uuid) : bool :=
  match db_executions d !! execution_id with
  | Some e => owns_workflow d (ex_workflow_id e) owner
  | None => false
  end.

Section engine.
Context {Q : Type} `{QueuePublisher Q} {Net : Type}.
Context (registry : ExecutorRegistry Net).

(** [select(Execution).join(Workflow).where(id, owner)] and [scalar_one_or_none]. *)
Definition select_owned_execution (execution_id owner : uuid) : M Q (option Execution) :=
  d ← gets w_db;
  if owns_execution d execution_id owner then select_execution execution_id else mret None.

(** ** Queries *)

Definition get_node_executions (execution_id owner_api_key_id : uuid) :
    M Q (list NodeExecutionDTO) :=
  execution ← select_owned_execution execution_id owner_api_key_id;
  match execution with
  | None => mret []
  | Some _ => nodes ← select_nodes false execution_id; mret (node_dto <$> nodes)
  end.

Definition get_execution (execution_id owner_api_key_id : uuid) : M Q (option ExecutionDTO) :=
  execution ← select_owned_execution execution_id owner_api_key_id;
  match execution with
  | None => mret None
  | Some execution =>
      node_dtos ← get_node_executions execution_id owner_api_key_id;
      mret (Some (execution_dto execution node_dtos))
  end.

(** [started_at DESC NULLS LAST]; the order among equal keys is the table's. *)
Definition started_before (a b : Execution) : Prop :=
  match ex_started_at a, ex_started_at b with
  | Some x, Some y => (y ≤ x)%Z
  | _, None => True
  | None, Some _ => False
  end.

#[export] Instance started_before_dec : RelDecision started_before.
Proof. intros a b. unfold started_before. repeat case_match; apply _. Defined.

(** [status] is the status name of the query string; [limit] and [offset] are
    validated by the router to be non-negative. *)
Definition list_executions (owner_api_key_id : uuid) (status : option string)
    (limit offset : nat) : M Q (list ExecutionDTO) :=
  status_enum ← lift (match status with
                      | None => Ok None
                      | Some s =>
                          match execution_status_of_name s with
                          | Some st => Ok (Some st)
                          | None => Err (EApp (app_error_status ("Invalid status: " +:+ s)
                                                 "invalid_status" 400))
                          end
                      end);
  d ← gets w_db;
  let rows := filter (fun e => owns_workflow d (ex_workflow_id e) owner_api_key_id = true ∧
                               (status_enum = None ∨ status_enum = Some (ex_status e)))
                (map_to_list (db_executions d)).*2 in
  let page := take limit (drop offset (merge_sort started_before rows)) in
  executions ← for_omap (fun e => select_execution (ex_id e)) page;
  mret ((fun e => execution_dto e []) <$> executions).

(** ** [start_execution] *)

(** [select(WorkflowVersion, Workflow).join(...).where(WorkflowVersion.id == id).first()]. *)
Definition version_with_workflow (d : DB) (version_id : uuid) : option (WorkflowVersion * Workflow) :=
  version ← db_versions d !! version_id;
  workflow ← db_workflows d !! wv_workflow_id version;
  Some (version, workflow).

(** [session.add(NodeExecution(...))] and flush, for one node of the definition. *)
Definition create_node_execution (execution_id : uuid) (definition : WorkflowDefinition)
    (node : Node) : M Q NodeExecution :=
  let retry_policy := resolve_retry_policy node definition in
  id ← uuid4;
  let node_exec := mkNodeExecution id execution_id (node_id node) (node_type node) NPENDING 0
                     (max_attempts retry_policy) None None None None None None None None None in
  insert_node node_exec ≫= fun _ => mret node_exec.

(** Lines 45 to 113: up to the first commit. The result is the execution, its
    version and the references of the root nodes in the definition's order. *)
Definition start_create (command : StartExecutionCommand) (owner_api_key_id : uuid) :
    M Q (uuid * uuid * list uuid) :=
  d ← gets w_db;
  match version_with_workflow d (cmd_workflow_version_id command) with
  | None => raise (EApp (app_error_status "Workflow version not found" "not_found" 404))
  | Some (version, workflow) =>
      if (w_owner_api_key_id workflow =? owner_api_key_id)%N then
        let definition := wv_definition version in
        validation_result ← lift (validate_workflow definition registry);
        execution_id ← uuid4;
        insert_execution (mkExecution execution_id (w_id workflow) (wv_id version) ECREATED
          None None None (Some (cmd_input_payload command)) None) ≫= fun _ =>
        node_executions ← for_collect (create_node_execution execution_id definition)
                            (wf_nodes definition);
        execution_started execution_id ≫= fun _ =>
        transition_execution_status execution_id ECREATED ERUNNING ≫= fun _ =>
        let roots := ne_id <$> filter (fun ne => ne_node_id ne ∈ root_nodes validation_result)
                                 node_executions in
        for_each (fun n => transition_node_status n NPENDING NQUEUED ≫= fun _ => mret ())
          roots ≫= fun _ =>
        commit ≫= fun _ =>
        mret (execution_id, wv_id version, roots)
      else raise (EApp (app_error_status "Unauthorized access to workflow" "unauthorized" 403))
  end.

(** Lines 115 to 129. *)
Definition start_publish (execution_id version_id : uuid) (roots : list uuid)
    (owner_api_key_id : uuid) : M Q (option ExecutionDTO) :=
  publish_nodes version_id execution_id roots ≫= fun _ =>
  get_execution execution_id owner_api_key_id.

Definition start_execution (command : StartExecutionCommand) (owner_api_key_id : uuid) :
    M Q (option ExecutionDTO) :=
  created ← start_create command owner_api_key_id;
  let '(execution_id, version_id, roots) := created in
  start_publish execution_id version_id roots owner_api_key_id.

(** ** [retry_node] *)

(** The unresolved dead letter jobs of a node. *)
Definition unresolved_jobs (d : DB) (node_execution_id : uuid) : gmap uuid DeadLetterJob :=
  filter (fun p => dl_node_execution_id p.2 = node_execution_id ∧ dl_resolved_at p.2 = None)
    (db_dlq d).

Definition resolve_job (now : datetime) (note : option string) (j : DeadLetterJob) : DeadLetterJob :=
  mkDeadLetterJob (dl_id j) (dl_execution_id j) (dl_node_execution_id j) (dl_redis_message_id j)
    (dl_reason j) (dl_attempts j) (dl_payload j) (dl_created_at j) (Some now) note.

(** Lines 258 to 266; two matching rows are [MultipleResultsFound]. *)
Definition resolve_dlq_of_node (node_execution_id : uuid) : M Q () :=
  d ← gets w_db;
  match (map_to_list (unresolved_jobs d node_execution_id)).*1 with
  | [] => mret ()
  | [id] =>
      now ← datetime_now;
      update_db (db_set_dlq (alter (resolve_job now (Some "Manually retried via API")) id))
  | _ => raise EMultipleResultsFound
  end.

(** Lines 227 to 268: up to the commit. *)
Definition retry_requeue (execution_id : uuid) (node_id : string) (owner_api_key_id : uuid) :
    M Q (uuid * Execution) :=
  d ← gets w_db;
  let row := if owns_execution d execution_id owner_api_key_id then
               list_find (fun p => ne_node_id p.2 = node_id)
                 (map_to_list (nodes_of_execution d execution_id))
             else None in
  match row with
  | None => raise (not_found "NodeExecution")
  | Some (_, (id, _)) =>
      get_node id ≫= fun _ =>
      node_exec ← node_object id;
      get_execution_object execution_id ≫= fun _ =>
      execution ← execution_object execution_id;
      if decide (ne_status node_exec ≠ NDEAD_LETTERED) then
        raise (EApp (app_error ("Cannot retry node in " +:+ node_status_name (ne_status node_exec) +:+
                                " state. Must be DEAD_LETTERED.") "invalid_state"))
      else
        transition_node_status (ne_id node_exec) NDEAD_LETTERED NQUEUED ≫= fun _ =>
        resolve_dlq_of_node (ne_id node_exec) ≫= fun _ =>
        commit ≫= fun _ =>
        mret (ne_id node_exec, execution)
  end.

(** Lines 270 to 295. *)
Definition retry_publish (node_ref : uuid) (execution : Execution) : M Q NodeExecutionDTO :=
  node_exec ← node_object node_ref;
  message_id ← publish (mkJob (ex_id execution) (ne_id node_exec) (ex_workflow_version_id execution)
                          (ne_node_id node_exec) (ne_attempt node_exec));
  (match message_id with
   | Some m =>
       if String.eqb m "" then mret ()
       else update_node node_ref (set_redis_message_id m) ≫= fun _ => commit
   | None => mret ()
   end) ≫= fun _ =>
  flush_events ≫= fun _ =>
  node_exec ← node_object node_ref;
  mret (node_dto node_exec).

Definition retry_node (execution_id : uuid) (node_id : string) (owner_api_key_id : uuid) :
    M Q NodeExecutionDTO :=
  requeued ← retry_requeue execution_id node_id owner_api_key_id;
  retry_publish requeued.1 requeued.2.

(** ** The rest *)

Definition transition_node : M Q NodeExecutionDTO := raise ENotImplementedError.

(** [session.delete(execution)]: the cascades of [Execution.node_executions],
    [Execution.logs] and [NodeExecution.logs]; a dead letter job of another
    execution that names one of the nodes would violate its foreign key. *)
Definition cascade_delete (execution_id : uuid) (d : DB) : DB :=
  let nodes := nodes_of_execution d execution_id in
  mkDB (db_workflows d) (db_versions d) (delete execution_id (db_executions d))
    (db_nodes d ∖ nodes) (db_dlq d)
    (filter (fun l => log_execution_id l ≠ execution_id ∧
                      (log_node_execution_id l ≫= fun n => nodes !! n) = None) (db_logs d)).

Definition dlq_refers (d : DB) : bool :=
  forallb (fun j => bool_decide (is_Some (db_executions d !! dl_execution_id j)) &&
                    bool_decide (is_Some (db_nodes d !! dl_node_execution_id j)))
    (map_to_list (db_dlq d)).*2.

Definition delete_execution (execution_id owner_api_key_id : uuid) : M Q () :=
  execution ← select_owned_execution execution_id owner_api_key_id;
  match execution with
  | None => raise (EApp (app_error_status "Execution not found" "not_found" 404))
  | Some execution =>
      update_db (db_set_dlq (filter (fun p => dl_execution_id p.2 ≠ execution_id))) ≫= fun _ =>
      update_db (cascade_delete (ex_id execution)) ≫= fun _ =>
      d ← gets w_db;
      if dlq_refers d then commit else raise EIntegrityError
  end.

End engine.
