(* ===== verification/Dlq.v ===== *)
(** * The dead letter service (src/backend/app/services/dlq_service.py) *)

From stdpp Require Import sorting.
From S2P Require Import Prelude Json PyStr Errors Models Registry Events Monad Store LogHelpers.
From S2P Require Import StateTransition Publisher Engine.

Section dlq.
Context {Q : Type}.

(** [_owned_stmt]: dead letter jobs of the executions of the owner's workflows. *)
Definition owned_jobs (d : DB) (owner_api_key_id : uuid) : gmap uuid DeadLetterJob :=
  filter (fun p => owns_execution d (dl_execution_id p.2) owner_api_key_id = true) (db_dlq d).

(** [created_at DESC]. *)
Definition created_after (a b : DeadLetterJob) : Prop := (dl_created_at b ≤ dl_created_at a)%Z.

#[export] Instance created_after_dec : RelDecision created_after.
Proof. intros a b. unfold created_after. apply _. Defined.

Definition list_dlq_jobs (owner_api_key_id : uuid) (limit offset : nat) : M Q (list DeadLetterJob) :=
  d ← gets w_db;
  mret (take limit (drop offset
    (merge_sort created_after (map_to_list (owned_jobs d owner_api_key_id)).*2))).

Definition get_dlq_job (dlq_id owner_api_key_id : uuid) : M Q (option DeadLetterJob) :=
  d ← gets w_db; mret (owned_jobs d owner_api_key_id !! dlq_id).

Definition resolve_dlq_job (dlq_id owner_api_key_id : uuid) (resolution_note : option string) :
    M Q DeadLetterJob :=
  job ← get_dlq_job dlq_id owner_api_key_id;
  match job with
  | None => raise (EApp (app_error_status "Dead letter job not found" "not_found" 404))
  | Some job =>
      now ← datetime_now;
      update_db (db_set_dlq (alter (resolve_job now resolution_note) dlq_id)) ≫= fun _ =>
      commit ≫= fun _ =>
      d ← gets w_db;
      match db_dlq d !! dlq_id with Some job => mret job | None => raise EAttributeError end
  end.

End dlq.
