(* ===== verification/Recovery.v ===== *)
(** * Recovery of stale jobs (src/backend/app/worker/recovery.py) *)

From S2P Require Import Prelude Json PyStr Errors Models Registry Events Monad Store LogHelpers.
From S2P Require Import StateTransition Publisher Runtime.

Definition RECOVERY_REASON_IDLE : string := "pending_idle_timeout_exceeded".

Section recovery.
Context {Q : Type} `{QueuePublisher Q} {Net : Type}.
Context (str_exc : exc → string) (set_order : list json → list json).

(** [log_recovery_event]. *)
Definition log_recovery_event (execution_id node_execution_id : uuid) (redis_message_id : string)
    (previous_worker : option string) (claiming_worker recovery_reason : string) : M Q () :=
  worker_recovered_job execution_id node_execution_id redis_message_id previous_worker
    claiming_worker recovery_reason.

Definition set_status (s : NodeExecutionStatus) (n : NodeExecution) : NodeExecution :=
  mkNodeExecution (ne_id n) (ne_execution_id n) (ne_node_id n) (ne_node_type n) s (ne_attempt n)
    (ne_max_attempts n) (ne_input_payload n) (ne_output_payload n) (ne_error_message n)
    (ne_idempotency_key n) (ne_redis_message_id n) (ne_worker_id n) (ne_queued_at n)
    (ne_started_at n) (ne_finished_at n).

(** Lines 50 to 85 of [process_recovered_job]: log, revert a running node, commit. [true]
    when the job has to be processed. *)
Definition recover_job (fs : fields) (redis_message_id : string)
    (previous_worker : option string) (claiming_worker : string) : M Q bool :=
  job ← lift (deserialize_job_payload fs);
  node ← get_node (job_node_execution_id job);
  match node with
  | None => mret false
  | Some node =>
      log_recovery_event (job_execution_id job) (job_node_execution_id job) redis_message_id
        previous_worker claiming_worker RECOVERY_REASON_IDLE ≫= fun _ =>
      if decide (ne_status node ∈ TERMINAL_NODE_STATUSES) then
        commit ≫= fun _ => flush_events ≫= fun _ => mret false
      else
        (if decide (ne_status node = NRUNNING)
         then update_node (ne_id node) (set_status NQUEUED) else mret ()) ≫= fun _ =>
        commit ≫= fun _ => flush_events ≫= fun _ => mret true
  end.

(** [process_recovered_job]; the result says whether the job was executed. *)
Definition process_recovered_job (reg : ExecutorRegistry Net) (net : Net) (fs : fields)
    (redis_message_id : string) (previous_worker : option string) (claiming_worker : string) :
    M Q bool :=
  proceed ← recover_job fs redis_message_id previous_worker claiming_worker;
  if (proceed : bool) then process_job str_exc set_order reg net fs ≫= fun _ => mret true
  else mret false.

(** ** [_claim_stale_pending] *)

(** An entry of [XPENDING]. *)
Record PendingEntry : Type := mkPendingEntry {
  pe_message_id : string;
  pe_time_since_delivered : Z;
  pe_consumer : option string
}.

(** The loop over [pending]: the stale identifiers and [previous_by_id]. *)
Definition stale_entries (idle_timeout_ms : Z) (pending : list PendingEntry) :
    list string * list (string * option string) :=
  foldl (fun st entry =>
    if (idle_timeout_ms <=? pe_time_since_delivered entry)%Z then
      (st.1 ++ [pe_message_id entry], dict_set (pe_message_id entry) (pe_consumer entry) st.2)
    else st) ([], []) pending.

(** [xpending_range] and [xclaim] answer what Redis says; [xclaim] is called only
    with stale identifiers. *)
Definition _claim_stale_pending (idle_timeout_ms : Z) (pending : list PendingEntry)
    (xclaim : list string → list (string * fields)) :
    list (string * fields * option string) :=
  let '(stale_ids, previous_by_id) := stale_entries idle_timeout_ms pending in
  match stale_ids with
  | [] => []
  | _ => (fun c => (c.1, c.2, default None (dict_get c.1 previous_by_id))) <$> xclaim stale_ids
  end.

(** ** One pass of [run_recovery_loop] *)

(** [for ... in claimed_jobs]: each job in a session of its own, then [XACK]; an exception
    ends the pass, and is logged. The result lists the acknowledged messages. *)
Fixpoint recover_batch (reg : ExecutorRegistry Net) (net : Net) (consumer_name : string)
    (claimed_jobs : list (string * fields * option string)) : M Q (list string) := fun w =>
  match claimed_jobs with
  | [] => (Ok [], w)
  | (message_id, fs, previous_worker) :: jobs =>
      match process_recovered_job reg net fs message_id previous_worker consumer_name w with
      | (Ok _, w') =>
          let '(r, w'') := recover_batch reg net consumer_name jobs (w_close w') in
          (cons message_id <$> r, w'')
      | (Err _, w') => (Ok [], w_close w')
      end
  end.

End recovery.
