(* ===== verification/Abstraction.v ===== *)
(** * From the tables to the abstract machine

    [abs d eid] is the state of the abstract machine that the tables hold for an
    execution. The lemmas say what a transaction on one execution, and the update of
    one row, do to the abstraction of every execution, and that the constraints of the
    tables survive. *)

From S2P Require Import Prelude Json PyStr Errors Models Registry DagValidator Events Monad Store.
From S2P Require Import LogHelpers StateTransition Tx Machine Publisher Runtime.
From S2P Require Import Downstream Complete.

Definition abs_node (n : NodeExecution) : ANode :=
  mkANode (ne_status n) (ne_attempt n) (ne_max_attempts n).

Definition abs_rows (rows : gmap string NodeExecution) : gmap string ANode := abs_node <$> rows.

Definition abs (d : DB) (eid : uuid) : option MState :=
  (fun e => mkMState (ex_status e) (abs_rows (rows_of d eid))) <$> db_executions d !! eid.

Definition abs_tx (t : Tx) : MState := mkMState (ex_status (tx_exec t)) (abs_rows (tx_rows t)).

(** The definition an execution runs. *)
Definition definition_of (d : DB) (eid : uuid) : option WorkflowDefinition :=
  e ← db_executions d !! eid; wv_definition <$> db_versions d !! ex_workflow_version_id e.

(** ** Statuses *)

Lemma status_of_abs rows x : m_status (abs_rows rows) x = status_of rows x.
Proof. unfold m_status, abs_rows, status_of. rewrite lookup_fmap. by destruct (rows !! x). Qed.

Lemma skip_reach_ext wf st st' seed x :
  (∀ y, st y = st' y) → skip_reach wf st seed x → skip_reach wf st' seed x.
Proof.
  intros Heq. induction 1 as [x Hs Hp|x c _ IH Hc Hp].
  - apply skip_seed; [done|]. by rewrite <- Heq.
  - eapply skip_child; [exact IH|done|]. by rewrite <- Heq.
Qed.

Lemma skip_reach_abs wf rows seed x :
  skip_reach wf (m_status (abs_rows rows)) seed x ↔ skip_reach wf (status_of rows) seed x.
Proof. split; apply skip_reach_ext; intros y; by rewrite status_of_abs. Qed.

Lemma ready_abs wf rows x :
  ready wf (m_status (abs_rows rows)) x ↔ ready wf (status_of rows) x.
Proof. unfold ready, parents_succeeded. by setoid_rewrite status_of_abs. Qed.

Lemma abs_node_entered now to n : abs_node (entered now to n) = a_enter to (abs_node n).
Proof. done. Qed.

Lemma abs_rows_insert rows x n : abs_rows (<[x := n]> rows) = <[x := abs_node n]> (abs_rows rows).
Proof. apply fmap_insert. Qed.

Lemma downstream_advance wf now seeds x rows rows' :
  downstream_rows wf now seeds (children_of wf x) rows rows' →
  advance wf x (seed_of seeds) (abs_rows rows) (abs_rows rows').
Proof.
  intros Hd y. rewrite skip_reach_abs, ready_abs. unfold abs_rows at 1 2 3 4 5 6. rewrite !lookup_fmap.
  pose proof (Hd y) as Hy. cbv zeta in Hy. rewrite elem_of_children in Hy.
  destruct Hy as [[? ->]|[(? & [??] & ->)|(? & ? & ->)]].
  - left. split; [done|]. by destruct (rows !! y).
  - right; left. split_and!; [done..|]. by destruct (rows !! y).
  - right; right. split_and!; done.
Qed.

(** ** The end of an execution *)

Lemma rows_terminal_abs rows : rows_terminal rows ↔ all_terminal (abs_rows rows).
Proof.
  unfold rows_terminal, all_terminal, abs_rows. setoid_rewrite lookup_fmap.
  assert (∀ s, s ∈ TERMINAL_NODE_STATUSES ↔ m_terminal s = true) as Hs.
  { intros s. unfold TERMINAL_NODE_STATUSES. rewrite !elem_of_cons, elem_of_nil.
    destruct s; simpl; intuition discriminate. }
  split.
  - intros H x n (m & Hm & ->)%fmap_Some. apply Hs. by eapply H.
  - intros H x n Hn. apply Hs. apply (H x (abs_node n)). by rewrite Hn.
Qed.

Lemma rows_bad_abs rows : rows_bad rows ↔ some_bad (abs_rows rows).
Proof.
  unfold rows_bad, some_bad, abs_rows. setoid_rewrite lookup_fmap.
  assert (∀ s, s ∈ [NFAILED; NDEAD_LETTERED] ↔ m_bad s = true) as Hs.
  { intros s. rewrite !elem_of_cons, elem_of_nil. destruct s; simpl; intuition discriminate. }
  split.
  - intros (x & n & Hn & Hb). exists x, (abs_node n). rewrite Hn. split; [done|]. by apply Hs.
  - intros (x & a & (n & Hn & ->)%fmap_Some & Hb). exists x, n. split; [done|]. by apply Hs.
Qed.

(** A worker's object shows [RUNNING] while the row does. *)
Definition obj_ok (e obj : Execution) : Prop :=
  ex_status e = ERUNNING → ex_status obj = ERUNNING.

Lemma finished_finish t t' :
  obj_ok (tx_exec t) (tx_obj t) → finished t t' →
  tx_rows t' = tx_rows t ∧
  finish (abs_rows (tx_rows t)) (ex_status (tx_exec t)) (ex_status (tx_exec t')).
Proof.
  intros Hobj [Hopen|final Hterm Hrun Hfinal]; (split; [done|]).
  - destruct (all_terminal_dec (abs_rows (tx_rows t))) as [Ht|(x & n & Hn & Ht)].
    + apply finish_again. intros Hr. apply Hopen. split; [by apply rows_terminal_abs|by apply Hobj].
    + apply finish_open. intros Hall. specialize (Hall x n Hn). congruence.
  - apply rows_terminal_abs in Hterm. simpl. case_decide; subst.
    + apply finish_failed; [done|]. by apply rows_bad_abs.
    + destruct Hfinal as [-> Hb]. apply finish_succeeded; [done|]. by rewrite <- rows_bad_abs.
Qed.

Lemma retried_abs now result n :
  abs_node (retried_row now (failed_row now result n)) = a_enter NQUEUED (abs_node n).
Proof. done. Qed.

Lemma dead_abs now result n :
  abs_node (entered now NDEAD_LETTERED (failed_row now result n)) =
  a_enter NDEAD_LETTERED (abs_node n).
Proof. done. Qed.

(** ** A completion is a step of the machine *)

Lemma completed_step ld result t refs t' :
  obj_ok (tx_exec t) (tx_obj t) → completed ld result t (Some refs) t' →
  ∃ l, l ∈ [LSucceed; LRequeue; LDeadLetter] ∧
       mstep (ld_definition ld) l (abs_tx t) (abs_tx t').
Proof.
  intros Hobj Hc. inversion Hc as [|x n refs' t1 t1' Hx Hid Hrun Hout Hfin]; subst.
  assert (abs_rows (tx_rows t) !! x = Some (abs_node n)) as Hax
    by (unfold abs_rows; by rewrite lookup_fmap, Hx).
  inversion Hout as [seeds rows' refs'' Hs Hseeds rows1 cs Hd Hr|Hs Hlt|k Hs Hge]; subst.
  - exists LSucceed. split; [by left|].
    edestruct finished_finish as [Hrows Hf]; [|exact Hfin|]; [exact Hobj|]. simpl in *.
    unfold abs_tx. rewrite Hrows. simpl. eapply m_succeed; [exact Hax|done| |exact Hf].
    apply downstream_advance in Hd. unfold rows1 in Hd. rewrite abs_rows_insert in Hd. exact Hd.
  - exists LRequeue. split; [by right; left|].
    assert (t' = tx_set_rows <[x:=retried_row (tx_now t) (failed_row (tx_now t) result n)]> t) as ->.
    { eapply finished_open_inv; [exact Hfin|simpl; by rewrite lookup_insert_eq|].
      simpl. unfold TERMINAL_NODE_STATUSES. set_solver. }
    unfold abs_tx. simpl. rewrite abs_rows_insert, retried_abs.
    by eapply m_requeue.
  - exists LDeadLetter. split; [by right; right; left|].
    set (row := entered (tx_now t) NDEAD_LETTERED (failed_row (tx_now t) result n)) in *.
    assert (obj_ok (tx_exec (dead_lettered_tx (ld_execution ld) x
       (failed_row (tx_now t) result n) k t)) (tx_obj (dead_lettered_tx (ld_execution ld) x
       (failed_row (tx_now t) result n) k t)) ∧
       t' = dead_lettered_tx (ld_execution ld) x (failed_row (tx_now t) result n) k t) as [_ ->].
    { unfold dead_lettered_tx in *. simpl in *. case_decide as Hr.
      - split; [done|]. inversion Hfin as [|final Ht Hro]; [done|]. simpl in Hro. discriminate Hro.
      - split; [done|]. inversion Hfin as [|final Ht Hro]; [done|]. simpl in Hro. done. }
    unfold abs_tx, dead_lettered_tx. fold row. simpl.
    assert (abs_node row = a_enter NDEAD_LETTERED (abs_node n)) as Hrow by done.
    case_decide as Hr; simpl; rewrite abs_rows_insert, Hrow; eapply m_dead_letter;
      [exact Hax|done|done|by left|exact Hax|done|done|].
    right. split; [|done]. intros He. by apply Hr, Hobj.
Qed.

(** ** What a transaction does to the tables *)

(** Columns of an execution no service assigns after the insert. *)
Definition same_exec (e e' : Execution) : Prop :=
  ex_id e' = ex_id e ∧ ex_workflow_id e' = ex_workflow_id e ∧
  ex_workflow_version_id e' = ex_workflow_version_id e.

#[export] Instance same_exec_preorder : PreOrder same_exec.
Proof. split; [by intros e|]. unfold same_exec. intros e1 e2 e3. naive_solver congruence. Qed.

Lemma rows_of_nodes d d' eid : db_nodes d = db_nodes d' → rows_of d eid = rows_of d' eid.
Proof. unfold rows_of, nodes_of_execution. by intros ->. Qed.

Lemma abs_ext d d' eid :
  db_nodes d = db_nodes d' → db_executions d = db_executions d' → abs d eid = abs d' eid.
Proof. unfold abs. intros Hn ->. by rewrite (rows_of_nodes d d'). Qed.

Section transaction.
Context {Q : Type}.
Implicit Types (w : World Q) (t : Tx).

(** The nodes of other executions are the same rows. *)
Lemma tx_frame_other eid w w' id n :
  tx_frame eid w w' → ne_execution_id n ≠ eid →
  (db_nodes (w_db w') !! id = Some n ↔ db_nodes (w_db w) !! id = Some n).
Proof.
  intros Hf Hne. pose proof (tf_nodes _ _ _ Hf id) as Hid.
  destruct (db_nodes (w_db w) !! id) as [m|], (db_nodes (w_db w') !! id) as [m'|];
    simpl in *; try done.
  - destruct Hid as [(_ & He & _) Hs]. split; intros [= ->].
    + rewrite Hs; [done|congruence].
    + rewrite Hs; [done|congruence].
  - split; [|done]. intros [= ->]. done.
Qed.

Lemma tx_frame_kept eid w w' id n :
  tx_frame eid w w' → db_nodes (w_db w) !! id = Some n →
  ∃ n', db_nodes (w_db w') !! id = Some n' ∧ same_node n n'.
Proof.
  intros Hf Hn. pose proof (tf_nodes _ _ _ Hf id) as Hid. rewrite Hn in Hid.
  destruct (db_nodes (w_db w') !! id) as [n'|]; [|done]. destruct Hid as [? _]. eauto.
Qed.

(** The constraints of the tables after a transaction. *)
Lemma in_tx_db_wf eid t w w' :
  db_wf (w_db w) → tx_frame eid w w' → in_tx eid t w' →
  ex_id (tx_exec t) = eid →
  (∃ v wf, db_versions (w_db w) !! ex_workflow_version_id (tx_exec t) = Some v ∧
           db_workflows (w_db w) !! ex_workflow_id (tx_exec t) = Some wf ∧
           wv_workflow_id v = ex_workflow_id (tx_exec t)) →
  (∀ k j, tx_dlq t !! k = Some j → db_dlq (w_db w) !! k = Some j ∨
     ∃ x n, tx_rows t !! x = Some n ∧ dl_node_execution_id j = ne_id n ∧ dl_execution_id j = eid) →
  db_wf (w_db w').
Proof.
  intros Hwf Hf Ht Hid Hver Hdlq.
  assert (∀ id e, db_executions (w_db w') !! id = Some e →
            id = eid ∧ e = tx_exec t ∨ id ≠ eid ∧ db_executions (w_db w) !! id = Some e) as Hex.
  { intros id e He. destruct (decide (id = eid)) as [->|Hne].
    - rewrite (it_exec _ _ _ Ht) in He. naive_solver.
    - right. by rewrite <- (tf_execs _ _ _ Hf). }
  split.
  - intros id n Hn. destruct (decide (ne_execution_id n = eid)) as [He|He].
    + by apply (it_cover _ _ _ Ht).
    + apply (tx_frame_other _ _ _ _ _ Hf He) in Hn. by apply (dw_node_key _ Hwf).
  - intros id e [[-> ->]|[_ He]]%Hex; [done|]. by apply (dw_exec_key _ Hwf).
  - intros id v. rewrite (tf_versions _ _ _ Hf). apply (dw_version_key _ Hwf).
  - intros id v. rewrite (tf_workflows _ _ _ Hf). apply (dw_workflow_key _ Hwf).
  - intros i j n m Hn Hm He Hx. destruct (decide (ne_execution_id n = eid)) as [Heq|Hne].
    + destruct (it_cover _ _ _ Ht _ _ Hn Heq) as [<- Hrn].
      destruct (it_cover _ _ _ Ht _ _ Hm) as [<- Hrm]; [congruence|]. congruence.
    + apply (tx_frame_other _ _ _ _ _ Hf) in Hn; [|done].
      apply (tx_frame_other _ _ _ _ _ Hf) in Hm; [|congruence].
      by eapply (dw_node_unique _ Hwf).
  - intros id n Hn. destruct (decide (ne_execution_id n = eid)) as [->|Hne].
    + by rewrite (it_exec _ _ _ Ht).
    + rewrite (tf_execs _ _ _ Hf) by done. apply (tx_frame_other _ _ _ _ _ Hf) in Hn; [|done].
      by eapply (dw_node_exec _ Hwf).
  - intros id e He. rewrite (tf_versions _ _ _ Hf), (tf_workflows _ _ _ Hf).
    apply Hex in He as [[-> ->]|[_ He]]; [done|]. by eapply (dw_exec_version _ Hwf).
  - intros k j. rewrite (it_dlq _ _ _ Ht). intros [Hj|(x & n & Hx & -> & ->)]%Hdlq.
    + destruct (dw_dlq _ Hwf _ _ Hj) as (n & Hn & <-).
      destruct (tx_frame_kept _ _ _ _ _ Hf Hn) as (n' & Hn' & _ & He & _). by exists n'.
    + apply (it_rows _ _ _ Ht) in Hx as (Hn & _ & _ & He). by exists n.
Qed.

(** The abstraction after a transaction. *)
Lemma in_tx_rows_of eid t w : db_wf (w_db w) → in_tx eid t w → rows_of (w_db w) eid = tx_rows t.
Proof.
  intros Hwf Ht. apply map_eq. intros x. apply option_eq. intros n.
  rewrite rows_of_lookup by done. split.
  - intros (Hn & He & <-). by apply (it_cover _ _ _ Ht (ne_id n)).
  - intros Hx. apply (it_rows _ _ _ Ht) in Hx as (? & _ & ? & ?). done.
Qed.

Lemma in_tx_abs eid t w : db_wf (w_db w) → in_tx eid t w → abs (w_db w) eid = Some (abs_tx t).
Proof.
  intros Hwf Ht. unfold abs, abs_tx. rewrite (it_exec _ _ _ Ht). simpl.
  by rewrite (in_tx_rows_of eid t w).
Qed.

Lemma tx_frame_abs eid w w' e :
  db_wf (w_db w) → db_wf (w_db w') → tx_frame eid w w' → e ≠ eid →
  abs (w_db w') e = abs (w_db w) e.
Proof.
  intros Hwf Hwf' Hf Hne. unfold abs. rewrite (tf_execs _ _ _ Hf) by done.
  assert (rows_of (w_db w') e = rows_of (w_db w) e) as ->; [|done].
  apply map_eq. intros x. apply option_eq. intros n. rewrite !rows_of_lookup by done.
  split; intros (Hn & He & Hx); (split; [|done]); by apply (tx_frame_other _ _ _ _ _ Hf); [congruence|].
Qed.

End transaction.

(** What a completion keeps besides the rows. *)
Lemma finished_same_exec t t' : finished t t' → same_exec (tx_exec t) (tx_exec t') ∧
  tx_dlq t' = tx_dlq t ∧ tx_rows t' = tx_rows t.
Proof. by destruct 1. Qed.

(** The dead letter table after a completion: at most one job more, for a node that is
    now dead-lettered and was running. *)
Lemma completed_keeps ld result t r t' :
  completed ld result t r t' →
  same_exec (tx_exec t) (tx_exec t') ∧
  (∀ x n, tx_rows t !! x = Some n → ne_status n = NDEAD_LETTERED → tx_rows t' !! x = Some n) ∧
  (tx_dlq t' = tx_dlq t ∨
   ∃ k j x n n', tx_dlq t' = <[k := j]> (tx_dlq t) ∧ dl_execution_id j = ex_id (ld_execution ld) ∧
     dl_node_execution_id j = ne_id n ∧ tx_rows t !! x = Some n ∧ ne_status n = NRUNNING ∧
     tx_rows t' !! x = Some n' ∧ ne_status n' = NDEAD_LETTERED ∧ ne_id n' = ne_id n).
Proof.
  intros [x n Hx Hid Hst|x n refs t1 t2 Hx Hid Hrun Hout Hfin]; [by split_and!; [|auto|left]|].
  apply finished_same_exec in Hfin as (Hse & Hdlq & Hrows). rewrite Hrows, Hdlq.
  destruct Hout as [seeds rows' refs Hs Hseeds rows1 cs Hd Hr|Hs Hlt|k Hs Hge].
  - split_and!; [by etrans| |by left]. intros y m Hy Hdead. simpl.
    assert (rows1 !! y = Some m) as Hy1.
    { unfold rows1. rewrite lookup_insert_ne; [done|]. intros <-. congruence. }
    assert (status_of rows1 y = Some NDEAD_LETTERED) as Hsy by (apply status_of_Some; eauto).
    destruct (Hd y) as [[Hr' _]|[(_ & [_ [Hp _]] & _)|(_ & _ & ->)]]; [|congruence|done].
    apply skip_reach_pending in Hr'. congruence.
  - split_and!; [by etrans| |by left]. intros y m Hy Hdead. simpl.
    rewrite lookup_insert_ne; [done|]. intros <-. congruence.
  - set (row := entered (tx_now t) NDEAD_LETTERED (failed_row (tx_now t) result n)).
    set (job := dead_letter_job k (tx_now t) (ld_execution ld) row).
    assert (tx_rows (dead_lettered_tx (ld_execution ld) x (failed_row (tx_now t) result n) k t) =
            <[x := row]> (tx_rows t)) as ->.
    { unfold dead_lettered_tx. by case_decide. }
    assert (tx_dlq (dead_lettered_tx (ld_execution ld) x (failed_row (tx_now t) result n) k t) =
            <[k := job]> (tx_dlq t)) as ->.
    { unfold dead_lettered_tx. by case_decide. }
    split_and!.
    + etrans; [|exact Hse]. unfold dead_lettered_tx. by case_decide.
    + intros y m Hy Hdead. rewrite lookup_insert_ne; [done|]. intros <-. congruence.
    + right. exists k, job, x, n, row. rewrite lookup_insert_eq. done.
Qed.

(** The rows keep their identifiers. *)
Lemma completed_ids ld result t r t' :
  completed ld result t r t' → ∀ x, ne_id <$> tx_rows t' !! x = ne_id <$> tx_rows t !! x.
Proof.
  intros Hc x. rewrite <- !lookup_fmap. f_equal.
  destruct Hc as [y n Hy Hid Hst|y n refs t1 t2 Hy Hid Hrun Hout Hfin]; [done|].
  apply finished_same_exec in Hfin as (_ & _ & ->).
  assert (∀ n', ne_id n' = ne_id n → ne_id <$> <[y := n']> (tx_rows t) = ne_id <$> tx_rows t) as Hins.
  { intros n' Hn'. rewrite fmap_insert, Hn'. apply insert_id. by rewrite lookup_fmap, Hy. }
  destruct Hout as [seeds rows' refs Hs Hseeds rows1 cs Hd Hr|Hs Hlt|k Hs Hge].
  - assert (refs_to (ne_id <$> tx_rows t) rows1) as Hrefs.
    { unfold refs_to. unfold rows1. by rewrite Hins. }
    symmetry. simpl. exact (downstream_refs_to _ _ _ _ _ _ _ Hrefs Hd).
  - simpl. by rewrite Hins.
  - unfold dead_lettered_tx. case_decide; simpl; by rewrite Hins.
Qed.

(** ** Updating one row *)

Lemma db_wf_update_node d d' id n n' :
  db_wf d → db_nodes d !! id = Some n → same_node n n' →
  db_nodes d' = <[id := n']> (db_nodes d) → db_executions d' = db_executions d →
  db_versions d' = db_versions d → db_workflows d' = db_workflows d →
  (∀ k j, db_dlq d' !! k = Some j → ∃ j0, db_dlq d !! k = Some j0 ∧
     dl_node_execution_id j = dl_node_execution_id j0 ∧ dl_execution_id j = dl_execution_id j0) →
  db_wf d'.
Proof.
  intros Hwf Hn (Hid & He & Hx & _) En Ee Ev Ew Ed.
  assert (∀ i m, db_nodes d' !! i = Some m → ∃ m0, db_nodes d !! i = Some m0 ∧
            ne_id m = ne_id m0 ∧ ne_execution_id m = ne_execution_id m0 ∧
            ne_node_id m = ne_node_id m0) as Hback.
  { intros i m. rewrite En, lookup_insert. case_decide; [|eauto]. intros [= <-]. subst. eauto. }
  split.
  - intros i m (m0 & Hm & -> & _)%Hback. by apply (dw_node_key _ Hwf).
  - rewrite Ee. apply (dw_exec_key _ Hwf).
  - rewrite Ev. apply (dw_version_key _ Hwf).
  - rewrite Ew. apply (dw_workflow_key _ Hwf).
  - intros i j m1 m2 (k1 & H1 & _ & E1 & X1)%Hback (k2 & H2 & _ & E2 & X2)%Hback Hme Hmx.
    eapply (dw_node_unique _ Hwf); [exact H1|exact H2|congruence|congruence].
  - intros i m (m0 & Hm & _ & -> & _)%Hback. rewrite Ee. by eapply (dw_node_exec _ Hwf).
  - rewrite Ee, Ev, Ew. apply (dw_exec_version _ Hwf).
  - intros k j (j0 & Hj & -> & ->)%Ed. destruct (dw_dlq _ Hwf _ _ Hj) as (m & Hm & Hme).
    rewrite En. setoid_rewrite lookup_insert. case_decide; [|eauto].
    subst. exists n'. split; [done|]. congruence.
Qed.

Lemma rows_of_update_node d d' id n n' eid :
  db_wf d → db_wf d' → db_nodes d !! id = Some n → same_node n n' →
  db_nodes d' = <[id := n']> (db_nodes d) →
  rows_of d' eid = if decide (ne_execution_id n = eid)
                   then <[ne_node_id n := n']> (rows_of d eid) else rows_of d eid.
Proof.
  intros Hwf Hwf' Hn (Hid & He & Hx & _) En.
  pose proof (dw_node_key _ Hwf _ _ Hn) as Hkey.
  apply map_eq. intros x. apply option_eq. intros m. rewrite rows_of_lookup, En by done.
  rewrite lookup_insert. destruct (decide (ne_execution_id n = eid)) as [Heq|Hne].
  - rewrite lookup_insert. destruct (decide (ne_node_id n = x)) as [Hxx|Hxx].
    + split.
      * intros (Hm & Hme & Hmx). case_decide as Hi; [done|]. exfalso. apply Hi.
        eapply (dw_node_unique _ Hwf); [exact Hn|exact Hm|congruence|congruence].
      * intros [= <-]. rewrite decide_True by congruence. split_and!; congruence.
    + rewrite rows_of_lookup by done. case_decide as Hi; [|done]. split.
      * intros ([= <-] & _ & <-). congruence.
      * intros (Hm & _ & <-). exfalso. rewrite <- Hi, Hn in Hm. congruence.
  - rewrite rows_of_lookup by done. case_decide as Hi; [|done]. split.
    + intros ([= <-] & Hme & _). congruence.
    + intros (Hm & Hme & _). exfalso. rewrite <- Hi, Hn in Hm. congruence.
Qed.

Lemma abs_update_node d d' id n n' eid :
  db_wf d → db_wf d' → db_nodes d !! id = Some n → same_node n n' →
  db_nodes d' = <[id := n']> (db_nodes d) → db_executions d' = db_executions d →
  abs d' eid =
    (fun s => if decide (ne_execution_id n = eid)
              then mkMState (m_exec s) (<[ne_node_id n := abs_node n']> (m_nodes s)) else s) <$> abs d eid.
Proof.
  intros Hwf Hwf' Hn Hs En Ee. unfold abs. rewrite Ee.
  destruct (db_executions d !! eid) as [e|]; [|done]. simpl.
  rewrite (rows_of_update_node d d' id n n') by done. case_decide; [|done].
  by rewrite abs_rows_insert.
Qed.
