(* ===== verification/Start.v ===== *)
(** * Starting an execution

    [start_create] builds the rows of a new execution: on success they are an initial
    state of the abstract machine for the version's definition. *)

From S2P Require Import Prelude Json PyStr Errors Models Registry DagValidator Events Monad Store.
From S2P Require Import LogHelpers StateTransition Tx Machine Publisher Runtime.
From S2P Require Import Downstream Complete Abstraction Engine.

(** ** Retry policies *)

(** The policy of a validated definition allows between 1 and 10 attempts. *)
Lemma resolve_retry_policy_bounds wf nd :
  definition_wf wf = true → nd ∈ wf_nodes wf →
  (1 ≤ max_attempts (resolve_retry_policy nd wf) ≤ 10)%Z.
Proof.
  unfold definition_wf, resolve_retry_policy. rewrite !andb_true_iff, forallb_forall.
  intros [[_ Hnodes] Hdef] Hnd. apply list_elem_of_In, Hnodes in Hnd.
  apply andb_true_iff in Hnd as [_ Hpol].
  assert (∀ p, retry_policy_wf p = true → (1 ≤ max_attempts p ≤ 10)%Z) as Hp.
  { intros p. unfold retry_policy_wf. rewrite !andb_true_iff, !Z.leb_le. lia. }
  destruct (node_retry_policy nd); [by apply Hp|].
  destruct (default_retry_policy wf); [by apply Hp|]. simpl. lia.
Qed.

Section start.
Context {Q : Type} `{QueuePublisher Q} {Net : Type}.
Context (registry : ExecutorRegistry Net).
Implicit Types (w : World Q) (t : Tx).

(** ** Fresh identifiers *)

(** The supply of [uuid4] is ahead of every identifier in use. *)
Definition fresh_ids w : Prop :=
  (∀ id, (w_next_uuid w ≤ id)%N → db_nodes (w_db w) !! id = None) ∧
  (∀ id, (w_next_uuid w ≤ id)%N → db_executions (w_db w) !! id = None).

(** ** Inserting rows *)

Lemma wp_insert_execution e w (Φ : () → World Q → Prop) Ψ :
  db_wf (w_db w) → db_executions (w_db w) !! ex_id e = None →
  (∀ w', in_tx (ex_id e) (mkTx (w_now w) ∅ e e (db_dlq (w_db w))) w' → tx_frame (ex_id e) w w' →
     w_next_uuid w' = w_next_uuid w → db_nodes (w_db w') = db_nodes (w_db w) → Φ tt w') →
  wp (insert_execution e) Φ Ψ w.
Proof.
  intros Hwf Hno HΦ. eapply wp_run; [reflexivity|]. apply HΦ; [| |done|done].
  - split; simpl; try done.
    + intros id n Hn He. destruct (dw_node_exec _ Hwf _ _ Hn) as [x Hx]. congruence.
    + by rewrite lookup_insert_eq.
    + by rewrite lookup_insert_eq.
  - split; simpl; try done; try (exists []; by rewrite app_nil_r).
    + intros x Hx. by rewrite lookup_insert_ne.
    + intros id. destruct (db_nodes (w_db w) !! id); simpl; [reflexivity|done].
Qed.

(** The row of a node that has not started. *)
Definition new_node (id eid : uuid) (wf : WorkflowDefinition) (nd : Node) : NodeExecution :=
  mkNodeExecution id eid (node_id nd) (node_type nd) NPENDING 0
    (max_attempts (resolve_retry_policy nd wf)) None None None None None None None None None.

Lemma wp_create_node eid wf nd t w (Φ : NodeExecution → World Q → Prop) Ψ :
  in_tx eid t w → tx_rows t !! node_id nd = None → db_nodes (w_db w) !! w_next_uuid w = None →
  (∀ w', let n := new_node (w_next_uuid w) eid wf nd in
     in_tx eid (tx_set_rows (<[node_id nd := n]>) t) w' → tx_frame eid w w' →
     w_next_uuid w' = N.succ (w_next_uuid w) →
     db_nodes (w_db w') = <[w_next_uuid w := n]> (db_nodes (w_db w)) → Φ n w') →
  wp (create_node_execution eid wf nd) Φ Ψ w.
Proof.
  intros Ht Hrow Hno HΦ. eapply wp_run.
  { unfold create_node_execution, uuid4, insert_node. rewrite run_bind. cbv zeta.
    rewrite run_bind. reflexivity. }
  apply HΦ; [| |done|done].
  - destruct Ht as [Hnow Hrows Hcover Hexec Hobj Hdlq]. split; simpl; try done.
    + intros x n. rewrite lookup_insert. case_decide as Hx.
      * intros [= <-]. subst. by rewrite !lookup_insert_eq.
      * intros Hn. apply Hrows in Hn as (Hdb & Hs & ? & ?).
        rewrite !lookup_insert_ne; [done|congruence..].
    + intros id n. rewrite lookup_insert. case_decide as Hid.
      * intros [= <-] _. subst. by rewrite lookup_insert_eq.
      * intros Hn He. destruct (Hcover id n Hn He) as [Hk Hr]. split; [done|].
        rewrite lookup_insert_ne; [done|]. intros Hc. rewrite <- Hc in Hr. congruence.
  - split; simpl; try done; try lia; try (exists []; by rewrite app_nil_r).
    intros id. rewrite lookup_insert. case_decide as Hid.
    + subst. by rewrite Hno.
    + destruct (db_nodes (w_db w) !! id); simpl; [reflexivity|done].
Qed.

(** The loop over [definition.nodes]. *)
Definition created_rows (eid : uuid) (wf : WorkflowDefinition) (nodes : list Node)
    (l : list NodeExecution) : Prop :=
  Forall2 (fun nd n => n = new_node (ne_id n) eid wf nd) nodes l.

Definition rows_of_list (l : list NodeExecution) : gmap string NodeExecution :=
  list_to_map ((fun n => (ne_node_id n, n)) <$> l).

Lemma created_rows_ids eid wf nodes l :
  created_rows eid wf nodes l → ne_node_id <$> l = node_id <$> nodes.
Proof. induction 1 as [|nd n nodes l Hn _ IH]; [done|].
  rewrite !fmap_cons, IH. f_equal. by rewrite Hn.
Qed.

Lemma wp_create_nodes eid wf nodes t w (Φ : list NodeExecution → World Q → Prop) Ψ :
  in_tx eid t w → tx_rows t = ∅ → NoDup (node_id <$> nodes) →
  (∀ id, (w_next_uuid w ≤ id)%N → db_nodes (w_db w) !! id = None) →
  (∀ l w', created_rows eid wf nodes l →
     in_tx eid (tx_set_rows (fun _ => rows_of_list l) t) w' → tx_frame eid w w' →
     (∀ id, (w_next_uuid w' ≤ id)%N → db_nodes (w_db w') !! id = None) → Φ l w') →
  wp (for_collect (create_node_execution eid wf) nodes) Φ Ψ w.
Proof.
  intros Ht Hempty Hnd Hfresh HΦ.
  set (I := fun dn l w' => created_rows eid wf dn l ∧
    in_tx eid (tx_set_rows (fun _ => rows_of_list l) t) w' ∧ tx_frame eid w w' ∧
    (∀ id, (w_next_uuid w' ≤ id)%N → db_nodes (w_db w') !! id = None)).
  eapply wp_mono; [apply (wp_for_collect _ nodes I Ψ w)| |done].
  - split_and!; [by constructor| |apply tx_frame_refl|done].
    destruct t; simpl in *; by subst.
  - intros dn l nd rest w1 Hnodes (Hl & Ht1 & Hf1 & Hfr).
    assert (node_id nd ∉ ne_node_id <$> l) as Hnew.
    { rewrite (created_rows_ids _ _ _ _ Hl). rewrite Hnodes, fmap_app in Hnd.
      apply NoDup_app in Hnd as (_ & Hdis & _). intros Hin. apply (Hdis _ Hin). simpl. by left. }
    eapply wp_create_node; [exact Ht1| |by apply Hfr|].
    + simpl. apply not_elem_of_list_to_map_1. by rewrite <- list_fmap_compose.
    + intros w2 n Ht2 Hf2 Hnext Hdb. split_and!.
      * apply Forall2_app; [done|]. by constructor.
      * assert (rows_of_list (l ++ [n]) = <[node_id nd := n]> (rows_of_list l)) as ->; [|exact Ht2].
        unfold rows_of_list. rewrite fmap_app. simpl.
        rewrite list_to_map_snoc; [done|]. by rewrite <- list_fmap_compose.
      * by etrans.
      * intros id Hid. rewrite Hdb, lookup_insert_ne by lia. apply Hfr. lia.
  - intros l w1 (Hl & Ht1 & Hf1 & Hfr). by apply HΦ.
Qed.

(** ** Queueing the roots *)

Definition roots_queued (now : datetime) (roots : list string)
    (rows rows' : gmap string NodeExecution) : Prop :=
  ∀ x, rows' !! x = (fun n => if decide (x ∈ roots) then entered now NQUEUED n else n) <$> rows !! x.

Lemma wp_queue_roots eid t w rows0 names refs (Φ : () → World Q → Prop) Ψ :
  in_tx eid t w → tx_rows t = rows0 → NoDup names →
  Forall2 (fun x id => ∃ n, rows0 !! x = Some n ∧ ne_id n = id ∧ ne_status n = NPENDING) names refs →
  (∀ w' rows', roots_queued (tx_now t) names rows0 rows' →
     in_tx eid (tx_set_rows (fun _ => rows') t) w' → tx_frame eid w w' → Φ tt w') →
  wp (for_each (fun n => transition_node_status n NPENDING NQUEUED ≫= fun _ => mret ()) refs) Φ Ψ w.
Proof.
  intros Ht Hrows Hnd Hall.
  assert (∀ dn todo refs t w, in_tx eid t w → NoDup (dn ++ todo) →
    roots_queued (tx_now t) dn rows0 (tx_rows t) →
    Forall2 (fun x id => ∃ n, rows0 !! x = Some n ∧ ne_id n = id ∧ ne_status n = NPENDING) todo refs →
    ∀ Φ : () → World Q → Prop,
    (∀ w' rows', roots_queued (tx_now t) (dn ++ todo) rows0 rows' →
       in_tx eid (tx_set_rows (fun _ => rows') t) w' → tx_frame eid w w' → Φ tt w') →
    wp (for_each (fun n => transition_node_status n NPENDING NQUEUED ≫= fun _ => mret ()) refs) Φ Ψ w)
    as Hgen.
  { clear t w Ht Hrows Hnd Hall names refs Φ. intros dn todo refs t w Ht Hnd Hq Hall.
    revert dn t w Ht Hnd Hq. induction Hall as [|x id todo refs (n & Hn & Hid & Hst) Hall IH];
      intros dn t w Ht Hnd Hq Φ HΦ; simpl.
    - apply wp_ret. apply (HΦ w (tx_rows t)); [by rewrite app_nil_r|by destruct t|apply tx_frame_refl].
    - assert (x ∉ dn) as Hx.
      { apply NoDup_app in Hnd as (_ & Hdis & _). intros Hin. apply (Hdis _ Hin). by left. }
      assert (tx_rows t !! x = Some n) as Hrow by (rewrite Hq, Hn; simpl; by rewrite decide_False).
      apply wp_bind, wp_bind. subst id.
      eapply wp_transition_node; [exact Ht|exact Hrow|done|]. intros w1 Ht1 Hf1. apply wp_ret.
      eapply (IH (dn ++ [x])); [exact Ht1|by rewrite <- app_assoc| |].
      + intros y. simpl. rewrite lookup_insert. case_decide as Hxy.
        * subst. rewrite Hn. simpl. rewrite decide_True by set_solver. done.
        * rewrite Hq. destruct (rows0 !! y); [|done]. simpl. f_equal.
          destruct (decide (y ∈ dn)), (decide (y ∈ dn ++ [x])); try done; set_solver.
      + intros w2 rows' Hq2 Ht2 Hf2. rewrite <- app_assoc in Hq2.
        apply (HΦ w2 rows'); [exact Hq2|exact Ht2|by etrans]. }
  intros HΦ. apply (Hgen [] names refs t w); [done|done| |done|done].
  intros x. rewrite Hrows. destruct (rows0 !! x) as [n|]; [|done]. symmetry. apply fmap_Some.
  exists n. split; [done|]. rewrite decide_False; [done|apply not_elem_of_nil].
Qed.

(** ** [start_create] *)

(** The abstraction of the new rows is an initial state of the machine. *)
Lemma created_initial wf eid now r l rows' e :
  definition_wf wf = true → validate_workflow wf registry = Ok r →
  created_rows eid wf (wf_nodes wf) l →
  roots_queued now (filter (fun x => x ∈ root_nodes r) (ne_node_id <$> l)) (rows_of_list l) rows' →
  ex_status e = ERUNNING →
  m_initial wf (mkMState (ex_status e) (abs_rows rows')).
Proof.
  intros Hdef Hv Hl Hq He. pose proof (validate_workflow_Ok registry wf r Hv) as
    (_ & _ & _ & _ & _ & Hroots).
  pose proof (validate_workflow_Ok_wf registry wf r Hv) as [Hnd _ _].
  assert (NoDup (ne_node_id <$> l)) as Hndl by (by rewrite (created_rows_ids _ _ _ _ Hl)).
  assert (∀ x n, rows_of_list l !! x = Some n → n ∈ l ∧ ne_node_id n = x ∧ x ∈ node_ids wf ∧
            ∃ nd, nd ∈ wf_nodes wf ∧ n = new_node (ne_id n) eid wf nd) as Hrow.
  { intros x n Hn. apply elem_of_list_to_map_2 in Hn.
    apply list_elem_of_fmap in Hn as (m & [= -> ->] & Hin). split_and!; [done|done| |].
    - unfold node_ids. rewrite <- (created_rows_ids _ _ _ _ Hl). apply list_elem_of_fmap. eauto.
    - apply list_elem_of_lookup in Hin as [i Hi].
      destruct (Forall2_lookup_r _ _ _ _ _ Hl Hi) as (nd & Hnd' & Hn'). exists nd.
      split; [by eapply list_elem_of_lookup_2|done]. }
  split_and!; [done| |].
  - intros x. simpl. unfold abs_rows. rewrite lookup_fmap, fmap_is_Some, Hq, fmap_is_Some.
    split; [intros [n Hn]; by apply Hrow in Hn as (_ & _ & ? & _)|]. intros Hx.
    unfold node_ids in Hx. rewrite <- (created_rows_ids _ _ _ _ Hl) in Hx.
    apply list_elem_of_fmap in Hx as (n & -> & Hin). exists n. apply elem_of_list_to_map.
    + by rewrite <- list_fmap_compose.
    + apply list_elem_of_fmap. eauto.
  - intros x a. simpl. unfold abs_rows. rewrite lookup_fmap, Hq.
    destruct (rows_of_list l !! x) as [n|] eqn:Hn; [|done]. simpl. intros [= <-].
    apply Hrow in Hn as (Hin & Hx & Hids & nd & Hndin & Hn).
    pose proof (resolve_retry_policy_bounds wf nd Hdef Hndin) as Hmax.
    assert (x ∈ filter (fun x => x ∈ root_nodes r) (ne_node_id <$> l) ↔ ∀ a, ¬ wf_edge wf a x) as Hiff.
    { rewrite list_elem_of_filter, Hroots, (created_rows_ids _ _ _ _ Hl). fold (node_ids wf). tauto. }
    case_decide as Hd.
    + split; [rewrite Hn; exact Hmax|]. left. split; [by apply Hiff|]. by rewrite Hn.
    + split; [rewrite Hn; exact Hmax|]. right. split; [|by rewrite Hn].
      destruct (parents_of wf x) as [|a ps] eqn:Hps.
      * exfalso. apply Hd, Hiff. intros a Ha%elem_of_parents. rewrite Hps in Ha.
        by apply not_elem_of_nil in Ha.
      * exists a. apply elem_of_parents. rewrite Hps. by left.
Qed.

(** What a successful [start_create] leaves, before its commit. *)
Record started (w : World Q) (version : WorkflowVersion) (workflow : Workflow)
    (r : ValidationResult) (command : StartExecutionCommand) (refs : list uuid) (t : Tx)
    (w1 : World Q) : Prop := {
  sd_tx : in_tx (w_next_uuid w) t w1;
  sd_frame : tx_frame (w_next_uuid w) w w1;
  sd_initial : m_initial (wv_definition version) (abs_tx t);
  sd_exec : tx_exec t = mkExecution (w_next_uuid w) (w_id workflow) (wv_id version) ERUNNING
    (Some (w_now w)) None None (Some (cmd_input_payload command)) None;
  sd_dlq : tx_dlq t = db_dlq (w_db w);
  sd_fresh : fresh_ids w1;
  sd_refs : Forall2 (fun x id => ∃ n, tx_rows t !! x = Some n ∧ ne_id n = id ∧ ne_status n = NQUEUED)
    (filter (fun x => x ∈ root_nodes r) (node_ids (wv_definition version))) refs
}.

Lemma rows_of_list_lookup l n :
  NoDup (ne_node_id <$> l) → n ∈ l → rows_of_list l !! ne_node_id n = Some n.
Proof.
  intros Hnd Hn. apply elem_of_list_to_map; [by rewrite <- list_fmap_compose|].
  apply list_elem_of_fmap. eauto.
Qed.

(** The rows of the roots, before and after they are queued. *)
Lemma roots_pending eid wf nodes l (roots : list NodeExecution) :
  created_rows eid wf nodes l → NoDup (ne_node_id <$> l) → (∀ n, n ∈ roots → n ∈ l) →
  Forall2 (fun x id => ∃ n, rows_of_list l !! x = Some n ∧ ne_id n = id ∧ ne_status n = NPENDING)
    (ne_node_id <$> roots) (ne_id <$> roots).
Proof.
  intros Hl Hnd Hsub. apply Forall2_fmap, Forall_Forall2_diag, Forall_forall. intros n Hn%Hsub. exists n.
  split_and!; [by apply rows_of_list_lookup|done|]. apply list_elem_of_lookup in Hn as [i Hi].
  by destruct (Forall2_lookup_r _ _ _ _ _ Hl Hi) as (nd & _ & ->).
Qed.

Lemma roots_are_queued now l (roots : list NodeExecution) rows' :
  NoDup (ne_node_id <$> l) → (∀ n, n ∈ roots → n ∈ l) →
  roots_queued now (ne_node_id <$> roots) (rows_of_list l) rows' →
  Forall2 (fun x id => ∃ n, rows' !! x = Some n ∧ ne_id n = id ∧ ne_status n = NQUEUED)
    (ne_node_id <$> roots) (ne_id <$> roots).
Proof.
  intros Hnd Hsub Hq. apply Forall2_fmap, Forall_Forall2_diag, Forall_forall. intros n Hn.
  exists (entered now NQUEUED n). split_and!; [|done|done]. rewrite Hq, rows_of_list_lookup by auto.
  simpl. rewrite decide_True; [done|]. apply list_elem_of_fmap. eauto.
Qed.

(** Queueing roots takes no identifier. *)
Lemma queued_fresh eid t w w' l now roots rows' :
  in_tx eid (tx_set_rows (fun _ => rows_of_list l) t) w →
  (∀ id, (w_next_uuid w ≤ id)%N → db_nodes (w_db w) !! id = None) →
  roots_queued now roots (rows_of_list l) rows' → tx_frame eid w w' → ∀ t',
  in_tx eid (tx_set_rows (fun _ => rows') t') w' →
  ∀ id, (w_next_uuid w' ≤ id)%N → db_nodes (w_db w') !! id = None.
Proof.
  intros Ht Hfr Hq Hf t' Ht' id Hid. assert (db_nodes (w_db w) !! id = None) as Hnone.
  { apply Hfr. pose proof (tf_next _ _ _ Hf). lia. }
  destruct (db_nodes (w_db w') !! id) as [n|] eqn:Hn; [|done]. exfalso.
  destruct (decide (ne_execution_id n = eid)) as [He|He].
  - destruct (it_cover _ _ _ Ht' _ _ Hn He) as [Hk Hrow]. simpl in Hrow. rewrite Hq in Hrow.
    apply fmap_Some in Hrow as (m & Hm & Hnm). apply (it_rows _ _ _ Ht) in Hm as (Hdb & _).
    assert (ne_id n = ne_id m) as Hid' by (rewrite Hnm; by case_decide). congruence.
  - apply (tx_frame_other _ _ _ _ _ Hf He) in Hn. congruence.
Qed.

Lemma version_with_workflow_version d id version workflow :
  version_with_workflow d id = Some (version, workflow) → db_versions d !! id = Some version.
Proof.
  unfold version_with_workflow. destruct (db_versions d !! id) as [v|]; [|done]. simpl.
  destruct (db_workflows d !! _); [|done]. simpl. congruence.
Qed.

Lemma wp_start_create command owner w (Φ : uuid * uuid * list uuid → World Q → Prop)
    (Ψ : exc → World Q → Prop) :
  db_wf (w_db w) → fresh_ids w →
  (∀ v, db_versions (w_db w) !! cmd_workflow_version_id command = Some v →
        definition_wf (wv_definition v) = true) →
  (∀ version workflow r refs t w1,
     version_with_workflow (w_db w) (cmd_workflow_version_id command) = Some (version, workflow) →
     w_owner_api_key_id workflow = owner →
     validate_workflow (wv_definition version) registry = Ok r →
     started w version workflow r command refs t w1 →
     Φ (w_next_uuid w, wv_id version, refs) (w_commit w1)) →
  (∀ e,
     match version_with_workflow (w_db w) (cmd_workflow_version_id command) with
     | None => e = EApp (app_error_status "Workflow version not found" "not_found" 404)
     | Some (version, workflow) =>
         if decide (w_owner_api_key_id workflow = owner)
         then validate_workflow (wv_definition version) registry = Err e
         else e = EApp (app_error_status "Unauthorized access to workflow" "unauthorized" 403)
     end → Ψ e w) →
  wp (start_create registry command owner) Φ Ψ w.
Proof.
  intros Hwf [Hfn Hfe] Hdefs HΦ HΨ. unfold start_create. apply wp_bind, wp_gets.
  destruct (version_with_workflow _ _) as [[version workflow]|] eqn:Hvw;
    [|apply wp_raise; by apply HΨ].
  destruct (N.eqb_spec (w_owner_api_key_id workflow) owner) as [Hown|Hown].
  2:{ apply wp_raise, HΨ. by rewrite decide_False. }
  apply wp_bind, wp_lift.
  destruct (validate_workflow (wv_definition version) registry) as [r|e] eqn:Hv.
  2:{ apply HΨ. by rewrite decide_True. }
  set (wf := wv_definition version) in *. set (eid := w_next_uuid w).
  assert (definition_wf wf = true) as Hdef by (by eapply Hdefs, version_with_workflow_version).
  apply wp_bind. eapply (wp_run _ _ _ _ eid (w_bump w)); [reflexivity|].
  apply wp_bind. eapply wp_insert_execution; [exact Hwf|by apply Hfe|].
  cbn [ex_id w_bump w_db w_now]. intros w1 Ht1 Hf1 Hnext1 Hn1.
  assert (tx_frame eid w w1) as Hf1'.
  { etrans; [|exact Hf1]. split; simpl; try done; try lia; try (exists []; by rewrite app_nil_r).
    intros id. destruct (db_nodes (w_db w) !! id); simpl; [reflexivity|done]. }
  pose proof (validate_workflow_Ok_wf registry wf r Hv) as [Hnd _ _].
  apply wp_bind. eapply (wp_create_nodes eid wf); [exact Ht1|done|exact Hnd| |].
  { intros id Hid. rewrite Hn1. apply Hfn. rewrite Hnext1 in Hid. simpl in Hid. lia. }
  intros l w2 Hl Ht2 Hf2 Hfr2.
  apply wp_bind. eapply (wp_add_log _ _ _ None); [exact Ht2|done|]. intros w3 Ht3 Hf3.
  apply wp_bind. eapply wp_transition_execution; [exact Ht3|done|]. intros w4 x Ht4 Hf4.
  apply wp_bind.
  set (roots := filter (fun ne => ne_node_id ne ∈ root_nodes r) l).
  assert (NoDup (ne_node_id <$> l)) as Hndl by (by rewrite (created_rows_ids _ _ _ _ Hl)).
  assert (∀ n, n ∈ roots → n ∈ l) as Hsub by (by intros n [_ Hn]%list_elem_of_filter).
  assert (ne_node_id <$> roots = filter (fun x => x ∈ root_nodes r) (ne_node_id <$> l)) as Hnames.
  { unfold roots. by rewrite list_filter_fmap. }
  eapply (wp_queue_roots eid _ _ (rows_of_list l) (ne_node_id <$> roots)); [exact Ht4|done| | |].
  { rewrite Hnames. by apply NoDup_filter. }
  { by eapply roots_pending. }
  intros w5 rows' Hq Ht5 Hf5. apply wp_bind, wp_modify, wp_ret.
  assert (tx_frame eid w2 w5) as Hf25 by (do 2 (etrans; [eassumption|]); exact Hf5).
  assert (tx_frame eid w w5) as Hf by (do 2 (etrans; [eassumption|]); exact Hf25).
  eapply (HΦ version workflow r (ne_id <$> roots) _ w5); [done|done|done|].
  split; [exact Ht5|exact Hf| |reflexivity|reflexivity| |].
  - unfold abs_tx. rewrite Hnames in Hq. eapply created_initial; [done|exact Hv|exact Hl|exact Hq|done].
  - split; [exact (queued_fresh _ _ _ _ _ _ _ _ Ht2 Hfr2 Hq Hf25 _ Ht5)|]. intros id Hid. pose proof (tf_next _ _ _ Hf2).
    pose proof (tf_next _ _ _ Hf25). rewrite Hnext1 in *. simpl in *.
    rewrite (tf_execs _ _ _ Hf) by lia. apply Hfe. lia.
  - change (node_ids (wv_definition version)) with (node_id <$> wf_nodes wf).
    rewrite <- (created_rows_ids _ _ _ _ Hl), <- Hnames. by eapply roots_are_queued.
Qed.

End start.
