(* ===== verification/Steps.v ===== *)
(** * The other stretches: claim, load, recover, retry, delete, publish

    What each stretch between two commits does to the tables. The hypotheses are those
    of a session whose objects agree with the rows. *)

From S2P Require Import Prelude Json PyStr Errors Models Registry DagValidator Events Monad Store.
From S2P Require Import LogHelpers StateTransition Tx Machine Publisher Runtime.
From S2P Require Import Downstream Complete Engine Dlq Recovery Abstraction.

Section steps.
Context {Q : Type} `{QueuePublisher Q}.
Implicit Types (w : World Q).

(** ** Events *)

(** Nothing but the channel and the staged events changed. *)
Record quiet w w' : Prop := {
  qu_db : w_db w' = w_db w;
  qu_committed : w_committed w' = w_committed w;
  qu_nodes : s_nodes (w_session w') = s_nodes (w_session w);
  qu_execs : s_execs (w_session w') = s_execs (w_session w);
  qu_queue : w_queue w' = w_queue w;
  qu_redis : w_redis_up w' = w_redis_up w;
  qu_now : w_now w' = w_now w;
  qu_next : w_next_uuid w' = w_next_uuid w
}.

#[export] Instance quiet_preorder : PreOrder quiet.
Proof. split; [by split|]. intros w1 w2 w3 [] []. split; congruence. Qed.

(** The messages [broadcast_envelopes] sends. *)
Definition sent (l : list Envelope) : list (string * Envelope) :=
  omap (fun e => (fun id => (id, e)) <$> env_execution_id e) l.

Lemma run_broadcast_envelopes l w :
  ∃ w', broadcast_envelopes l w = (Ok tt, w') ∧ quiet w w' ∧
    s_events (w_session w') = s_events (w_session w) ∧
    w_channel w' = w_channel w ++ (if w_redis_up w then sent l else []).
Proof.
  revert w. induction l as [|e l IH]; intros w.
  { exists w. split_and!; [done|done|done|]. destruct (w_redis_up w); by rewrite app_nil_r. }
  assert (∃ w1, broadcast_envelope e w = (Ok tt, w1) ∧ quiet w w1 ∧
    s_events (w_session w1) = s_events (w_session w) ∧
    w_channel w1 = w_channel w ++ (if w_redis_up w then sent [e] else [])) as (w1 & Hr & Hq1 & He1 & Hc1).
  { unfold broadcast_envelope, safe_broadcast, sent. simpl.
    destruct (env_execution_id e), (w_redis_up w) eqn:Hup; simpl;
      eexists; (split_and!; [reflexivity|by split|done|by rewrite ?app_nil_r]). }
  destruct (IH w1) as (w2 & Hr2 & Hq2 & He2 & Hc2). exists w2. split_and!.
  - unfold broadcast_envelopes in *. simpl. by rewrite (run_bind_Ok _ _ _ _ _ Hr).
  - by etrans.
  - congruence.
  - rewrite Hc2, Hc1, (qu_redis _ _ Hq1), <- app_assoc. f_equal.
    destruct (w_redis_up w); [|done]. unfold sent. by rewrite <- omap_app.
Qed.

Lemma run_flush_events w :
  ∃ w', flush_events w = (Ok tt, w') ∧ quiet w w' ∧ s_events (w_session w') = [] ∧
    w_channel w' = w_channel w ++ (if w_redis_up w then sent (s_events (w_session w)) else []).
Proof.
  unfold flush_events. rewrite run_bind. cbn [gets]. rewrite run_bind. unfold modify.
  destruct (run_broadcast_envelopes (s_events (w_session w))
    (w_set_session (s_set_events (fun _ => [])) w)) as (w' & Hw' & Hq & He & Hc).
  exists w'. split_and!; [exact Hw'| |exact He|exact Hc].
  etrans; [|exact Hq]. by split.
Qed.

Lemma wp_flush_events w (Φ : () → World Q → Prop) Ψ :
  (∀ w', quiet w w' → s_events (w_session w') = [] → Φ tt w') → wp flush_events Φ Ψ w.
Proof.
  intros HΦ. destruct (run_flush_events w) as (w' & Hr & Hq & He & _).
  eapply wp_run; [exact Hr|]. by apply HΦ.
Qed.

(** ** One row *)

(** The objects of the session are the rows. *)
Definition synced w : Prop :=
  ∀ id n, s_nodes (w_session w) !! id = Some n → db_nodes (w_db w) !! id = Some n.

Lemma synced_get_node id w :
  synced w →
  wp (get_node id) (fun r w' =>
    r = db_nodes (w_db w) !! id ∧ w_db w' = w_db w ∧ w_committed w' = w_committed w ∧ synced w' ∧
    s_nodes (w_session w') !! id = db_nodes (w_db w) !! id ∧
    s_execs (w_session w') = s_execs (w_session w) ∧ w_queue w' = w_queue w ∧
    w_now w' = w_now w ∧ w_next_uuid w' = w_next_uuid w) no_error w.
Proof.
  intros Hs. unfold wp, get_node. destruct (s_nodes (w_session w) !! id) as [n|] eqn:Hn.
  - rewrite (Hs _ _ Hn). done.
  - destruct (db_nodes (w_db w) !! id) as [n|] eqn:Hdb; split_and!; try done; simpl.
    + intros i m. simpl. rewrite lookup_insert. case_decide; [by intros [= <-]; subst|apply Hs].
    + by rewrite lookup_insert_eq.
Qed.

(** What writing one row leaves: the row [id] is now [n'], logs and events aside. *)
Record wrote (id : uuid) (n' : NodeExecution) w w' : Prop := {
  wr_nodes : db_nodes (w_db w') = <[id := n']> (db_nodes (w_db w));
  wr_execs : db_executions (w_db w') = db_executions (w_db w);
  wr_versions : db_versions (w_db w') = db_versions (w_db w);
  wr_workflows : db_workflows (w_db w') = db_workflows (w_db w);
  wr_dlq : db_dlq (w_db w') = db_dlq (w_db w);
  wr_committed : w_committed w' = w_committed w;
  wr_object : s_nodes (w_session w') !! id = Some n';
  wr_s_execs : s_execs (w_session w') = s_execs (w_session w);
  wr_synced : synced w → synced w';
  wr_queue : w_queue w' = w_queue w;
  wr_now : w_now w' = w_now w;
  wr_next : (w_next_uuid w ≤ w_next_uuid w')%N
}.

Lemma wrote_alter id n f w :
  db_nodes (w_db w) !! id = Some n → s_nodes (w_session w) !! id = Some n →
  wrote id (f n) w (w_alter_node id f w).
Proof.
  intros Hdb Hs. split; simpl; try done.
  - apply map_eq. intros i. rewrite lookup_alter, lookup_insert. case_decide; [|done].
    subst. by rewrite Hdb.
  - by rewrite lookup_alter_eq, Hs.
  - intros Hsync i m. simpl. rewrite !lookup_alter. case_decide; [subst|apply Hsync].
    by rewrite Hdb, Hs.
Qed.

Lemma wrote_quiet id n' w w1 w2 : wrote id n' w w1 → quiet w1 w2 → wrote id n' w w2.
Proof.
  intros [] []. split; try congruence.
  - unfold synced in *. rewrite qu_nodes0, qu_db0. done.
Qed.

(** Loading objects before the write makes no difference. *)
Lemma wrote_after_load id n' w w1 w2 :
  wrote id n' w1 w2 → w_db w1 = w_db w → w_committed w1 = w_committed w → synced w1 →
  s_execs (w_session w1) = s_execs (w_session w) → w_queue w1 = w_queue w → w_now w1 = w_now w →
  w_next_uuid w1 = w_next_uuid w → wrote id n' w w2.
Proof.
  intros [] Hdb Hc Hs He Hq Hn Hx. rewrite Hdb, Hx in *. split; try done; try congruence.
  intros _. by apply wr_synced0.
Qed.

Lemma wp_transition_row id n from to w (Φ : NodeExecution → World Q → Prop) Ψ :
  db_nodes (w_db w) !! id = Some n → s_nodes (w_session w) !! id = Some n → ne_status n = from →
  (∀ w', wrote id (entered (w_now w) to n) w w' → Φ (entered (w_now w) to n) w') →
  wp (transition_node_status id from to) Φ Ψ w.
Proof.
  intros Hdb Hs Hst HΦ. eapply wp_run.
  { rewrite transition_node_eq, Hdb. unfold get_node. rewrite Hs. simpl.
    rewrite decide_True by done. reflexivity. }
  cbn [from_option]. apply HΦ.
  pose proof (wrote_alter id n (enter_node_status to (w_now w) (ne_attempt n)) w Hdb Hs) as [].
  split; done.
Qed.

(** A log row for an existing node, or for an execution alone. *)
Lemma wp_add_log_row id n n0 eid nid w0 w level event_type msg metadata (Φ : () → World Q → Prop) Ψ :
  wrote id n w0 w → log_refers (w_db w) eid nid = true → n0 = n →
  (∀ w', wrote id n w0 w' → Φ tt w') →
  wp (add_log eid nid level event_type msg metadata) Φ Ψ w.
Proof.
  intros Hw Hrefs -> HΦ. eapply wp_run.
  { unfold add_log, datetime_now, uuid4. rewrite run_bind. cbn [gets].
    rewrite run_bind, run_bind. cbn [gets]. change (w_db (w_bump w)) with (w_db w).
    rewrite Hrefs. reflexivity. }
  apply HΦ. destruct Hw. split; simpl; try done. lia.
Qed.

Lemma log_refers_true d eid id n :
  db_wf d → db_nodes d !! id = Some n → ne_execution_id n = eid →
  log_refers d eid (Some id) = true.
Proof.
  intros Hwf Hn <-. unfold log_refers. destruct (dw_node_exec _ Hwf _ _ Hn) as [e ->].
  rewrite Hn. by rewrite !bool_decide_eq_true_2.
Qed.

(** ** Claim *)

(** When a claim raises: the message does not parse, or another worker has the node. *)
Definition claim_refused (d : DB) (fs : fields) : Prop :=
  match deserialize_job_payload fs with
  | Err _ => True
  | Ok j => ∃ n, db_nodes d !! job_node_execution_id j = Some n ∧ ne_status n ≠ NQUEUED
  end.

Lemma wp_claim_job fs w (Φ : option uuid → World Q → Prop) (Ψ : exc → World Q → Prop) :
  db_wf (w_db w) → synced w →
  (∀ j w', deserialize_job_payload fs = Ok j →
     (∀ n, db_nodes (w_db w) !! job_node_execution_id j = Some n →
           ne_status n ∈ TERMINAL_NODE_STATUSES) →
     w_db w' = w_db w → w_committed w' = w_committed w → w_queue w' = w_queue w →
     w_next_uuid w' = w_next_uuid w → Φ None w') →
  (∀ e w', claim_refused (w_db w) fs → w_committed w' = w_committed w →
     w_next_uuid w' = w_next_uuid w → Ψ e w') →
  (∀ id n w', db_nodes (w_db w) !! id = Some n → ne_status n = NQUEUED →
     (∃ j, deserialize_job_payload fs = Ok j ∧ job_node_execution_id j = id) →
     (∃ w1, wrote id (entered (w_now w) NRUNNING n) w w1 ∧ quiet (w_commit w1) w') →
     Φ (Some id) w') →
  wp (claim_job fs) Φ Ψ w.
Proof.
  intros Hwf Hs Hnone Herr Hsome. unfold claim_job, claim_refused in *. apply wp_bind, wp_lift.
  destruct (deserialize_job_payload fs) as [j|e] eqn:Hj; [|by apply Herr].
  apply wp_bind, wp_total. eapply wp_mono; [by apply synced_get_node| |done].
  intros r w1 (-> & Hdb1 & Hc1 & Hs1 & Hobj1 & Hex1 & Hq1 & Hnow1 & Hnx1).
  set (id := job_node_execution_id j) in *.
  destruct (db_nodes (w_db w) !! id) as [n|] eqn:Hn;
    [|apply wp_ret, (Hnone j); try done; fold id; by rewrite Hn].
  case_decide as Hterm; [apply wp_ret, (Hnone j); try done; fold id; rewrite Hn; by intros ? [= <-]|].
  pose proof (dw_node_key _ Hwf _ _ Hn) as Hid. rewrite Hid.
  destruct (decide (ne_status n = NQUEUED)) as [Hst|Hst].
  2:{ apply wp_bind. eapply wp_run_err; [|apply Herr; [by exists n|exact Hc1|exact Hnx1]].
      rewrite transition_node_eq, Hdb1, Hn, Hobj1. cbn. rewrite decide_False by done.
      unfold get_node. by rewrite Hobj1. }
  apply wp_bind. eapply (wp_transition_row id n); [by rewrite Hdb1|done|done|].
  rewrite Hnow1. set (n' := entered (w_now w) NRUNNING n). intros w2 Hw2.
  assert (wrote id n' w w2) as Hw2'.
  { by eapply wrote_after_load. }
  assert (log_refers (w_db w2) (ne_execution_id n) (Some id) = true) as Hrefs.
  { unfold log_refers. rewrite (wr_execs _ _ _ _ Hw2'), (wr_nodes _ _ _ _ Hw2'), lookup_insert_eq.
    destruct (dw_node_exec _ Hwf _ _ Hn) as [x ->]. by rewrite !bool_decide_eq_true_2. }
  apply wp_bind. change (ne_id n') with (ne_id n). rewrite Hid.
  eapply wp_add_log_row; [exact Hw2'|exact Hrefs|done|]. intros w3 Hw3.
  apply wp_bind, wp_modify, wp_bind, wp_flush_events. intros w4 Hq4 _. apply wp_ret.
  eapply Hsome; [exact Hn|done|by exists j|]. by exists w3.
Qed.

(** ** Load *)

(** When the context of a node cannot be loaded. *)
Definition load_refused (d : DB) (n : NodeExecution) : Prop :=
  ∀ e v, db_executions d !! ne_execution_id n = Some e →
    db_versions d !! ex_workflow_version_id e = Some v →
    node_def_by_id (wv_definition v) !! ne_node_id n = None.

Lemma wp_load_job id n w (Φ : Loaded → World Q → Prop) (Ψ : exc → World Q → Prop) :
  s_nodes (w_session w) !! id = Some n → s_execs (w_session w) = ∅ →
  (∀ e w', load_refused (w_db w) n → w_db w' = w_db w → w_committed w' = w_committed w →
     w_next_uuid w' = w_next_uuid w → Ψ e w') →
  (∀ ld e v w', w_db w' = w_db w → w_committed w' = w_committed w → w_now w' = w_now w →
     w_queue w' = w_queue w → w_next_uuid w' = w_next_uuid w →
     db_executions (w_db w) !! ne_execution_id n = Some e →
     db_versions (w_db w) !! ex_workflow_version_id e = Some v →
     ld_execution ld = e → ld_definition ld = wv_definition v → ld_node ld = id →
     node_def_by_id (wv_definition v) !! ne_node_id n = Some (ld_node_def ld) →
     s_execs (w_session w') !! ne_execution_id n = Some e → Φ ld w') →
  wp (load_job id) Φ Ψ w.
Proof.
  intros Hn Hex Herr HΦ. unfold load_job. apply wp_bind.
  eapply (wp_run _ _ _ _ n w); [unfold node_object; by rewrite Hn|].
  apply wp_bind. unfold wp at 1, get_execution_object. rewrite Hex, lookup_empty.
  destruct (db_executions (w_db w) !! ne_execution_id n) as [e|] eqn:He;
    [|apply Herr; [intros e v; congruence|done..]].
  apply wp_bind, wp_gets. cbn [w_set_session w_db].
  destruct (db_versions (w_db w) !! ex_workflow_version_id e) as [v|] eqn:Hv;
    [|apply wp_raise, Herr; [intros e' v'; congruence|done..]].
  cbv zeta. destruct (node_def_by_id (wv_definition v) !! ne_node_id n) as [nd|] eqn:Hnd;
    [|apply wp_raise, Herr; [intros e' v'; congruence|done..]].
  apply wp_bind. unfold wp at 1, select_nodes.
  apply wp_ret. eapply HΦ; try done. simpl. by rewrite lookup_insert_eq.
Qed.

(** ** Tables that differ in nothing the machine sees *)

(** Only the message id, the payloads or the timestamps may differ. *)
Definition node_quiet (n n' : NodeExecution) : Prop :=
  same_node n n' ∧ ne_status n' = ne_status n ∧ ne_attempt n' = ne_attempt n.

#[export] Instance node_quiet_preorder : PreOrder node_quiet.
Proof.
  split; [by intros n|]. intros n1 n2 n3 (H1 & E1 & F1) (H2 & E2 & F2).
  split_and!; [by etrans|congruence|congruence].
Qed.

Record db_quiet (d d' : DB) : Prop := {
  dq_nodes id : option_relation node_quiet (fun _ => False) (fun _ => False)
                  (db_nodes d !! id) (db_nodes d' !! id);
  dq_execs : db_executions d' = db_executions d;
  dq_versions : db_versions d' = db_versions d;
  dq_workflows : db_workflows d' = db_workflows d;
  dq_dlq : db_dlq d' = db_dlq d
}.

Lemma db_quiet_refl d : db_quiet d d.
Proof. split; try done. intros id. destruct (db_nodes d !! id); simpl; [reflexivity|done]. Qed.

Lemma db_quiet_trans d1 d2 d3 : db_quiet d1 d2 → db_quiet d2 d3 → db_quiet d1 d3.
Proof.
  intros [A1 A2 A3 A4 A5] [B1 B2 B3 B4 B5]. split; try congruence.
  intros id. specialize (A1 id). specialize (B1 id).
  destruct (db_nodes d1 !! id), (db_nodes d2 !! id), (db_nodes d3 !! id); simpl in *; try done.
  by etrans.
Qed.

Lemma db_quiet_logs d d' :
  db_nodes d' = db_nodes d → db_executions d' = db_executions d → db_versions d' = db_versions d →
  db_workflows d' = db_workflows d → db_dlq d' = db_dlq d → db_quiet d d'.
Proof.
  intros Hn ????. split; try done. intros id. rewrite Hn.
  destruct (db_nodes d !! id); simpl; [reflexivity|done].
Qed.

Lemma db_quiet_lookup d d' id n' :
  db_quiet d d' → db_nodes d' !! id = Some n' → ∃ n, db_nodes d !! id = Some n ∧ node_quiet n n'.
Proof.
  intros Hq Hn. pose proof (dq_nodes _ _ Hq id) as Hid. rewrite Hn in Hid.
  destruct (db_nodes d !! id) as [n|]; [|done]. eauto.
Qed.

Lemma db_quiet_lookup_inv d d' id n :
  db_quiet d d' → db_nodes d !! id = Some n → ∃ n', db_nodes d' !! id = Some n' ∧ node_quiet n n'.
Proof.
  intros Hq Hn. pose proof (dq_nodes _ _ Hq id) as Hid. rewrite Hn in Hid.
  destruct (db_nodes d' !! id) as [n'|]; [|done]. eauto.
Qed.

Lemma db_quiet_wf d d' : db_wf d → db_quiet d d' → db_wf d'.
Proof.
  intros Hwf Hq. pose proof Hq as [_ Ee Ev Ew Ed]. split; rewrite ?Ee, ?Ev, ?Ew, ?Ed.
  - intros id n' Hn'. destruct (db_quiet_lookup _ _ _ _ Hq Hn') as (n & Hn & (-> & _) & _).
    by apply (dw_node_key _ Hwf).
  - apply (dw_exec_key _ Hwf).
  - apply (dw_version_key _ Hwf).
  - apply (dw_workflow_key _ Hwf).
  - intros i j n' m' Hn' Hm' He Hx.
    destruct (db_quiet_lookup _ _ _ _ Hq Hn') as (n & Hn & (_ & E1 & X1 & _) & _).
    destruct (db_quiet_lookup _ _ _ _ Hq Hm') as (m & Hm & (_ & E2 & X2 & _) & _).
    eapply (dw_node_unique _ Hwf); [exact Hn|exact Hm|congruence|congruence].
  - intros id n' Hn'. destruct (db_quiet_lookup _ _ _ _ Hq Hn') as (n & Hn & (_ & -> & _) & _).
    by eapply (dw_node_exec _ Hwf).
  - apply (dw_exec_version _ Hwf).
  - intros k j Hj. destruct (dw_dlq _ Hwf _ _ Hj) as (n & Hn & <-).
    destruct (db_quiet_lookup_inv _ _ _ _ Hq Hn) as (n' & Hn' & (_ & He & _) & _). by exists n'.
Qed.

Lemma db_quiet_abs d d' eid : db_wf d → db_quiet d d' → abs d' eid = abs d eid.
Proof.
  intros Hwf Hq. pose proof (db_quiet_wf _ _ Hwf Hq) as Hwf'. unfold abs.
  rewrite (dq_execs _ _ Hq). destruct (db_executions d !! eid) as [e|]; [|done]. simpl. do 2 f_equal.
  apply map_eq. intros x. unfold abs_rows. rewrite !lookup_fmap. apply option_eq. intros a.
  rewrite !fmap_Some. setoid_rewrite rows_of_lookup; [|done|done]. split.
  - intros (n' & (Hn' & He & Hx) & ->).
    destruct (db_quiet_lookup _ _ _ _ Hq Hn') as (n & Hn & (Hid & He' & Hx' & _ & Hm & _) & Hs & Ha).
    exists n. unfold abs_node. split_and!; congruence.
  - intros (n & (Hn & He & Hx) & ->).
    destruct (db_quiet_lookup_inv _ _ _ _ Hq Hn) as (n' & Hn' & (Hid & He' & Hx' & _ & Hm & _) & Hs & Ha).
    exists n'. unfold abs_node. split_and!; congruence.
Qed.

(** ** Publish *)

(** Publishing changes the queue and message ids. *)
Record pub_frame w w' : Prop := {
  pf_db : db_quiet (w_db w) (w_db w');
  pf_committed : w_committed w' = w_committed w;
  pf_next : w_next_uuid w' = w_next_uuid w
}.

Lemma wp_publish_node vid eid n w (Φ : () → World Q → Prop) (Ψ : exc → World Q → Prop) :
  (∀ r w', pub_frame w w' → Φ r w') → (∀ e w', pub_frame w w' → Ψ e w') →
  wp (publish_node vid eid n) Φ Ψ w.
Proof.
  intros HΦ HΨ. unfold publish_node. apply wp_bind. unfold wp at 1, node_object.
  destruct (s_nodes (w_session w) !! n) as [node|]; [|apply HΨ; split; [apply db_quiet_refl|done|done]].
  apply wp_bind. unfold wp at 1, publish.
  destruct (publish_node_execution _ (w_queue w)) as [[m|e] q].
  2:{ apply HΨ. split; [apply db_quiet_refl|done|done]. }
  destruct m as [m|]; [|apply wp_ret, HΦ; split; [apply db_quiet_refl|done|done]].
  destruct (String.eqb m ""); [apply wp_ret, HΦ; split; [apply db_quiet_refl|done|done]|].
  unfold wp, update_node. cbn [w_set_queue w_db].
  destruct (db_nodes (w_db w) !! n) as [row|] eqn:Hrow;
    [|apply HΨ; split; [apply db_quiet_refl|done|done]].
  apply HΦ. split; [|done|done]. split; simpl; try done. intros id.
  rewrite lookup_alter. case_decide as Hid; [subst; by rewrite Hrow|].
  destruct (db_nodes (w_db w) !! id); simpl; [reflexivity|done].
Qed.

Lemma wp_publish_nodes vid eid refs w (Φ : () → World Q → Prop) (Ψ : exc → World Q → Prop) :
  (∀ w1 w', pub_frame w w1 → quiet (w_commit w1) w' → Φ tt w') →
  (∀ e w', w_committed w' = w_committed w → (w_next_uuid w' = w_next_uuid w) → Ψ e w') →
  wp (publish_nodes vid eid refs) Φ Ψ w.
Proof.
  intros HΦ HΨ. unfold publish_nodes. apply wp_bind.
  eapply wp_mono; [apply (wp_for_each _ refs (fun _ w' => pub_frame w w')
    (fun _ w' => pub_frame w w') w)| |].
  - split; [apply db_quiet_refl|done|done].
  - intros n l w1 [H1 H2 H3]. apply wp_publish_node; intros ? w2 [H4 H5 H6];
      (split; [by eapply db_quiet_trans|congruence|congruence]).
  - intros [] w1 Hf. apply wp_bind, wp_modify, wp_flush_events. intros w2 Hq _. by eapply HΦ.
  - intros e w1 [H1 H2 H3]. by apply HΨ.
Qed.

(** ** Recover *)

(** Adding a log row: nothing else changes. *)
Lemma run_add_log eid nid level event_type msg metadata w :
  log_refers (w_db w) eid nid = true →
  ∃ w', add_log eid nid level event_type msg metadata w = (Ok tt, w') ∧
    db_quiet (w_db w) (w_db w') ∧ db_nodes (w_db w') = db_nodes (w_db w) ∧
    w_committed w' = w_committed w ∧ s_nodes (w_session w') = s_nodes (w_session w) ∧
    s_execs (w_session w') = s_execs (w_session w) ∧ w_now w' = w_now w ∧
    w_queue w' = w_queue w ∧ (w_next_uuid w ≤ w_next_uuid w')%N.
Proof.
  intros Hrefs. eexists. split.
  { unfold add_log, datetime_now, uuid4. rewrite run_bind. cbn [gets].
    rewrite run_bind, run_bind. cbn [gets]. change (w_db (w_bump w)) with (w_db w).
    rewrite Hrefs. reflexivity. }
  split_and!; try done; [by apply db_quiet_logs|simpl; lia].
Qed.

Lemma run_add_log_err eid nid level event_type msg metadata w :
  log_refers (w_db w) eid nid = false →
  add_log eid nid level event_type msg metadata w = (Err EIntegrityError, w_bump w).
Proof.
  intros Hrefs. unfold add_log, datetime_now, uuid4. rewrite run_bind. cbn [gets].
  rewrite run_bind, run_bind. cbn [gets]. change (w_db (w_bump w)) with (w_db w).
  by rewrite Hrefs.
Qed.

(** The row a recovery reverts. *)
Definition reverted (n n' : NodeExecution) : Prop :=
  ne_status n = NRUNNING ∧ n' = set_status NQUEUED n.

(** When a recovery raises: the message does not parse, or its log entry is refused. *)
Definition recover_refused (d : DB) (fs : fields) : Prop :=
  match deserialize_job_payload fs with
  | Err _ => True
  | Ok j => log_refers d (job_execution_id j) (Some (job_node_execution_id j)) = false
  end.

(** What a commit and the events after it keep. *)
Lemma quiet_commit w w' :
  quiet (w_commit w) w' →
  w_queue w' = w_queue w ∧ w_db w' = w_committed w' ∧ (synced w → synced w') ∧
  s_execs (w_session w') = s_execs (w_session w) ∧ w_next_uuid w' = w_next_uuid w.
Proof.
  intros Hq. split_and!.
  - apply (qu_queue _ _ Hq).
  - by rewrite (qu_db _ _ Hq), (qu_committed _ _ Hq).
  - unfold synced. rewrite (qu_nodes _ _ Hq), (qu_db _ _ Hq). done.
  - apply (qu_execs _ _ Hq).
  - apply (qu_next _ _ Hq).
Qed.

Lemma wp_recover_job fs mid prev me w (Φ : bool → World Q → Prop) (Ψ : exc → World Q → Prop) :
  db_wf (w_db w) → synced w → w_committed w = w_db w →
  (∀ e w', recover_refused (w_db w) fs → w_committed w' = w_committed w →
     (w_next_uuid w ≤ w_next_uuid w')%N → Ψ e w') →
  (∀ j w', deserialize_job_payload fs = Ok j →
     (∀ n, db_nodes (w_db w) !! job_node_execution_id j = Some n →
           ne_status n ∈ TERMINAL_NODE_STATUSES) →
     w_committed w' = w_committed w ∨ db_quiet (w_db w) (w_committed w') →
     w_queue w' = w_queue w → (w_next_uuid w ≤ w_next_uuid w')%N → Φ false w') →
  (∀ w' id n d1, (∃ j, deserialize_job_payload fs = Ok j ∧ job_node_execution_id j = id) →
     w_queue w' = w_queue w → w_db w' = w_committed w' → synced w' → s_execs (w_session w') = s_execs (w_session w) →
     (w_next_uuid w ≤ w_next_uuid w')%N →
     db_quiet (w_db w) d1 → db_nodes d1 = db_nodes (w_db w) → db_nodes (w_db w) !! id = Some n →
     ne_status n ∉ TERMINAL_NODE_STATUSES →
     (ne_status n ≠ NRUNNING ∧ db_quiet d1 (w_db w') ∨
      ne_status n = NRUNNING ∧ db_nodes (w_db w') = <[id := set_status NQUEUED n]> (db_nodes d1) ∧
      db_executions (w_db w') = db_executions d1 ∧ db_versions (w_db w') = db_versions d1 ∧
      db_workflows (w_db w') = db_workflows d1 ∧ db_dlq (w_db w') = db_dlq d1) →
     Φ true w') →
  wp (recover_job fs mid prev me) Φ Ψ w.
Proof.
  intros Hwf Hs Hc Herr Hfalse Htrue. unfold recover_job, recover_refused in *. apply wp_bind, wp_lift.
  destruct (deserialize_job_payload fs) as [j|e] eqn:Hj; [|apply Herr; [done|done|lia]].
  apply wp_bind, wp_total. eapply wp_mono; [by apply synced_get_node| |done].
  intros r w1 (-> & Hdb1 & Hc1 & Hs1 & Hobj1 & Hex1 & Hq1 & Hnow1 & Hnx1).
  set (id := job_node_execution_id j) in *.
  destruct (db_nodes (w_db w) !! id) as [n|] eqn:Hn;
    [|apply wp_ret, (Hfalse j); [done|fold id; by rewrite Hn|by left|done|by rewrite Hnx1]].
  apply wp_bind. unfold log_recovery_event, worker_recovered_job.
  match goal with |- wp (add_log ?a ?b ?c ?d ?e ?f) _ _ _ =>
    destruct (log_refers (w_db w1) a b) eqn:Hrefs;
    [destruct (run_add_log a b c d e f w1 Hrefs) as (w2 & Hr2 & Hq2 & Hn2 & Hc2 & Hsn2 & Hse2 & Hnow2 & Hwq2 & Hnx2)
    |pose proof (run_add_log_err a b c d e f w1 Hrefs) as Hr2] end.
  2:{ eapply wp_run_err; [exact Hr2|]. apply Herr; [by rewrite <- Hdb1|done|]. simpl. lia. }
  eapply wp_run; [exact Hr2|]. rewrite Hdb1 in Hq2, Hn2.
  assert (synced w2) as Hs2. { intros i m Hi. rewrite Hn2. rewrite Hsn2 in Hi. rewrite <- Hdb1. by apply Hs1. }
  case_decide as Hterm.
  { apply wp_bind, wp_modify, wp_bind, wp_flush_events. intros w3 Hq3 _. apply wp_ret, (Hfalse j).
    - done.
    - fold id. rewrite Hn. by intros ? [= <-].
    - right. rewrite (qu_committed _ _ Hq3). exact Hq2.
    - rewrite (qu_queue _ _ Hq3). simpl. congruence.
    - rewrite (qu_next _ _ Hq3). simpl. lia. }
  pose proof (dw_node_key _ Hwf _ _ Hn) as Hid. rewrite Hid.
  apply wp_bind. case_decide as Hrun.
  - unfold wp at 1, update_node. rewrite Hn2, Hn.
    apply wp_bind, wp_modify, wp_bind, wp_flush_events. intros w3 Hq3 _. apply wp_ret.
    assert (s_nodes (w_session w2) !! id = Some n) as Hobj2 by (by rewrite Hsn2, Hobj1).
    pose proof (wrote_alter id n (set_status NQUEUED) w2) as Hw.
    rewrite Hn2 in Hw. specialize (Hw Hn Hobj2). destruct Hw.
    destruct (quiet_commit _ _ Hq3) as (Hqu & Hdb & Hsy & Hsx & Hnx).
    apply (Htrue w3 id n (w_db w2)); simpl in *; try done; try (by exists j); try congruence; try lia.
    + by apply Hsy, wr_synced0.
    + right. rewrite (qu_db _ _ Hq3). simpl. by split_and!.
  - apply wp_ret, wp_bind, wp_modify, wp_bind, wp_flush_events. intros w3 Hq3 _. apply wp_ret.
    destruct (quiet_commit _ _ Hq3) as (Hqu & Hdb & Hsy & Hsx & Hnx).
    apply (Htrue w3 id n (w_db w2)); simpl in *; try done; try (by exists j); try congruence; try lia.
    + by apply Hsy.
    + left. split; [done|]. rewrite (qu_db _ _ Hq3). apply db_quiet_refl.
Qed.

(** ** Manual retry *)

(** At most one unresolved dead letter job per node, and only of a dead-lettered node. *)
Record dlq_ok (d : DB) : Prop := {
  do_dead k j : db_dlq d !! k = Some j → dl_resolved_at j = None →
    ∃ n, db_nodes d !! dl_node_execution_id j = Some n ∧ ne_status n = NDEAD_LETTERED;
  do_unique k1 k2 j1 j2 : db_dlq d !! k1 = Some j1 → db_dlq d !! k2 = Some j2 →
    dl_resolved_at j1 = None → dl_resolved_at j2 = None →
    dl_node_execution_id j1 = dl_node_execution_id j2 → k1 = k2
}.

(** The dead letter table after the unresolved job of a node has been resolved. *)
Definition dlq_resolved (id : uuid) (now : datetime) (note : option string)
    (m m' : gmap uuid DeadLetterJob) : Prop :=
  ∀ k, m' !! k = (fun j => if decide (dl_node_execution_id j = id ∧ dl_resolved_at j = None)
                           then resolve_job now note j else j) <$> m !! k.

Lemma wp_resolve_dlq_of_node id w (Φ : () → World Q → Prop) Ψ :
  (∀ k1 k2 j1 j2, db_dlq (w_db w) !! k1 = Some j1 → db_dlq (w_db w) !! k2 = Some j2 →
    dl_resolved_at j1 = None → dl_resolved_at j2 = None → dl_node_execution_id j1 = id →
    dl_node_execution_id j2 = id → k1 = k2) →
  (∀ m', dlq_resolved id (w_now w) (Some "Manually retried via API"%string) (db_dlq (w_db w)) m' →
     Φ tt (w_set_db (db_set_dlq (fun _ => m')) w)) →
  wp (resolve_dlq_of_node id) Φ Ψ w.
Proof.
  intros Huniq HΦ. unfold resolve_dlq_of_node. apply wp_bind, wp_gets.
  assert (∀ k, k ∈ (map_to_list (unresolved_jobs (w_db w) id)).*1 ↔
            ∃ j, db_dlq (w_db w) !! k = Some j ∧ dl_node_execution_id j = id ∧ dl_resolved_at j = None)
    as Hin.
  { intros k. rewrite list_elem_of_fmap. unfold unresolved_jobs. split.
    - intros ([k' j] & -> & Hj). apply elem_of_map_to_list, map_lookup_filter_Some in Hj. naive_solver.
    - intros (j & Hj & ? & ?). exists (k, j). split; [done|].
      by apply elem_of_map_to_list, map_lookup_filter_Some. }
  pose proof (NoDup_fst_map_to_list (unresolved_jobs (w_db w) id)) as Hnd.
  destruct (map_to_list (unresolved_jobs (w_db w) id)).*1 as [|k [|k2 ks]] eqn:Hl.
  - apply wp_ret. assert (w = w_set_db (db_set_dlq (fun _ => db_dlq (w_db w))) w) as Hww.
    { destruct w as [[] ? ? ? ? ? ? ?]. done. }
    rewrite Hww. apply HΦ. intros k. destruct (db_dlq (w_db w) !! k) as [j|] eqn:Hj; [|done].
    symmetry. apply fmap_Some. exists j. split; [done|]. rewrite decide_False; [done|].
    intros [? ?]. assert (k ∈ []) as Hk by (apply Hin; eauto). by apply not_elem_of_nil in Hk.
  - apply wp_bind, wp_gets, wp_modify.
    assert (w_set_db (db_set_dlq (alter (resolve_job (w_now w) (Some "Manually retried via API"%string)) k)) w =
      w_set_db (db_set_dlq (fun _ => alter (resolve_job (w_now w) (Some "Manually retried via API"%string)) k
        (db_dlq (w_db w)))) w) as -> by done.
    apply HΦ. intros k'. rewrite lookup_alter.
    destruct (proj1 (Hin k)) as (j & Hj & Hjid & Hjr); [by left|]. case_decide as Hk.
    + subst k'. rewrite Hj. simpl. by rewrite decide_True.
    + destruct (db_dlq (w_db w) !! k') as [j'|] eqn:Hj'; [|done]. symmetry. apply fmap_Some.
      exists j'. split; [done|]. rewrite decide_False; [done|]. intros [? ?].
      by apply Hk, (Huniq k k' j j').
  - exfalso. apply NoDup_cons in Hnd as [Hk _]. apply Hk.
    destruct (proj1 (Hin k)) as (j & Hj & ? & ?); [by left|].
    destruct (proj1 (Hin k2)) as (j2 & Hj2 & ? & ?); [by right; left|].
    rewrite (Huniq k k2 j j2) by done. by left.
Qed.

(** The same tables, clock and supply; only the session may have loaded objects. *)
Record loaded_more w w' : Prop := {
  lm_db : w_db w' = w_db w;
  lm_committed : w_committed w' = w_committed w;
  lm_now : w_now w' = w_now w;
  lm_next : w_next_uuid w' = w_next_uuid w
}.

Lemma wp_get_execution_object eid e w (Φ : option Execution → World Q → Prop) Ψ :
  db_executions (w_db w) !! eid = Some e →
  (∀ obj w', loaded_more w w' → s_nodes (w_session w') = s_nodes (w_session w) →
     s_execs (w_session w') !! eid = Some obj →
     (s_execs (w_session w) !! eid = None → obj = e) → Φ (Some obj) w') →
  wp (get_execution_object eid) Φ Ψ w.
Proof.
  intros He HΦ. unfold wp, get_execution_object.
  destruct (s_execs (w_session w) !! eid) as [obj|] eqn:Hobj; [by apply HΦ|].
  rewrite He. apply HΦ; [done|done| |done]. simpl. by rewrite lookup_insert_eq.
Qed.

(** The node row a name leads to. *)
Lemma find_row d eid x :
  db_wf d →
  match list_find (fun p => ne_node_id p.2 = x) (map_to_list (nodes_of_execution d eid)) with
  | Some (_, (id, n)) => rows_of d eid !! x = Some n ∧ ne_id n = id
  | None => rows_of d eid !! x = None
  end.
Proof.
  intros Hwf. destruct (list_find _ _) as [[i [id n]]|] eqn:Hf.
  - apply list_find_Some in Hf as (Hi & Hx & _). simpl in Hx.
    apply list_elem_of_lookup_2, elem_of_map_to_list, elem_of_nodes_of_execution in Hi as [Hn He].
    pose proof (dw_node_key _ Hwf _ _ Hn) as Hk. split; [|done].
    apply rows_of_lookup; [done|]. by rewrite Hk.
  - apply list_find_None in Hf. rewrite Forall_forall in Hf.
    destruct (rows_of d eid !! x) as [n|] eqn:Hn; [|done]. exfalso.
    apply rows_of_lookup in Hn as (Hn & He & Hx); [|done]. apply (Hf (ne_id n, n)); [|done].
    by apply elem_of_map_to_list, elem_of_nodes_of_execution.
Qed.

Lemma wp_retry_requeue eid x owner w (Φ : uuid * Execution → World Q → Prop)
    (Ψ : exc → World Q → Prop) :
  db_wf (w_db w) → dlq_ok (w_db w) → synced w →
  (∀ e a w', e = EApp a → w_committed w' = w_committed w → w_next_uuid w' = w_next_uuid w →
     (if owns_execution (w_db w) eid owner then
        match rows_of (w_db w) eid !! x with
        | Some n => ne_status n ≠ NDEAD_LETTERED ∧ ae_code a = "invalid_state"%string
        | None => ae_code a = "not_found"%string
        end
      else ae_code a = "not_found"%string) → Ψ e w') →
  (∀ n m' w0 w1 e, rows_of (w_db w) eid !! x = Some n → ne_status n = NDEAD_LETTERED →
     owns_execution (w_db w) eid owner = true → loaded_more w w0 →
     wrote (ne_id n) (entered (w_now w) NQUEUED n) w0 w1 →
     dlq_resolved (ne_id n) (w_now w) (Some "Manually retried via API"%string) (db_dlq (w_db w)) m' →
     Φ (ne_id n, e) (w_commit (w_set_db (db_set_dlq (fun _ => m')) w1))) →
  wp (retry_requeue eid x owner) Φ Ψ w.
Proof.
  intros Hwf Hdlq Hs Herr HΦ. unfold retry_requeue. apply wp_bind, wp_gets. cbv zeta.
  destruct (owns_execution (w_db w) eid owner) eqn:Hown.
  2:{ apply wp_raise. by eapply Herr. }
  pose proof (find_row (w_db w) eid x Hwf) as Hfind.
  destruct (list_find _ _) as [[i [id n]]|].
  2:{ apply wp_raise. eapply Herr; [done|done|done|]. by rewrite Hfind. }
  destruct Hfind as [Hrow Hid].
  pose proof Hrow as Hrow'. apply rows_of_lookup in Hrow' as (Hn & He & Hx); [|done]. rewrite Hid in Hn.
  apply wp_bind, wp_total. eapply wp_mono; [by apply synced_get_node| |done].
  intros r w1 (-> & Hdb1 & Hc1 & Hs1 & Hobj1 & _ & _ & Hnow1 & Hnx1). rewrite Hn in Hobj1.
  apply wp_bind. eapply (wp_run _ _ _ _ n w1); [unfold node_object; by rewrite Hobj1|].
  unfold owns_execution in Hown. destruct (db_executions (w_db w) !! eid) as [e|] eqn:Hex; [|done].
  apply wp_bind. eapply wp_get_execution_object; [by rewrite Hdb1|]. intros obj w2 Hl2 Hsn2 Hse2 _.
  apply wp_bind. eapply (wp_run _ _ _ _ obj w2); [unfold execution_object; by rewrite Hse2|].
  destruct Hl2 as [Hdb2 Hc2 Hnow2 Hnx2].
  case_decide as Hst.
  { apply wp_raise. eapply Herr; [done|congruence|congruence|]. by rewrite Hrow. }
  apply wp_bind. rewrite Hid.
  eapply (wp_transition_row id n); [by rewrite Hdb2, Hdb1|by rewrite Hsn2|done|].
  intros w3 Hw3. rewrite Hnow2, Hnow1 in Hw3. apply wp_bind.
  assert (db_dlq (w_db w3) = db_dlq (w_db w)) as Hdlq3.
  { rewrite (wr_dlq _ _ _ _ Hw3). congruence. }
  apply wp_resolve_dlq_of_node.
  - rewrite Hdlq3. intros k1 k2 j1 j2 H1 H2 R1 R2 N1 N2.
    eapply (do_unique _ Hdlq); [exact H1|exact H2|done|done|congruence].
  - rewrite Hdlq3, (wr_now _ _ _ _ Hw3), Hnow2, Hnow1. intros m' Hm'.
    apply wp_bind, wp_modify, wp_ret. rewrite <- Hid in *.
    eapply (HΦ n m' w2 w3); try done.
    split; congruence.
Qed.

(** ** Deletion *)

(** The tables after a deletion. *)
Definition deleted (eid : uuid) (d : DB) : DB :=
  cascade_delete eid (db_set_dlq (filter (fun p => dl_execution_id p.2 ≠ eid)) d).

Lemma deleted_node d eid id n :
  db_nodes (deleted eid d) !! id = Some n ↔ db_nodes d !! id = Some n ∧ ne_execution_id n ≠ eid.
Proof.
  unfold deleted, cascade_delete. simpl.
  change (nodes_of_execution (db_set_dlq _ d) eid) with (nodes_of_execution d eid).
  rewrite lookup_difference_Some.
  split; intros [Hn Hno]; (split; [done|]).
  - intros He. assert (nodes_of_execution d eid !! id = Some n) as Hin
      by (by apply elem_of_nodes_of_execution). by rewrite Hin in Hno.
  - destruct (nodes_of_execution d eid !! id) as [m|] eqn:Hm; [|done].
    apply elem_of_nodes_of_execution in Hm as [Hm He]. congruence.
Qed.

Lemma deleted_exec d eid e :
  db_executions (deleted eid d) !! e = if decide (eid = e) then None else db_executions d !! e.
Proof. unfold deleted, cascade_delete. simpl. apply lookup_delete. Qed.

Lemma deleted_dlq d eid k j :
  db_dlq (deleted eid d) !! k = Some j ↔ db_dlq d !! k = Some j ∧ dl_execution_id j ≠ eid.
Proof. unfold deleted, cascade_delete. simpl. by rewrite map_lookup_filter_Some. Qed.

Lemma deleted_wf d eid : db_wf d → db_wf (deleted eid d).
Proof.
  intros Hwf. split.
  - intros id n [Hn _]%deleted_node. by apply (dw_node_key _ Hwf).
  - intros id e. rewrite deleted_exec. case_decide; [done|]. apply (dw_exec_key _ Hwf).
  - apply (dw_version_key _ Hwf).
  - apply (dw_workflow_key _ Hwf).
  - intros i j n m [Hn _]%deleted_node [Hm _]%deleted_node. by eapply (dw_node_unique _ Hwf).
  - intros id n [Hn He]%deleted_node. rewrite deleted_exec. rewrite decide_False by done.
    by eapply (dw_node_exec _ Hwf).
  - intros id e. rewrite deleted_exec. case_decide; [done|]. apply (dw_exec_version _ Hwf).
  - intros k j [Hj He]%deleted_dlq. destruct (dw_dlq _ Hwf _ _ Hj) as (n & Hn & Hne).
    exists n. split; [|done]. apply deleted_node. split; [done|]. congruence.
Qed.

Lemma dlq_refers_wf d : db_wf d → dlq_refers d = true.
Proof.
  intros Hwf. unfold dlq_refers. apply forallb_forall. intros j Hj. apply list_elem_of_In in Hj.
  apply list_elem_of_fmap in Hj as ([k j'] & -> & Hj). apply elem_of_map_to_list in Hj. simpl.
  destruct (dw_dlq _ Hwf _ _ Hj) as (n & Hn & He).
  destruct (dw_node_exec _ Hwf _ _ Hn) as [e Hex]. rewrite He in Hex. rewrite Hex, Hn.
  by rewrite !bool_decide_eq_true_2.
Qed.

Lemma wp_delete_execution eid owner w (Φ : () → World Q → Prop) (Ψ : exc → World Q → Prop) :
  db_wf (w_db w) → s_execs (w_session w) = ∅ →
  (∀ a, owns_execution (w_db w) eid owner = false → ae_code a = "not_found"%string →
     ae_status_code a = 404%Z → Ψ (EApp a) w) →
  (∀ w', owns_execution (w_db w) eid owner = true → w_db w' = w_committed w' →
     w_next_uuid w' = w_next_uuid w → w_committed w' = deleted eid (w_db w) →
     w_queue w' = w_queue w → Φ tt w') →
  wp (delete_execution eid owner) Φ Ψ w.
Proof.
  intros Hwf Hse Herr HΦ. unfold delete_execution, select_owned_execution.
  apply wp_bind, wp_bind, wp_gets.
  destruct (owns_execution (w_db w) eid owner) eqn:Hown.
  2:{ apply wp_ret, wp_raise. by apply Herr. }
  pose proof Hown as Hown'. unfold owns_execution in Hown'.
  destruct (db_executions (w_db w) !! eid) as [e|] eqn:Hex; [|done].
  unfold wp at 1, select_execution, get_execution_object. rewrite Hex, Hse, lookup_empty.
  rewrite (dw_exec_key _ Hwf _ _ Hex).
  apply wp_bind, wp_modify, wp_bind, wp_modify, wp_bind, wp_gets.
  cbn [w_set_db w_set_session w_db].
  change (cascade_delete eid (db_set_dlq _ (w_db w))) with (deleted eid (w_db w)).
  rewrite (dlq_refers_wf _ (deleted_wf _ _ Hwf)). apply wp_modify. by apply HΦ.
Qed.

End steps.
