(* ===== verification/System.v ===== *)
(** * The system: workers, recovery, and the API, interleaved

    Tasks run the stretches of the services between two commits, each in its own
    session, in any order; a task can crash between two stretches, jobs can arrive any
    number of times and in any order, and Redis can be up or down. Every step is a
    run of the abstract machine on every execution, which gives the invariants of the
    whole system.

    A stretch is one step here: what READ COMMITTED lets happen between the statements of
    one transaction is not modelled, nor is the gap between the commit of a recovery and
    the claim that follows it in the same session. *)

From S2P Require Import Prelude Json PyStr Errors Models Registry DagValidator Events Monad Store.
From S2P Require Import LogHelpers StateTransition Tx Machine Publisher Runtime.
From S2P Require Import Downstream Complete Engine Dlq Recovery Abstraction Start Steps.

Section system.
Context {Q : Type} `{QueuePublisher Q} {Net : Type}.
Context (str_exc : exc → string) (set_order : list json → list json)
  (registry : ExecutorRegistry Net).
Hypothesis Hord : ∀ l, set_order l ≡ₚ l.

(** A task between two stretches: its session and its local variables. *)
Inductive Task : Type :=
| TClaimed (s : Session) (node : uuid)
| TLoaded (s : Session) (ld : Loaded) (result : ExecutorResult)
| TPublish (s : Session) (workflow_version_id execution_id : uuid) (nodes : list uuid)
| TRetryPublish (s : Session) (node : uuid) (execution : Execution).

Record Sys : Type := mkSys {
  sy_db : DB;
  sy_queue : Q;
  sy_channel : list (string * Envelope);
  sy_redis_up : bool;
  sy_now : datetime;
  sy_next_uuid : uuid;
  sy_tasks : gmap nat Task
}.

(** The world a stretch runs in, and the system it leaves: what it did not commit is
    rolled back. *)
Definition world_of (s : Sys) (session : Session) : World Q :=
  mkWorld (sy_db s) (sy_db s) session (sy_queue s) (sy_channel s) (sy_redis_up s) (sy_now s)
    (sy_next_uuid s).

Definition after (w : World Q) (tasks : gmap nat Task) : Sys :=
  mkSys (w_committed w) (w_queue w) (w_channel w) (w_redis_up w) (w_now w) (w_next_uuid w) tasks.

(** The claim that follows a recovery in the same session. *)
Definition recover_and_claim (fs : fields) (mid : string) (prev : option string) (me : string) :
    M Q (option uuid) :=
  proceed ← recover_job fs mid prev me;
  if (proceed : bool) then claim_job fs else mret None.

Definition load_and_execute (net : Net) (node : uuid) : M Q (Loaded * ExecutorResult) :=
  ld ← load_job node;
  result ← lift (run_executor str_exc registry net ld);
  mret (ld, result).

Definition claimed_task (i : nat) (r : res exc (option uuid)) (w : World Q)
    (tasks : gmap nat Task) : gmap nat Task :=
  match r with Ok (Some n) => <[i := TClaimed (w_session w) n]> tasks | _ => tasks end.

(** What the workflow service does to the tables: workflows and versions come and go, but
    those an execution refers to stay. *)
Record versions_changed (d d' : DB) : Prop := {
  vc_versions eid e v : db_executions d !! eid = Some e →
    db_versions d !! ex_workflow_version_id e = Some v →
    db_versions d' !! ex_workflow_version_id e = Some v;
  vc_workflows eid e wf : db_executions d !! eid = Some e →
    db_workflows d !! ex_workflow_id e = Some wf →
    ∃ wf', db_workflows d' !! ex_workflow_id e = Some wf' ∧
           w_owner_api_key_id wf' = w_owner_api_key_id wf;
  vc_version_key id v : db_versions d' !! id = Some v → wv_id v = id;
  vc_workflow_key id wf : db_workflows d' !! id = Some wf → w_id wf = id;
  vc_definition id v : db_versions d' !! id = Some v → definition_wf (wv_definition v) = true;
  vc_rest : db_executions d' = db_executions d ∧ db_nodes d' = db_nodes d ∧
            db_dlq d' = db_dlq d ∧ db_logs d' = db_logs d
}.

(** The stretches, and what happens around them. *)
Inductive Op : Type :=
| OpClaim | OpRecover | OpLoad | OpComplete | OpPublish | OpStart | OpRetry | OpRetryPublish
| OpDelete | OpResolve | OpVersions | OpEnvironment | OpCrash.

Inductive sstep (s : Sys) : Op → Sys → Prop :=
| st_claim i fs r w' :
    sy_tasks s !! i = None → claim_job fs (world_of s new_session) = (r, w') →
    sstep s OpClaim (after w' (claimed_task i r w' (sy_tasks s)))
| st_recover i fs mid prev me r w' :
    sy_tasks s !! i = None →
    recover_and_claim fs mid prev me (world_of s new_session) = (r, w') →
    sstep s OpRecover (after w' (claimed_task i r w' (sy_tasks s)))
| st_load i session node net r w' :
    sy_tasks s !! i = Some (TClaimed session node) →
    load_and_execute net node (world_of s session) = (r, w') →
    sstep s OpLoad (after w' match r with
                      | Ok (ld, result) => <[i := TLoaded (w_session w') ld result]> (sy_tasks s)
                      | Err _ => delete i (sy_tasks s)
                      end)
| st_complete i session ld result r w' :
    sy_tasks s !! i = Some (TLoaded session ld result) →
    complete_job set_order ld result (world_of s session) = (r, w') →
    sstep s OpComplete (after w' match r with
                      | Ok (Some nodes) =>
                          <[i := TPublish (w_session w') (ex_workflow_version_id (ld_execution ld))
                                   (ex_id (ld_execution ld)) nodes]> (sy_tasks s)
                      | _ => delete i (sy_tasks s)
                      end)
| st_publish i session version_id execution_id nodes r w' :
    sy_tasks s !! i = Some (TPublish session version_id execution_id nodes) →
    publish_nodes version_id execution_id nodes (world_of s session) = (r, w') →
    sstep s OpPublish (after w' (delete i (sy_tasks s)))
| st_start i command owner r w' :
    sy_tasks s !! i = None →
    start_create registry command owner (world_of s new_session) = (r, w') →
    sstep s OpStart (after w' match r with
                      | Ok (execution_id, version_id, roots) =>
                          <[i := TPublish (w_session w') version_id execution_id roots]> (sy_tasks s)
                      | Err _ => sy_tasks s
                      end)
| st_retry i execution_id node_id owner r w' :
    sy_tasks s !! i = None →
    retry_requeue execution_id node_id owner (world_of s new_session) = (r, w') →
    sstep s OpRetry (after w' match r with
                      | Ok (n, e) => <[i := TRetryPublish (w_session w') n e]> (sy_tasks s)
                      | Err _ => sy_tasks s
                      end)
| st_retry_publish i session n e r w' :
    sy_tasks s !! i = Some (TRetryPublish session n e) →
    retry_publish n e (world_of s session) = (r, w') →
    sstep s OpRetryPublish (after w' (delete i (sy_tasks s)))
| st_delete execution_id owner r w' :
    delete_execution execution_id owner (world_of s new_session) = (r, w') →
    sstep s OpDelete (after w' (sy_tasks s))
| st_resolve dlq_id owner note r w' :
    resolve_dlq_job dlq_id owner note (world_of s new_session) = (r, w') →
    sstep s OpResolve (after w' (sy_tasks s))
| st_versions d' next' :
    versions_changed (sy_db s) d' → (sy_next_uuid s ≤ next')%N →
    sstep s OpVersions (mkSys d' (sy_queue s) (sy_channel s) (sy_redis_up s) (sy_now s) next'
               (sy_tasks s))
| st_environment q up now :
    (sy_now s ≤ now)%Z →
    sstep s OpEnvironment (mkSys (sy_db s) q (sy_channel s) up now (sy_next_uuid s) (sy_tasks s))
| st_crash i :
    sstep s OpCrash (mkSys (sy_db s) (sy_queue s) (sy_channel s) (sy_redis_up s) (sy_now s) (sy_next_uuid s)
               (delete i (sy_tasks s))).

(** An empty database and no task. *)
Definition sys_initial (s : Sys) : Prop := sy_db s = empty_db ∧ sy_tasks s = ∅.

(** The states that steps of the allowed kinds reach. *)
Inductive reachable (allowed : Op → Prop) : Sys → Prop :=
| reach_init s : sys_initial s → reachable allowed s
| reach_step s op s' : reachable allowed s → allowed op → sstep s op s' → reachable allowed s'.

(** ** The invariant *)

(** What validation has established for the definition of an execution. *)
Definition graph_ok (wf : WorkflowDefinition) : Prop := well_formed registry wf ∧ acyclic wf.

Definition task_ok (d : DB) (next : uuid) (t : Task) : Prop :=
  match t with
  | TClaimed session _ => s_execs session = ∅
  | TLoaded session ld _ =>
      let eid := ex_id (ld_execution ld) in
      (eid < next)%N ∧
      ∃ obj, s_execs session !! eid = Some obj ∧
        ∀ e, db_executions d !! eid = Some e →
             obj_ok e obj ∧ definition_of d eid = Some (ld_definition ld)
  | _ => True
  end.

(** What a state of the machine may be for an execution of this definition. *)
Definition machine_reachable (P : Label → Prop) (wf : WorkflowDefinition) (a : MState) : Prop :=
  ∃ a0 ls, m_initial wf a0 ∧ mrun wf ls a0 a ∧ Forall P ls.

(** What holds of the committed tables, [next] being the next identifier. *)
Record db_inv (P : Label → Prop) (next : uuid) (d : DB) : Prop := {
  di_wf : db_wf d;
  di_versions id v : db_versions d !! id = Some v → definition_wf (wv_definition v) = true;
  di_execs eid a : abs d eid = Some a →
    ∃ wf, definition_of d eid = Some wf ∧ graph_ok wf ∧ machine_reachable P wf a;
  di_nodes_fresh id : (next ≤ id)%N → db_nodes d !! id = None;
  di_execs_fresh id : (next ≤ id)%N → db_executions d !! id = None;
  di_dlq : dlq_ok d
}.

Record sys_inv (P : Label → Prop) (s : Sys) : Prop := {
  sv_db : db_inv P (sy_next_uuid s) (sy_db s);
  sv_tasks i t : sy_tasks s !! i = Some t → task_ok (sy_db s) (sy_next_uuid s) t
}.

(** What a step may do to the tables, seen from every execution that is left; [P] holds
    of the steps of the machine. *)
Record evolves (P : Label → Prop) (next next' : uuid) (d d' : DB) : Prop := {
  ev_wf : db_wf d';
  ev_versions eid e e' : db_executions d !! eid = Some e → db_executions d' !! eid = Some e' →
    db_versions d' !! ex_workflow_version_id e = db_versions d !! ex_workflow_version_id e;
  ev_versions_ok id v : db_versions d' !! id = Some v → definition_wf (wv_definition v) = true;
  ev_execs eid e' : db_executions d' !! eid = Some e' →
    match db_executions d !! eid with
    | Some e => same_exec e e' ∧
        ∃ wf a a' ls, definition_of d eid = Some wf ∧ abs d eid = Some a ∧
          abs d' eid = Some a' ∧ mrun wf ls a a' ∧ Forall P ls
    | None => (next ≤ eid)%N ∧
        ∃ wf a', definition_of d' eid = Some wf ∧ graph_ok wf ∧ abs d' eid = Some a' ∧
          machine_reachable P wf a'
    end;
  ev_next : (next ≤ next')%N;
  ev_nodes_fresh id : (next' ≤ id)%N → db_nodes d' !! id = None;
  ev_execs_fresh id : (next' ≤ id)%N → db_executions d' !! id = None;
  ev_dlq : dlq_ok d'
}.

End system.
