(* ===== verification/Evolution.v ===== *)
(** * How the tables evolve

    What each stretch of the system does to the committed tables, as [evolves]: the
    constraints stay, and every execution makes a run of the abstract machine. *)

From S2P Require Import Prelude Json PyStr Errors Models Registry DagValidator Events Monad Store.
From S2P Require Import LogHelpers StateTransition Tx Machine Publisher Runtime.
From S2P Require Import Downstream Complete Engine Dlq Recovery Abstraction Start Steps System.

Section evolution.
Context {Net : Type} (registry : ExecutorRegistry Net).

Lemma definition_of_same d d' eid e e' :
  db_executions d !! eid = Some e → db_executions d' !! eid = Some e' → same_exec e e' →
  db_versions d' !! ex_workflow_version_id e = db_versions d !! ex_workflow_version_id e →
  definition_of d' eid = definition_of d eid.
Proof.
  intros He He' (_ & _ & Hv) Hsame. unfold definition_of. rewrite He, He'. simpl.
  by rewrite Hv, Hsame.
Qed.

Lemma db_inv_exec P next d eid e :
  db_inv registry P next d → db_executions d !! eid = Some e →
  ∃ wf a, definition_of d eid = Some wf ∧ abs d eid = Some a ∧ graph_ok registry wf ∧
          machine_reachable P wf a.
Proof.
  intros Hinv He. assert (∃ a, abs d eid = Some a) as [a Ha].
  { unfold abs. rewrite He. by eexists. }
  destruct (di_execs _ _ _ _ Hinv _ _ Ha) as (wf & ? & ? & ?). by exists wf, a.
Qed.

Lemma machine_reachable_run P wf ls a a' :
  machine_reachable P wf a → mrun wf ls a a' → Forall P ls → machine_reachable P wf a'.
Proof.
  intros (a0 & ls0 & Hi & Hr & HP) Hrun HP'. exists a0, (ls0 ++ ls).
  split_and!; [done|by eapply mrun_app|by apply Forall_app].
Qed.

Lemma mrun_inv wf ls a a' :
  (∀ x y, wf_edge wf x y → x ∈ node_ids wf ∧ y ∈ node_ids wf) → mrun wf ls a a' →
  minv wf a → minv wf a'.
Proof. intros Hends. induction 1 as [|l ls a1 a2 a3 Hs Hr IH]; [done|]. intros Hi. by eapply IH, mstep_inv. Qed.

Lemma machine_reachable_inv P wf a : graph_ok registry wf → machine_reachable P wf a → minv wf a.
Proof.
  intros [[_ _ Hends] _] (a0 & ls & Hi & Hr & _). eapply mrun_inv; [exact Hends|exact Hr|].
  by apply m_initial_inv.
Qed.

(** The nodes an edge of the definition leaves have rows. *)
Lemma edge_row P next d eid e wf p c :
  db_inv registry P next d → db_executions d !! eid = Some e → definition_of d eid = Some wf →
  wf_edge wf p c → is_Some (rows_of d eid !! p).
Proof.
  intros Hinv He Hdef Hpc. destruct (db_inv_exec _ _ _ _ _ Hinv He) as (wf' & a & Hdef' & Ha & Hg & Hreach).
  rewrite Hdef in Hdef'. injection Hdef' as <-.
  pose proof (machine_reachable_inv _ _ _ Hg Hreach) as Hminv.
  destruct Hg as [[_ _ Hends] _]. destruct (Hends p c Hpc) as [Hp _].
  apply (mi_dom _ _ Hminv) in Hp. unfold abs in Ha. rewrite He in Ha. injection Ha as <-. simpl in Hp.
  unfold abs_rows in Hp. by rewrite lookup_fmap, fmap_is_Some in Hp.
Qed.

(** [P] holds of the steps of the past, [R] of those now. *)
Context (P R : Label → Prop).
Hypothesis HRP : ∀ l, R l → P l.

Lemma machine_reachable_weaken wf a : machine_reachable R wf a → machine_reachable P wf a.
Proof using HRP.
  intros (a0 & ls & ? & ? & HR). exists a0, ls. split_and!; [done..|]. by eapply Forall_impl.
Qed.

(** The invariant of the tables follows. *)
Lemma evolves_db_inv next next' d d' :
  db_inv registry P next d → evolves registry R next next' d d' → db_inv registry P next' d'.
Proof using HRP.
  intros Hinv []. split; try done. intros eid a Ha.
  destruct (db_executions d' !! eid) as [e'|] eqn:He'; [|unfold abs in Ha; by rewrite He' in Ha].
  pose proof (ev_execs eid e' He') as Hev.
  destruct (db_executions d !! eid) as [e|] eqn:He.
  - destruct Hev as (Hsame & wf & a0 & a' & ls & Hdef & Ha0 & Ha' & Hrun & HP).
    rewrite Ha in Ha'. injection Ha' as ->.
    destruct (di_execs _ _ _ _ Hinv _ _ Ha0) as (wf' & Hdef' & Hg & Hr). rewrite Hdef in Hdef'.
    injection Hdef' as <-. exists wf. split_and!; [|done|].
    + rewrite (definition_of_same d d' eid e e'); eauto.
    + eapply machine_reachable_run; [done|done|by eapply Forall_impl].
  - destruct Hev as (_ & wf & a' & Hdef & Hg & Ha' & Hr). rewrite Ha in Ha'. injection Ha' as ->.
    exists wf. split_and!; [done|done|by apply machine_reachable_weaken].
Qed.

Lemma evolves_refl next next' d :
  db_inv registry P next d → (next ≤ next')%N → evolves registry R next next' d d.
Proof.
  intros Hinv Hle. split; try apply Hinv; try done.
  - intros eid e He. rewrite He. split; [reflexivity|].
    destruct (db_inv_exec _ _ _ _ _ Hinv He) as (wf & a & ? & ? & _).
    exists wf, a, a, []. split_and!; try done; constructor.
  - intros id Hid. apply (di_nodes_fresh _ _ _ _ Hinv). lia.
  - intros id Hid. apply (di_execs_fresh _ _ _ _ Hinv). lia.
Qed.

Lemma evolves_trans n1 n2 n3 d1 d2 d3 :
  db_inv registry P n1 d1 → evolves registry R n1 n2 d1 d2 → evolves registry R n2 n3 d2 d3 →
  evolves registry R n1 n3 d1 d3.
Proof using HRP.
  intros Hinv H12 H23. pose proof (evolves_db_inv _ _ _ _ Hinv H12) as Hinv2.
  pose proof H23 as []. split; try done.
  - intros eid e1 e3 He1 He3. pose proof (ev_execs eid e3 He3) as Hcase.
    destruct (db_executions d2 !! eid) as [e2|] eqn:He2.
    + pose proof (System.ev_execs _ _ _ _ _ _ H12 eid e2 He2) as Hev. rewrite He1 in Hev.
      destruct Hev as ((_ & _ & Hv) & _).
      rewrite <- (System.ev_versions _ _ _ _ _ _ H12 eid e1 e2 He1 He2), <- Hv. by eapply ev_versions.
    + destruct Hcase as [Hn _]. rewrite (di_execs_fresh _ _ _ _ Hinv eid) in He1; [done|].
      etrans; [apply H12|exact Hn].
  - intros eid e3 He3. specialize (ev_execs eid e3 He3).
    destruct (db_executions d2 !! eid) as [e2|] eqn:He2.
    + pose proof (System.ev_execs _ _ _ _ _ _ H12 eid e2 He2) as Hev.
      destruct ev_execs as (Hs23 & wf & a2 & a3 & ls2 & Hd2 & Ha2 & Ha3 & Hr2 & HP2).
      destruct (db_executions d1 !! eid) as [e1|] eqn:He1.
      * destruct Hev as (Hs12 & wf1 & a1 & a2' & ls1 & Hd1 & Ha1 & Ha2' & Hr1 & HP1).
        split; [by etrans|].
        rewrite (definition_of_same d1 d2 eid e1 e2), Hd1 in Hd2;
          [|done..|by eapply (System.ev_versions _ _ _ _ _ _ H12)].
        injection Hd2 as ->. rewrite Ha2 in Ha2'. injection Ha2' as <-.
        exists wf, a1, a3, (ls1 ++ ls2). split_and!; try done; [by eapply mrun_app|by apply Forall_app].
      * destruct Hev as (Hn & wf1 & a2' & Hd1 & Hg & Ha2' & Hr1). split; [done|].
        rewrite Hd2 in Hd1. injection Hd1 as <-. rewrite Ha2 in Ha2'. injection Ha2' as <-.
        exists wf, a3. split_and!; try done; [|by eapply machine_reachable_run].
        rewrite (definition_of_same d2 d3 eid e2 e3); eauto.
    + destruct ev_execs as (Hn & Hrest).
      destruct (db_executions d1 !! eid) as [e1|] eqn:He1.
      * pose proof (di_execs_fresh _ _ _ _ Hinv eid). pose proof (System.ev_next _ _ _ _ _ _ H12).
        rewrite He1 in *. assert (n1 ≤ eid)%N as Hle by lia. by specialize (H Hle).
      * split; [|done]. pose proof (System.ev_next _ _ _ _ _ _ H12). lia.
  - pose proof (System.ev_next _ _ _ _ _ _ H12). lia.
Qed.

(** Tasks are not disturbed by what others do. *)
Lemma evolves_task_ok next next' d d' t :
  db_inv registry P next d → evolves registry R next next' d d' →
  task_ok d next t → task_ok d' next' t.
Proof.
  intros Hinv Hev. destruct t as [|s ld res| |]; try done. simpl.
  intros (Hlt & obj & Hobj & Hok). split; [pose proof (ev_next _ _ _ _ _ _ Hev); lia|].
  exists obj. split; [done|]. intros e' He'.
  pose proof (ev_execs _ _ _ _ _ _ Hev _ _ He') as He.
  destruct (db_executions d !! ex_id (ld_execution ld)) as [e|] eqn:Hee; [|destruct He; lia].
  destruct He as (Hsame & wf & a & a' & ls & Hdef & Ha & Ha' & Hrun & HP).
  destruct (Hok e eq_refl) as [Hobjok Hdefn]. split.
  - intros Hr. apply Hobjok. apply mrun_running in Hrun.
    + unfold abs in Ha. rewrite Hee in Ha. simpl in Ha. injection Ha as <-. done.
    + unfold abs in Ha'. rewrite He' in Ha'. simpl in Ha'. injection Ha' as <-. done.
  - rewrite <- Hdefn. apply (definition_of_same d d' _ e e'); [done..|by eapply (ev_versions _ _ _ _ _ _ Hev)].
Qed.

(** ** Tables that differ in nothing the machine sees *)

Lemma evolves_quiet next next' d d' :
  db_inv registry P next d → (next ≤ next')%N → db_quiet d d' → evolves registry R next next' d d'.
Proof.
  intros Hinv Hle Hq. pose proof (di_wf _ _ _ _ Hinv) as Hwf. split; try done.
  - by eapply db_quiet_wf.
  - by rewrite (dq_versions _ _ Hq).
  - rewrite (dq_versions _ _ Hq). apply Hinv.
  - intros eid e He. rewrite (dq_execs _ _ Hq) in He. rewrite He. split; [reflexivity|].
    destruct (db_inv_exec _ _ _ _ _ Hinv He) as (wf & a & ? & ? & _).
    exists wf, a, a, []. split_and!; try done; [by rewrite (db_quiet_abs d d')|constructor..].
  - intros id Hid. destruct (db_nodes d' !! id) as [n|] eqn:Hn; [|done].
    destruct (db_quiet_lookup _ _ _ _ Hq Hn) as (m & Hm & _).
    rewrite (di_nodes_fresh _ _ _ _ Hinv) in Hm; [done|lia].
  - intros id Hid. rewrite (dq_execs _ _ Hq). apply (di_execs_fresh _ _ _ _ Hinv). lia.
  - pose proof (di_dlq _ _ _ _ Hinv) as [Hdead Hu]. split; rewrite (dq_dlq _ _ Hq); [|done].
    intros k j Hj Hr. destruct (Hdead _ _ Hj Hr) as (n & Hn & Hs).
    destruct (db_quiet_lookup_inv _ _ _ _ Hq Hn) as (n' & Hn' & _ & Hs' & _).
    exists n'. split; [done|congruence].
Qed.

(** ** One row *)

(** Moving one node of one execution by a step of the machine. *)
Lemma evolves_update_node next next' d d' id n n' l :
  db_inv registry P next d → (next ≤ next')%N → db_nodes d !! id = Some n → same_node n n' →
  db_nodes d' = <[id := n']> (db_nodes d) → db_executions d' = db_executions d →
  db_versions d' = db_versions d → db_workflows d' = db_workflows d →
  (∀ k j, db_dlq d' !! k = Some j → ∃ j0, db_dlq d !! k = Some j0 ∧
     dl_node_execution_id j = dl_node_execution_id j0 ∧ dl_execution_id j = dl_execution_id j0) →
  dlq_ok d' → R l →
  (∀ wf e nodes, nodes !! ne_node_id n = Some (abs_node n) →
     mstep wf l (mkMState e nodes) (mkMState e (<[ne_node_id n := abs_node n']> nodes))) →
  evolves registry R next next' d d'.
Proof.
  intros Hinv Hle Hn Hsame En Ee Ev Ew Ed Hdlq HP Hstep. pose proof (di_wf _ _ _ _ Hinv) as Hwf.
  assert (db_wf d') as Hwf' by (by eapply db_wf_update_node).
  split; try done.
  - by rewrite Ev.
  - rewrite Ev. apply Hinv.
  - intros eid e He. rewrite Ee in He. rewrite He. split; [reflexivity|].
    destruct (db_inv_exec _ _ _ _ _ Hinv He) as (wf & a & Hdef & Ha & _).
    pose proof (abs_update_node d d' id n n' eid Hwf Hwf' Hn Hsame En Ee) as Habs.
    rewrite Ha in Habs. simpl in Habs. case_decide as Heid.
    + destruct a as [st nodes]. simpl in Habs. eexists wf, _, _, [l].
      split_and!; [done|done|done| |by constructor]. apply mrun_one, Hstep.
      unfold abs in Ha. rewrite He in Ha. simpl in Ha. injection Ha as <- <-.
      unfold abs_rows. rewrite lookup_fmap.
      assert (rows_of d eid !! ne_node_id n = Some n) as ->; [|done].
      apply rows_of_lookup; [done|]. rewrite (dw_node_key _ Hwf _ _ Hn). done.
    + exists wf, a, a, []. split_and!; try done; constructor.
  - intros i Hi. rewrite En, lookup_insert. case_decide as Hii.
    + subst. rewrite (di_nodes_fresh _ _ _ _ Hinv) in Hn; [done|lia].
    + apply (di_nodes_fresh _ _ _ _ Hinv). lia.
  - intros i Hi. rewrite Ee. apply (di_execs_fresh _ _ _ _ Hinv). lia.
Qed.

(** The dead letter table when a node that is not dead-lettered changes. *)
Lemma dlq_ok_update_node d d' id n n' :
  dlq_ok d → db_nodes d !! id = Some n → ne_status n ≠ NDEAD_LETTERED →
  db_nodes d' = <[id := n']> (db_nodes d) → db_dlq d' = db_dlq d → dlq_ok d'.
Proof.
  intros [Hdead Hu] Hn Hst En Ed. split; rewrite Ed; [|done].
  intros k j Hj Hr. destruct (Hdead _ _ Hj Hr) as (m & Hm & Hs). exists m. split; [|done].
  rewrite En, lookup_insert_ne; [done|]. intros ->. congruence.
Qed.

End evolution.
