(* ===== verification/Invariant.v ===== *)
(** * The invariant of the system

    Every stretch evolves the tables by runs of the abstract machine, and leaves its
    task with a session that agrees with them. Hence [sys_inv] holds in every reachable
    state, however the stretches of workers, recoveries and API calls are interleaved. *)

From S2P Require Import Prelude Json PyStr Errors Models Registry DagValidator Events Monad Store.
From S2P Require Import LogHelpers StateTransition Tx Machine Publisher Runtime.
From S2P Require Import Downstream Complete Engine Dlq Recovery Abstraction Start Steps System.
From S2P Require Import Evolution.

Section stretches.
Context {Q : Type} `{QueuePublisher Q} {Net : Type} (registry : ExecutorRegistry Net)
  (P R : Label → Prop).
Hypothesis HRP : ∀ l, R l → P l.
Hypothesis HW : ∀ l, work l → R l.
Implicit Types w : World Q.

(** The world at the beginning of a transaction on good tables. *)
Record fresh_tx w : Prop := {
  ft_inv : db_inv registry P (w_next_uuid w) (w_db w);
  ft_committed : w_committed w = w_db w
}.

(** What was committed evolved from the tables the transaction saw first. *)
Definition evolved w w' : Prop :=
  evolves registry R (w_next_uuid w) (w_next_uuid w') (w_db w) (w_committed w').

Lemma evolved_none w w' :
  fresh_tx w → w_committed w' = w_committed w → (w_next_uuid w ≤ w_next_uuid w')%N → evolved w w'.
Proof.
  intros [Hinv Hc] Hc' Hle. unfold evolved. rewrite Hc', Hc. by eapply evolves_refl.
Qed.

Lemma evolved_quiet w w' :
  fresh_tx w → db_quiet (w_db w) (w_committed w') → (w_next_uuid w ≤ w_next_uuid w')%N → evolved w w'.
Proof. intros [Hinv Hc] Hq Hle. by eapply evolves_quiet. Qed.

(** ** Claim *)

Lemma claim_evolved fs w r w' :
  fresh_tx w → synced w → claim_job fs w = (r, w') →
  evolved w w' ∧ (∀ n, r = Ok (Some n) → s_execs (w_session w') = s_execs (w_session w)).
Proof.
  intros Hft Hs Hrun. pose proof Hft as [Hinv Hc].
  apply (wp_adequate _ (fun r w' => evolved w w' ∧
    (∀ n, r = Ok (Some n) → s_execs (w_session w') = s_execs (w_session w))) _ _ _ Hrun).
  apply wp_claim_job; [apply Hinv|done|..].
  - intros j w1 _ _ _ Hc1 _ Hn1. split; [|done]. apply evolved_none; [done|done|lia].
  - intros e w1 _ Hc1 Hn1. split; [|done]. apply evolved_none; [done|done|lia].
  - intros id n w1 Hn Hst _ (w2 & Hw & Hq). split.
    + unfold evolved. rewrite (qu_committed _ _ Hq), (qu_next _ _ Hq). simpl.
      apply (evolves_update_node _ P _ _ _ _ _ id n (entered (w_now w) NRUNNING n) LClaim).
      * exact Hinv.
      * apply Hw.
      * exact Hn.
      * apply same_node_enter.
      * apply Hw.
      * apply Hw.
      * apply Hw.
      * apply Hw.
      * rewrite (wr_dlq _ _ _ _ Hw). eauto.
      * eapply dlq_ok_update_node; [apply Hinv|exact Hn|congruence|apply Hw|apply Hw].
      * by apply HW.
      * intros wf e nodes Hx. rewrite abs_node_entered. by apply m_claim.
    + intros _ _. rewrite (qu_execs _ _ Hq). simpl. apply Hw.
Qed.

(** ** Recover, then claim *)

Lemma recover_evolved fs mid prev me w r w' :
  R LRecover → fresh_tx w → synced w → recover_job fs mid prev me w = (r, w') →
  evolved w w' ∧ (r = Ok true → fresh_tx w' ∧ synced w' ∧
                  s_execs (w_session w') = s_execs (w_session w)).
Proof.
  intros HR Hft Hs Hrun. pose proof Hft as [Hinv Hc].
  apply (wp_adequate _ (fun r w' => evolved w w' ∧ (r = Ok true → fresh_tx w' ∧ synced w' ∧
                  s_execs (w_session w') = s_execs (w_session w))) _ _ _ Hrun).
  apply wp_recover_job; [apply Hinv|done|done|..].
  - intros e w1 _ Hc1 Hn1. split; [|done]. by apply evolved_none.
  - intros j w1 _ _ [Hc1|Hq] _ Hn1; (split; [|done]); [by apply evolved_none|by apply evolved_quiet].
  - intros w1 id n d1 _ _ Hdb Hs1 He1 Hn1 Hq1 Hnodes Hn _ Hcase.
    assert (evolved w w1) as Hev.
    { unfold evolved. rewrite <- Hdb. destruct Hcase as [[_ Hq2]|(Hst & En & Ee & Ev & Ew & Ed)].
      - eapply evolves_quiet; [done|done|by eapply db_quiet_trans].
      - apply (evolves_update_node _ P _ _ _ _ _ id n (set_status NQUEUED n) LRecover).
        + exact Hinv.
        + done.
        + exact Hn.
        + done.
        + by rewrite En, Hnodes.
        + by rewrite Ee, (dq_execs _ _ Hq1).
        + by rewrite Ev, (dq_versions _ _ Hq1).
        + by rewrite Ew, (dq_workflows _ _ Hq1).
        + rewrite Ed, (dq_dlq _ _ Hq1). eauto.
        + eapply dlq_ok_update_node; [apply Hinv|exact Hn|congruence|by rewrite En, Hnodes|].
          by rewrite Ed, (dq_dlq _ _ Hq1).
        + done.
        + intros wf e nodes Hx. by apply (m_recover wf e nodes _ (abs_node n)). }
    split; [done|]. intros _. split_and!; [|done|done]. split; [|done].
    rewrite Hdb. eapply evolves_db_inv; [exact HRP|apply Hft|done].
Qed.

Lemma recover_and_claim_evolved fs mid prev me w r w' :
  R LRecover → fresh_tx w → synced w → recover_and_claim fs mid prev me w = (r, w') →
  evolved w w' ∧ (∀ n, r = Ok (Some n) → s_execs (w_session w') = s_execs (w_session w)).
Proof.
  intros HR Hft Hs. unfold recover_and_claim. rewrite run_bind.
  destruct (recover_job fs mid prev me w) as [[b|e] w1] eqn:Hr;
    destruct (recover_evolved _ _ _ _ _ _ _ HR Hft Hs Hr) as [Hev Hok].
  2:{ by intros [= <- <-]. }
  destruct b; [|by intros [= <- <-]]. intros Hc.
  destruct Hok as (Hft1 & Hs1 & He1); [done|].
  destruct (claim_evolved _ _ _ _ Hft1 Hs1 Hc) as [Hev1 He2]. split.
  - unfold evolved in *. rewrite (ft_committed _ Hft1) in Hev.
    eapply evolves_trans; [exact HRP|apply Hft|exact Hev|exact Hev1].
  - intros n Hn. by rewrite (He2 n Hn).
Qed.

(** ** A transaction on one execution *)

Lemma evolved_tx eid t w w1 :
  fresh_tx w → tx_frame eid w w1 → in_tx eid t w1 → db_wf (w_db w1) → dlq_ok (w_db w1) →
  (∀ id, (w_next_uuid w1 ≤ id)%N → db_nodes (w_db w1) !! id = None) →
  (∀ id, (w_next_uuid w1 ≤ id)%N → db_executions (w_db w1) !! id = None) →
  match db_executions (w_db w) !! eid with
  | Some e => same_exec e (tx_exec t) ∧
      ∃ wf a ls, definition_of (w_db w) eid = Some wf ∧ abs (w_db w) eid = Some a ∧
                 mrun wf ls a (abs_tx t) ∧ Forall R ls
  | None => (w_next_uuid w ≤ eid)%N ∧
      ∃ wf, definition_of (w_db w1) eid = Some wf ∧ graph_ok registry wf ∧ m_initial wf (abs_tx t)
  end → evolved w (w_commit w1).
Proof.
  intros [Hinv Hc] Hf Ht Hwf1 Hdlq1 Hfn Hfe Hcase. pose proof (di_wf _ _ _ _ Hinv) as Hwf.
  unfold evolved. simpl. split; try done.
  - by rewrite (tf_versions _ _ _ Hf).
  - rewrite (tf_versions _ _ _ Hf). apply Hinv.
  - intros i e He. destruct (decide (i = eid)) as [->|Hne].
    + pose proof (it_exec _ _ _ Ht) as He'. rewrite He in He'. injection He' as ->.
      pose proof (in_tx_abs _ _ _ Hwf1 Ht) as Habs.
      destruct (db_executions (w_db w) !! eid) as [e0|].
      * destruct Hcase as (Hs & wf & a & ls & Hd & Ha & Hr & HPl). split; [done|].
        by exists wf, a, (abs_tx t), ls.
      * destruct Hcase as (Hle & wf & Hd & Hg & Hi). split; [done|].
        exists wf, (abs_tx t). split_and!; try done. exists (abs_tx t), []. split_and!; [done|constructor..].
    + rewrite (tf_execs _ _ _ Hf) in He by done. rewrite He. split; [reflexivity|].
      destruct (db_inv_exec _ _ _ _ _ _ Hinv He) as (wf & a & Hd & Ha & _).
      exists wf, a, a, []. split_and!; try done; [|constructor..].
      by rewrite (tx_frame_abs eid w w1).
  - apply Hf.
Qed.

(** ** Load and execute *)

Lemma load_evolved str_exc net node w r w' :
  fresh_tx w → s_execs (w_session w) = ∅ →
  load_and_execute str_exc registry net node w = (r, w') →
  evolved w w' ∧ ∀ ld result, r = Ok (ld, result) →
    task_ok (w_committed w') (w_next_uuid w') (TLoaded (w_session w') ld result).
Proof.
  intros Hft Hs Hrun. pose proof Hft as [Hinv Hc].
  apply (wp_adequate _ (fun r w' => evolved w w' ∧ ∀ ld result, r = Ok (ld, result) →
    task_ok (w_committed w') (w_next_uuid w') (TLoaded (w_session w') ld result)) _ _ _ Hrun).
  assert (∀ e w1, w_committed w1 = w_committed w → w_next_uuid w1 = w_next_uuid w →
    evolved w w1 ∧ ∀ ld result, @Err exc (Loaded * ExecutorResult) e = Ok (ld, result) →
      task_ok (w_committed w1) (w_next_uuid w1) (TLoaded (w_session w1) ld result)) as Herr.
  { intros e w1 H1 H2. split; [|done]. apply evolved_none; [done|done|lia]. }
  unfold load_and_execute. apply wp_bind.
  destruct (s_nodes (w_session w) !! node) as [n|] eqn:Hn.
  2:{ eapply wp_run_err; [|by apply (Herr EAttributeError w)].
      unfold load_job, node_object. rewrite run_bind. by rewrite Hn. }
  eapply wp_load_job; [exact Hn|exact Hs|by auto|].
  intros ld e v w1 Hdb Hc1 Hnow Hq Hnx He Hv Hlde Hldd Hldn _ Hobj.
  apply wp_bind, wp_lift. destruct (run_executor _ _ _ _) as [result|x]; [|by apply Herr].
  apply wp_ret. split; [apply evolved_none; [done|done|lia]|]. intros ld' result' [= <- <-].
  pose proof (dw_exec_key _ (di_wf _ _ _ _ Hinv) _ _ He) as Hkey.
  simpl. rewrite Hlde, Hkey, Hnx, Hc1, Hc. split.
  - destruct (N.lt_ge_cases (ne_execution_id n) (w_next_uuid w)) as [|Hge]; [done|].
    rewrite (di_execs_fresh _ _ _ _ Hinv) in He; done.
  - exists e. split; [done|]. intros e' He'. rewrite He in He'. injection He' as <-.
    split; [by intros ?|]. unfold definition_of. rewrite He. simpl. by rewrite Hv, Hldd.
Qed.

(** ** Complete *)

(** A completion adds at most a job for a node that is dead-lettered from now on. *)
Lemma completed_dlq_ok ld result t r t' w w1 :
  fresh_tx w → tx_frame (ex_id (ld_execution ld)) w w1 → in_tx (ex_id (ld_execution ld)) t' w1 →
  tx_rows t = rows_of (w_db w) (ex_id (ld_execution ld)) → tx_dlq t = db_dlq (w_db w) →
  completed ld result t r t' → dlq_ok (w_db w1).
Proof.
  intros [Hinv _] Hf Ht Hrows Hdlq Hc. pose proof (di_wf _ _ _ _ Hinv) as Hwf.
  pose proof (di_dlq _ _ _ _ Hinv) as [Hdead Hu]. set (eid := ex_id (ld_execution ld)) in *.
  destruct (completed_keeps _ _ _ _ _ Hc) as (_ & Hkeep & Hcase). rewrite Hrows in *.
  assert (∀ id n, db_nodes (w_db w) !! id = Some n → ne_status n = NDEAD_LETTERED →
            db_nodes (w_db w1) !! id = Some n) as Hold.
  { intros id n Hn Hs. destruct (decide (ne_execution_id n = eid)) as [He|He].
    - pose proof (dw_node_key _ Hwf _ _ Hn) as Hk.
      assert (rows_of (w_db w) eid !! ne_node_id n = Some n) as Hr
        by (apply rows_of_lookup; [done|]; by rewrite Hk).
      apply (Hkeep _ _ Hr), (it_rows _ _ _ Ht) in Hs as (Hn1 & _). by rewrite <- Hk.
    - by apply (tx_frame_other _ _ _ _ _ Hf He). }
  destruct Hcase as [Hsame|(k & j & x & n & n' & Hnew & Hje & Hjn & Hx & Hrun & Hx' & Hs' & Hid')].
  - split; rewrite (it_dlq _ _ _ Ht), Hsame, Hdlq; [|done].
    intros k j Hj Hr. destruct (Hdead _ _ Hj Hr) as (n & Hn & Hs). exists n. auto.
  - assert (∀ k0 j0, db_dlq (w_db w) !! k0 = Some j0 → dl_resolved_at j0 = None →
              dl_node_execution_id j0 ≠ dl_node_execution_id j) as Hother.
    { intros k0 j0 Hj0 Hr0 Heq. destruct (Hdead _ _ Hj0 Hr0) as (m & Hm & Hs).
      apply rows_of_lookup in Hx as (Hn & _); [|done]. rewrite Heq, Hjn, Hn in Hm. congruence. }
    split; rewrite (it_dlq _ _ _ Ht), Hnew, Hdlq.
    + intros k0 j0. rewrite lookup_insert. case_decide as Hk.
      * intros [= <-] _. exists n'. split; [|done]. apply (it_rows _ _ _ Ht) in Hx' as (Hn' & _).
        by rewrite Hjn, <- Hid'.
      * intros Hj Hr. destruct (Hdead _ _ Hj Hr) as (m & Hm & Hs). exists m. auto.
    + intros k1 k2 j1 j2. rewrite !lookup_insert. repeat case_decide; subst; try done.
      * intros [= <-] Hj2 _ Hr2 Heq. by destruct (Hother _ _ Hj2 Hr2).
      * intros Hj1 [= <-] Hr1 _ Heq. by destruct (Hother _ _ Hj1 Hr1).
      * apply Hu.
Qed.

(** The execution has been deleted. *)
Lemma complete_gone set_order ld result w r w' :
  fresh_tx w → db_executions (w_db w) !! ex_id (ld_execution ld) = None →
  complete_job set_order ld result w = (r, w') → evolved w w'.
Proof.
  intros Hft He. pose proof Hft as [Hinv Hc]. pose proof (di_wf _ _ _ _ Hinv) as Hwf. unfold complete_job.
  rewrite run_bind. unfold select_execution. rewrite He, run_bind. unfold select_nodes.
  assert (nodes_of_execution (w_db w) (ex_id (ld_execution ld)) = ∅) as ->.
  { apply map_eq. intros id. rewrite lookup_empty. apply eq_None_not_Some. intros [n Hn].
    apply elem_of_nodes_of_execution in Hn as [Hn Hne].
    destruct (dw_node_exec _ Hwf _ _ Hn) as [x Hx]. congruence. }
  rewrite map_to_list_empty. simpl. intros [= <- <-]. by apply evolved_none.
Qed.

(** Completing a job makes no row. *)
Lemma completed_fresh ld result t0 r t' w w1 :
  fresh_tx w → tx_rows t0 = rows_of (w_db w) (ex_id (ld_execution ld)) → completed ld result t0 r t' →
  in_tx (ex_id (ld_execution ld)) t' w1 → tx_frame (ex_id (ld_execution ld)) w w1 →
  ∀ id, (w_next_uuid w1 ≤ id)%N → db_nodes (w_db w1) !! id = None.
Proof.
  intros [Hinv Hc] Ht0 Hcomp Ht1 Hf1 id Hid. destruct (db_nodes (w_db w1) !! id) as [n|] eqn:Hn; [|done].
  exfalso. pose proof (tf_next _ _ _ Hf1) as Hle.
  assert (db_nodes (w_db w) !! id = None) as Hno by (apply (di_nodes_fresh _ _ _ _ Hinv); lia).
  destruct (decide (ne_execution_id n = ex_id (ld_execution ld))) as [Hne|Hne].
  - destruct (it_cover _ _ _ Ht1 _ _ Hn Hne) as [Hnid Hrow].
    pose proof (completed_ids _ _ _ _ _ Hcomp (ne_node_id n)) as Hids. rewrite Hrow, Ht0 in Hids.
    simpl in Hids. symmetry in Hids. apply fmap_Some in Hids as (m & Hm & Hmid).
    apply rows_of_lookup in Hm as (Hm & _); [|apply Hinv]. congruence.
  - apply (tx_frame_other _ _ _ _ _ Hf1 Hne) in Hn. congruence.
Qed.

Lemma complete_evolved set_order ld result w r w' :
  (∀ l, set_order l ≡ₚ l) → fresh_tx w →
  task_ok (w_db w) (w_next_uuid w) (TLoaded (w_session w) ld result) →
  complete_job set_order ld result w = (r, w') → evolved w w'.
Proof.
  intros Hord Hft (Hlt & obj & Hobj & Hok) Hrun. pose proof Hft as [Hinv Hc].
  pose proof (di_wf _ _ _ _ Hinv) as Hwf. set (eid := ex_id (ld_execution ld)) in *.
  destruct (db_executions (w_db w) !! eid) as [e|] eqn:He; [|by eapply complete_gone].
  destruct (Hok e eq_refl) as [Hobjok Hdef].
  destruct (db_inv_exec _ _ _ _ _ _ Hinv He) as (wf & a & Hdef' & Ha & Hg & Hreach).
  rewrite Hdef in Hdef'. injection Hdef' as <-.
  assert (a = mkMState (ex_status e) (abs_rows (rows_of (w_db w) eid))) as Haeq.
  { unfold abs in Ha. rewrite He in Ha. by injection Ha as <-. }
  apply (wp_adequate _ (fun _ w' => evolved w w') _ _ _ Hrun).
  eapply wp_complete_job; [exact Hord|done|exact He|exact Hobj|..].
  - intros p c. by eapply edge_row.
  - intros r0 t' w1 Hcomp Ht1 Hf1. destruct r0 as [refs|].
    2:{ apply evolved_none; [done|apply Hf1|apply Hf1]. }
    pose proof (completed_keeps _ _ _ _ _ Hcomp) as (Hsame & _ & Hcase). simpl in Hsame.
    assert (db_wf (w_db w1)) as Hwf1.
    { eapply in_tx_db_wf; [exact Hwf|exact Hf1|exact Ht1| | |].
      - destruct Hsame as (-> & _). by apply (dw_exec_key _ Hwf).
      - destruct Hsame as (_ & -> & ->). by eapply (dw_exec_version _ Hwf).
      - intros k j Hj. destruct Hcase as [Heq|(k' & j' & x & n & n' & Heq & Hje & Hjn & _ & _ & Hx' & _ & Hid')].
        + rewrite Heq in Hj. by left.
        + rewrite Heq, lookup_insert in Hj. case_decide; [|by left]. injection Hj as <-. right.
          exists x, n'. split_and!; [done|congruence|done]. }
    eapply (evolved_tx eid t'); [done|done|done|done| | | |].
    + eapply (completed_dlq_ok ld result); [done|exact Hf1|exact Ht1| | |exact Hcomp]; done.
    + refine (completed_fresh ld result _ _ t' w w1 Hft _ Hcomp Ht1 Hf1). reflexivity.
    + intros id Hid. pose proof (tf_next _ _ _ Hf1) as Hle.
      rewrite (tf_execs _ _ _ Hf1) by (intros ->; lia). apply (di_execs_fresh _ _ _ _ Hinv). lia.
    + rewrite He. split; [done|].
      match type of Hcomp with completed _ _ ?t0 _ _ =>
        destruct (completed_step ld result t0 refs t' Hobjok Hcomp) as (l & Hl & Hstep) end.
      exists (ld_definition ld), a, [l]. split_and!; [done|done| |].
      * apply mrun_one. by rewrite Haeq.
      * constructor; [|done]. apply HW. rewrite !elem_of_cons in Hl.
        by destruct Hl as [-> |[-> |[-> |?%not_elem_of_nil]]].
  - intros x w1 _ Hf1. apply evolved_none; [done|apply Hf1|apply Hf1].
Qed.

(** ** Publish *)

Lemma publish_evolved vid eid refs w r w' :
  fresh_tx w → publish_nodes vid eid refs w = (r, w') → evolved w w'.
Proof.
  intros Hft Hrun. pose proof Hft as [Hinv Hc].
  apply (wp_adequate _ (fun _ w' => evolved w w') _ _ _ Hrun). apply wp_publish_nodes.
  - intros w1 w2 [Hq Hc1 Hn1] Hq2. apply evolved_quiet; [done|by rewrite (qu_committed _ _ Hq2)|].
    rewrite (qu_next _ _ Hq2). simpl. lia.
  - intros e w1 H1 H2. apply evolved_none; [done|done|lia].
Qed.

Lemma retry_publish_evolved n e w r w' :
  fresh_tx w → retry_publish n e w = (r, w') → evolved w w'.
Proof.
  intros Hft Hrun. pose proof Hft as [Hinv Hc].
  apply (wp_adequate _ (fun _ w' => evolved w w') _ _ _ Hrun). unfold retry_publish.
  assert (∀ w1 : World Q, db_quiet (w_db w) (w_committed w1) → w_next_uuid w1 = w_next_uuid w →
    evolved w w1) as Hok.
  { intros w1 Hq Hn. apply evolved_quiet; [done|done|lia]. }
  assert (db_quiet (w_db w) (w_committed w)) as Hrefl by (rewrite Hc; apply db_quiet_refl).
  assert (∀ w1 : World Q, db_quiet (w_db w) (w_committed w1) → w_next_uuid w1 = w_next_uuid w →
    wp (flush_events ≫= fun _ => node_object n ≫= fun node => mret (node_dto node))
       (fun _ w' => evolved w w') (fun _ w' => evolved w w') w1) as Hend.
  { intros w1 Hq1 Hn1. apply wp_bind, wp_flush_events. intros w2 Hq2 _. apply wp_bind.
    assert (evolved w w2) as Hev.
    { apply Hok; [by rewrite (qu_committed _ _ Hq2)|by rewrite (qu_next _ _ Hq2)]. }
    unfold wp at 1, node_object. destruct (s_nodes (w_session w2) !! n); [by apply wp_ret|done]. }
  apply wp_bind. unfold wp at 1, node_object.
  destruct (s_nodes (w_session w) !! n) as [node|]; [|by apply Hok].
  apply wp_bind. unfold wp at 1, publish.
  destruct (publish_node_execution _ (w_queue w)) as [[m|x] q]; [|by apply Hok].
  apply wp_bind. destruct m as [m|]; [|by apply wp_ret, Hend].
  destruct (String.eqb m ""); [by apply wp_ret, Hend|].
  apply wp_bind. unfold wp at 1, update_node. cbn [w_set_queue w_db].
  destruct (db_nodes (w_db w) !! n) as [row|] eqn:Hrow; [|by apply Hok].
  apply wp_modify. apply Hend; [|done]. split; simpl; try done. intros id.
  rewrite lookup_alter. case_decide as Hid; [subst; by rewrite Hrow|].
  destruct (db_nodes (w_db w) !! id); simpl; [reflexivity|done].
Qed.

(** ** Start *)

Lemma start_evolved command owner w r w' :
  fresh_tx w → start_create registry command owner w = (r, w') → evolved w w'.
Proof.
  intros Hft Hrun. pose proof Hft as [Hinv Hc]. pose proof (di_wf _ _ _ _ Hinv) as Hwf.
  apply (wp_adequate _ (fun _ w' => evolved w w') _ _ _ Hrun). apply wp_start_create; [done|..].
  - split; apply Hinv.
  - intros v. apply (di_versions _ _ _ _ Hinv).
  - intros version workflow r0 refs t w1 Hvw Hown Hv [Ht Hf Hi He Hd [Hfn Hfe] _].
    set (eid := w_next_uuid w) in *.
    assert (db_executions (w_db w) !! eid = None) as Hno by (by apply (di_execs_fresh _ _ _ _ Hinv)).
    assert (∃ v, db_versions (w_db w) !! cmd_workflow_version_id command = Some v ∧
              db_workflows (w_db w) !! wv_workflow_id v = Some workflow ∧ v = version) as
      (v & Hver & Hwfl & ->).
    { unfold version_with_workflow in Hvw. destruct (db_versions _ !! _) as [v|]; [|done].
      simpl in Hvw. destruct (db_workflows _ !! wv_workflow_id v) as [wfl|] eqn:Hw; [|done].
      simpl in Hvw. injection Hvw as -> ->. by exists version. }
    assert (db_versions (w_db w) !! wv_id version = Some version) as Hver'.
    { by rewrite (dw_version_key _ Hwf _ _ Hver). }
    assert (db_wf (w_db w1)) as Hwf1.
    { eapply in_tx_db_wf; [exact Hwf|exact Hf|exact Ht|by rewrite He| |].
      - exists version, workflow. rewrite He. simpl. rewrite (dw_workflow_key _ Hwf _ _ Hwfl).
        by split_and!.
      - intros k j. rewrite Hd. by left. }
    eapply (evolved_tx eid t); [done|done|done|done| |exact Hfn|exact Hfe|].
    + pose proof (di_dlq _ _ _ _ Hinv) as [Hdead Hu].
      split; rewrite (it_dlq _ _ _ Ht), Hd; [|done]. intros k j Hj Hr.
      destruct (Hdead _ _ Hj Hr) as (n & Hn & Hs). exists n. split; [|done].
      apply (tx_frame_other _ _ _ _ _ Hf); [|done]. intros Heq.
      destruct (dw_node_exec _ Hwf _ _ Hn) as [x Hx]. rewrite Heq in Hx. congruence.
    + rewrite Hno. split; [done|]. exists (wv_definition version). split_and!; [| |done].
      * unfold definition_of. rewrite (it_exec _ _ _ Ht), He. simpl.
        rewrite (tf_versions _ _ _ Hf). by rewrite Hver'.
      * apply (validate_workflow_is_ok registry (wv_definition version)). by rewrite Hv.
  - intros e _. apply evolved_none; [done|done|lia].
Qed.

(** ** Retry *)

Lemma retry_evolved eid x owner w r w' :
  R LManualRetry → fresh_tx w → synced w → retry_requeue eid x owner w = (r, w') → evolved w w'.
Proof using.
  intros HPm Hft Hs Hrun. pose proof Hft as [Hinv Hc]. pose proof (di_wf _ _ _ _ Hinv) as Hwf.
  pose proof (di_dlq _ _ _ _ Hinv) as Hdlq.
  apply (wp_adequate _ (fun _ w' => evolved w w') _ _ _ Hrun).
  apply wp_retry_requeue; [done|done|done|..].
  - intros e a w1 _ H1 H2 _. apply evolved_none; [done|done|lia].
  - intros n m' w0 w1 e Hrow Hst _ Hl Hw Hm'.
    apply rows_of_lookup in Hrow as (Hn & He & Hx); [|done].
    destruct Hl as [Hdb0 Hc0 Hnow0 Hn0]. unfold evolved. simpl.
    assert (∀ k j, m' !! k = Some j → ∃ j0, db_dlq (w_db w) !! k = Some j0 ∧
       dl_node_execution_id j = dl_node_execution_id j0 ∧ dl_execution_id j = dl_execution_id j0 ∧
       (dl_resolved_at j = None → dl_resolved_at j0 = None ∧ dl_node_execution_id j0 ≠ ne_id n)) as Hback.
    { intros k j. rewrite (Hm' k), fmap_Some. intros (j0 & Hj0 & ->). exists j0. case_decide as Hd;
        (split_and!; [done..|]); [done|]. intros Hr. split; [done|]. intros Heq. by apply Hd. }
    apply (evolves_update_node _ P _ _ _ _ _ (ne_id n) n (entered (w_now w) NQUEUED n) LManualRetry).
    + exact Hinv.
    + pose proof (wr_next _ _ _ _ Hw). lia.
    + exact Hn.
    + apply same_node_enter.
    + simpl. rewrite (wr_nodes _ _ _ _ Hw). by rewrite Hdb0.
    + simpl. rewrite (wr_execs _ _ _ _ Hw). by rewrite Hdb0.
    + simpl. rewrite (wr_versions _ _ _ _ Hw). by rewrite Hdb0.
    + simpl. rewrite (wr_workflows _ _ _ _ Hw). by rewrite Hdb0.
    + intros k j Hj. destruct (Hback k j Hj) as (j0 & ? & ? & ? & _). eauto.
    + destruct Hdlq as [Hdead Hu]. split; simpl.
      * intros k j Hj Hr. destruct (Hback k j Hj) as (j0 & Hj0 & -> & _ & Hopen).
        destruct (Hopen Hr) as [Hr0 Hne]. destruct (Hdead _ _ Hj0 Hr0) as (m & Hm & Hms).
        exists m. split; [|done]. rewrite (wr_nodes _ _ _ _ Hw), Hdb0.
        by rewrite lookup_insert_ne.
      * intros k1 k2 j1 j2 H1 H2 R1 R2 Heq.
        destruct (Hback _ _ H1) as (i1 & I1 & N1 & _ & O1). destruct (Hback _ _ H2) as (i2 & I2 & N2 & _ & O2).
        destruct (O1 R1), (O2 R2). by apply (Hu k1 k2 i1 i2); try congruence.
    + done.
    + intros wf e' nodes Hnx. by apply (m_manual_retry wf e' nodes _ (abs_node n)).
Qed.

(** ** Delete *)

Lemma delete_evolved eid owner w r w' :
  fresh_tx w → s_execs (w_session w) = ∅ → delete_execution eid owner w = (r, w') → evolved w w'.
Proof.
  intros Hft Hs Hrun. pose proof Hft as [Hinv Hc]. pose proof (di_wf _ _ _ _ Hinv) as Hwf.
  apply (wp_adequate _ (fun _ w' => evolved w w') _ _ _ Hrun).
  apply wp_delete_execution; [done|done|..].
  - intros a _ _ _. apply evolved_none; [done|done|lia].
  - intros w1 _ _ Hnx Hcm _. unfold evolved. rewrite Hcm, Hnx.
    assert (db_wf (deleted eid (w_db w))) as Hwf1 by (by apply deleted_wf).
    split; try done.
    + apply Hinv.
    + intros i e. rewrite deleted_exec. case_decide as Hi; [done|]. intros He. rewrite He.
      split; [reflexivity|]. destruct (db_inv_exec _ _ _ _ _ _ Hinv He) as (wf & a & Hd & Ha & _).
      exists wf, a, a, []. split_and!; try done; [|constructor..].
      unfold abs in *. rewrite deleted_exec, decide_False by done. rewrite He in *. simpl in *.
      rewrite <- Ha. do 3 f_equal. apply map_eq. intros x. apply option_eq. intros n.
      rewrite !rows_of_lookup by done. rewrite deleted_node. naive_solver.
    + intros id Hid. destruct (db_nodes _ !! id) as [n|] eqn:Hn; [|done].
      apply deleted_node in Hn as [Hn _]. by rewrite (di_nodes_fresh _ _ _ _ Hinv) in Hn.
    + intros id Hid. rewrite deleted_exec. case_decide; [done|]. by apply (di_execs_fresh _ _ _ _ Hinv).
    + pose proof (di_dlq _ _ _ _ Hinv) as [Hdead Hu]. split.
      * intros k j [Hj Hje]%deleted_dlq Hr. destruct (Hdead _ _ Hj Hr) as (n & Hn & Hst).
        exists n. split; [|done]. apply deleted_node. split; [done|].
        destruct (dw_dlq _ Hwf _ _ Hj) as (n' & Hn' & Heq). congruence.
      * intros k1 k2 j1 j2 [H1 _]%deleted_dlq [H2 _]%deleted_dlq. by apply Hu.
Qed.

(** ** Resolve *)

Lemma evolves_dlq next d d' :
  db_inv registry P next d → db_executions d' = db_executions d → db_nodes d' = db_nodes d →
  db_versions d' = db_versions d → db_workflows d' = db_workflows d →
  (∀ k j, db_dlq d' !! k = Some j → ∃ j0, db_dlq d !! k = Some j0 ∧
     dl_node_execution_id j = dl_node_execution_id j0 ∧ dl_execution_id j = dl_execution_id j0 ∧
     (dl_resolved_at j = None → dl_resolved_at j0 = None)) →
  evolves registry R next next d d'.
Proof.
  intros Hinv Ee En Ev Ew Hback. pose proof (di_wf _ _ _ _ Hinv) as Hwf.
  pose proof (di_dlq _ _ _ _ Hinv) as [Hdead Hu]. split; try done.
  - pose proof Hwf as []. split; rewrite ?Ee, ?En, ?Ev, ?Ew; try done.
    intros k j (j0 & Hj & -> & -> & _)%Hback. by apply (Tx.dw_dlq _ Hwf k).
  - by rewrite Ev.
  - rewrite Ev. apply Hinv.
  - intros eid e He. rewrite Ee in He. rewrite He. split; [reflexivity|].
    destruct (db_inv_exec _ _ _ _ _ _ Hinv He) as (wf & a & Hd & Ha & _).
    exists wf, a, a, []. split_and!; try done; [by rewrite (abs_ext d' d)|constructor..].
  - rewrite En. apply (di_nodes_fresh _ _ _ _ Hinv).
  - rewrite Ee. apply (di_execs_fresh _ _ _ _ Hinv).
  - split.
    + intros k j (j0 & Hj & -> & _ & Hr)%Hback Hopen. rewrite En. by apply (Hdead k j0), Hr.
    + intros k1 k2 j1 j2 (i1 & I1 & -> & _ & R1)%Hback (i2 & I2 & -> & _ & R2)%Hback O1 O2 Heq.
      by apply (Hu k1 k2 i1 i2); auto.
Qed.

Lemma resolve_evolved dlq_id owner note w r w' :
  fresh_tx w → resolve_dlq_job dlq_id owner note w = (r, w') → evolved w w'.
Proof.
  intros Hft. pose proof Hft as [Hinv Hc]. unfold resolve_dlq_job, get_dlq_job.
  rewrite run_bind. erewrite run_bind_Ok; [|reflexivity]. cbn [mret SE_ret].
  destruct (owned_jobs (w_db w) owner !! dlq_id) as [job|].
  2:{ intros [= <- <-]. apply evolved_none; [done|done|lia]. }
  assert (∀ x : res exc DeadLetterJob, (x, w_commit (w_set_db (db_set_dlq (alter (resolve_job (w_now w) note) dlq_id)) w)) = (r, w') → evolved w w') as Hend.
  { intros x [= _ <-]. unfold evolved. simpl. apply evolves_dlq; try done. simpl.
    intros k j. rewrite lookup_alter. case_decide; [subst|eauto].
    intros (j0 & Hj0 & ->)%fmap_Some. exists j0. done. }
  rewrite run_bind. unfold datetime_now. cbn [gets].
  rewrite run_bind. unfold update_db, modify. rewrite run_bind. unfold commit, modify.
  rewrite run_bind. cbn [gets]. destruct (db_dlq _ !! dlq_id); apply Hend.
Qed.

(** ** New workflows *)

Lemma versions_evolves next next' d d' :
  db_inv registry P next d → versions_changed d d' → (next ≤ next')%N →
  evolves registry R next next' d d'.
Proof.
  intros Hinv [Hv Hw Hvk Hwk Hdef (Ee & En & Ed & _)] Hnext. pose proof (di_wf _ _ _ _ Hinv) as Hwf.
  split; try done.
  - pose proof Hwf as []. split; rewrite ?Ee, ?En, ?Ed; try done.
    intros id e He. destruct (Tx.dw_exec_version _ Hwf _ _ He) as (v & wf & H1 & H2 & H3).
    destruct (Hw id e wf He H2) as (wf' & ? & _). exists v, wf'. split_and!; [by eapply Hv|done|done].
  - intros eid e e' He _. destruct (Tx.dw_exec_version _ Hwf _ _ He) as (v & _ & H1 & _ & _).
    rewrite H1. by eapply Hv.
  - intros eid e He. rewrite Ee in He. rewrite He. split; [reflexivity|].
    destruct (db_inv_exec _ _ _ _ _ _ Hinv He) as (wf & a & Hd & Ha & _).
    exists wf, a, a, []. split_and!; try done; [by rewrite (abs_ext d' d)|constructor..].
  - intros id Hid. rewrite En. apply (di_nodes_fresh _ _ _ _ Hinv). lia.
  - intros id Hid. rewrite Ee. apply (di_execs_fresh _ _ _ _ Hinv). lia.
  - pose proof (di_dlq _ _ _ _ Hinv) as [Hdead Hu]. split; rewrite ?En, Ed; done.
Qed.

End stretches.

(** ** Every reachable state *)

Section reachable.
Context {Q : Type} `{QueuePublisher Q} {Net : Type}.
Context (str_exc : exc → string) (set_order : list json → list json)
  (registry : ExecutorRegistry Net) (P R : Label → Prop).
Hypothesis HRP : ∀ l, R l → P l.
Hypothesis HW : ∀ l, work l → R l.
Hypothesis Hord : ∀ l, set_order l ≡ₚ l.
Implicit Types s : Sys (Q := Q).

Lemma fresh_world s session : sys_inv registry P s → fresh_tx registry P (world_of s session).
Proof. intros [Hdb _]. by split. Qed.

Lemma synced_new s : synced (world_of s new_session).
Proof. intros id n. simpl. by rewrite lookup_empty. Qed.

(** What a step does: the tables evolve, and a task is an old one or agrees with them. *)
Definition step_effect s s' : Prop :=
  evolves registry R (sy_next_uuid s) (sy_next_uuid s') (sy_db s) (sy_db s') ∧
  ∀ i t, sy_tasks s' !! i = Some t →
    sy_tasks s !! i = Some t ∨ task_ok (sy_db s') (sy_next_uuid s') t.

Lemma step_effect_inv s s' : sys_inv registry P s → step_effect s s' → sys_inv registry P s'.
Proof.
  intros [Hdb Htasks] [Hev Hnew]. split; [by eapply evolves_db_inv|].
  intros i t Ht. destruct (Hnew i t Ht) as [Hold|]; [|done].
  eapply evolves_task_ok; [exact Hdb|exact Hev|]. by eapply Htasks.
Qed.

Lemma evolved_effect s session w' tasks :
  evolved registry R (world_of s session) w' →
  (∀ i t, tasks !! i = Some t →
     sy_tasks s !! i = Some t ∨ task_ok (w_committed w') (w_next_uuid w') t) →
  step_effect s (after w' tasks).
Proof. by split. Qed.

Lemma task_insert i t0 (tasks : gmap nat Task) (K : Task → Prop) :
  K t0 → ∀ j t, <[i := t0]> tasks !! j = Some t → tasks !! j = Some t ∨ K t.
Proof. intros HK j t. rewrite lookup_insert. case_decide; [intros [= <-]; by right|by left]. Qed.

Lemma task_delete i (tasks : gmap nat Task) (K : Task → Prop) :
  ∀ j t, delete i tasks !! j = Some t → tasks !! j = Some t ∨ K t.
Proof. intros j t. rewrite lookup_delete. case_decide; [done|by left]. Qed.

Lemma sys_initial_inv s : sys_initial s → sys_inv registry P s.
Proof.
  intros [Hdb Ht]. split; [|intros i t; by rewrite Ht, lookup_empty]. rewrite Hdb.
  split.
  - split; intros *; cbn; rewrite ?lookup_empty; done.
  - intros *; cbn; rewrite ?lookup_empty; done.
  - intros eid a Ha. unfold abs in Ha. cbn in Ha. by rewrite lookup_empty in Ha.
  - done.
  - done.
  - split; intros *; cbn; rewrite ?lookup_empty; done.
Qed.

Lemma sstep_effect s op s' :
  sys_inv registry P s → sstep str_exc set_order registry s op s' → (op = OpRecover → R LRecover) → (op = OpRetry → R LManualRetry) → step_effect s s'.
Proof using Hord HRP HW.
  intros Hinv Hstep HRr HRm. pose proof (fun ss => fresh_world s ss Hinv) as Hft.
  pose proof (sv_tasks _ _ _ Hinv) as Htasks.
  destruct Hstep as [i fs r w' Hi Hrun|i fs mid prev me r w' Hi Hrun|i ss n net r w' Hi Hrun
    |i ss ld res r w' Hi Hrun|i ss vid eid ns r w' Hi Hrun|i cmd owner r w' Hi Hrun
    |i eid x owner r w' Hi Hrun|i ss n e r w' Hi Hrun|eid owner r w' Hrun|k owner note r w' Hrun
    |d' Hd|q up now Hnow|i].
  - apply claim_evolved with (registry := registry) (P := P) (R := R) in Hrun as [Hev Hs]; [|exact HW|done|apply synced_new].
    eapply evolved_effect; [exact Hev|]. unfold claimed_task.
    destruct r as [[n|]|e]; [|by left..]. apply task_insert. simpl. by rewrite (Hs n).
  - apply recover_and_claim_evolved with (registry := registry) (P := P) (R := R) in Hrun as [Hev Hs]; [|exact HRP|exact HW|by apply HRr|done|apply synced_new].
    eapply evolved_effect; [exact Hev|]. unfold claimed_task.
    destruct r as [[n|]|e]; [|by left..]. apply task_insert. simpl. by rewrite (Hs n).
  - apply load_evolved with (P := P) (R := R) in Hrun as [Hev Hok]; [|done|exact (Htasks _ _ Hi)].
    eapply evolved_effect; [exact Hev|].
    destruct r as [[ld res]|e]; [|apply task_delete]. by apply task_insert, Hok.
  - eapply complete_evolved in Hrun; [|exact HW|exact Hord|exact (Hft ss)|exact (Htasks _ _ Hi)].
    eapply evolved_effect; [exact Hrun|].
    destruct r as [[ns|]|e]; [by apply task_insert|apply task_delete..].
  - eapply publish_evolved in Hrun; [|exact (Hft ss)].
    eapply evolved_effect; [exact Hrun|apply task_delete].
  - eapply start_evolved in Hrun; [|exact (Hft new_session)].
    eapply evolved_effect; [exact Hrun|].
    destruct r as [[[eid vid] roots]|e]; [by apply task_insert|by left].
  - eapply retry_evolved in Hrun; [|by apply HRm|exact (Hft new_session)|apply synced_new].
    eapply evolved_effect; [exact Hrun|].
    destruct r as [[n e]|e]; [by apply task_insert|by left].
  - eapply retry_publish_evolved in Hrun; [|exact (Hft ss)].
    eapply evolved_effect; [exact Hrun|apply task_delete].
  - eapply delete_evolved in Hrun; [|exact (Hft new_session)|done].
    eapply evolved_effect; [exact Hrun|by left].
  - eapply resolve_evolved in Hrun; [|exact (Hft new_session)].
    eapply evolved_effect; [exact Hrun|by left].
  - split; [by eapply versions_evolves; [apply Hinv|..]|by left].
  - split; [eapply evolves_refl; [apply Hinv|done]|by left].
  - split; [eapply evolves_refl; [apply Hinv|done]|apply task_delete].
Qed.

Lemma reachable_sys_inv allowed s :
  (allowed OpRecover → R LRecover) → (allowed OpRetry → R LManualRetry) →
  reachable str_exc set_order registry allowed s → sys_inv registry P s.
Proof using Hord HRP HW.
  intros HRr HRm. induction 1 as [|s op s' Hr IH Hop Hs]; [by apply sys_initial_inv|].
  eapply step_effect_inv; [exact IH|].
  eapply sstep_effect; [exact IH|exact Hs|intros ->; by apply HRr|intros ->; by apply HRm].
Qed.

End reachable.
