(* ===== verification/Execute.v ===== *)
(** * Running schedules

    A schedule is a list of actions; [exec_action] performs one, or does nothing when the
    task it names is not where it should be. Schedules give concrete reachable states, on
    which the theorems about every reachable state are tried out. *)

From Stdlib Require Import SpecFloat.
From S2P Require Import Prelude Json PyStr Errors Models Registry DagValidator Events Monad Store.
From S2P Require Import LogHelpers StateTransition Tx Machine Publisher Runtime.
From S2P Require Import Downstream Complete Engine Dlq Recovery Abstraction Start Steps System.
From S2P Require Import Evolution Invariant.

Section execute.
Context {Q : Type} `{QueuePublisher Q} {Net : Type}.
Context (str_exc : exc → string) (set_order : list json → list json)
  (registry : ExecutorRegistry Net).

Inductive Action : Type :=
| AClaim (i : nat) (fs : fields)
| ARecover (i : nat) (fs : fields) (message_id : string) (previous : option string) (me : string)
| ALoad (i : nat) (net : Net)
| AComplete (i : nat)
| APublish (i : nat)
| AStart (i : nat) (command : StartExecutionCommand) (owner : uuid)
| ARetry (i : nat) (execution_id : uuid) (node_id : string) (owner : uuid)
| ARetryPublish (i : nat)
| ADelete (execution_id owner : uuid)
| AResolve (dlq_id owner : uuid) (note : option string)
| ACrash (i : nat).

(** Nothing happens. *)
Definition idle (s : Sys (Q := Q)) : Op * Sys (Q := Q) :=
  (OpEnvironment, mkSys (sy_db s) (sy_queue s) (sy_channel s) (sy_redis_up s) (sy_now s)
                    (sy_next_uuid s) (sy_tasks s)).

Definition exec_action (a : Action) (s : Sys (Q := Q)) : Op * Sys (Q := Q) :=
  match a with
  | AClaim i fs =>
      match sy_tasks s !! i with
      | None => let '(r, w) := claim_job fs (world_of s new_session) in
                (OpClaim, after w (claimed_task i r w (sy_tasks s)))
      | _ => idle s
      end
  | ARecover i fs mid prev me =>
      match sy_tasks s !! i with
      | None => let '(r, w) := recover_and_claim fs mid prev me (world_of s new_session) in
                (OpRecover, after w (claimed_task i r w (sy_tasks s)))
      | _ => idle s
      end
  | ALoad i net =>
      match sy_tasks s !! i with
      | Some (TClaimed session node) =>
          let '(r, w) := load_and_execute str_exc registry net node (world_of s session) in
          (OpLoad, after w match r with
                           | Ok (ld, result) => <[i := TLoaded (w_session w) ld result]> (sy_tasks s)
                           | Err _ => delete i (sy_tasks s)
                           end)
      | _ => idle s
      end
  | AComplete i =>
      match sy_tasks s !! i with
      | Some (TLoaded session ld result) =>
          let '(r, w) := complete_job set_order ld result (world_of s session) in
          (OpComplete, after w match r with
             | Ok (Some nodes) =>
                 <[i := TPublish (w_session w) (ex_workflow_version_id (ld_execution ld))
                          (ex_id (ld_execution ld)) nodes]> (sy_tasks s)
             | _ => delete i (sy_tasks s)
             end)
      | _ => idle s
      end
  | APublish i =>
      match sy_tasks s !! i with
      | Some (TPublish session version_id execution_id nodes) =>
          let '(r, w) := publish_nodes version_id execution_id nodes (world_of s session) in
          (OpPublish, after w (delete i (sy_tasks s)))
      | _ => idle s
      end
  | AStart i command owner =>
      match sy_tasks s !! i with
      | None =>
          let '(r, w) := start_create registry command owner (world_of s new_session) in
          (OpStart, after w match r with
             | Ok (execution_id, version_id, roots) =>
                 <[i := TPublish (w_session w) version_id execution_id roots]> (sy_tasks s)
             | Err _ => sy_tasks s
             end)
      | _ => idle s
      end
  | ARetry i execution_id node_id owner =>
      match sy_tasks s !! i with
      | None =>
          let '(r, w) := retry_requeue execution_id node_id owner (world_of s new_session) in
          (OpRetry, after w match r with
             | Ok (n, e) => <[i := TRetryPublish (w_session w) n e]> (sy_tasks s)
             | Err _ => sy_tasks s
             end)
      | _ => idle s
      end
  | ARetryPublish i =>
      match sy_tasks s !! i with
      | Some (TRetryPublish session n e) =>
          let '(r, w) := retry_publish n e (world_of s session) in
          (OpRetryPublish, after w (delete i (sy_tasks s)))
      | _ => idle s
      end
  | ADelete execution_id owner =>
      let '(r, w) := delete_execution execution_id owner (world_of s new_session) in
      (OpDelete, after w (sy_tasks s))
  | AResolve dlq_id owner note =>
      let '(r, w) := resolve_dlq_job dlq_id owner note (world_of s new_session) in
      (OpResolve, after w (sy_tasks s))
  | ACrash i =>
      (OpCrash, mkSys (sy_db s) (sy_queue s) (sy_channel s) (sy_redis_up s) (sy_now s)
                  (sy_next_uuid s) (delete i (sy_tasks s)))
  end.

Lemma idle_step s : sstep str_exc set_order registry s (idle s).1 (idle s).2.
Proof. by apply st_environment. Qed.

(** An action is a step of the system. *)
Lemma exec_action_step a s :
  sstep str_exc set_order registry s (exec_action a s).1 (exec_action a s).2.
Proof.
  destruct a as [i fs|i fs mid prev me|i net|i|i|i command owner|i eid x owner|i|eid owner
                |k owner note|i]; simpl.
  - destruct (sy_tasks s !! i) eqn:Hi; [apply idle_step|].
    destruct (claim_job _ _) as [r w] eqn:Hr. by eapply st_claim.
  - destruct (sy_tasks s !! i) eqn:Hi; [apply idle_step|].
    destruct (recover_and_claim _ _ _ _ _) as [r w] eqn:Hr. by eapply st_recover.
  - destruct (sy_tasks s !! i) as [[]|] eqn:Hi; try apply idle_step.
    destruct (load_and_execute _ _ _ _ _) as [r w] eqn:Hr. by eapply st_load.
  - destruct (sy_tasks s !! i) as [[]|] eqn:Hi; try apply idle_step.
    destruct (complete_job _ _ _ _) as [r w] eqn:Hr. by eapply st_complete.
  - destruct (sy_tasks s !! i) as [[]|] eqn:Hi; try apply idle_step.
    destruct (publish_nodes _ _ _ _) as [r w] eqn:Hr. by eapply st_publish.
  - destruct (sy_tasks s !! i) eqn:Hi; [apply idle_step|].
    destruct (start_create _ _ _ _) as [r w] eqn:Hr. by eapply st_start.
  - destruct (sy_tasks s !! i) eqn:Hi; [apply idle_step|].
    destruct (retry_requeue _ _ _ _) as [r w] eqn:Hr. by eapply st_retry.
  - destruct (sy_tasks s !! i) as [[]|] eqn:Hi; try apply idle_step.
    destruct (retry_publish _ _ _) as [r w] eqn:Hr. by eapply st_retry_publish.
  - destruct (delete_execution _ _ _) as [r w] eqn:Hr. by eapply st_delete.
  - destruct (resolve_dlq_job _ _ _ _) as [r w] eqn:Hr. by eapply st_resolve.
  - apply st_crash.
Qed.

Definition run_schedule (l : list Action) (s : Sys (Q := Q)) : Sys (Q := Q) :=
  foldl (fun s a => (exec_action a s).2) s l.

Definition is_retry (a : Action) : bool := match a with ARetry _ _ _ _ => true | _ => false end.

Lemma run_schedule_reachable (l : list Action) s :
  reachable str_exc set_order registry (fun _ => True) s →
  reachable str_exc set_order registry (fun _ => True) (run_schedule l s).
Proof.
  revert s. induction l as [|a l IH]; intros s Hs; [done|]. apply IH.
  eapply reach_step; [exact Hs|done|apply exec_action_step].
Qed.

(** Only [ARetry] is a manual retry. *)
Lemma exec_action_automatic a s : is_retry a = false → (exec_action a s).1 ≠ OpRetry.
Proof.
  destruct a; simpl; intros Ha; try done; repeat (case_match; simpl); done.
Qed.

Lemma run_schedule_automatic (l : list Action) s :
  forallb (negb ∘ is_retry) l = true →
  reachable str_exc set_order registry (fun op => op ≠ OpRetry) s →
  reachable str_exc set_order registry (fun op => op ≠ OpRetry) (run_schedule l s).
Proof.
  revert s. induction l as [|a l IH]; intros s Hl Hs; [done|]. simpl in Hl.
  apply andb_true_iff in Hl as [Ha Hl]. apply IH; [done|].
  eapply reach_step; [exact Hs| |apply exec_action_step].
  apply exec_action_automatic. by apply negb_true_iff.
Qed.

End execute.

Arguments Action : clear implicits.

(** ** A small deployment

    Redis is down, so nothing goes over the channel; jobs go to the in-memory queue. The
    executors answer what the schedule says. *)

Definition scripted (t : string) : Executor ExecutorResult :=
  mkExecutor t (fun _ => Ok tt) (fun result _ => Ok result).

Definition demo_registry : ExecutorRegistry ExecutorResult :=
  register (scripted "condition") (register (scripted "task") []).

Definition task_node (id : string) : Node :=
  mkNode id "task" "" [] (Some (mkRetryPolicy 2 1 1 (S754_finite false 4503599627370496 (-51)))).

(** pick chooses left or right; left leads to report, right to audit. *)
Definition pick_workflow : WorkflowDefinition :=
  mkWorkflowDefinition "pick" ""
    (mkNode "pick" "condition" "" [("true_path", JStr "left"); ("false_path", JStr "right")]%string None
     :: (task_node <$> ["left"; "right"; "report"; "audit"]%string))
    [mkEdge "pick" "left" None; mkEdge "pick" "right" None; mkEdge "left" "report" None;
     mkEdge "right" "audit" None] None.

(** The tables with one workflow, of owner 7, and one version of it. *)
Definition tables_of (wf : WorkflowDefinition) : DB :=
  mkDB {[1%N := mkWorkflow 1 7 "pick" None 0 0]}
    {[2%N := mkWorkflowVersion 2 1 1 wf "" 0]} ∅ ∅ ∅ [].

Definition demo_db : DB := tables_of pick_workflow.

(** What [str] makes of an exception that is no [AppError]. *)
Definition demo_exc (_ : exc) : string := "error".

Definition start_of (wf : WorkflowDefinition) : Sys (Q := InMemoryQueuePublisher) :=
  mkSys (tables_of wf) (mkInMemory []) [] false 1000 100 ∅.

Definition demo_start : Sys (Q := InMemoryQueuePublisher) := start_of pick_workflow.

Lemma start_of_reachable {Net} (registry : ExecutorRegistry Net) allowed wf :
  definition_wf wf = true → allowed OpVersions →
  reachable demo_exc id registry allowed (start_of wf).
Proof.
  intros Hwf Hv. eapply (reach_step _ _ _ _ (mkSys empty_db (mkInMemory []) [] false 1000 100 ∅)).
  - by apply reach_init.
  - exact Hv.
  - apply (st_versions _ _ _ (mkSys empty_db (mkInMemory []) [] false 1000 100 ∅)); [split; simpl|done].
    + done.
    + done.
    + intros id v. rewrite lookup_singleton. case_decide; [by intros [= <-]|done].
    + intros id v. rewrite lookup_singleton. case_decide; [by intros [= <-]|done].
    + intros id v. rewrite lookup_singleton. case_decide; [|done]. by intros [= <-].
    + done.
Qed.

Lemma demo_start_reachable allowed :
  allowed OpVersions → reachable demo_exc id demo_registry allowed demo_start.
Proof. intros Hv. apply start_of_reachable; [vm_compute; reflexivity|exact Hv]. Qed.

(** The message of a node's job. *)
Definition demo_message (execution node : uuid) (x : string) (attempt : Z) : fields :=
  serialize_job_payload (mkJob execution node 2 x attempt).

Definition demo_run (l : list (Action ExecutorResult)) : Sys :=
  run_schedule demo_exc id demo_registry l demo_start.

Lemma demo_run_reachable l :
  reachable demo_exc id demo_registry (fun _ => True) (demo_run l).
Proof. apply run_schedule_reachable. by apply demo_start_reachable. Qed.

Lemma demo_run_automatic l :
  forallb (negb ∘ is_retry) l = true →
  reachable demo_exc id demo_registry (fun op => op ≠ OpRetry) (demo_run l).
Proof. intros Hl. apply run_schedule_automatic; [done|]. by apply demo_start_reachable. Qed.

(** One more action is one more step. *)
Lemma demo_run_snoc l a :
  demo_run (l ++ [a]) = (exec_action demo_exc id demo_registry a (demo_run l)).2.
Proof. unfold demo_run, run_schedule. by rewrite foldl_app. Qed.

Lemma demo_run_step l a op :
  (exec_action demo_exc id demo_registry a (demo_run l)).1 = op →
  sstep demo_exc id demo_registry (demo_run l) op (demo_run (l ++ [a])).
Proof. intros <-. rewrite demo_run_snoc. apply exec_action_step. Qed.

(** Every schedule of the demo keeps the invariant of the tables. *)
Lemma demo_inv l :
  db_inv demo_registry (fun _ => True) (sy_next_uuid (demo_run l)) (sy_db (demo_run l)).
Proof.
  eapply (sv_db demo_registry).
  by eapply (reachable_sys_inv demo_exc id demo_registry (fun _ => True) (fun _ => True)),
    demo_run_reachable.
Qed.

Lemma demo_wf l : db_wf (sy_db (demo_run l)).
Proof. apply (di_wf _ _ _ _ (demo_inv l)). Qed.

(** A request or a message arrives: a world with a new session. *)
Definition demo_world (l : list (Action ExecutorResult)) : World InMemoryQueuePublisher :=
  world_of (demo_run l) new_session.

#[global] Arguments demo_world : simpl never.
#[global] Arguments demo_run : simpl never.

Lemma demo_world_wf l : db_wf (w_db (demo_world l)).
Proof. apply demo_wf. Qed.

Lemma demo_world_dlq l : dlq_ok (w_db (demo_world l)).
Proof. apply (di_dlq _ _ _ _ (demo_inv l)). Qed.

Lemma demo_world_fresh l : fresh_ids (demo_world l).
Proof. split; [apply (di_nodes_fresh _ _ _ _ (demo_inv l))|apply (di_execs_fresh _ _ _ _ (demo_inv l))]. Qed.

Lemma demo_world_synced l : synced (demo_world l).
Proof.
  intros id n Hn. change ((∅ : gmap uuid NodeExecution) !! id = Some n) in Hn.
  by rewrite lookup_empty in Hn.
Qed.

(** ** Schedules *)

Definition demo_command : StartExecutionCommand := mkStartExecutionCommand 2 [].

Definition pick_left : list (Action ExecutorResult) :=
  [AStart 0 demo_command 7; APublish 0; AClaim 1 (demo_message 100 101 "pick" 1);
   ALoad 1 (success_result [("next_node", JStr "left")]%string)].

Definition left_queued : list (Action ExecutorResult) := pick_left ++ [AComplete 1; APublish 1].

Definition left_fails (i : nat) (attempt : Z) : list (Action ExecutorResult) :=
  [AClaim i (demo_message 100 102 "left" attempt); ALoad i (failed_result "boom"); AComplete i].

Definition left_dead : list (Action ExecutorResult) :=
  left_queued ++ left_fails 2 1 ++ [APublish 2] ++ left_fails 3 2.
