(* ===== verification/Handlers.v ===== *)
(** * The handlers, branch by branch

    What each stretch of the worker and of the engine returns and leaves behind, on every
    branch, for a session and tables that agree. A call is a function, so the statements
    have the form: whatever the call returned, this holds. *)

From S2P Require Import Prelude Json PyStr Errors Models Registry DagValidator Events Monad Store.
From S2P Require Import LogHelpers StateTransition Tx Machine Publisher Runtime Downstream Complete.
From S2P Require Import Engine Dlq Recovery Abstraction Start Steps System Evolution Invariant.
From S2P Require Import Execute.

Section handlers.
Context {Q : Type} `{QueuePublisher Q} {Net : Type}.
Implicit Types (w : World Q) (t : Tx).

(** ** Claim *)

(** C24. A message claims its node only if the node is queued; then the committed row says
    [RUNNING] and nothing else of the tables but the log has changed. A message whose node
    is gone or has ended is dropped, and one whose node is in any other state (a second
    delivery while the first is at work) is refused with [invalid_transition]; neither
    commits anything. *)
Theorem claim_job_spec fs w r w' :
  db_wf (w_db w) → synced w → claim_job fs w = (r, w') →
  match deserialize_job_payload fs with
  | Err e => r = Err e ∧ w_committed w' = w_committed w
  | Ok job =>
      let id := job_node_execution_id job in
      match db_nodes (w_db w) !! id with
      | None => r = Ok None ∧ w_committed w' = w_committed w
      | Some n =>
          if decide (ne_status n = NQUEUED) then
            r = Ok (Some id) ∧
            db_nodes (w_committed w') = <[id := entered (w_now w) NRUNNING n]> (db_nodes (w_db w)) ∧
            db_executions (w_committed w') = db_executions (w_db w) ∧
            db_dlq (w_committed w') = db_dlq (w_db w)
          else if decide (ne_status n ∈ TERMINAL_NODE_STATUSES) then
            r = Ok None ∧ w_committed w' = w_committed w
          else
            (∃ a, r = Err (EApp a) ∧ ae_code a = "invalid_transition"%string) ∧
            w_committed w' = w_committed w
      end
  end.
Proof.
  intros Hwf Hs Hrun. unfold claim_job in Hrun. rewrite run_bind in Hrun.
  unfold lift in Hrun. destruct (deserialize_job_payload fs) as [j|e]; [|by injection Hrun as <- <-].
  cbv zeta. set (id := job_node_execution_id j) in *. revert Hrun. rewrite run_bind.
  pose proof (synced_get_node id w Hs) as Hget. unfold wp in Hget.
  destruct (get_node id w) as [[o|e] w1]; [|done].
  destruct Hget as (-> & Hdb1 & Hc1 & Hs1 & Hobj1 & Hex1 & Hq1 & Hnow1 & Hnx1).
  destruct (db_nodes (w_db w) !! id) as [n|] eqn:Hn; [|by intros [= <- <-]].
  pose proof (dw_node_key _ Hwf _ _ Hn) as Hid. rewrite Hid.
  destruct (decide (ne_status n = NQUEUED)) as [Hst|Hst].
  - rewrite decide_False.
    2:{ rewrite Hst. unfold TERMINAL_NODE_STATUSES. rewrite !elem_of_cons, elem_of_nil. naive_solver. }
    intros Hrun. eapply (wp_adequate _ (fun r w' => r = Ok (Some id) ∧ _) _ _ _ Hrun).
    apply wp_bind. eapply (wp_transition_row id n); [by rewrite Hdb1|done|done|].
    rewrite Hnow1. set (n' := entered (w_now w) NRUNNING n). intros w2 Hw2.
    assert (wrote id n' w w2) as Hw2' by (by eapply wrote_after_load).
    apply wp_bind. change (ne_id n') with (ne_id n).
    change (ne_execution_id n') with (ne_execution_id n). rewrite Hid.
    eapply wp_add_log_row; [exact Hw2'| |done|].
    { unfold log_refers. rewrite (wr_execs _ _ _ _ Hw2'), (wr_nodes _ _ _ _ Hw2'), lookup_insert_eq.
      destruct (dw_node_exec _ Hwf _ _ Hn) as [x ->]. by rewrite !bool_decide_eq_true_2. }
    intros w3 Hw3. apply wp_bind, wp_modify, wp_bind, wp_flush_events. intros w4 Hq4 _. apply wp_ret.
    rewrite (qu_committed _ _ Hq4). simpl.
    split_and!; [done|apply Hw3|apply Hw3|apply Hw3].
  - case_decide as Hterm; [by intros [= <- <-]|]. rewrite run_bind, transition_node_eq.
    rewrite Hdb1, Hn, Hobj1. simpl. rewrite decide_False by done.
    unfold get_node. rewrite Hobj1. intros [= <- <-]. split; [|done]. by eexists.
Qed.

(** ** Complete *)

Section complete_spec.
Context (set_order : list json → list json) (ld : Loaded) (result : ExecutorResult).
Hypothesis Hord : ∀ l, set_order l ≡ₚ l.
Let eid := ex_id (ld_execution ld).

(** C17. [complete_job] for a job of an existing execution. It returns [None], having
    committed nothing, when the node is no longer running; otherwise it commits the one
    outcome that [completed] describes: the success with its skipped and queued successors,
    the requeue while attempts are left, or the dead letter, and then the end of the
    execution. The only errors are those of [complete_error]; they commit nothing. *)
Theorem complete_job_spec w e obj r w' :
  db_wf (w_db w) → db_executions (w_db w) !! eid = Some e →
  s_execs (w_session w) !! eid = Some obj →
  (∀ p c, wf_edge (ld_definition ld) p c → is_Some (rows_of (w_db w) eid !! p)) →
  complete_job set_order ld result w = (r, w') →
  let t := mkTx (w_now w) (rows_of (w_db w) eid) e obj (db_dlq (w_db w)) in
  match r with
  | Ok o => ∃ t', completed ld result t o t' ∧ in_tx eid t' w' ∧
      w_committed w' = match o with Some _ => w_db w' | None => w_committed w end
  | Err x => complete_error ld result (w_db w) x ∧ w_committed w' = w_committed w
  end.
Proof using Hord.
  intros Hwf He Hobj Hedges Hrun t.
  apply (wp_adequate _ (fun r w' => match r with
    | Ok o => ∃ t', completed ld result t o t' ∧ in_tx eid t' w' ∧
        w_committed w' = match o with Some _ => w_db w' | None => w_committed w end
    | Err x => complete_error ld result (w_db w) x ∧ w_committed w' = w_committed w
    end) _ _ _ Hrun).
  eapply wp_complete_job; [exact Hord|done|exact He|exact Hobj|exact Hedges|..].
  - intros o t' w1 Hc Ht Hf. exists t'. destruct o as [refs|].
    + split_and!; [done| |done]. destruct Ht. by split.
    + split_and!; [done|done|apply Hf].
  - intros x w1 Hx Hf. split; [done|apply Hf].
Qed.


End complete_spec.
End handlers.

(** ** Witnesses *)

(** The job of the left task arrives when the node is queued. *)
Lemma claim_job_spec_witness :
  match claim_job (demo_message 100 102 "left" 1) (demo_world left_queued) with
  | (r, w') => r = Ok (Some 102%N) ∧ ne_status <$> db_nodes (w_committed w') !! 102%N = Some NRUNNING
  end.
Proof.
  destruct (claim_job _ _) as [r w'] eqn:Hr.
  pose proof (claim_job_spec _ _ _ _ (demo_world_wf left_queued) (demo_world_synced left_queued) Hr)
    as H.
  destruct (db_nodes (w_db (demo_world left_queued)) !! 102%N) as [n|] eqn:Hn;
    [|vm_compute in Hn; discriminate Hn].
  assert (ne_status n = NQUEUED) as Hst by (vm_compute in Hn; injection Hn as <-; reflexivity).
  assert (deserialize_job_payload (demo_message 100 102 "left" 1) = Ok (mkJob 100 102 2 "left" 1))
    as Hj by (vm_compute; reflexivity).
  rewrite Hj in H. cbv zeta in H. cbn [job_node_execution_id] in H.
  rewrite Hn, decide_True in H by exact Hst.
  destruct H as (-> & Hnodes & _). split; [reflexivity|].
  by rewrite Hnodes, lookup_insert_eq.
Defined.

(** The condition node of the demo completes. *)
Lemma complete_job_spec_witness :
  match sy_tasks (demo_run pick_left) !! 1 with
  | Some (TLoaded session ld result) =>
      match complete_job id ld result (world_of (demo_run pick_left) session) with
      | (Ok o, w') => ∃ t t', completed ld result t o t' ∧ in_tx (ex_id (ld_execution ld)) t' w' ∧ o ≠ None
      | (Err _, _) => False
      end
  | _ => False
  end.
Proof.
  destruct (sy_tasks (demo_run pick_left) !! 1) as [task|] eqn:Ht; [|vm_compute in Ht; discriminate Ht].
  destruct task as [| session ld result | |]; try (vm_compute in Ht; discriminate Ht).
  destruct (complete_job id ld result (world_of (demo_run pick_left) session)) as [r w'] eqn:Hr.
  assert (match r with Ok o => o ≠ None | Err _ => False end) as Hok.
  { vm_compute in Ht. injection Ht as <- <- <-. vm_compute in Hr. by injection Hr as <- <-. }
  destruct (db_executions (sy_db (demo_run pick_left)) !! ex_id (ld_execution ld)) as [e|] eqn:He.
  2:{ vm_compute in Ht. injection Ht as <- <- <-. vm_compute in He. discriminate He. }
  destruct (s_execs session !! ex_id (ld_execution ld)) as [obj|] eqn:Hobj.
  2:{ vm_compute in Ht. injection Ht as <- <- <-. vm_compute in Hobj. discriminate Hobj. }
  assert (∀ p c, wf_edge (ld_definition ld) p c →
          is_Some (rows_of (sy_db (demo_run pick_left)) (ex_id (ld_execution ld)) !! p)) as Hedges.
  { clear -Ht. vm_compute in Ht. injection Ht as <- <- <-. intros p c Hpc.
    change (wf_edge pick_workflow p c) in Hpc. unfold wf_edge, pick_workflow in Hpc. simpl in Hpc.
    repeat (apply elem_of_cons in Hpc as [Hpc|Hpc]; [injection Hpc as -> ->; vm_compute; by eexists|]).
    by apply elem_of_nil in Hpc. }
  pose proof (complete_job_spec id ld result (fun l => Permutation_refl l) (world_of (demo_run pick_left) session)
    e obj r w' (demo_wf pick_left) He Hobj Hedges Hr) as H.
  destruct r as [o|x]; [|exact Hok]. cbv zeta in H. clear Hedges Hr Hobj He Ht.
  destruct H as (t' & Hc & Hin & _). by eexists _, t'.
Defined.











