(* ===== verification/EngineSpec.v ===== *)
(** * The engine's operations

    [start_execution] up to its commit, [retry_node], [delete_execution], the dead letter
    service, and the isolation of tenants: no operation shows or changes an execution of
    somebody else's workflow. *)

From stdpp Require Import sorting.
From S2P Require Import Prelude Json PyStr Errors Models Registry DagValidator Events Monad Store.
From S2P Require Import LogHelpers StateTransition Tx Machine Publisher Runtime Downstream Complete.
From S2P Require Import Engine Dlq Recovery Abstraction Start Steps System Evolution Invariant.
From S2P Require Import Execute.

Section engine_spec.
Context {Q : Type} `{QueuePublisher Q} {Net : Type} (registry : ExecutorRegistry Net).
Implicit Types (w : World Q).

(** ** Starting *)

(** C20. [start_execution] up to its commit. It succeeds exactly for the owner of a version
    that still validates; then the execution is [RUNNING], its nodes are those of the
    definition, the roots in their first attempt and queued, the others pending, and the
    references returned are those of the roots in the order of the definition. Otherwise
    it raises 404, 403 or the error of the validation, and nothing has happened. *)
Theorem start_create_spec command owner w r w' :
  db_wf (w_db w) → fresh_ids w →
  (∀ v, db_versions (w_db w) !! cmd_workflow_version_id command = Some v →
        definition_wf (wv_definition v) = true) →
  start_create registry command owner w = (r, w') →
  let eid := w_next_uuid w in
  match version_with_workflow (w_db w) (cmd_workflow_version_id command) with
  | None => w' = w ∧ r = Err (EApp (app_error_status "Workflow version not found" "not_found" 404))
  | Some (version, workflow) =>
      if decide (w_owner_api_key_id workflow = owner) then
        match validate_workflow (wv_definition version) registry with
        | Err e => w' = w ∧ r = Err e
        | Ok vr => ∃ roots a, r = Ok (eid, wv_id version, roots) ∧
            db_executions (w_committed w') !! eid =
              Some (mkExecution eid (w_id workflow) (wv_id version) ERUNNING (Some (w_now w)) None None
                      (Some (cmd_input_payload command)) None) ∧
            (∀ e, e ≠ eid → db_executions (w_committed w') !! e = db_executions (w_db w) !! e) ∧
            abs (w_committed w') eid = Some a ∧ m_initial (wv_definition version) a ∧
            Forall2 (fun x id => ∃ n, db_nodes (w_committed w') !! id = Some n ∧
                       ne_execution_id n = eid ∧ ne_node_id n = x ∧ ne_status n = NQUEUED)
              (filter (fun x => x ∈ root_nodes vr) (node_ids (wv_definition version))) roots
        end
      else w' = w ∧ r = Err (EApp (app_error_status "Unauthorized access to workflow" "unauthorized" 403))
  end.
Proof.
  intros Hwf Hfresh Hdefs Hrun eid.
  refine (wp_adequate _ (fun r w' => match version_with_workflow _ _ with None => _ | Some _ => _ end)
    _ _ _ Hrun _).
  apply wp_start_create; [done|done|done|..].
  - intros version workflow vr refs t w1 Hvw Hown Hv [Ht Hf Hi He Hd Hfr Hrefs]. rewrite Hvw.
    rewrite decide_True by done. rewrite Hv.
    assert (db_wf (w_db w1)) as Hwf1.
    { assert (∃ v, db_versions (w_db w) !! cmd_workflow_version_id command = Some v ∧
              db_workflows (w_db w) !! wv_workflow_id v = Some workflow ∧ v = version) as
        (v & Hver & Hwfl & ->).
      { unfold version_with_workflow in Hvw. destruct (db_versions _ !! _) as [v|]; [|done].
        simpl in Hvw. destruct (db_workflows _ !! wv_workflow_id v) as [wfl|] eqn:Hw; [|done].
        simpl in Hvw. injection Hvw as -> ->. by exists version. }
      eapply in_tx_db_wf; [exact Hwf|exact Hf|exact Ht|by rewrite He| |].
      - exists version, workflow. rewrite He. simpl. rewrite (dw_workflow_key _ Hwf _ _ Hwfl).
        rewrite (dw_version_key _ Hwf _ _ Hver). by split_and!.
      - intros k j. rewrite Hd. by left. }
    exists refs, (abs_tx t). split_and!; simpl.
    + done.
    + pose proof (it_exec _ _ _ Ht) as Hx. rewrite He in Hx. exact Hx.
    + apply Hf.
    + by apply in_tx_abs.
    + done.
    + eapply Forall2_impl; [exact Hrefs|]. intros x id (n & Hn & <- & Hst). exists n.
      apply (it_rows _ _ _ Ht) in Hn as (? & _ & ? & ?). done.
  - intros e. destruct (version_with_workflow _ _) as [[version workflow]|]; [|by intros ->].
    case_decide; [|by intros ->]. by intros ->.
Qed.

(** ** Retrying *)

(** C21. [retry_node] up to its commit. For an execution that is not the caller's, or a node
    that it does not have, it raises 404; for a node that is not dead-lettered,
    [invalid_state]; it raises nothing else and then commits nothing. On success the node
    is queued for one more attempt, its open dead letter job is resolved, and every other
    row stays; in particular the execution keeps its status, also when that is [FAILED]. *)
Theorem retry_requeue_spec eid x owner w r w' :
  db_wf (w_db w) → dlq_ok (w_db w) → synced w → retry_requeue eid x owner w = (r, w') →
  match r with
  | Ok (id, _) => ∃ n, rows_of (w_db w) eid !! x = Some n ∧ id = ne_id n ∧
      owns_execution (w_db w) eid owner = true ∧ ne_status n = NDEAD_LETTERED ∧
      db_nodes (w_committed w') = <[id := entered (w_now w) NQUEUED n]> (db_nodes (w_db w)) ∧
      db_executions (w_committed w') = db_executions (w_db w) ∧
      dlq_resolved id (w_now w) (Some "Manually retried via API"%string)
        (db_dlq (w_db w)) (db_dlq (w_committed w'))
  | Err e => w_committed w' = w_committed w ∧ ∃ a, e = EApp a ∧
      (if owns_execution (w_db w) eid owner then
         match rows_of (w_db w) eid !! x with
         | Some n => ne_status n ≠ NDEAD_LETTERED ∧ ae_code a = "invalid_state"%string
         | None => ae_code a = "not_found"%string
         end
       else ae_code a = "not_found"%string)
  end.
Proof.
  intros Hwf Hdlq Hs Hrun.
  refine (wp_adequate _ (fun r w' => match r with Ok (id, _) => _ | Err e => _ end) _ _ _ Hrun _).
  apply wp_retry_requeue; [done|done|done|..].
  - intros e a w1 He Hc _ Hcase. split; [done|]. by exists a.
  - intros n m' w0 w1 e Hrow Hst Hown [Hdb0 _ _ _] Hw Hm'. exists n. simpl.
    rewrite (wr_nodes _ _ _ _ Hw), (wr_execs _ _ _ _ Hw), Hdb0. split_and!; done.
Qed.

(** ** Deleting *)

(** A log of the execution, or of one of its nodes. *)
Definition log_of_execution (d : DB) (eid : uuid) (l : ExecutionLog) : Prop :=
  log_execution_id l = eid ∨
  (ne_execution_id <$> (log_node_execution_id l ≫= fun id => db_nodes d !! id)) = Some eid.

#[export] Instance log_of_execution_dec d eid l : Decision (log_of_execution d eid l).
Proof. unfold log_of_execution. apply _. Defined.

Lemma deleted_logs d eid :
  db_logs (deleted eid d) = filter (fun l => ¬ log_of_execution d eid l) (db_logs d).
Proof.
  unfold deleted, cascade_delete. simpl. apply list_filter_iff. intros l. unfold log_of_execution.
  change (nodes_of_execution (db_set_dlq _ d) eid) with (nodes_of_execution d eid).
  destruct (log_node_execution_id l) as [id|]; simpl; [|naive_solver].
  destruct (nodes_of_execution d eid !! id) as [n|] eqn:Hn.
  - apply elem_of_nodes_of_execution in Hn as [Hn He]. rewrite Hn. simpl. naive_solver congruence.
  - destruct (db_nodes d !! id) as [n|] eqn:Hd; simpl; [|naive_solver].
    assert (ne_execution_id n ≠ eid); [|naive_solver]. intros He.
    assert (nodes_of_execution d eid !! id = Some n); [by apply elem_of_nodes_of_execution|congruence].
Qed.

(** C23. [delete_execution] removes the execution with its nodes, its logs (those of its nodes
    among them) and its dead letter jobs, and nothing else: the other rows of these tables,
    the workflows and the versions are what they were. It never fails on a foreign key. For
    an execution that is not the caller's it raises 404 and does nothing. *)
Theorem delete_execution_spec eid owner w r w' :
  db_wf (w_db w) → s_execs (w_session w) = ∅ → delete_execution eid owner w = (r, w') →
  if owns_execution (w_db w) eid owner then
    r = Ok tt ∧
    (∀ e, db_executions (w_committed w') !! e =
            if decide (eid = e) then None else db_executions (w_db w) !! e) ∧
    (∀ id n, db_nodes (w_committed w') !! id = Some n ↔
       db_nodes (w_db w) !! id = Some n ∧ ne_execution_id n ≠ eid) ∧
    (∀ k j, db_dlq (w_committed w') !! k = Some j ↔
       db_dlq (w_db w) !! k = Some j ∧ dl_execution_id j ≠ eid) ∧
    db_logs (w_committed w') = filter (fun l => ¬ log_of_execution (w_db w) eid l) (db_logs (w_db w)) ∧
    db_workflows (w_committed w') = db_workflows (w_db w) ∧
    db_versions (w_committed w') = db_versions (w_db w)
  else (∃ a, r = Err (EApp a) ∧ ae_code a = "not_found"%string ∧ ae_status_code a = 404%Z) ∧
       w_committed w' = w_committed w.
Proof.
  intros Hwf Hs Hrun.
  refine (wp_adequate _ (fun r w' => if owns_execution (w_db w) eid owner then _ else _) _ _ _ Hrun _).
  apply wp_delete_execution; [done|done|..].
  - intros a -> Hcode Hstatus. split; [|done]. by exists a.
  - intros w1 -> _ _ Hc _. rewrite Hc. split_and!; [done| | | | |done|done].
    + intros e. apply deleted_exec.
    + intros id n. apply deleted_node.
    + intros k j. apply deleted_dlq.
    + apply deleted_logs.
Qed.

(** ** Tenants *)

(** Rows the session has loaded are rows of the table. *)
Definition execs_loaded w : Prop :=
  ∀ id e, s_execs (w_session w) !! id = Some e → db_executions (w_db w) !! id = Some e.

Lemma wp_select_executions (l : list Execution) w (Φ : list Execution → World Q → Prop) Ψ :
  db_wf (w_db w) → execs_loaded w →
  (∀ e, e ∈ l → db_executions (w_db w) !! ex_id e = Some e) →
  (∀ w', w_db w' = w_db w → Φ l w') →
  wp (for_omap (fun e => select_execution (ex_id e)) l) Φ Ψ w.
Proof.
  intros Hwf Hl Hin HΦ.
  eapply wp_mono; [apply (wp_for_omap _ l (fun dn ys w' => ys = dn ∧ w_db w' = w_db w ∧ execs_loaded w')
    Ψ w)| |done].
  - done.
  - intros dn ys e rest w1 Heq (-> & Hdb & Hl1).
    assert (db_executions (w_db w1) !! ex_id e = Some e) as He.
    { rewrite Hdb. apply Hin. rewrite Heq. apply elem_of_app. right. by left. }
    unfold wp, select_execution, get_execution_object. rewrite He.
    destruct (s_execs (w_session w1) !! ex_id e) as [o|] eqn:Ho.
    + pose proof (Hl1 _ _ Ho) as Ho'. rewrite He in Ho'. injection Ho' as <-. done.
    + split_and!; [done|done|]. intros id e'. simpl. rewrite lookup_insert.
      case_decide; [|apply Hl1]. intros [= <-]. subst. done.
  - intros ys w1 (-> & Hdb & _). by apply HΦ.
Qed.

Lemma list_executions_owned owner status limit offset w r w' :
  db_wf (w_db w) → execs_loaded w → list_executions owner status limit offset w = (r, w') →
  match r with
  | Ok l => Forall (fun d => owns_execution (w_db w) (ed_id d) owner = true) l ∧ (length l ≤ limit)%nat
  | Err e => ∃ s, status = Some s ∧ execution_status_of_name s = None ∧
      e = EApp (app_error_status ("Invalid status: " +:+ s) "invalid_status" 400)
  end.
Proof.
  intros Hwf Hl Hrun.
  refine (wp_adequate _ (fun r w' => match r with Ok l => _ | Err e => _ end) _ _ _ Hrun _).
  unfold list_executions. apply wp_bind, wp_lift.
  assert (∀ st, wp (d ← gets w_db;
    let rows := filter (fun e => owns_workflow d (ex_workflow_id e) owner = true ∧
                               (st = None ∨ st = Some (ex_status e))) (map_to_list (db_executions d)).*2 in
    let page := take limit (drop offset (merge_sort started_before rows)) in
    executions ← for_omap (fun e => select_execution (ex_id e)) page;
    mret ((fun e => execution_dto e []) <$> executions))
    (fun l _ => Forall (fun d => owns_execution (w_db w) (ed_id d) owner = true) l ∧ (length l ≤ limit)%nat)
    (fun e _ => ∃ s, status = Some s ∧ execution_status_of_name s = None ∧
      e = EApp (app_error_status ("Invalid status: " +:+ s) "invalid_status" 400)) w) as Hgen.
  { intros st. apply wp_bind, wp_gets. cbv zeta.
    set (rows := filter _ _). set (page := take limit _).
    assert (∀ e, e ∈ page → db_executions (w_db w) !! ex_id e = Some e ∧
              owns_workflow (w_db w) (ex_workflow_id e) owner = true) as Hpage.
    { intros e He. assert (e ∈ rows) as Hr.
      { apply (elem_of_Permutation_proper e _ _ (merge_sort_Permutation started_before rows)).
        eapply subseteq_drop, subseteq_take; exact He. }
      apply list_elem_of_filter in Hr as [[Ho _] Hin]. split; [|done].
      apply list_elem_of_fmap in Hin as ([k e'] & -> & Hin). apply elem_of_map_to_list in Hin.
      simpl in *. by rewrite (dw_exec_key _ Hwf _ _ Hin). }
    apply wp_bind, wp_select_executions; [done|done|by apply Hpage|].
    intros w1 _. apply wp_ret. split.
    - apply Forall_fmap, Forall_forall. intros e He. destruct (Hpage e He) as [Hex Ho]. simpl.
      unfold owns_execution. by rewrite Hex.
    - rewrite length_fmap. unfold page. rewrite length_take. lia. }
  destruct status as [s|]; [|apply Hgen].
  destruct (execution_status_of_name s) as [st|] eqn:Hst; [apply Hgen|]. by exists s.
Qed.

(** Isolation of tenants. For an execution of somebody else's workflow the queries
    answer as if it did not exist, retrying and deleting it raise [not_found], its dead
    letter jobs can be neither seen nor resolved, none of these calls changes anything,
    and no listing contains it. *)
Theorem tenant_isolation eid owner w :
  db_wf (w_db w) → execs_loaded w → owns_execution (w_db w) eid owner = false →
  get_execution eid owner w = (Ok None, w) ∧
  get_node_executions eid owner w = (Ok [], w) ∧
  (∀ x, ∃ a, retry_node eid x owner w = (Err (EApp a), w) ∧ ae_code a = "not_found"%string) ∧
  (∃ a, delete_execution eid owner w = (Err (EApp a), w) ∧ ae_code a = "not_found"%string) ∧
  (∀ status limit offset l w', list_executions owner status limit offset w = (Ok l, w') →
     ∀ d, d ∈ l → ed_id d ≠ eid) ∧
  (∀ k j, db_dlq (w_db w) !! k = Some j → dl_execution_id j = eid →
     get_dlq_job k owner w = (Ok None, w) ∧
     (∀ note, ∃ a, resolve_dlq_job k owner note w = (Err (EApp a), w) ∧ ae_code a = "not_found"%string)) ∧
  (∀ limit offset l w', list_dlq_jobs owner limit offset w = (Ok l, w') →
     ∀ j, j ∈ l → dl_execution_id j ≠ eid).
Proof.
  intros Hwf Hl Hno.
  assert (∀ k j, db_dlq (w_db w) !! k = Some j → dl_execution_id j = eid →
     owned_jobs (w_db w) owner !! k = None) as Hjob.
  { intros k j Hj He. unfold owned_jobs. apply map_lookup_filter_None. right. intros j' Hj'.
    rewrite Hj in Hj'. injection Hj' as <-. simpl. rewrite He, Hno. done. }
  assert (∀ k j, db_dlq (w_db w) !! k = Some j → dl_execution_id j = eid →
     get_dlq_job k owner w = (Ok None, w)) as Hget.
  { intros k j Hj He. unfold get_dlq_job. rewrite run_bind. cbn [gets].
    by rewrite (Hjob k j Hj He). }
  split_and!.
  - unfold get_execution, select_owned_execution. rewrite run_bind, run_bind. cbn [gets]. by rewrite Hno.
  - unfold get_node_executions, select_owned_execution. rewrite run_bind, run_bind. cbn [gets].
    by rewrite Hno.
  - intros x. eexists. split.
    + unfold retry_node, retry_requeue. rewrite run_bind, run_bind. cbn [gets]. cbv zeta.
      rewrite Hno. reflexivity.
    + reflexivity.
  - eexists. split.
    + unfold delete_execution, select_owned_execution. rewrite run_bind, run_bind. cbn [gets].
      rewrite Hno. reflexivity.
    + reflexivity.
  - intros status limit offset l w' Hrun d Hd Heq.
    destruct (list_executions_owned _ _ _ _ _ _ _ Hwf Hl Hrun) as [Hall _].
    rewrite Forall_forall in Hall. specialize (Hall d Hd). rewrite Heq in Hall. congruence.
  - intros k j Hj He. split; [by eapply Hget|]. intros note. eexists. split.
    + unfold resolve_dlq_job. rewrite (run_bind_Ok _ _ _ _ _ (Hget k j Hj He)). reflexivity.
    + reflexivity.
  - intros limit offset l w' Hrun j Hj Heq. unfold list_dlq_jobs in Hrun. rewrite run_bind in Hrun.
    injection Hrun as <- _. apply subseteq_take, subseteq_drop in Hj.
    rewrite merge_sort_Permutation in Hj. apply list_elem_of_fmap in Hj as ([k j'] & -> & Hj). apply elem_of_map_to_list in Hj. simpl in *.
    unfold owned_jobs in Hj. apply map_lookup_filter_Some in Hj as [_ Ho]. simpl in Ho.
    rewrite Heq in Ho. congruence.
Qed.

End engine_spec.

(** ** Witnesses *)

Lemma demo_execs_loaded l : execs_loaded (demo_world l).
Proof.
  intros id e He. change ((∅ : gmap uuid Execution) !! id = Some e) in He.
  by rewrite lookup_empty in He.
Qed.

(** Tenant 7 starts their workflow. *)
Lemma start_create_spec_witness :
  match start_create demo_registry demo_command 7 (demo_world []) with
  | (r, w') => ∃ roots a, r = Ok (100%N, 2%N, roots) ∧
      abs (w_committed w') 100 = Some a ∧ m_initial pick_workflow a
  end.
Proof.
  destruct (start_create _ _ _ _) as [r w'] eqn:Hr.
  pose proof (start_create_spec demo_registry demo_command 7 (demo_world []) r w' (demo_world_wf [])
    (demo_world_fresh []) (fun v => di_versions _ _ _ _ (demo_inv []) 2 v) Hr) as H.
  destruct (version_with_workflow (w_db (demo_world [])) (cmd_workflow_version_id demo_command))
    as [[v wfl]|] eqn:Hv; [|vm_compute in Hv; discriminate Hv].
  vm_compute in Hv. injection Hv as <- <-. cbv zeta in H. rewrite decide_True in H by reflexivity.
  cbn [wv_definition] in H.
  change (w_next_uuid (demo_world [])) with 100%N in H.
  destruct (validate_workflow _ demo_registry) as [vr|e] eqn:Hvr; [|vm_compute in Hvr; discriminate Hvr].
  destruct H as (roots & a & -> & _ & _ & Ha & Hinit & _). exists roots, a. split_and!; [done|exact Ha|exact Hinit].
Defined.

(** The left task is dead-lettered; its owner retries it, and the execution stays failed. *)
Lemma retry_requeue_spec_witness :
  match retry_requeue 100 "left" 7 (demo_world left_dead) with
  | (Ok (id, _), w') => ne_status <$> db_nodes (w_committed w') !! id = Some NQUEUED ∧
      ex_status <$> db_executions (w_committed w') !! 100%N = Some EFAILED
  | (Err _, _) => False
  end.
Proof.
  destruct (retry_requeue _ _ _ _) as [r w'] eqn:Hr.
  pose proof (retry_requeue_spec 100 "left" 7 (demo_world left_dead) r w' (demo_world_wf left_dead)
    (demo_world_dlq left_dead) (demo_world_synced left_dead) Hr) as H.
  assert (owns_execution (w_db (demo_world left_dead)) 100 7 = true) as Ho by (vm_compute; reflexivity).
  destruct (rows_of (w_db (demo_world left_dead)) 100 !! "left"%string) as [n|] eqn:Hn;
    [|vm_compute in Hn; discriminate Hn].
  assert (ne_status n = NDEAD_LETTERED) as Hst by (vm_compute in Hn; injection Hn as <-; reflexivity).
  assert (ex_status <$> db_executions (w_db (demo_world left_dead)) !! 100%N = Some EFAILED) as Hex
    by (vm_compute; reflexivity).
  assert (db_nodes (w_db (demo_world left_dead)) !! 102%N = Some n) as Hn2.
  { clear -Hn. vm_compute in Hn. injection Hn as <-. vm_compute. reflexivity. }
  clear Hr. destruct r as [[id e]|x].
  - destruct H as (n' & Hn' & -> & _ & _ & Hnodes & Hexec & _).
        injection Hn' as <-.
    rewrite Hnodes, Hexec, lookup_insert_eq. split; [reflexivity|exact Hex].
  - rewrite Ho in H. destruct H as (_ & a & _ & Hne & _). by apply Hne.
Defined.

(** Its owner deletes the execution. *)
Lemma delete_execution_spec_witness :
  match delete_execution 100 7 (demo_world left_dead) with
  | (r, w') => r = Ok tt ∧ db_executions (w_committed w') !! 100%N = None
  end.
Proof.
  destruct (delete_execution _ _ _) as [r w'] eqn:Hr.
  pose proof (delete_execution_spec 100 7 (demo_world left_dead) r w' (demo_world_wf left_dead)
    eq_refl Hr) as H.
  assert (owns_execution (w_db (demo_world left_dead)) 100 7 = true) as Ho by (vm_compute; reflexivity).
  rewrite Ho in H. destruct H as (-> & Hex & _). split; [reflexivity|].
  by rewrite Hex, decide_True.
Defined.

(** Tenant 8 asks for the execution of tenant 7. *)
Lemma tenant_isolation_witness :
  get_execution 100 8 (demo_world left_dead) = (Ok None, demo_world left_dead).
Proof.
  apply (tenant_isolation 100 8 (demo_world left_dead) (demo_world_wf left_dead)
    (demo_execs_loaded left_dead)).
  vm_compute. reflexivity.
Defined.
