(* ===== verification/WorkflowService.v ===== *)
(** * The workflow service

    src/backend/app/services/workflow_service.py and the router over it,
    src/backend/app/api/workflows.py. The service adds workflows and versions and deletes
    workflows that nothing executes, which is the step [OpVersions] of the system.

    [sha256_hex] is [hashlib.sha256(...).hexdigest()] and [float_repr] is
    [float.__repr__]. The owner is the API key of the authenticated caller. *)

From Stdlib Require Import SpecFloat.
From stdpp Require Import sorting.
From S2P Require Import Prelude Json PyStr Dumps Errors Models Registry DagValidator Events.
From S2P Require Import Monad Store LogHelpers StateTransition Tx Machine Publisher Runtime.
From S2P Require Import Downstream Complete Engine Dlq Recovery Abstraction Start Steps System.

(** ** [model_dump(exclude_none=True)] *)

Definition optional_field (k : string) (o : option json) : pydict :=
  match o with Some v => [(k, v)] | None => [] end.

Definition dump_retry_policy (p : RetryPolicy) : json :=
  JDict [("max_attempts", JInt (max_attempts p)); ("initial_interval", JInt (initial_interval p));
         ("max_interval", JInt (max_interval p)); ("backoff_multiplier", JFloat (backoff_multiplier p))]%string.

Definition dump_node (n : Node) : json :=
  JDict ([("id", JStr (node_id n)); ("type", JStr (node_type n)); ("name", JStr (node_name n));
          ("config", JDict (node_config n))]%string ++
         optional_field "retry_policy" (dump_retry_policy <$> node_retry_policy n)).

Definition dump_edge (e : Edge) : json :=
  JDict ([("from_node", JStr (from_node e)); ("to_node", JStr (to_node e))]%string ++
         optional_field "condition" (JStr <$> edge_condition e)).

Definition model_dump (d : WorkflowDefinition) : json :=
  JDict ([("name", JStr (wf_name d)); ("description", JStr (wf_description d));
          ("nodes", JList (dump_node <$> wf_nodes d)); ("edges", JList (dump_edge <$> wf_edges d))]%string ++
         optional_field "default_retry_policy" (dump_retry_policy <$> default_retry_policy d)).

Section workflow_service.
Context {Q : Type} {Net : Type} (registry : ExecutorRegistry Net).
Context (sha256_hex : string → string) (float_repr : spec_float → string).

Definition _generate_checksum (definition : WorkflowDefinition) : string :=
  sha256_hex (json_dumps float_repr canonical_style (model_dump definition)).

(** ** Tables *)

Definition insert_workflow (wf : Workflow) : M Q () :=
  update_db (db_set_workflows (<[w_id wf := wf]>)).

(** [UniqueConstraint("workflow_id", "version_number")] and the foreign key. *)
Definition version_conflict (d : DB) (v : WorkflowVersion) : bool :=
  existsb (fun u => (wv_workflow_id u =? wv_workflow_id v)%N && (wv_version_number u =? wv_version_number v)%Z)
    (map_to_list (db_versions d)).*2.

Definition insert_version (v : WorkflowVersion) : M Q () :=
  d ← gets w_db;
  if bool_decide (is_Some (db_workflows d !! wv_workflow_id v)) && negb (version_conflict d v) then
    update_db (db_set_versions (<[wv_id v := v]>))
  else raise EIntegrityError.

(** [select(Workflow).where(Workflow.id == id, Workflow.owner_api_key_id == owner)]. *)
Definition owned_workflow (d : DB) (workflow_id owner_api_key_id : uuid) : option Workflow :=
  workflow ← db_workflows d !! workflow_id;
  if (w_owner_api_key_id workflow =? owner_api_key_id)%N then Some workflow else None.

Definition versions_of (d : DB) (workflow_id : uuid) : gmap uuid WorkflowVersion :=
  filter (fun p => wv_workflow_id p.2 = workflow_id) (db_versions d).

(** [func.max(WorkflowVersion.version_number)] over the versions of a workflow. *)
Definition max_version_number (d : DB) (workflow_id : uuid) : option Z :=
  foldr (fun v m => Some match m with Some k => Z.max (wv_version_number v) k | None => wv_version_number v end)
    None (map_to_list (versions_of d workflow_id)).*2.

(** ** The service *)

Definition create_workflow (name description : string) (definition : WorkflowDefinition)
    (owner_api_key_id : uuid) : M Q (Workflow * WorkflowVersion) :=
  validation_result ← lift (validate_workflow definition registry);
  if negb (valid validation_result) then
    raise (EApp (app_error "Invalid workflow definition" "invalid_workflow"))
  else
    let checksum := _generate_checksum definition in
    workflow_id ← uuid4;
    now ← datetime_now;
    let workflow := mkWorkflow workflow_id owner_api_key_id name (Some description) now now in
    insert_workflow workflow ≫= fun _ =>
    version_id ← uuid4;
    created_at ← datetime_now;
    let version := mkWorkflowVersion version_id (w_id workflow) 1 definition checksum created_at in
    insert_version version ≫= fun _ =>
    commit ≫= fun _ =>
    mret (workflow, version).

(** [Workflow.created_at.desc()]. *)
Definition newer_workflow (a b : Workflow) : Prop := (w_created_at b ≤ w_created_at a)%Z.

#[export] Instance newer_workflow_dec : RelDecision newer_workflow.
Proof. intros a b. unfold newer_workflow. apply _. Defined.

Definition list_workflows (owner_api_key_id : uuid) (limit offset : nat) :
    M Q (list (Workflow * option Z)) :=
  d ← gets w_db;
  let rows := filter (fun wf => w_owner_api_key_id wf = owner_api_key_id) (map_to_list (db_workflows d)).*2 in
  mret ((fun wf => (wf, max_version_number d (w_id wf))) <$>
          take limit (drop offset (merge_sort newer_workflow rows))).

Definition get_workflow (workflow_id owner_api_key_id : uuid) :
    M Q (option (Workflow * list WorkflowVersion)) :=
  d ← gets w_db;
  mret match owned_workflow d workflow_id owner_api_key_id with
       | Some workflow => Some (workflow, (map_to_list (versions_of d workflow_id)).*2)
       | None => None
       end.

Definition set_updated_at (now : datetime) (wf : Workflow) : Workflow :=
  mkWorkflow (w_id wf) (w_owner_api_key_id wf) (w_name wf) (w_description wf) (w_created_at wf) now.

Definition create_workflow_version (workflow_id : uuid) (definition : WorkflowDefinition)
    (owner_api_key_id : uuid) : M Q WorkflowVersion :=
  d ← gets w_db;
  match owned_workflow d workflow_id owner_api_key_id with
  | None => raise (EApp (app_error_status "Workflow not found" "not_found" 404))
  | Some workflow =>
      validation_result ← lift (validate_workflow definition registry);
      if negb (valid validation_result) then
        raise (EApp (app_error "Invalid workflow definition" "invalid_workflow"))
      else
        let max_v := match max_version_number d workflow_id with Some k => k | None => 0%Z end in
        let new_version_number := (max_v + 1)%Z in
        let checksum := _generate_checksum definition in
        now ← datetime_now;
        update_db (db_set_workflows (alter (set_updated_at now) workflow_id)) ≫= fun _ =>
        version_id ← uuid4;
        let version := mkWorkflowVersion version_id workflow_id new_version_number definition checksum now in
        insert_version version ≫= fun _ =>
        commit ≫= fun _ =>
        mret version
  end.

(** Deleting a workflow deletes its versions with it; for an execution of one of them
    the session would set [workflow_version_id] to NULL, which its column refuses. *)
Definition workflow_in_use (d : DB) (workflow_id : uuid) : bool :=
  existsb (fun e => (ex_workflow_id e =? workflow_id)%N ||
                    bool_decide (is_Some (versions_of d workflow_id !! ex_workflow_version_id e)))
    (map_to_list (db_executions d)).*2.

Definition delete_workflow (workflow_id owner_api_key_id : uuid) : M Q bool :=
  d ← gets w_db;
  match owned_workflow d workflow_id owner_api_key_id with
  | None => mret false
  | Some workflow =>
      if workflow_in_use d (w_id workflow) then raise EIntegrityError
      else
        update_db (db_set_versions (filter (fun p => wv_workflow_id p.2 ≠ w_id workflow))) ≫= fun _ =>
        update_db (db_set_workflows (delete (w_id workflow))) ≫= fun _ =>
        commit ≫= fun _ =>
        mret true
  end.

(** ** The router *)

Record WorkflowVersionResponse : Type := mkWorkflowVersionResponse {
  vr_id : uuid;
  vr_workflow_id : uuid;
  vr_version_number : Z;
  vr_checksum : string;
  vr_created_at : datetime;
  vr_definition : option WorkflowDefinition
}.

Definition version_response (v : WorkflowVersion) : WorkflowVersionResponse :=
  mkWorkflowVersionResponse (wv_id v) (wv_workflow_id v) (wv_version_number v) (wv_checksum v)
    (wv_created_at v) (Some (wv_definition v)).

Definition create_workflow_endpoint (name description : string) (definition : WorkflowDefinition)
    (owner_id : uuid) : M Q WorkflowVersionResponse :=
  created ← create_workflow name description definition owner_id;
  mret (version_response created.2).

(** Answered without the tables. *)
Definition validate_workflow_endpoint (workflow : WorkflowDefinition) : M Q ValidationResult :=
  lift (validate_workflow workflow registry).

Definition create_workflow_version_endpoint (workflow_id : uuid) (definition : WorkflowDefinition)
    (owner_id : uuid) : M Q WorkflowVersionResponse :=
  version ← create_workflow_version workflow_id definition owner_id;
  mret (version_response version).

Record WorkflowListResponse : Type := mkWorkflowListResponse {
  wl_id : uuid;
  wl_name : string;
  wl_description : option string;
  wl_created_at : datetime;
  wl_updated_at : datetime;
  wl_latest_version_number : Z
}.

(** [latest_version_number: int] rejects [None]; pydantic's error is a [ValueError]. *)
Definition list_workflows_endpoint (owner_id : uuid) (limit offset : nat) :
    M Q (list WorkflowListResponse) :=
  rows ← list_workflows owner_id limit offset;
  for_collect (fun '(wf, latest_v) =>
    match latest_v with
    | Some k => mret (mkWorkflowListResponse (w_id wf) (w_name wf) (w_description wf)
                        (w_created_at wf) (w_updated_at wf) k)
    | None => raise EValueError
    end) rows.

(** [versions.sort(key=lambda x: x.version_number, reverse=True)]. *)
Definition later_version (a b : WorkflowVersionResponse) : Prop :=
  (vr_version_number b ≤ vr_version_number a)%Z.

#[export] Instance later_version_dec : RelDecision later_version.
Proof. intros a b. unfold later_version. apply _. Defined.

Definition get_workflow_endpoint (workflow_id owner_id : uuid) :
    M Q (Workflow * list WorkflowVersionResponse) :=
  found ← get_workflow workflow_id owner_id;
  match found with
  | None => raise (EApp (app_error_status "Workflow not found" "not_found" 404))
  | Some (workflow, versions) =>
      mret (workflow, merge_sort later_version (version_response <$> versions))
  end.

Definition delete_workflow_endpoint (workflow_id owner_id : uuid) : M Q () :=
  deleted ← delete_workflow workflow_id owner_id;
  if (deleted : bool) then mret ()
  else raise (EApp (app_error_status "Workflow not found" "not_found" 404)).

End workflow_service.
