(* ===== verification/Catalog.v ===== *)
(** * The catalog of workflows

    The invariant of the workflows and versions tables, what each operation of the workflow
    service does on every branch, and that the service is the step [OpVersions] of the
    system. *)

From Stdlib Require Import SpecFloat.
From stdpp Require Import sorting.
From S2P Require Import Prelude Json PyStr Dumps Errors Models Registry DagValidator Events.
From S2P Require Import Monad Store LogHelpers StateTransition Tx Machine Publisher Runtime.
From S2P Require Import Downstream Complete Engine Dlq Recovery Abstraction Start Steps System.
From S2P Require Import Evolution Invariant Execute WorkflowService.

#[local] Arguments Z.max : simpl never.

(** A workflow has the versions 1 to n, each once. *)
Definition numbered (d : DB) (wid : uuid) (n : Z) : Prop :=
  ∀ k, (1 ≤ k ≤ n)%Z ↔ ∃ id v, versions_of d wid !! id = Some v ∧ wv_version_number v = k.

Record catalog_ok (next : uuid) (d : DB) : Prop := {
  ca_version_key id v : db_versions d !! id = Some v → wv_id v = id;
  ca_workflow_key id wf : db_workflows d !! id = Some wf → w_id wf = id;
  ca_definition id v : db_versions d !! id = Some v → definition_wf (wv_definition v) = true;
  ca_workflow id v : db_versions d !! id = Some v → is_Some (db_workflows d !! wv_workflow_id v);
  ca_unique wid i j v v' : versions_of d wid !! i = Some v → versions_of d wid !! j = Some v' →
    wv_version_number v = wv_version_number v' → i = j;
  ca_numbers wid : is_Some (db_workflows d !! wid) → ∃ n, (1 ≤ n)%Z ∧ numbered d wid n;
  ca_versions_fresh id : (next ≤ id)%N → db_versions d !! id = None;
  ca_workflows_fresh id : (next ≤ id)%N → db_workflows d !! id = None
}.

Lemma versions_of_lookup d wid id v :
  versions_of d wid !! id = Some v ↔ db_versions d !! id = Some v ∧ wv_workflow_id v = wid.
Proof. unfold versions_of. by rewrite map_lookup_filter_Some. Qed.

(** ** The largest number *)

Lemma max_version_number_spec d wid :
  match max_version_number d wid with
  | Some k => (∃ id v, versions_of d wid !! id = Some v ∧ wv_version_number v = k) ∧
              ∀ id v, versions_of d wid !! id = Some v → (wv_version_number v ≤ k)%Z
  | None => versions_of d wid = ∅
  end.
Proof.
  unfold max_version_number. set (m := versions_of d wid).
  assert (∀ l : list (uuid * WorkflowVersion),
    match foldr (fun v m => Some match m with Some k => Z.max (wv_version_number v) k
                                 | None => wv_version_number v end) None l.*2 with
    | Some k => (∃ p, p ∈ l ∧ wv_version_number p.2 = k) ∧ ∀ p, p ∈ l → (wv_version_number p.2 ≤ k)%Z
    | None => l = []
    end) as Hl.
  { induction l as [|p l IH]; [done|]. rewrite fmap_cons. cbn [foldr].
    destruct (foldr _ None l.*2) as [k|].
    - destruct IH as [(q & Hq & Hk) Hmax]. split.
      + destruct (Z.max_spec (wv_version_number p.2) k) as [[_ ->]|[_ ->]].
        * exists q. split; [by right|done].
        * exists p. split; [by left|done].
      + intros q' [->|Hq']%elem_of_cons; [lia|]. specialize (Hmax q' Hq'). lia.
    - subst. split; [exists p; split; [by left|done]|]. by intros q ->%list_elem_of_singleton. }
  specialize (Hl (map_to_list m)). destruct (foldr _ None _) as [k|].
  - destruct Hl as [([id v] & Hin & Hk) Hmax]. split.
    + exists id, v. by apply elem_of_map_to_list in Hin.
    + intros i u Hu. apply (Hmax (i, u)). by apply elem_of_map_to_list.
  - by apply map_to_list_empty_iff in Hl.
Qed.

Lemma numbered_max d wid n :
  (1 ≤ n)%Z → numbered d wid n → max_version_number d wid = Some n.
Proof.
  intros Hn Hiff. pose proof (max_version_number_spec d wid) as Hmax.
  destruct (proj1 (Hiff n)) as (i & u & Hu & Hun); [lia|].
  destruct (max_version_number d wid) as [k|].
  - destruct Hmax as [(id & v & Hv & Hk) Hle]. specialize (Hle _ _ Hu).
    assert (1 ≤ k ≤ n)%Z by (apply Hiff; by exists id, v). f_equal. lia.
  - by rewrite Hmax, lookup_empty in Hu.
Qed.

Lemma version_conflict_false d v :
  (∀ id u, versions_of d (wv_workflow_id v) !! id = Some u → wv_version_number u ≠ wv_version_number v) →
  version_conflict d v = false.
Proof.
  intros Hno. apply not_true_iff_false. unfold version_conflict. rewrite existsb_exists.
  intros (u & Hu & Heq). apply andb_true_iff in Heq as [Hw%N.eqb_eq Hk%Z.eqb_eq].
  apply list_elem_of_In, list_elem_of_fmap in Hu as ([id u'] & -> & Hin).
  apply elem_of_map_to_list in Hin. apply (Hno id u'); [|done].
  by apply versions_of_lookup.
Qed.

(** ** One more version *)

Lemma versions_of_insert d wid vid v ws :
  db_versions d !! vid = None →
  versions_of (mkDB ws (<[vid := v]> (db_versions d)) (db_executions d) (db_nodes d) (db_dlq d) (db_logs d)) wid =
  if decide (wv_workflow_id v = wid) then <[vid := v]> (versions_of d wid) else versions_of d wid.
Proof.
  intros Hnone. unfold versions_of. simpl. case_decide as Hw.
  - by apply map_filter_insert_True.
  - rewrite map_filter_insert_False by done. by rewrite delete_id.
Qed.

Definition add_version (ws : gmap uuid Workflow) (v : WorkflowVersion) (d : DB) : DB :=
  mkDB ws (<[wv_id v := v]> (db_versions d)) (db_executions d) (db_nodes d) (db_dlq d) (db_logs d).

Lemma catalog_add next next' d ws v n :
  catalog_ok next d → (∀ id wf, ws !! id = Some wf → w_id wf = id) →
  (∀ id, is_Some (ws !! id) ↔ is_Some (db_workflows d !! id) ∨ id = wv_workflow_id v) →
  (next ≤ wv_id v)%N → (wv_id v < next')%N → (∀ id, (next' ≤ id)%N → ws !! id = None) →
  definition_wf (wv_definition v) = true → (0 ≤ n)%Z → numbered d (wv_workflow_id v) n →
  wv_version_number v = (n + 1)%Z →
  catalog_ok next' (add_version ws v d).
Proof.
  intros Hc Hkey Hdom Hge Hlt Hfresh Hdef Hn0 Hnum Hv.
  assert (db_versions d !! wv_id v = None) as Hnone by (by apply (ca_versions_fresh _ _ Hc)).
  assert (∀ i, versions_of d (wv_workflow_id v) !! i = None ∨
            ∃ u, versions_of d (wv_workflow_id v) !! i = Some u ∧ (wv_version_number u ≤ n)%Z) as Hle.
  { intros i. destruct (versions_of d (wv_workflow_id v) !! i) as [u|] eqn:Hu; [right|by left].
    exists u. split; [done|]. assert (1 ≤ wv_version_number u ≤ n)%Z; [|lia]. apply Hnum. by exists i, u. }
  split; unfold add_version; simpl.
  - intros id u. rewrite lookup_insert. case_decide; [by intros [= <-]|apply Hc].
  - done.
  - intros id u. rewrite lookup_insert. case_decide; [by intros [= <-]|apply Hc].
  - intros id u. rewrite lookup_insert, Hdom. case_decide; [intros [= <-]; by right|].
    intros Hu. left. by apply (ca_workflow _ _ Hc _ _ Hu).
  - intros wid i j u u'. rewrite versions_of_insert by done.
    case_decide as Hw; [subst wid|apply (ca_unique _ _ Hc)].
    rewrite !lookup_insert. repeat case_decide; subst; try done.
    + intros [= <-] Hu' Heq. destruct (Hle j) as [?|(x & ? & ?)]; [congruence|].
      assert (x = u') as -> by congruence. lia.
    + intros Hu [= <-] Heq. destruct (Hle i) as [?|(x & ? & ?)]; [congruence|].
      assert (x = u) as -> by congruence. lia.
    + apply (ca_unique _ _ Hc).
  - intros wid Hwid. rewrite Hdom in Hwid. destruct (decide (wv_workflow_id v = wid)) as [<-|Hne].
    + exists (n + 1)%Z. split; [lia|]. intros k. rewrite versions_of_insert, decide_True by done. split.
      * intros Hk. destruct (decide (k = n + 1)%Z) as [->|Hk'].
        { exists (wv_id v), v. by rewrite lookup_insert_eq. }
        destruct (proj1 (Hnum k)) as (i & u & Hu & Huk); [lia|]. exists i, u.
        rewrite lookup_insert_ne; [done|]. intros <-. apply versions_of_lookup in Hu. naive_solver.
      * intros (i & u & Hu & <-). revert Hu. rewrite lookup_insert. case_decide; [intros [= <-]; lia|].
        intros Hu. assert (1 ≤ wv_version_number u ≤ n)%Z; [|lia]. apply Hnum. by exists i, u.
    + destruct Hwid as [Hwid| ->]; [|done].
      destruct (ca_numbers _ _ Hc _ Hwid) as (m & Hm & Hiff). exists m. split; [done|]. intros k.
      rewrite versions_of_insert, decide_False by done. apply Hiff.
  - intros id Hid. rewrite lookup_insert_ne by (intros <-; lia). apply (ca_versions_fresh _ _ Hc). lia.
  - done.
Qed.

(** ** One workflow less *)

Definition drop_workflow (wid : uuid) (d : DB) : DB :=
  db_set_workflows (delete wid) (db_set_versions (filter (fun p => wv_workflow_id p.2 ≠ wid)) d).

Lemma versions_of_drop wid d wid' :
  wid' ≠ wid → versions_of (drop_workflow wid d) wid' = versions_of d wid'.
Proof.
  intros Hne. apply map_eq. intros i. apply option_eq. intros v. rewrite !versions_of_lookup.
  unfold drop_workflow. simpl. rewrite map_lookup_filter_Some. simpl. naive_solver.
Qed.

Lemma catalog_drop next d wid : catalog_ok next d → catalog_ok next (drop_workflow wid d).
Proof.
  intros Hc. assert (∀ id v, db_versions (drop_workflow wid d) !! id = Some v ↔
    db_versions d !! id = Some v ∧ wv_workflow_id v ≠ wid) as Hv.
  { intros id v. unfold drop_workflow. simpl. by rewrite map_lookup_filter_Some. }
  assert (∀ id, db_workflows (drop_workflow wid d) !! id =
    if decide (wid = id) then None else db_workflows d !! id) as Hw.
  { intros id. unfold drop_workflow. simpl. rewrite lookup_delete. by repeat case_decide. }
  split.
  - intros id v [Hid _]%Hv. by apply Hc.
  - intros id wf. rewrite Hw. case_decide; [done|]. apply Hc.
  - intros id v [Hid _]%Hv. by eapply (ca_definition _ _ Hc).
  - intros id v [Hid Hne]%Hv. rewrite Hw, decide_False by done. by eapply (ca_workflow _ _ Hc).
  - intros w' i j v v' [Hi Hiw]%versions_of_lookup [Hj Hjw]%versions_of_lookup.
    apply Hv in Hi as [Hi _], Hj as [Hj _]. apply (ca_unique _ _ Hc w'); by apply versions_of_lookup.
  - intros w'. rewrite Hw. case_decide as Hne; [by intros []|]. intros [n Hn]%(ca_numbers _ _ Hc).
    exists n. unfold numbered. by rewrite versions_of_drop.
  - intros id Hid. apply eq_None_not_Some. intros [v [Hiv _]%Hv].
    by rewrite (ca_versions_fresh _ _ Hc) in Hiv.
  - intros id Hid. rewrite Hw. case_decide; [done|]. by apply (ca_workflows_fresh _ _ Hc).
Qed.

(** ** The operations *)

Section operations.
Context {Q : Type} `{QueuePublisher Q} {Net : Type} (registry : ExecutorRegistry Net).
Context (sha256_hex : string → string) (float_repr : spec_float → string).
Implicit Types w : World Q.

Local Abbreviation checksum := (_generate_checksum sha256_hex float_repr).
Local Abbreviation create := (create_workflow registry sha256_hex float_repr).
Local Abbreviation create_version := (create_workflow_version registry sha256_hex float_repr).

Definition new_workflow w (name description : string) (owner : uuid) : Workflow :=
  mkWorkflow (w_next_uuid w) owner name (Some description) (w_now w) (w_now w).

(** Run the next simple call of a sequence. *)
Local Ltac run_step :=
  rewrite run_bind; cbn [uuid4 datetime_now gets modify update_db commit insert_workflow].

Lemma insert_version_run v w :
  is_Some (db_workflows (w_db w) !! wv_workflow_id v) → version_conflict (w_db w) v = false →
  insert_version v w = (Ok tt, w_set_db (db_set_versions (<[wv_id v := v]>)) w).
Proof.
  intros Hs Hno. unfold insert_version. run_step. by rewrite bool_decide_eq_true_2, Hno.
Qed.

Lemma create_workflow_run name description def owner w :
  catalog_ok (w_next_uuid w) (w_db w) →
  create name description def owner w =
  match validate_workflow def registry with
  | Err e => (Err e, w)
  | Ok _ =>
      let wf := new_workflow w name description owner in
      let v := mkWorkflowVersion (N.succ (w_next_uuid w)) (w_id wf) 1 def (checksum def) (w_now w) in
      (Ok (wf, v), w_commit (w_set_db (add_version (<[w_id wf := wf]> (db_workflows (w_db w))) v)
                               (w_bump (w_bump w))))
  end.
Proof.
  intros Hc. unfold create_workflow. rewrite run_bind. unfold lift.
  destruct (validate_workflow def registry) as [vr|e] eqn:Hv; [|done].
  destruct (validate_workflow_Ok registry def vr Hv) as (-> & _). cbn [negb]. cbv zeta.
  do 5 run_step. rewrite run_bind, insert_version_run; [done| |].
  { simpl. rewrite lookup_insert_eq. by eexists. }
  apply version_conflict_false. simpl. intros id u Hu.
  apply versions_of_lookup in Hu as [Hu Hw]. destruct (ca_workflow _ _ Hc _ _ Hu) as [wf Hwf].
  rewrite Hw, (ca_workflows_fresh _ _ Hc) in Hwf; [done|lia].
Qed.

Lemma create_workflow_version_run wid def owner w :
  catalog_ok (w_next_uuid w) (w_db w) →
  create_version wid def owner w =
  match owned_workflow (w_db w) wid owner with
  | None => (Err (EApp (app_error_status "Workflow not found" "not_found" 404)), w)
  | Some wf =>
      match validate_workflow def registry with
      | Err e => (Err e, w)
      | Ok _ =>
          let k := default 0%Z (max_version_number (w_db w) wid) in
          let v := mkWorkflowVersion (w_next_uuid w) wid (k + 1) def (checksum def) (w_now w) in
          (Ok v, w_commit (w_set_db (add_version (alter (set_updated_at (w_now w)) wid
                                                    (db_workflows (w_db w))) v) (w_bump w)))
      end
  end.
Proof.
  intros Hc. unfold create_workflow_version. rewrite run_bind. cbn [gets].
  destruct (owned_workflow (w_db w) wid owner) as [wf|] eqn:Ho; [|done].
  rewrite run_bind. unfold lift.
  destruct (validate_workflow def registry) as [vr|e] eqn:Hv; [|done].
  destruct (validate_workflow_Ok registry def vr Hv) as (-> & _). cbn [negb]. cbv zeta.
  assert (is_Some (db_workflows (w_db w) !! wid)) as Hs.
  { unfold owned_workflow in Ho. destruct (db_workflows (w_db w) !! wid); [by eexists|done]. }
  destruct (ca_numbers _ _ Hc _ Hs) as (n & Hn & Hnum). rewrite (numbered_max _ _ _ Hn Hnum).
  do 3 run_step. rewrite run_bind, insert_version_run; [done| |].
  { simpl. destruct Hs as [x Hx]. rewrite lookup_alter_eq, Hx. by eexists. }
  apply version_conflict_false. simpl. intros id u Hu.
  assert (1 ≤ wv_version_number u ≤ n)%Z; [|lia]. apply Hnum. by exists id, u.
Qed.

Lemma delete_workflow_run wid owner w :
  catalog_ok (w_next_uuid w) (w_db w) →
  delete_workflow wid owner w =
  match owned_workflow (w_db w) wid owner with
  | None => (Ok false, w)
  | Some _ =>
      if workflow_in_use (w_db w) wid then (Err EIntegrityError, w)
      else (Ok true, w_commit (w_set_db (drop_workflow wid) w))
  end.
Proof.
  intros Hc. unfold delete_workflow. rewrite run_bind. cbn [gets].
  destruct (owned_workflow (w_db w) wid owner) as [wf|] eqn:Ho; [|done].
  assert (w_id wf = wid) as ->; [|by destruct (workflow_in_use _ _)].
  unfold owned_workflow in Ho. destruct (db_workflows (w_db w) !! wid) as [wf'|] eqn:Hw; [|done].
  simpl in Ho. case_match; [|done]. injection Ho as ->. by apply (ca_workflow_key _ _ Hc).
Qed.

(** A call of the service that changes the tables, on definitions the schema accepts. *)
Inductive workflow_call w : World Q → Prop :=
| call_create name description def owner r w' :
    definition_wf def = true → create name description def owner w = (r, w') → workflow_call w w'
| call_create_version wid def owner r w' :
    definition_wf def = true → create_version wid def owner w = (r, w') → workflow_call w w'
| call_delete wid owner r w' : delete_workflow wid owner w = (r, w') → workflow_call w w'.

(** What the rest of the world sees of a call. *)
Record call_effect w w' : Prop := {
  cf_versions : versions_changed (w_db w) (w_committed w');
  cf_catalog : catalog_ok (w_next_uuid w') (w_committed w');
  cf_next : (w_next_uuid w ≤ w_next_uuid w')%N;
  cf_rest : w_queue w' = w_queue w ∧ w_channel w' = w_channel w ∧
            w_redis_up w' = w_redis_up w ∧ w_now w' = w_now w
}.

Lemma call_effect_refl w :
  catalog_ok (w_next_uuid w) (w_db w) → w_committed w = w_db w → call_effect w w.
Proof.
  intros Hc Hw. split; [|by rewrite Hw|lia|done]. rewrite Hw. split; [done|eauto|apply Hc..|done].
Qed.

Lemma call_effect_add w v ws n next' w' :
  catalog_ok (w_next_uuid w) (w_db w) →
  w_committed w' = add_version ws v (w_db w) → w_next_uuid w' = next' →
  w_queue w' = w_queue w ∧ w_channel w' = w_channel w ∧ w_redis_up w' = w_redis_up w ∧
    w_now w' = w_now w →
  (∀ id wf, ws !! id = Some wf → w_id wf = id) →
  (∀ id, is_Some (ws !! id) ↔ is_Some (db_workflows (w_db w) !! id) ∨ id = wv_workflow_id v) →
  (∀ id wf, db_workflows (w_db w) !! id = Some wf → ∃ wf', ws !! id = Some wf' ∧
     w_owner_api_key_id wf' = w_owner_api_key_id wf) →
  (w_next_uuid w ≤ wv_id v)%N → (wv_id v < next')%N → (∀ id, (next' ≤ id)%N → ws !! id = None) →
  definition_wf (wv_definition v) = true → (0 ≤ n)%Z → numbered (w_db w) (wv_workflow_id v) n →
  wv_version_number v = (n + 1)%Z →
  call_effect w w'.
Proof.
  intros Hc Hdb Hnx Hrest Hkey Hdom Hown Hge Hlt Hfresh Hdef Hn0 Hnum Hv.
  pose proof (catalog_add _ _ _ _ _ _ Hc Hkey Hdom Hge Hlt Hfresh Hdef Hn0 Hnum Hv) as Hc'.
  split; [|by rewrite Hnx, Hdb|lia|done]. rewrite Hdb. split; simpl.
  - intros eid e u _ Hu. rewrite lookup_insert_ne; [done|]. intros Heq.
    by rewrite <- Heq, (ca_versions_fresh _ _ Hc) in Hu.
  - intros eid e wf _. apply Hown.
  - apply (ca_version_key _ _ Hc').
  - done.
  - apply (ca_definition _ _ Hc').
  - done.
Qed.

Lemma drop_unused_changed wid d next :
  db_wf d → catalog_ok next d → workflow_in_use d wid = false →
  versions_changed d (drop_workflow wid d).
Proof.
  intros Hwf Hc Huse. pose proof (catalog_drop _ _ wid Hc) as Hc'.
  assert (∀ eid e, db_executions d !! eid = Some e → ex_workflow_id e ≠ wid ∧
            ∀ v, db_versions d !! ex_workflow_version_id e = Some v → wv_workflow_id v ≠ wid) as Hno.
  { intros eid e He. apply not_true_iff_false in Huse. split.
    - intros Hw. apply Huse, existsb_exists. exists e. split.
      + apply list_elem_of_In, list_elem_of_fmap. exists (eid, e). by rewrite elem_of_map_to_list.
      + apply orb_true_iff. left. by apply N.eqb_eq.
    - intros v Hv Hw. apply Huse, existsb_exists. exists e. split.
      + apply list_elem_of_In, list_elem_of_fmap. exists (eid, e). by rewrite elem_of_map_to_list.
      + apply orb_true_iff. right. apply bool_decide_eq_true_2. exists v. by apply versions_of_lookup. }
  split.
  - intros eid e v He Hv. unfold drop_workflow. simpl. apply map_lookup_filter_Some.
    split; [done|]. by eapply (Hno eid e He).
  - intros eid e wf He Hw. exists wf. unfold drop_workflow. simpl.
    rewrite lookup_delete_ne; [done|]. intros Heq. by apply (proj1 (Hno eid e He)).
  - apply Hc'.
  - apply Hc'.
  - apply (ca_definition _ _ Hc').
  - done.
Qed.

Lemma workflow_call_effect w w' :
  db_wf (w_db w) → catalog_ok (w_next_uuid w) (w_db w) → w_committed w = w_db w →
  workflow_call w w' → call_effect w w'.
Proof.
  intros Hwf Hc Hw Hcall.
  destruct Hcall as [name description def owner r w' Hdef Hr|wid def owner r w' Hdef Hr|wid owner r w' Hr].
  - rewrite create_workflow_run in Hr by done.
    destruct (validate_workflow def registry); injection Hr as _ <-; [|by apply call_effect_refl].
    eapply (call_effect_add w _ _ 0); [done|reflexivity|reflexivity|done|..]; simpl; try done; try lia.
    + intros id wf. rewrite lookup_insert. case_decide; [by intros [= <-]|apply Hc].
    + intros id. rewrite lookup_insert. case_decide; naive_solver.
    + intros id wf Hid. exists wf. rewrite lookup_insert_ne; [done|]. intros <-.
      by rewrite (ca_workflows_fresh _ _ Hc) in Hid.
    + intros id Hid. rewrite lookup_insert_ne by (intros <-; lia). apply (ca_workflows_fresh _ _ Hc). lia.
    + intros k. split; [lia|]. intros (i & u & [Hu Hiw]%versions_of_lookup & _).
      apply (ca_workflow _ _ Hc) in Hu. rewrite Hiw, (ca_workflows_fresh _ _ Hc) in Hu by done. by destruct Hu.
  - rewrite create_workflow_version_run in Hr by done.
    destruct (owned_workflow (w_db w) wid owner) as [wf|] eqn:Ho;
      [|injection Hr as _ <-; by apply call_effect_refl].
    destruct (validate_workflow def registry); injection Hr as _ <-; [|by apply call_effect_refl].
    assert (is_Some (db_workflows (w_db w) !! wid)) as Hs.
    { unfold owned_workflow in Ho. destruct (db_workflows (w_db w) !! wid); [by eexists|done]. }
    destruct (ca_numbers _ _ Hc _ Hs) as (n & Hn & Hnum). rewrite (numbered_max _ _ _ Hn Hnum).
    eapply (call_effect_add w _ _ n); [done|reflexivity|reflexivity|done|..]; simpl; try done; try lia.
    + intros id wf'. rewrite lookup_alter. case_decide; [|apply Hc].
      intros (x & Hx & ->)%fmap_Some. subst. simpl. by apply (ca_workflow_key _ _ Hc).
    + intros id. rewrite lookup_alter. case_decide; [subst; rewrite fmap_is_Some|]; naive_solver.
    + intros id wf' Hid. rewrite lookup_alter. case_decide; [|by exists wf'].
      subst. rewrite Hid. by eexists.
    + intros id Hid. rewrite lookup_alter. case_decide; subst; rewrite (ca_workflows_fresh _ _ Hc); done || lia.
  - rewrite delete_workflow_run in Hr by done.
    destruct (owned_workflow (w_db w) wid owner) as [wf|]; [|injection Hr as _ <-; by apply call_effect_refl].
    destruct (workflow_in_use (w_db w) wid) eqn:Huse; injection Hr as _ <-; [by apply call_effect_refl|].
    split; simpl; [by eapply drop_unused_changed|by apply catalog_drop|lia|done].
Qed.

(** C25. A call of the workflow service, in a session of its own, is a step of the system
    that only touches workflows and versions no execution uses, and it keeps the catalog:
    every workflow has the versions 1 to n, each once, and every stored definition is one
    the schema accepts. So the guarantees about executions hold while workflows come and
    go. *)
Theorem workflow_calls_refine str_exc set_order s w' :
  db_wf (sy_db s) → catalog_ok (sy_next_uuid s) (sy_db s) →
  workflow_call (world_of s new_session) w' →
  sstep str_exc set_order registry s OpVersions (after w' (sy_tasks s)) ∧
  catalog_ok (w_next_uuid w') (w_committed w').
Proof.
  intros Hwf Hc Hcall. apply workflow_call_effect in Hcall as [Hv Hcat Hn (Hq & Hch & Hu & Hnow)];
    [|done..].
  split; [|done]. unfold after. rewrite Hq, Hch, Hu, Hnow. by apply st_versions.
Qed.

(** [create_workflow_version]: 404 for a workflow that is not the caller's, the error of
    the validation for a definition it refuses, nothing changed in both cases. Otherwise the
    new version has the number after the last, its definition and checksum, and it is
    committed; the versions of other workflows stay. *)
Theorem create_workflow_version_spec wid def owner w r w' :
  catalog_ok (w_next_uuid w) (w_db w) → create_version wid def owner w = (r, w') →
  match owned_workflow (w_db w) wid owner, validate_workflow def registry with
  | None, _ => w' = w ∧ r = Err (EApp (app_error_status "Workflow not found" "not_found" 404))
  | _, Err e => w' = w ∧ r = Err e
  | Some _, Ok _ => ∃ n v, (1 ≤ n)%Z ∧ numbered (w_db w) wid n ∧ r = Ok v ∧
      wv_version_number v = (n + 1)%Z ∧ wv_definition v = def ∧ wv_checksum v = checksum def ∧
      ∀ wid', versions_of (w_committed w') wid' =
        if decide (wid = wid') then <[wv_id v := v]> (versions_of (w_db w) wid')
        else versions_of (w_db w) wid'
  end.
Proof.
  intros Hc. rewrite create_workflow_version_run by done.
  destruct (owned_workflow (w_db w) wid owner) as [wf|] eqn:Ho; [|by intros [= <- <-]].
  destruct (validate_workflow def registry); [|by intros [= <- <-]].
  assert (is_Some (db_workflows (w_db w) !! wid)) as Hs.
  { unfold owned_workflow in Ho. destruct (db_workflows (w_db w) !! wid); [by eexists|done]. }
  destruct (ca_numbers _ _ Hc _ Hs) as (n & Hn & Hnum). rewrite (numbered_max _ _ _ Hn Hnum).
  cbn [default]. intros [= <- <-]. eexists n, _. split_and!; [done|done|done|done|done|done|].
  intros wid'. apply versions_of_insert. by apply (ca_versions_fresh _ _ Hc).
Qed.

(** Numbers in descending order. *)
Lemma descending_unique (l k : list Z) :
  StronglySorted (flip Z.le) l → StronglySorted (flip Z.le) k → l ≡ₚ k → l = k.
Proof.
  assert (AntiSymm (=) (flip Z.le)) by (intros x y ??; simpl in *; lia).
  apply (StronglySorted_unique (flip Z.le)).
Qed.

Lemma seqZ_descending n : StronglySorted (flip Z.le) (reverse (seqZ 1 n)).
Proof.
  destruct (Z_lt_le_dec n 0) as [Hn|Hn]; [rewrite seqZ_nil by lia; constructor|].
  rewrite <- (Z2Nat.id n) by done. generalize (Z.to_nat n). clear n Hn.
  induction n as [|n IH]; [constructor|]. rewrite seqZ_S, reverse_app. simpl. constructor; [done|].
  apply Forall_reverse, Forall_forall. intros x Hx%elem_of_seqZ. simpl. lia.
Qed.

(** [GET /workflows/{id}] shows the owner all versions of the workflow, from the last,
    n, down to 1, and to everybody else that there is none; it changes nothing. *)
Theorem get_workflow_endpoint_spec wid owner w r w' :
  catalog_ok (w_next_uuid w) (w_db w) → get_workflow_endpoint wid owner w = (r, w') →
  w' = w ∧
  match owned_workflow (w_db w) wid owner with
  | None => r = Err (EApp (app_error_status "Workflow not found" "not_found" 404))
  | Some wf => ∃ l n, r = Ok (wf, l) ∧ (1 ≤ n)%Z ∧ vr_version_number <$> l = reverse (seqZ 1 n) ∧
      ∀ v, v ∈ l ↔ ∃ id u, versions_of (w_db w) wid !! id = Some u ∧ v = version_response u
  end.
Proof.
  intros Hc Hrun. unfold get_workflow_endpoint, get_workflow in Hrun.
  rewrite run_bind, run_bind in Hrun. cbn [gets] in Hrun.
  destruct (owned_workflow (w_db w) wid owner) as [wf|] eqn:Ho; injection Hrun as <- <-; [|done].
  split; [done|].
  assert (is_Some (db_workflows (w_db w) !! wid)) as Hs.
  { unfold owned_workflow in Ho. destruct (db_workflows (w_db w) !! wid); [by eexists|done]. }
  destruct (ca_numbers _ _ Hc _ Hs) as (n & Hn & Hnum).
  set (rows := version_response <$> (map_to_list (versions_of (w_db w) wid)).*2).
  pose proof (merge_sort_Permutation later_version rows) as Hp.
  assert (∀ v, v ∈ rows ↔ ∃ id u, versions_of (w_db w) wid !! id = Some u ∧ v = version_response u) as Hin.
  { intros v. unfold rows. rewrite list_elem_of_fmap. setoid_rewrite list_elem_of_fmap. split.
    - intros (u & -> & ([id u'] & -> & Hu)). apply elem_of_map_to_list in Hu. by exists id, u'.
    - intros (id & u & Hu & ->). exists u. split; [done|]. exists (id, u). by rewrite elem_of_map_to_list. }
  exists (merge_sort later_version rows), n. split_and!; [done|done| |intros v; by rewrite Hp].
  apply descending_unique; [|apply seqZ_descending|].
  - assert (Total later_version) as Htot by (intros x y; unfold later_version; lia).
    assert (Transitive later_version) as Htr by (intros x y z; unfold later_version; lia).
    pose proof (StronglySorted_merge_sort later_version rows) as Hsrt.
    clear Hp. induction Hsrt as [|x l Hsrt IH Hall]; simpl; constructor; [done|].
    apply Forall_fmap. eapply Forall_impl; [exact Hall|]. done.
  - rewrite Hp, reverse_Permutation. apply NoDup_Permutation.
    + unfold rows. rewrite <- !list_fmap_compose. apply NoDup_fmap_2_strong; [|apply NoDup_map_to_list].
      intros [i u] [j u'] Hu Hu' Heq. apply elem_of_map_to_list in Hu, Hu'. simpl in *.
      assert (i = j) as <- by (by eapply (ca_unique _ _ Hc)). congruence.
    + apply NoDup_seqZ.
    + intros k. rewrite elem_of_seqZ, list_elem_of_fmap. setoid_rewrite Hin. split.
      * intros (v & -> & id & u & Hu & ->). simpl.
        assert (1 ≤ wv_version_number u ≤ n)%Z; [|lia]. apply Hnum. by exists id, u.
      * intros Hk. destruct (proj1 (Hnum k)) as (id & u & Hu & <-); [lia|].
        exists (version_response u). split; [done|]. by exists id, u.
Qed.

End operations.

(** ** Checksums *)

(** Nodes that differ only in the order of the keys of their configurations. *)
Definition node_similar (n m : Node) : Prop :=
  node_id n = node_id m ∧ node_type n = node_type m ∧ node_name n = node_name m ∧
  node_retry_policy n = node_retry_policy m ∧
  json_similar (JDict (node_config n)) (JDict (node_config m)).

Lemma sim_fields (l k : pydict) :
  NoDup l.*1 → Forall2 (fun p q => p.1 = q.1 ∧ json_similar p.2 q.2) l k →
  json_similar (JDict l) (JDict k).
Proof. intros Hnd Hlk. by eapply sim_dict. Qed.

Lemma sim_same_fields (l : pydict) :
  Forall2 (fun p q => p.1 = q.1 ∧ json_similar p.2 q.2) l l.
Proof. apply Forall_Forall2_diag, Forall_true. intros p. split; [done|constructor]. Qed.

Lemma dump_node_similar n m : node_similar n m → json_similar (dump_node n) (dump_node m).
Proof.
  intros (Hi & Ht & Hn & Hr & Hc). unfold dump_node. rewrite Hi, Ht, Hn, Hr. apply sim_fields.
  - rewrite fmap_app. destruct (node_retry_policy m); simpl; refine (bool_decide_unpack _ _); vm_compute; done.
  - apply Forall2_app; [|apply sim_same_fields].
    repeat (constructor; [by split; [done|try constructor]|]). constructor.
Qed.

(** C40. The checksum does not depend on the order in which a definition lists the keys of
    its node configurations: definitions equal up to that order, at any depth, have the
    same canonical JSON. *)
Theorem checksum_canonical sha256_hex float_repr (d d' : WorkflowDefinition) :
  wf_name d = wf_name d' → wf_description d = wf_description d' →
  Forall2 node_similar (wf_nodes d) (wf_nodes d') → wf_edges d = wf_edges d' →
  default_retry_policy d = default_retry_policy d' →
  _generate_checksum sha256_hex float_repr d = _generate_checksum sha256_hex float_repr d'.
Proof.
  intros Hn Hd Hnodes He Hr. unfold _generate_checksum. f_equal. unfold json_dumps. f_equal.
  apply json_chars_similar; [done|].
  unfold model_dump. rewrite Hn, Hd, He, Hr. apply sim_fields.
  - rewrite fmap_app. destruct (default_retry_policy d'); simpl; refine (bool_decide_unpack _ _); vm_compute; done.
  - apply Forall2_app; [|apply sim_same_fields].
    constructor; [split; [done|constructor]|]. constructor; [split; [done|constructor]|].
    constructor; [split; [done|]|apply sim_same_fields]. simpl. apply sim_list, Forall2_fmap.
    eapply Forall2_impl; [exact Hnodes|]. apply dump_node_similar.
Qed.

(** ** Witnesses *)

Definition demo_hash (s : string) : string := s.
Definition demo_repr (_ : spec_float) : string := "2.0".

Definition demo_created : World InMemoryQueuePublisher :=
  mkWorld empty_db empty_db new_session (mkInMemory []) [] false 1000 100.

Lemma empty_catalog next : catalog_ok next empty_db.
Proof. split; try done. by intros wid []. Qed.

Lemma demo_version id v :
  db_versions demo_db !! id = Some v → id = 2%N ∧ v = mkWorkflowVersion 2 1 1 pick_workflow "" 0.
Proof. unfold demo_db, tables_of. simpl. by intros [<- <-]%lookup_singleton_Some. Qed.

(** The catalog of the demo deployment. *)
Lemma demo_catalog : catalog_ok 100 demo_db.
Proof.
  pose proof demo_version as Hv.
  assert (∀ id wf, db_workflows demo_db !! id = Some wf → id = 1%N ∧ w_id wf = 1%N)
    as Hw by (unfold demo_db, tables_of; simpl; by intros id wf [<- <-]%lookup_singleton_Some).
  split.
  - by intros id v [-> ->]%Hv.
  - by intros id wf [-> ->]%Hw.
  - intros id v [-> ->]%Hv. vm_compute. reflexivity.
  - intros id v [-> ->]%Hv. by eexists.
  - intros wid i j v v' [[-> _]%Hv _]%versions_of_lookup [[-> _]%Hv _]%versions_of_lookup. done.
  - intros wid [wf [-> _]%Hw]. exists 1%Z. split; [done|]. intros k. split.
    + intros Hk. assert (k = 1%Z) as -> by lia. exists 2%N, (mkWorkflowVersion 2 1 1 pick_workflow "" 0).
      split; [|done]. apply versions_of_lookup. done.
    + intros (id & v & [[-> ->]%Hv _]%versions_of_lookup & <-). simpl. lia.
  - intros id Hid. apply lookup_singleton_None. lia.
  - intros id Hid. apply lookup_singleton_None. lia.
Qed.

Definition demo_catalog_world : World InMemoryQueuePublisher := world_of demo_start new_session.

Lemma workflow_calls_refine_witness :
  catalog_ok 102 (w_committed (create_workflow demo_registry demo_hash demo_repr "w" "" pick_workflow 7
                    demo_catalog_world).2).
Proof.
  destruct (create_workflow demo_registry demo_hash demo_repr "w" "" pick_workflow 7 demo_catalog_world)
    as [r w'] eqn:Hr.
  assert (w_next_uuid w' = 102%N) as Hn by (vm_compute in Hr; by injection Hr as _ <-).
  rewrite <- Hn.
  apply (workflow_calls_refine demo_registry demo_hash demo_repr demo_exc id demo_start w'
    (demo_wf []) demo_catalog).
  eapply call_create; [|exact Hr]. vm_compute. reflexivity.
Defined.

Lemma create_workflow_version_spec_witness :
  match create_workflow_version demo_registry demo_hash demo_repr 1 pick_workflow 7 demo_catalog_world with
  | (Ok v, _) => wv_version_number v = 2%Z
  | (Err _, _) => False
  end.
Proof.
  destruct (create_workflow_version _ _ _ _ _ _ _) as [r w'] eqn:Hr.
  pose proof (create_workflow_version_spec demo_registry demo_hash demo_repr 1 pick_workflow 7
    demo_catalog_world r w' demo_catalog Hr) as H.
  destruct (owned_workflow (w_db demo_catalog_world) 1 7) as [wf|] eqn:Ho; [|vm_compute in Ho; discriminate Ho].
  destruct (validate_workflow pick_workflow demo_registry) as [vr|e] eqn:Hv; [|vm_compute in Hv; discriminate Hv].
  destruct H as (n & v & Hn & Hnum & -> & -> & _).
  assert (n = 1%Z) as ->; [|reflexivity].
  destruct (proj1 (Hnum n)) as (i & u & [[_ ->]%demo_version _]%versions_of_lookup & <-); [lia|done].
Defined.

Lemma get_workflow_endpoint_spec_witness :
  (get_workflow_endpoint 1 8 demo_catalog_world).1 =
    Err (EApp (app_error_status "Workflow not found" "not_found" 404)) ∧
  ∃ wf v, (get_workflow_endpoint 1 7 demo_catalog_world).1 = Ok (wf, [v]).
Proof.
  split.
  - destruct (get_workflow_endpoint 1 8 demo_catalog_world) as [r w'] eqn:Hr.
    by destruct (get_workflow_endpoint_spec 1 8 demo_catalog_world r w' demo_catalog Hr) as [_ ->].
  - vm_compute. by eexists _, _.
Defined.

Lemma checksum_canonical_witness :
  let d l := mkWorkflowDefinition "w" "" [mkNode "a" "task" "" l None] [] None in
  _generate_checksum demo_hash demo_repr (d [("x", JInt 1); ("y", JNull)]%string) =
  _generate_checksum demo_hash demo_repr (d [("y", JNull); ("x", JInt 1)]%string).
Proof.
  intros d. apply checksum_canonical; try reflexivity. constructor; [|constructor].
  split_and!; try reflexivity. simpl. eapply sim_dict; [|apply sim_same_fields|].
  - refine (bool_decide_unpack _ _). vm_compute. exact I.
  - apply perm_swap.
Defined.
