(* ===== verification/Auth.v ===== *)
(** * Authentication

    API keys (src/backend/app/services/api_key_service.py), access tokens
    (src/backend/app/core/security.py) and the login, refresh and logout endpoints with
    their rotating refresh tokens (src/backend/app/api/auth.py).

    The state is the two tables, the clock and the supplies of identifiers and of random
    tokens. [sha256_hex], [token_urlsafe] (the nth token drawn) and PyJWT's [encode] and
    [decode] are parameters. Every commit of these endpoints is their last statement, so
    the state is the committed one; failures of the database itself are not modelled. *)

From stdpp Require Import strings.
From S2P Require Import Prelude Json PyStr Errors Monad.
From S2P Require Import Models.

(** ** Rows (models/api_key.py, models/refresh_token.py) *)

Record APIKey : Type := mkAPIKey {
  ak_id : uuid;
  ak_name : string;
  ak_key_hash : string;
  ak_is_active : bool;
  ak_last_used_at : option datetime;
  ak_created_at : datetime
}.

Record RefreshToken : Type := mkRefreshToken {
  rt_id : uuid;
  rt_token_hash : string;
  rt_family_id : uuid;
  rt_is_valid : bool;
  rt_expires_at : datetime;
  rt_api_key_id : uuid
}.

Record AuthState : Type := mkAuthState {
  au_keys : gmap uuid APIKey;
  au_tokens : gmap uuid RefreshToken;
  au_now : datetime;
  au_next_uuid : uuid;
  au_draws : N
}.

Definition set_keys f (s : AuthState) : AuthState :=
  mkAuthState (f (au_keys s)) (au_tokens s) (au_now s) (au_next_uuid s) (au_draws s).
Definition set_tokens f (s : AuthState) : AuthState :=
  mkAuthState (au_keys s) (f (au_tokens s)) (au_now s) (au_next_uuid s) (au_draws s).

(** [Settings], as far as authentication reads them. *)
Record Settings : Type := mkSettings {
  jwt_access_secret_key : string;
  jwt_access_token_expire_minutes : Z;
  jwt_refresh_token_expire_days : Z
}.

(** What [jwt.decode] answers: the claims, [ExpiredSignatureError], or another
    [PyJWTError]. *)
Inductive JwtResult : Type :=
| JwtClaims (claims : pydict)
| JwtExpired
| JwtInvalid.

Definition seconds (n : Z) : Z := (n * 1000000)%Z.
Definition days (n : Z) : Z := seconds (n * 24 * 60 * 60).
Definition minutes (n : Z) : Z := seconds (n * 60).

Section auth.
Context (settings : Settings) (sha256_hex : string → string) (token_urlsafe : N → string).
Context (jwt_encode : pydict → string → string) (jwt_decode : string → string → datetime → JwtResult).

Local Abbreviation A := (SE AuthState).

Definition new_uuid : A uuid := fun s =>
  (Ok (au_next_uuid s), mkAuthState (au_keys s) (au_tokens s) (au_now s) (N.succ (au_next_uuid s)) (au_draws s)).

(** [secrets.token_urlsafe(32)]. *)
Definition draw_token : A string := fun s =>
  (Ok (token_urlsafe (au_draws s)),
   mkAuthState (au_keys s) (au_tokens s) (au_now s) (au_next_uuid s) (N.succ (au_draws s))).

(** ** API keys *)

Definition API_KEY_PREFIX : string := "efk_".

Definition generate_api_key : A string := raw ← draw_token; mret (API_KEY_PREFIX +:+ raw).

Definition hash_api_key (raw_key : string) : string := sha256_hex raw_key.

(** [select(...).where(key_hash == ..., is_active)] and [scalar_one_or_none]; [key_hash]
    is unique. *)
Definition find_key (s : AuthState) (raw_key : string) : option APIKey :=
  snd <$> (snd <$> list_find (fun p => ak_key_hash p.2 = hash_api_key raw_key ∧ ak_is_active p.2 = true)
                     (map_to_list (au_keys s))).

Definition get_by_raw_key (raw_key : string) : A (option APIKey) := gets (fun s => find_key s raw_key).

Definition use_key (now : datetime) (k : APIKey) : APIKey :=
  mkAPIKey (ak_id k) (ak_name k) (ak_key_hash k) (ak_is_active k) (Some now) (ak_created_at k).

(** [db_key.last_used_at = datetime.now(UTC)] and commit. *)
Definition touch_key (k : APIKey) : A () :=
  modify (fun s => set_keys (alter (use_key (au_now s)) (ak_id k)) s).

Definition verify_key (raw_key : string) : A bool :=
  db_key ← get_by_raw_key raw_key;
  match db_key with
  | None => mret false
  | Some k => touch_key k ≫= fun _ => mret true
  end.

(** [session.add(APIKey(...))] and commit; [key_hash] is unique. *)
Definition insert_key (name raw_key : string) : A APIKey :=
  key_id ← new_uuid;
  s ← gets id;
  let k := mkAPIKey key_id name (hash_api_key raw_key) true None (au_now s) in
  if existsb (fun p => String.eqb (ak_key_hash p.2) (ak_key_hash k)) (map_to_list (au_keys s))
  then raise EIntegrityError
  else modify (set_keys (<[key_id := k]>)) ≫= fun _ => mret k.

Definition create_key (name : string) : A (APIKey * string) :=
  raw_key ← generate_api_key;
  k ← insert_key name raw_key;
  mret (k, raw_key).

Definition get_or_create_bootstrap_api_key (raw_key : string) : A APIKey :=
  found ← get_by_raw_key raw_key;
  match found with
  | Some k => mret k
  | None => insert_key "bootstrap-key" raw_key
  end.

Definition unauthorized (msg code : string) : exc := EApp (app_error_status msg code 401).

(** The principal is its [api_key_id]. *)
Definition authenticate_api_key (api_key : option string) : A uuid :=
  match api_key with
  | None | Some ""%string => raise (unauthorized "Missing API key" "missing_api_key")
  | Some raw =>
      db_key ← get_by_raw_key raw;
      match db_key with
      | Some k => touch_key k ≫= fun _ => mret (ak_id k)
      | None => raise (unauthorized "Invalid API key" "invalid_api_key")
      end
  end.

(** ** Access tokens *)

(** [exp] is the expiry in whole seconds. *)
Definition create_access_token (data : pydict) : A string :=
  s ← gets id;
  let expire := (au_now s + minutes (jwt_access_token_expire_minutes settings))%Z in
  mret (jwt_encode (dict_set "type" (JStr "access") (dict_set "exp" (JInt (expire / 1000000)) data))
          (jwt_access_secret_key settings)).

(** [create_refresh_token]: the same with a key and a type of its own. *)
Definition create_refresh_token (jwt_refresh_secret_key : string) (data : pydict) : A string :=
  s ← gets id;
  let expire := (au_now s + days (jwt_refresh_token_expire_days settings))%Z in
  mret (jwt_encode (dict_set "type" (JStr "refresh") (dict_set "exp" (JInt (expire / 1000000)) data))
          jwt_refresh_secret_key).

Definition token_data (api_key_id : uuid) : pydict := [("api_key_id", JStr (uuid_str api_key_id))]%string.

(** [uuid.UUID] of something that is no string has no [replace]. *)
Definition get_current_principal_from_token (token : option string) : A uuid :=
  match token with
  | None | Some ""%string => raise (unauthorized "Missing or invalid token" "unauthorized")
  | Some token =>
      s ← gets id;
      match jwt_decode token (jwt_access_secret_key settings) (au_now s) with
      | JwtExpired => raise (unauthorized "Token expired" "token_expired")
      | JwtInvalid => raise (unauthorized "Invalid token" "invalid_token")
      | JwtClaims payload =>
          if negb (py_eq (default JNull (dict_get "type" payload)) (JStr "access")) then
            raise (unauthorized "Invalid token type" "invalid_token")
          else
            let api_key_id := default JNull (dict_get "api_key_id" payload) in
            if negb (py_truthy api_key_id) then
              raise (unauthorized "Invalid token payload" "invalid_token")
            else
              match api_key_id with
              | JStr str => match uuid_parse str with
                            | Some id => mret id
                            | None => raise (unauthorized "Invalid token" "invalid_token")
                            end
              | _ => raise EAttributeError
              end
      end
  end.

(** [request.cookies.get("eventflow_jwt") or bearer_token]. *)
Definition or_else (a b : option string) : option string :=
  match a with None | Some ""%string => b | Some _ => a end.

Definition require_api_key (jwt_cookie bearer_token : option string) : A uuid :=
  get_current_principal_from_token (or_else jwt_cookie bearer_token).

Definition resolve_api_key_id (principal : option uuid) : A uuid :=
  match principal with
  | None => raise (unauthorized "Missing API key ID" "unauthorized")
  | Some api_key_id => mret api_key_id
  end.

Definition require_api_key_id (jwt_cookie bearer_token : option string) : A uuid :=
  principal ← require_api_key jwt_cookie bearer_token;
  resolve_api_key_id (Some principal).

(** ** Refresh tokens *)

(** The response body and the cookies set; both cookies carry the two tokens. *)
Record TokenResponse : Type := mkTokenResponse {
  tr_access_token : string;
  tr_refresh_token : string
}.

Record Cookie : Type := mkCookie { ck_key : string; ck_value : string; ck_max_age : Z }.

Definition token_cookies (access refresh : string) : list Cookie :=
  [mkCookie "eventflow_jwt" access (jwt_access_token_expire_minutes settings * 60);
   mkCookie "eventflow_refresh" refresh (jwt_refresh_token_expire_days settings * 24 * 60 * 60)].

(** [RefreshToken.token_hash == token_hash]; [token_hash] is unique. *)
Definition find_token (tokens : gmap uuid RefreshToken) (token_hash : string) : option RefreshToken :=
  snd <$> (snd <$> list_find (fun p => rt_token_hash p.2 = token_hash) (map_to_list tokens)).

Definition set_valid (b : bool) (t : RefreshToken) : RefreshToken :=
  mkRefreshToken (rt_id t) (rt_token_hash t) (rt_family_id t) b (rt_expires_at t) (rt_api_key_id t).

(** [db.add(RefreshToken(...))] and commit, after [change] in the same transaction. *)
Definition commit_token (change : gmap uuid RefreshToken → gmap uuid RefreshToken)
    (token_hash : string) (family_id api_key_id : uuid) (expires_at : datetime) : A () :=
  new_id ← new_uuid;
  s ← gets id;
  match find_token (au_tokens s) token_hash with
  | Some _ => raise EIntegrityError
  | None =>
      modify (set_tokens (fun tokens =>
        <[new_id := mkRefreshToken new_id token_hash family_id true expires_at api_key_id]> (change tokens)))
  end.

Definition refresh_expiry (now : datetime) : datetime :=
  (now + days (jwt_refresh_token_expire_days settings))%Z.

Definition login_for_access_token (api_key : string) : A (TokenResponse * list Cookie) :=
  api_key_id ← authenticate_api_key (Some api_key);
  access_token ← create_access_token (token_data api_key_id);
  raw_refresh_token ← draw_token;
  family_id ← new_uuid;
  s ← gets id;
  commit_token (fun tokens => tokens) (sha256_hex raw_refresh_token) family_id api_key_id (refresh_expiry (au_now s)) ≫= fun _ =>
  mret (mkTokenResponse access_token raw_refresh_token, token_cookies access_token raw_refresh_token).

(** [UPDATE refresh_tokens SET is_valid = false WHERE family_id = ...]. *)
Definition revoke_family (family_id : uuid) (tokens : gmap uuid RefreshToken) : gmap uuid RefreshToken :=
  (fun t => if (rt_family_id t =? family_id)%N then set_valid false t else t) <$> tokens.

(** The checks of the presented token; the row as it was read. *)
Definition refresh_check (cookie body : option string) : A RefreshToken :=
  match or_else cookie body with
  | None | Some ""%string => raise (unauthorized "Missing refresh token" "missing_token")
  | Some token =>
      s ← gets id;
      match find_token (au_tokens s) (sha256_hex token) with
      | None => raise (unauthorized "Invalid refresh token" "invalid_token")
      | Some db_rt =>
          if negb (rt_is_valid db_rt) then
            modify (set_tokens (revoke_family (rt_family_id db_rt))) ≫= fun _ =>
            raise (unauthorized "Refresh token reused" "token_reused")
          else if (rt_expires_at db_rt <? au_now s)%Z then
            raise (unauthorized "Refresh token expired" "token_expired")
          else mret db_rt
      end
  end.

(** The presented token gives way to a new one of its family. *)
Definition refresh_rotate (db_rt : RefreshToken) : A (TokenResponse * list Cookie) :=
  raw_refresh_token ← draw_token;
  s ← gets id;
  commit_token (alter (set_valid false) (rt_id db_rt)) (sha256_hex raw_refresh_token)
    (rt_family_id db_rt) (rt_api_key_id db_rt) (refresh_expiry (au_now s)) ≫= fun _ =>
  access_token ← create_access_token (token_data (rt_api_key_id db_rt));
  mret (mkTokenResponse access_token raw_refresh_token, token_cookies access_token raw_refresh_token).

(** A refresh that no other request interleaves; its two halves are separate steps of
    [interleaved_step] in AuthSpec. *)
Definition refresh_access_token (cookie body : option string) : A (TokenResponse * list Cookie) :=
  db_rt ← refresh_check cookie body;
  refresh_rotate db_rt.

Definition logout (cookie : option string) : A () :=
  match cookie with
  | None | Some ""%string => mret ()
  | Some token =>
      s ← gets id;
      match find_token (au_tokens s) (sha256_hex token) with
      | Some db_rt => modify (set_tokens (alter (set_valid false) (rt_id db_rt)))
      | None => mret ()
      end
  end.

(** ** The rest of the router *)

Definition get_current_user (jwt_cookie bearer_token : option string) : A (uuid * string) :=
  principal ← require_api_key jwt_cookie bearer_token;
  s ← gets id;
  match au_keys s !! principal with
  | None => raise (unauthorized "API key not found" "unauthorized")
  | Some k => mret (ak_id k, ak_name k)
  end.

Definition verify (jwt_cookie bearer_token : option string) : A bool :=
  require_api_key jwt_cookie bearer_token ≫= fun _ => mret true.

End auth.
