(* ===== verification/AuthSpec.v ===== *)
(** * What authentication guarantees

    Refresh tokens rotate: a family has one valid token at most, a token is good for one
    refresh, and presenting an old one ends its family for good. Access tokens name their
    API key until they expire. *)

From Stdlib Require Import Ascii SpecFloat.
From S2P Require Import Prelude Json PyStr Dumps JsonParse JsonRoundtrip Errors Monad Models Auth.

Section auth_spec.
Context (settings : Settings) (sha256_hex : string → string) (token_urlsafe : N → string).
Context (jwt_encode : pydict → string → string) (jwt_decode : string → string → datetime → JwtResult).

(** Random tokens and their digests do not repeat. *)
Hypothesis Htokens : ∀ n m, sha256_hex (token_urlsafe n) = sha256_hex (token_urlsafe m) → n = m.

Local Abbreviation refresh := (refresh_access_token settings sha256_hex token_urlsafe jwt_encode).
Local Abbreviation login := (login_for_access_token settings sha256_hex token_urlsafe jwt_encode).

(** ** The table of refresh tokens *)

Record auth_inv (s : AuthState) : Prop := {
  ai_key id t : au_tokens s !! id = Some t → rt_id t = id;
  ai_fresh id : (au_next_uuid s ≤ id)%N → au_tokens s !! id = None;
  ai_family id t : au_tokens s !! id = Some t → (rt_family_id t < au_next_uuid s)%N;
  ai_hash i j t u : au_tokens s !! i = Some t → au_tokens s !! j = Some u →
    rt_token_hash t = rt_token_hash u → i = j;
  ai_drawn id t : au_tokens s !! id = Some t →
    ∃ n, (n < au_draws s)%N ∧ rt_token_hash t = sha256_hex (token_urlsafe n);
  ai_one_valid i j t u : au_tokens s !! i = Some t → au_tokens s !! j = Some u →
    rt_family_id t = rt_family_id u → rt_is_valid t = true → rt_is_valid u = true → i = j
}.

Lemma find_token_spec s h :
  auth_inv s →
  match find_token (au_tokens s) h with
  | Some t => au_tokens s !! rt_id t = Some t ∧ rt_token_hash t = h
  | None => ∀ id t, au_tokens s !! id = Some t → rt_token_hash t ≠ h
  end.
Proof.
  intros Hinv. unfold find_token. destruct (list_find _ _) as [[i [id t]]|] eqn:Hf; simpl.
  - apply list_find_Some in Hf as (Hi & Hh & _). apply list_elem_of_lookup_2, elem_of_map_to_list in Hi.
    by rewrite (ai_key _ Hinv _ _ Hi).
  - apply list_find_None in Hf. intros id t Ht. rewrite Forall_forall in Hf.
    apply (Hf (id, t)). by apply elem_of_map_to_list.
Qed.

(** A row of the tables is the one its digest finds. *)
Lemma find_token_row s id t :
  auth_inv s → au_tokens s !! id = Some t → find_token (au_tokens s) (rt_token_hash t) = Some t.
Proof.
  intros Hinv Ht. pose proof (find_token_spec s (rt_token_hash t) Hinv) as Hf.
  destruct (find_token _ _) as [u|]; [|by destruct (Hf id t Ht)].
  destruct Hf as [Hu Hh]. assert (rt_id u = id) as <- by (by eapply ai_hash). congruence.
Qed.

(** ** What a call does to the table *)

(** [rot]: the call may rotate a token. *)
Inductive token_effect (rot : bool) (s s' : AuthState) : Prop :=
| te_same : au_tokens s' = au_tokens s → token_effect rot s s'
| te_login id n fam expires key :
    (au_next_uuid s ≤ id)%N → (id < au_next_uuid s')%N → (au_draws s ≤ n)%N → (n < au_draws s')%N →
    (au_next_uuid s ≤ fam)%N → (fam < au_next_uuid s')%N →
    au_tokens s' = <[id := mkRefreshToken id (sha256_hex (token_urlsafe n)) fam true expires key]> (au_tokens s) →
    token_effect rot s s'
| te_rotate id n old expires :
    (au_next_uuid s ≤ id)%N → (id < au_next_uuid s')%N → (au_draws s ≤ n)%N → (n < au_draws s')%N →
    au_tokens s !! rt_id old = Some old → rt_is_valid old = true →
    au_tokens s' = <[id := mkRefreshToken id (sha256_hex (token_urlsafe n)) (rt_family_id old) true
                             expires (rt_api_key_id old)]> (alter (set_valid false) (rt_id old) (au_tokens s)) →
    rot = true → token_effect rot s s'
| te_revoke fam : au_tokens s' = revoke_family fam (au_tokens s) → token_effect rot s s'
| te_invalidate id : au_tokens s' = alter (set_valid false) id (au_tokens s) → token_effect rot s s'.

(** What one call, or the passing of time, does. *)
Record auth_effect (rot : bool) (s s' : AuthState) : Prop := {
  ae_tokens : token_effect rot s s';
  ae_next : (au_next_uuid s ≤ au_next_uuid s')%N;
  ae_draws : (au_draws s ≤ au_draws s')%N;
  ae_now : (au_now s ≤ au_now s')%Z
}.

Lemma effect_mono s s' : auth_effect false s s' → auth_effect true s s'.
Proof.
  intros [Htok Hn Hd Ht]. split; [|done..].
  destruct Htok as [?|id n fam expires key|? ? ? ? ? ? ? ? ? ? ? [=]|?|?];
    [by apply te_same|by apply (te_login _ _ _ id n fam expires key)|by eapply te_revoke|by eapply te_invalidate].
Qed.

(** A row may lose its validity and keeps everything else; it stays. *)
Definition weaker (t u : RefreshToken) : Prop := u = t ∨ u = set_valid false t.

Lemma revoked_lookup fam tokens id u :
  revoke_family fam tokens !! id = Some u ↔
  ∃ t, tokens !! id = Some t ∧ u = if (rt_family_id t =? fam)%N then set_valid false t else t.
Proof. unfold revoke_family. rewrite lookup_fmap, fmap_Some. naive_solver. Qed.

Lemma altered_lookup id0 (tokens : gmap uuid RefreshToken) id u :
  alter (set_valid false) id0 tokens !! id = Some u ↔
  ∃ t, tokens !! id = Some t ∧ u = if decide (id0 = id) then set_valid false t else t.
Proof.
  rewrite lookup_alter. case_decide as Heq.
  - rewrite fmap_Some. naive_solver.
  - naive_solver.
Qed.

(** Rows that only lose validity keep the invariant. *)
Lemma weaker_inv s s' :
  auth_inv s → (au_next_uuid s ≤ au_next_uuid s')%N → (au_draws s ≤ au_draws s')%N →
  (∀ id u, au_tokens s' !! id = Some u → ∃ t, au_tokens s !! id = Some t ∧ weaker t u) →
  auth_inv s'.
Proof.
  intros Hinv Hn Hd Hw.
  assert (∀ id u, au_tokens s' !! id = Some u → ∃ t, au_tokens s !! id = Some t ∧ rt_id u = rt_id t ∧
    rt_token_hash u = rt_token_hash t ∧ rt_family_id u = rt_family_id t ∧
    (rt_is_valid u = true → rt_is_valid t = true)) as H.
  { intros id u Hu. destruct (Hw id u Hu) as (t & Ht & [->| ->]); exists t; split_and!; try done. }
  split.
  - intros id u Hu. destruct (H id u Hu) as (t & Ht & -> & _). by eapply ai_key.
  - intros id Hid. apply eq_None_not_Some. intros [u Hu]. destruct (H id u Hu) as (t & Ht & _).
    rewrite (ai_fresh _ Hinv) in Ht; [done|lia].
  - intros id u Hu. destruct (H id u Hu) as (t & Ht & _ & _ & -> & _).
    pose proof (ai_family _ Hinv _ _ Ht). lia.
  - intros i j u v Hu Hv. destruct (H i u Hu) as (t & Ht & _ & -> & _).
    destruct (H j v Hv) as (t' & Ht' & _ & -> & _). by apply (ai_hash _ Hinv).
  - intros id u Hu. destruct (H id u Hu) as (t & Ht & _ & -> & _).
    destruct (ai_drawn _ Hinv _ _ Ht) as (n & Hlt & Hh). exists n. split; [lia|done].
  - intros i j u v Hu Hv. destruct (H i u Hu) as (t & Ht & _ & _ & -> & Hvt).
    destruct (H j v Hv) as (t' & Ht' & _ & _ & -> & Hvt'). intros ? ? ?.
    apply (ai_one_valid _ Hinv i j t t'); auto.
Qed.

(** A new valid row whose family has no other valid row keeps the invariant. *)
Lemma insert_inv s s' id n fam expires key :
  auth_inv s → (au_next_uuid s ≤ id)%N → (id < au_next_uuid s')%N → (au_draws s ≤ n)%N →
  (n < au_draws s')%N → (fam < au_next_uuid s')%N →
  (∀ i t, au_tokens s !! i = Some t → rt_family_id t = fam → rt_is_valid t = false) →
  au_tokens s' = <[id := mkRefreshToken id (sha256_hex (token_urlsafe n)) fam true expires key]> (au_tokens s) →
  auth_inv s'.
Proof using Htokens.
  intros Hinv Hid Hid' Hn Hn' Hfam Hno Heq.
  assert (∀ i t, au_tokens s !! i = Some t → rt_token_hash t ≠ sha256_hex (token_urlsafe n)) as Hnew.
  { intros i t Ht Hh. destruct (ai_drawn _ Hinv _ _ Ht) as (m & Hm & Hhm).
    assert (m = n) as -> by (apply Htokens; congruence). lia. }
  split; rewrite Heq.
  - intros i t. rewrite lookup_insert. case_decide; [by intros [= <-]|apply Hinv].
  - intros i Hi. rewrite lookup_insert_ne by lia. apply (ai_fresh _ Hinv). lia.
  - intros i t. rewrite lookup_insert. case_decide; [by intros [= <-]|].
    intros Ht. pose proof (ai_family _ Hinv _ _ Ht). lia.
  - intros i j t u. rewrite !lookup_insert. repeat case_decide; subst; try done.
    + intros [= <-] Hu Hh. simpl in Hh. by destruct (Hnew j u Hu).
    + intros Ht [= <-] Hh. simpl in Hh. by destruct (Hnew i t Ht).
    + apply (ai_hash _ Hinv).
  - intros i t. rewrite lookup_insert. case_decide; [intros [= <-]; by exists n|].
    intros Ht. destruct (ai_drawn _ Hinv _ _ Ht) as (m & Hm & Hhm). exists m. split; [lia|done].
  - intros i j t u. rewrite !lookup_insert. repeat case_decide; subst; try done.
    + intros [= <-] Hu Hf _ Hv. simpl in Hf. by rewrite (Hno j u Hu) in Hv.
    + intros Ht [= <-] Hf Hv _. simpl in Hf. by rewrite (Hno i t Ht) in Hv.
    + apply (ai_one_valid _ Hinv).
Qed.

Lemma effect_inv rot s s' : auth_inv s → auth_effect rot s s' → auth_inv s'.
Proof using Htokens.
  intros Hinv [Htok Hn Hd _]. destruct Htok as [Heq|id n fam exp key H1 H2 H3 H4 H5 H6 Heq
    |id n old exp H1 H2 H3 H4 Hold Hv Heq _|fam Heq|id Heq].
  - apply (weaker_inv s s'); [done..|]. rewrite Heq. intros id u Hu. exists u. split; [done|by left].
  - apply (insert_inv s s' id n fam exp key); try done. intros i t Ht Hf. pose proof (ai_family _ Hinv _ _ Ht). lia.
  - set (s1 := mkAuthState (au_keys s) (alter (set_valid false) (rt_id old) (au_tokens s)) (au_now s)
      (au_next_uuid s) (au_draws s)).
    assert (auth_inv s1) as Hinv1.
    { apply (weaker_inv s s1); [done|done|done|]. intros i u (t & Ht & ->)%altered_lookup. exists t.
      split; [done|]. case_decide; [by right|by left]. }
    apply (insert_inv s1 s' id n (rt_family_id old) exp (rt_api_key_id old)); try done.
    + pose proof (ai_family _ Hinv _ _ Hold). lia.
    + intros i u (t & Ht & ->)%altered_lookup Hf. case_decide as Hi; [done|].
      apply not_true_iff_false. intros Hvt. destruct Hi. by eapply (ai_one_valid _ Hinv _ _ old t).
  - apply (weaker_inv s s'); [done..|]. rewrite Heq. intros id u (t & Ht & ->)%revoked_lookup. exists t.
    split; [done|]. case_match; [by right|by left].
  - apply (weaker_inv s s'); [done..|]. rewrite Heq. intros i u (t & Ht & ->)%altered_lookup. exists t.
    split; [done|]. case_decide; [by right|by left].
Qed.

(** ** The calls *)

Lemma fresh_token s n : auth_inv s → (au_draws s ≤ n)%N → find_token (au_tokens s) (sha256_hex (token_urlsafe n)) = None.
Proof using Htokens.
  intros Hinv Hn. pose proof (find_token_spec s (sha256_hex (token_urlsafe n)) Hinv) as Hf.
  destruct (find_token _ _) as [t|]; [|done]. destruct Hf as [Ht Hh].
  destruct (ai_drawn _ Hinv _ _ Ht) as (m & Hm & Hhm). assert (m = n) by (apply Htokens; congruence). lia.
Qed.

Lemma commit_token_run change h fam key expires s :
  find_token (au_tokens s) h = None →
  commit_token change h fam key expires s =
    (Ok tt, mkAuthState (au_keys s)
       (<[au_next_uuid s := mkRefreshToken (au_next_uuid s) h fam true expires key]> (change (au_tokens s)))
       (au_now s) (N.succ (au_next_uuid s)) (au_draws s)).
Proof.
  intros Hnone. unfold commit_token. do 2 (rewrite run_bind; cbn [new_uuid gets]). simpl.
  by rewrite Hnone.
Qed.

Definition access_token_for (s : AuthState) (key : uuid) : string :=
  jwt_encode [("api_key_id", JStr (uuid_str key));
              ("exp", JInt ((au_now s + minutes (jwt_access_token_expire_minutes settings)) / 1000000));
              ("type", JStr "access")]%string (jwt_access_secret_key settings).

Lemma create_access_token_run key s :
  create_access_token settings jwt_encode (token_data key) s = (Ok (access_token_for s key), s).
Proof. done. Qed.

(** What a rotation leaves and answers. *)
Definition rotated (s : AuthState) (old : RefreshToken) : AuthState :=
  mkAuthState (au_keys s)
    (<[au_next_uuid s := mkRefreshToken (au_next_uuid s) (sha256_hex (token_urlsafe (au_draws s)))
                           (rt_family_id old) true (refresh_expiry settings (au_now s)) (rt_api_key_id old)]>
       (alter (set_valid false) (rt_id old) (au_tokens s)))
    (au_now s) (N.succ (au_next_uuid s)) (N.succ (au_draws s)).

Definition answer_tokens (s : AuthState) (key : uuid) (raw : string) : TokenResponse * list Cookie :=
  (mkTokenResponse (access_token_for s key) raw, token_cookies settings (access_token_for s key) raw).

Lemma refresh_rotate_run old s :
  auth_inv s →
  refresh_rotate settings sha256_hex token_urlsafe jwt_encode old s =
    (Ok (answer_tokens s (rt_api_key_id old) (token_urlsafe (au_draws s))), rotated s old).
Proof using Htokens.
  intros Hinv. unfold refresh_rotate. do 2 (rewrite run_bind; cbn [draw_token gets]).
  rewrite run_bind, commit_token_run; [done|]. simpl. by apply fresh_token.
Qed.

Lemma login_run key s :
  auth_inv s →
  login key s =
  match authenticate_api_key sha256_hex (Some key) s with
  | (Err e, s1) => (Err e, s1)
  | (Ok k, s1) =>
      (Ok (answer_tokens s1 k (token_urlsafe (au_draws s1))),
       mkAuthState (au_keys s1)
         (<[N.succ (au_next_uuid s1) :=
              mkRefreshToken (N.succ (au_next_uuid s1)) (sha256_hex (token_urlsafe (au_draws s1)))
                (au_next_uuid s1) true (refresh_expiry settings (au_now s1)) k]> (au_tokens s1))
         (au_now s1) (N.succ (N.succ (au_next_uuid s1))) (N.succ (au_draws s1)))
  end.
Proof using Htokens.
  intros Hinv. unfold login_for_access_token. rewrite run_bind.
  assert (∀ r s1, authenticate_api_key sha256_hex (Some key) s = (r, s1) →
    au_tokens s1 = au_tokens s ∧ au_draws s1 = au_draws s) as Hsame.
  { intros r s1. unfold authenticate_api_key. destruct key; [by intros [= _ <-]|].
    rewrite run_bind. cbn [get_by_raw_key gets]. destruct (find_key _ s _); [|by intros [= _ <-]].
    rewrite run_bind. by intros [= _ <-]. }
  destruct (authenticate_api_key sha256_hex (Some key) s) as [[k|e] s1]; [|done].
  destruct (Hsame _ _ eq_refl) as [Ht Hd].
  rewrite run_bind, create_access_token_run. do 3 (rewrite run_bind; cbn [draw_token new_uuid gets]).
  rewrite run_bind, commit_token_run; [done|]. simpl. rewrite Ht, Hd. by apply fresh_token.
Qed.

(** The calls other than a refresh, and what happens around them: time passes, and keys
    change (they have no endpoint). *)
Inductive other_call (s : AuthState) : AuthState → Prop :=
| ac_login key r s' : login key s = (r, s') → other_call s s'
| ac_logout cookie r s' : logout sha256_hex cookie s = (r, s') → other_call s s'
| ac_create_key name r s' : create_key sha256_hex token_urlsafe name s = (r, s') → other_call s s'
| ac_bootstrap raw r s' : get_or_create_bootstrap_api_key sha256_hex raw s = (r, s') → other_call s s'
| ac_verify_key raw r s' : verify_key sha256_hex raw s = (r, s') → other_call s s'
| ac_current_user cookie bearer r s' :
    get_current_user settings jwt_decode cookie bearer s = (r, s') → other_call s s'
| ac_time now : (au_now s ≤ now)%Z →
    other_call s (mkAuthState (au_keys s) (au_tokens s) now (au_next_uuid s) (au_draws s))
| ac_keys keys : other_call s (mkAuthState keys (au_tokens s) (au_now s) (au_next_uuid s) (au_draws s)).

Inductive auth_call (s : AuthState) : AuthState → Prop :=
| ac_refresh cookie body r s' : refresh cookie body s = (r, s') → auth_call s s'
| ac_other s' : other_call s s' → auth_call s s'.

Lemma quiet_effect rot s s' :
  au_tokens s' = au_tokens s → (au_next_uuid s ≤ au_next_uuid s')%N → (au_draws s ≤ au_draws s')%N →
  (au_now s ≤ au_now s')%Z → auth_effect rot s s'.
Proof. intros. split; [by apply te_same|done..]. Qed.

Lemma insert_key_quiet name raw s r s' :
  insert_key sha256_hex name raw s = (r, s') →
  au_tokens s' = au_tokens s ∧ (au_next_uuid s ≤ au_next_uuid s')%N ∧ (au_draws s ≤ au_draws s')%N ∧
  (au_now s ≤ au_now s')%Z.
Proof.
  unfold insert_key. do 2 (rewrite run_bind; cbn [new_uuid gets]).
  case_match; [intros [= _ <-]|rewrite run_bind; intros [= _ <-]]; simpl; split_and!; lia || done.
Qed.

(** What each call does to the tokens. *)
Lemma login_effect key s r s' : auth_inv s → login key s = (r, s') → auth_effect false s s'.
Proof using Htokens.
  intros Hinv Hr. rewrite login_run in Hr by done. unfold authenticate_api_key in Hr.
  destruct key as [|c key]; [injection Hr as _ <-; by apply quiet_effect|].
  rewrite run_bind in Hr. cbn [get_by_raw_key gets] in Hr.
  destruct (find_key _ s _) as [k|]; [|injection Hr as _ <-; by apply quiet_effect].
  rewrite run_bind in Hr. cbn [touch_key modify] in Hr. injection Hr as _ <-.
  split; simpl; try lia. eapply te_login with (id := N.succ (au_next_uuid s)) (n := au_draws s)
    (fam := au_next_uuid s); simpl; try lia. reflexivity.
Qed.

(** What the first half of a refresh returns, and what it leaves when it raises. *)
Lemma refresh_check_spec cookie body s r s' :
  auth_inv s → refresh_check sha256_hex cookie body s = (r, s') →
  auth_effect false s s' ∧
  ∀ old, r = Ok old → s' = s ∧ au_tokens s !! rt_id old = Some old ∧ rt_is_valid old = true.
Proof.
  intros Hinv Hr. unfold refresh_check in Hr.
  destruct (or_else cookie body) as [[|c tok]|]; try (injection Hr as <- <-; by split; [apply quiet_effect|]).
  rewrite run_bind in Hr. cbn [gets] in Hr.
  pose proof (find_token_spec s (sha256_hex (String c tok)) Hinv) as Hf. unfold id in Hr.
  destruct (find_token _ _) as [old|]; [|injection Hr as <- <-; by split; [apply quiet_effect|]].
  destruct (rt_is_valid old) eqn:Hv; cbn [negb] in Hr.
  - destruct (_ <? _)%Z; injection Hr as <- <-; (split; [by apply quiet_effect|]); [done|].
    intros ? [= <-]. split_and!; [done|apply Hf|done].
  - rewrite run_bind in Hr. injection Hr as <- <-. split; [|done]. split; simpl; try lia. by eapply te_revoke.
Qed.

Lemma refresh_effect cookie body s r s' : auth_inv s → refresh cookie body s = (r, s') → auth_effect true s s'.
Proof using Htokens.
  intros Hinv Hr. unfold refresh_access_token in Hr. rewrite run_bind in Hr.
  destruct (refresh_check sha256_hex cookie body s) as [[old|e] s1] eqn:Hc;
    destruct (refresh_check_spec _ _ _ _ _ Hinv Hc) as [Heff Hok].
  - destruct (Hok old eq_refl) as (-> & Hrow & Hv). rewrite refresh_rotate_run in Hr by done.
    injection Hr as _ <-. split; simpl; try lia.
    eapply (te_rotate _ _ _ (au_next_uuid s) (au_draws s) old); simpl; try lia; done.
  - injection Hr as _ <-. by apply effect_mono.
Qed.

Lemma logout_effect cookie s r s' : logout sha256_hex cookie s = (r, s') → auth_effect false s s'.
Proof.
  intros Hr. unfold logout in Hr. destruct cookie as [[|c tok]|]; try (injection Hr as _ <-; by apply quiet_effect).
  rewrite run_bind in Hr. cbn [gets] in Hr.
  destruct (find_token _ _) as [old|]; injection Hr as _ <-; [|by apply quiet_effect].
  split; simpl; try lia. by eapply te_invalidate.
Qed.

Lemma create_key_effect name s r s' : create_key sha256_hex token_urlsafe name s = (r, s') → auth_effect false s s'.
Proof.
  intros Hr. unfold create_key, generate_api_key in Hr. rewrite !run_bind in Hr. cbn [draw_token mret SE_ret] in Hr.
  rewrite run_bind in Hr. destruct (insert_key _ _ _ _) as [[k|e] s1] eqn:Hk; injection Hr as _ <-;
    apply insert_key_quiet in Hk as (? & ? & ? & ?); simpl in *; by apply quiet_effect; try lia.
Qed.

Lemma bootstrap_effect raw s r s' : get_or_create_bootstrap_api_key sha256_hex raw s = (r, s') → auth_effect false s s'.
Proof.
  intros Hr. unfold get_or_create_bootstrap_api_key in Hr. rewrite run_bind in Hr. cbn [get_by_raw_key gets] in Hr.
  destruct (find_key _ s _); [injection Hr as _ <-; by apply quiet_effect|].
  apply insert_key_quiet in Hr as (? & ? & ? & ?). by apply quiet_effect.
Qed.

Lemma verify_key_effect raw s r s' : verify_key sha256_hex raw s = (r, s') → auth_effect false s s'.
Proof.
  intros Hr. unfold verify_key in Hr. rewrite run_bind in Hr. cbn [get_by_raw_key gets] in Hr.
  destruct (find_key _ s _); [rewrite run_bind in Hr|]; injection Hr as _ <-; by apply quiet_effect.
Qed.

Lemma current_user_effect cookie bearer s r s' : get_current_user settings jwt_decode cookie bearer s = (r, s') → auth_effect false s s'.
Proof.
  intros Hr. assert (s' = s) as ->; [|by apply quiet_effect].
  unfold get_current_user, require_api_key, get_current_principal_from_token in Hr. rewrite run_bind in Hr.
  destruct (or_else cookie bearer) as [[|c tok]|]; try (by injection Hr as _ <-).
  rewrite run_bind in Hr. cbn [gets] in Hr.
  destruct (jwt_decode _ _ _); try (by injection Hr as _ <-).
  destruct (negb _); [by injection Hr as _ <-|]. destruct (negb _); [by injection Hr as _ <-|].
  destruct (default _ _); try (by injection Hr as _ <-).
  destruct (uuid_parse _); [|by injection Hr as _ <-]. cbn [mret SE_ret] in Hr. rewrite run_bind in Hr.
  cbn [gets] in Hr. unfold id in Hr. destruct (au_keys s !! _); by injection Hr as _ <-.
Qed.

Lemma other_effect s s' : auth_inv s → other_call s s' → auth_effect false s s'.
Proof using Htokens.
  intros Hinv Hcall. destruct Hcall;
    eauto using login_effect, logout_effect, create_key_effect, bootstrap_effect,
      verify_key_effect, current_user_effect; by apply quiet_effect.
Qed.

Lemma call_effect s s' : auth_inv s → auth_call s s' → auth_effect true s s'.
Proof using Htokens.
  intros Hinv Hcall. destruct Hcall; eauto using refresh_effect, effect_mono, other_effect.
Qed.

(** ** Guarantees *)

Inductive auth_reachable : AuthState → Prop :=
| auth_initial s : au_tokens s = ∅ → auth_reachable s
| auth_step s s' : auth_reachable s → auth_call s s' → auth_reachable s'.

Lemma auth_reachable_inv s : auth_reachable s → auth_inv s.
Proof using Htokens.
  induction 1 as [s Hs|s s' _ IH Hcall]; [|by eapply effect_inv, call_effect].
  split; rewrite Hs; intros *; rewrite ?lookup_empty; done.
Qed.

(** ** Refreshes in two steps

    A refresh reads its row, and writes later: between the two, other requests run. The
    row is not locked. *)

(** A step, with the rows that refreshes have read and not yet rotated. A refresh of a
    family starts only when none of that family is under way: this is the condition under
    which a family keeps one valid token, see [refresh_race] below. *)
Inductive interleaved_step : AuthState * list RefreshToken → AuthState * list RefreshToken → Prop :=
| is_other s s' pending : other_call s s' → interleaved_step (s, pending) (s', pending)
| is_refused cookie body s e s' pending :
    refresh_check sha256_hex cookie body s = (Err e, s') → interleaved_step (s, pending) (s', pending)
| is_begin cookie body s old s' pending :
    refresh_check sha256_hex cookie body s = (Ok old, s') →
    rt_family_id old ∉ (rt_family_id <$> pending) →
    interleaved_step (s, pending) (s', old :: pending)
| is_finish s r s' old before after :
    refresh_rotate settings sha256_hex token_urlsafe jwt_encode old s = (r, s') →
    interleaved_step (s, before ++ old :: after) (s', before ++ after)
| is_abandon s old before after : interleaved_step (s, before ++ old :: after) (s, before ++ after).

Inductive interleaved : AuthState → list RefreshToken → Prop :=
| il_initial s : au_tokens s = ∅ → interleaved s []
| il_step s pending s' pending' :
    interleaved s pending → interleaved_step (s, pending) (s', pending') → interleaved s' pending'.

(** While a refresh of [old] is under way, no other token of its family is valid. *)
Definition only_valid (s : AuthState) (old : RefreshToken) : Prop :=
  (rt_family_id old < au_next_uuid s)%N ∧
  ∀ i t, au_tokens s !! i = Some t → rt_family_id t = rt_family_id old → rt_is_valid t = true → i = rt_id old.

Definition interleaved_inv (s : AuthState) (pending : list RefreshToken) : Prop :=
  auth_inv s ∧ NoDup (rt_family_id <$> pending) ∧ Forall (only_valid s) pending.

Lemma effect_only_valid s s' old : auth_effect false s s' → only_valid s old → only_valid s' old.
Proof.
  intros [Htok Hn _ _] [Hfam Hold]. split; [lia|].
  destruct Htok as [Heq|id n f exp key H1 H2 H3 H4 H5 H6 Heq|? ? ? ? ? ? ? ? ? ? ? [=]
    |f Heq|id Heq]; intros i t; rewrite Heq.
  - apply Hold.
  - rewrite lookup_insert. case_decide; [intros [= <-]; simpl; lia|apply Hold].
  - intros (u & Hu & ->)%revoked_lookup. case_match; [done|by apply (Hold i u)].
  - intros (u & Hu & ->)%altered_lookup. case_decide; [done|by apply (Hold i u)].
Qed.

(** Rotating a token when no other of its family is valid. *)
Lemma rotated_inv s old : auth_inv s → only_valid s old → auth_inv (rotated s old).
Proof using Htokens.
  intros Hinv [Hfam Hold].
  set (s1 := set_tokens (alter (set_valid false) (rt_id old)) s).
  assert (auth_inv s1) as Hinv1.
  { apply (effect_inv false s); [done|]. split; simpl; try lia. by eapply te_invalidate. }
  apply (insert_inv s1 (rotated s old) (au_next_uuid s) (au_draws s) (rt_family_id old)
    (refresh_expiry settings (au_now s)) (rt_api_key_id old)); simpl; try lia; [done| |done].
  intros i u (t & Ht & ->)%altered_lookup Hf. case_decide as Hi; [done|].
  apply not_true_iff_false. intros Hv. destruct Hi. symmetry. by apply (Hold i t).
Qed.

Lemma rotated_only_valid s old other :
  rt_family_id old ≠ rt_family_id other → only_valid s other → only_valid (rotated s old) other.
Proof.
  intros Hne [Hfam Hother]. split; [simpl; lia|]. intros i t. cbn [rotated au_tokens].
  rewrite lookup_insert. case_decide; [by intros [= <-]|].
  intros (u & Hu & ->)%altered_lookup. case_decide; [done|by apply (Hother i u)].
Qed.

Lemma interleaved_step_inv s pending s' pending' :
  interleaved_inv s pending → interleaved_step (s, pending) (s', pending') → interleaved_inv s' pending'.
Proof using Htokens.
  intros (Hinv & Hnd & Hall) Hstep.
  assert (∀ s1, auth_effect false s s1 → interleaved_inv s1 pending) as Heffect.
  { intros s1 Heff. split_and!; [by eapply effect_inv|done|].
    eapply Forall_impl; [exact Hall|]. intros old. by apply effect_only_valid. }
  remember (s, pending) as c eqn:Hc. remember (s', pending') as c' eqn:Hc'.
  destruct Hstep as [? ? ? Hcall|? ? ? ? ? ? Hcheck|? ? ? old ? ? Hcheck Hno|? ? ? old before after Hrun
    |? old before after]; simplify_eq.
  - by apply Heffect, other_effect.
  - by apply Heffect, (refresh_check_spec _ _ _ _ _ Hinv Hcheck).
  - destruct (refresh_check_spec _ _ _ _ _ Hinv Hcheck) as [_ Hok].
    destruct (Hok old eq_refl) as (-> & Hrow & Hv). split_and!; [done|by apply NoDup_cons|].
    constructor; [|done]. split; [by eapply (ai_family _ Hinv)|]. intros i t Ht Hf Hvt.
    by apply (ai_one_valid _ Hinv i (rt_id old) t old).
  - rewrite refresh_rotate_run in Hrun by done. injection Hrun as _ <-.
    apply Forall_app in Hall as [Hb [Ho Ha]%Forall_cons].
    rewrite fmap_app, fmap_cons in Hnd. apply NoDup_app in Hnd as (Hnb & Hdis & [Hoa Hna]%NoDup_cons).
    split_and!; [by apply rotated_inv| |].
    + rewrite fmap_app. apply NoDup_app. split_and!; [done| |done]. intros f Hf Hfa. apply (Hdis f Hf). by right.
    + apply Forall_app. split; apply Forall_forall; intros o Hin; apply rotated_only_valid.
      * intros Heq. apply (Hdis (rt_family_id o)); [by apply list_elem_of_fmap_2|]. rewrite <- Heq. left.
      * by eapply Forall_forall in Hin.
      * intros Heq. apply Hoa. rewrite Heq. by apply list_elem_of_fmap_2.
      * by eapply Forall_forall in Hin.
  - apply Forall_app in Hall as [Hb [Ho Ha]%Forall_cons]. split_and!; [done| |by apply Forall_app].
    eapply sublist_NoDup; [exact Hnd|]. rewrite !fmap_app, fmap_cons. apply sublist_app; [done|by constructor].
Qed.

Lemma interleaved_invariant s pending : interleaved s pending → interleaved_inv s pending.
Proof using Htokens.
  induction 1 as [s Hs|s pending s' pending' _ IH Hstep]; [|by eapply interleaved_step_inv].
  split_and!; [|by constructor|done]. apply auth_reachable_inv. by apply auth_initial.
Qed.

(** C28. Whatever requests are made and however their steps interleave, a family of refresh
    tokens has at most one valid token and no two tokens have the same digest, as long as
    two refreshes of the same family do not overlap. *)
Theorem one_valid_token_per_family s pending i j t u :
  interleaved s pending → au_tokens s !! i = Some t → au_tokens s !! j = Some u →
  (rt_token_hash t = rt_token_hash u → i = j) ∧
  (rt_family_id t = rt_family_id u → rt_is_valid t = true → rt_is_valid u = true → i = j).
Proof using Htokens.
  intros Hr Ht Hu. apply interleaved_invariant in Hr as [Hinv _].
  split; [by apply (ai_hash _ Hinv)|by apply (ai_one_valid _ Hinv)].
Qed.



(** The token presented was used, revoked or logged out before. *)
Lemma refresh_reused tok old s :
  tok ≠ ""%string → find_token (au_tokens s) (sha256_hex tok) = Some old → rt_is_valid old = false →
  refresh (Some tok) None s =
    (Err (unauthorized "Refresh token reused" "token_reused"),
     set_tokens (revoke_family (rt_family_id old)) s).
Proof.
  intros Hne Hf Hv. unfold refresh_access_token, refresh_check. rewrite run_bind.
  destruct tok as [|c tok]; [done|]. cbn [or_else]. rewrite run_bind. cbn [gets]. unfold id.
  by rewrite Hf, Hv.
Qed.

Lemma refresh_valid tok old s :
  auth_inv s → tok ≠ ""%string → find_token (au_tokens s) (sha256_hex tok) = Some old →
  rt_is_valid old = true → (au_now s ≤ rt_expires_at old)%Z →
  refresh (Some tok) None s =
    (Ok (answer_tokens s (rt_api_key_id old) (token_urlsafe (au_draws s))), rotated s old).
Proof using Htokens.
  intros Hinv Hne Hf Hv Hexp. unfold refresh_access_token, refresh_check. rewrite run_bind.
  destruct tok as [|c tok]; [done|]. cbn [or_else]. rewrite run_bind. cbn [gets]. unfold id.
  rewrite Hf, Hv. cbn [negb]. rewrite (proj2 (Z.ltb_ge _ _)) by done. cbn [mret SE_ret].
  by apply refresh_rotate_run.
Qed.


(** A successful refresh answers with a new token that can be refreshed in turn, while
    the token presented can not be used a second time. *)
Theorem refresh_chain s tok resp cookies s' :
  (∀ n, token_urlsafe n ≠ ""%string) → (0 ≤ jwt_refresh_token_expire_days settings)%Z →
  auth_reachable s → refresh (Some tok) None s = (Ok (resp, cookies), s') →
  is_ok (refresh (Some (tr_refresh_token resp)) None s').1 = true ∧
  (refresh (Some tok) None s').1 = Err (unauthorized "Refresh token reused" "token_reused").
Proof using Htokens.
  intros Hraw Hdays Hr Hrun. apply auth_reachable_inv in Hr as Hinv.
  assert (auth_inv s') as Hinv'.
  { eapply effect_inv; [exact Hinv|]. eapply call_effect; [exact Hinv|by eapply ac_refresh]. }
  destruct tok as [|c tok]; [done|].
  pose proof (find_token_spec s (sha256_hex (String c tok)) Hinv) as Hspec.
  destruct (find_token (au_tokens s) (sha256_hex (String c tok))) as [old|] eqn:Hf.
  2:{ unfold refresh_access_token, refresh_check in Hrun. rewrite run_bind in Hrun. cbn [or_else] in Hrun.
      rewrite run_bind in Hrun. cbn [gets] in Hrun. unfold id in Hrun. by rewrite Hf in Hrun. }
  destruct (rt_is_valid old) eqn:Hv; [|by rewrite (refresh_reused _ old) in Hrun].
  destruct (Z.ltb_spec (rt_expires_at old) (au_now s)) as [Hexp|Hexp].
  { unfold refresh_access_token, refresh_check in Hrun. rewrite run_bind in Hrun. cbn [or_else] in Hrun.
    rewrite run_bind in Hrun. cbn [gets] in Hrun. unfold id in Hrun. rewrite Hf, Hv in Hrun. cbn [negb] in Hrun.
    by rewrite (proj2 (Z.ltb_lt _ _) Hexp) in Hrun. }
  rewrite (refresh_valid _ old) in Hrun by done. injection Hrun as <- _ <-. cbn [tr_refresh_token].
  destruct Hspec as [Hrow Hh].
  assert (rt_id old ≠ au_next_uuid s) as Hne.
  { intros Heq. rewrite Heq, (ai_fresh _ Hinv) in Hrow; [done|lia]. }
  set (t := mkRefreshToken (au_next_uuid s) (sha256_hex (token_urlsafe (au_draws s))) (rt_family_id old) true
              (refresh_expiry settings (au_now s)) (rt_api_key_id old)).
  assert (au_tokens (rotated s old) !! au_next_uuid s = Some t) as Ht by (simpl; apply lookup_insert_eq).
  assert (au_tokens (rotated s old) !! rt_id old = Some (set_valid false old)) as Hold.
  { simpl. rewrite lookup_insert_ne by done. by rewrite lookup_alter_eq, Hrow. }
  split.
  - rewrite (refresh_valid _ t); [done|done|done| |done|].
    + apply (find_token_row _ _ t Hinv' Ht).
    + unfold t, refresh_expiry, days, seconds. simpl. lia.
  - rewrite (refresh_reused _ (set_valid false old)); [done|done| |done].
    rewrite <- Hh. apply (find_token_row _ _ (set_valid false old) Hinv' Hold).
Qed.

Lemma to_digits_length fuel b n acc : (length (to_digits fuel b n acc) ≤ fuel + length acc)%nat.
Proof.
  revert n acc. induction fuel as [|fuel IH]; intros n acc; [done|]. cbn [to_digits].
  case_match; [simpl; lia|]. etrans; [apply IH|]. simpl. lia.
Qed.

Lemma plain_int z : (0 ≤ z < 2 ^ 62)%Z → json_plain (JInt z) = true.
Proof.
  intros Hz. apply Nat.leb_le. etrans; [apply to_digits_length|].
  assert (N.size_nat (Z.abs_N z) ≤ 62)%nat as Hs; [|change int_max_str_digits with 4300%nat; simpl; lia].
  assert (N.size (Z.abs_N z) ≤ 62)%N as Hs.
  { destruct (decide (Z.abs_N z = 0)%N) as [->|Hnz]; [done|]. rewrite N.size_log2 by done.
    apply N.le_succ_l, N.log2_lt_pow2; lia. }
  replace (N.size (Z.abs_N z)) with (N.of_nat (N.size_nat (Z.abs_N z))) in Hs; [lia|].
  clear. destruct (Z.abs_N z) as [|p]; [done|]. cbn. induction p; cbn; lia.
Qed.

(** Round trip of access tokens. [Hjwt] is what PyJWT documents: a token is not empty
    and decodes, under the key that signed it and until [exp], to its claims if they are
    JSON. Then the principal of a token made for an API key is that key, and after the
    expiry the token is refused. *)
Theorem access_token_roundtrip s s' key :
  (∀ claims secret now e, json_plain (JDict claims) = true → dict_get "exp" claims = Some (JInt e) →
     jwt_encode claims secret ≠ ""%string ∧
     jwt_decode (jwt_encode claims secret) secret now =
       if (e * 1000000 <=? now)%Z then JwtExpired else JwtClaims claims) →
  let expire := ((au_now s + minutes (jwt_access_token_expire_minutes settings)) / 1000000)%Z in
  (key < 2 ^ 128)%N → (0 ≤ expire < 2 ^ 62)%Z →
  match create_access_token settings jwt_encode (token_data key) s with
  | (Ok token, _) =>
      get_current_principal_from_token settings jwt_decode (Some token) s' =
      (if (expire * 1000000 <=? au_now s')%Z then Err (unauthorized "Token expired" "token_expired")
       else Ok key, s')
  | (Err _, _) => False
  end.
Proof.
  intros Hjwt expire Hkey Hexpire. rewrite create_access_token_run. unfold access_token_for.
  set (claims := [_; _; _]).
  destruct (Hjwt claims (jwt_access_secret_key settings) (au_now s') expire) as [Hne Hdec]; [|done|].
  { apply andb_true_iff. split; [by vm_compute|]. 
    change (true && (json_plain (JInt expire) && (true && true)) = true).
    by rewrite (plain_int _ Hexpire). }
  unfold get_current_principal_from_token. set (tok := jwt_encode claims _) in *.
  clearbody tok. destruct tok as [|c tok]; [done|]. rewrite run_bind. cbn [gets]. unfold id. rewrite Hdec.
  destruct (expire * 1000000 <=? au_now s')%Z; [done|].
  assert (dict_get "type" claims = Some (JStr "access")) as -> by reflexivity.
  assert (dict_get "api_key_id" claims = Some (JStr (uuid_str key))) as -> by reflexivity.
  pose proof (uuid_parse_str key Hkey) as Hparse. revert Hparse. generalize (uuid_str key).
  intros str Hparse. destruct str as [|c' str]; [discriminate Hparse|].
  cbn [default]. change (py_eq (JStr "access") (JStr "access")) with true.
  change (py_truthy (JStr (String c' str))) with true. cbn [negb]. by rewrite Hparse.
Qed.

(** ** Two refreshes at once *)

(** Two requests that both read the row before either of them writes both succeed, and the
    family then has two valid tokens: the check and the rotation are not atomic, and the
    row is not locked. *)
Lemma refresh_race s tok old :
  auth_inv s → tok ≠ ""%string → find_token (au_tokens s) (sha256_hex tok) = Some old →
  rt_is_valid old = true → (au_now s ≤ rt_expires_at old)%Z →
  ∃ s1 s2 i j t u, refresh_check sha256_hex (Some tok) None s = (Ok old, s) ∧
    (refresh_rotate settings sha256_hex token_urlsafe jwt_encode old s).2 = s1 ∧
    (refresh_rotate settings sha256_hex token_urlsafe jwt_encode old s1).2 = s2 ∧
    i ≠ j ∧ au_tokens s2 !! i = Some t ∧ au_tokens s2 !! j = Some u ∧
    rt_family_id t = rt_family_id u ∧ rt_is_valid t = true ∧ rt_is_valid u = true.
Proof using Htokens.
  intros Hinv Hne Hf Hv Hexp.
  pose proof (find_token_spec s (sha256_hex tok) Hinv) as Hspec. rewrite Hf in Hspec.
  destruct Hspec as [Hrow _].
  assert (auth_inv (rotated s old)) as Hinv1.
  { eapply (effect_inv true); [exact Hinv|]. split; simpl; try lia.
    eapply (te_rotate _ _ _ (au_next_uuid s) (au_draws s) old); simpl; try lia; done. }
  rewrite refresh_rotate_run by done. cbn [snd].
  assert (∀ i, (au_next_uuid s ≤ i)%N → rt_id old ≠ i) as Hold.
  { intros i Hi <-. by rewrite (ai_fresh _ Hinv) in Hrow. }
  eexists _, (rotated (rotated s old) old), (au_next_uuid s), (au_next_uuid (rotated s old)), _, _.
  split_and!; [|reflexivity|by rewrite refresh_rotate_run|simpl; lia| | | | |].
  - unfold refresh_check. destruct tok as [|c tok]; [done|]. cbn [or_else]. rewrite run_bind.
    cbn [gets]. unfold id. rewrite Hf, Hv. cbn [negb]. by rewrite (proj2 (Z.ltb_ge _ _)).
  - cbn. rewrite lookup_insert_ne by lia. rewrite lookup_alter_ne by (apply Hold; lia).
    by rewrite lookup_insert_eq.
  - cbn. by rewrite lookup_insert_eq.
  - done.
  - done.
  - done.
Qed.

(** A request is authenticated by its token alone: no table is read, so a key that has been
    deactivated or is gone keeps its access until its tokens expire. *)
Lemma require_api_key_tables keys tokens cookie bearer s :
  (require_api_key settings jwt_decode cookie bearer (set_tokens tokens (set_keys keys s))).1 =
    (require_api_key settings jwt_decode cookie bearer s).1.
Proof using Type.
  unfold require_api_key, get_current_principal_from_token.
  destruct (or_else cookie bearer) as [[|c tok]|]; [done| |done]. rewrite !run_bind. cbn [gets]. unfold id.
  cbn [set_tokens set_keys au_now]. destruct (jwt_decode _ _ _) as [claims| |]; [|done|done].
  repeat (case_match; try done).
Qed.

End auth_spec.

(** ** Witnesses *)

Definition demo_settings : Settings := mkSettings "secret" 15 7.
Definition demo_digest (s : string) : string := s.
Definition demo_token (n : N) : string := String "t"%char (py_str_Z (Z.of_N n)).
Definition demo_float (_ : spec_float) : string := "0.0".
Definition demo_encode (claims : pydict) (_ : string) : string :=
  json_dumps demo_float default_style (JDict claims).
Definition demo_decode (token _ : string) (now : datetime) : JwtResult :=
  match json_loads token with
  | Some (JDict claims) =>
      match dict_get "exp" claims with
      | Some (JInt e) => if (e * 1000000 <=? now)%Z then JwtExpired else JwtClaims claims
      | _ => JwtInvalid
      end
  | _ => JwtInvalid
  end.

Lemma demo_tokens n m : demo_digest (demo_token n) = demo_digest (demo_token m) → n = m.
Proof.
  unfold demo_digest, demo_token. intros [= H].
  apply (f_equal py_int) in H. rewrite !py_int_str in H. injection H as H. lia.
Qed.

(** One API key, whose raw value is "k". *)
Definition demo_auth : AuthState :=
  mkAuthState {[1%N := mkAPIKey 1 "demo" "k" true None 0]} ∅ 5000000 10 0.

Local Abbreviation demo_login := (login_for_access_token demo_settings demo_digest demo_token demo_encode "k").
Local Abbreviation demo_refresh tok :=
  (refresh_access_token demo_settings demo_digest demo_token demo_encode (Some tok) None).

(** Logged in; refreshed; the first token presented again. *)
Definition demo_auth1 : AuthState := (demo_login demo_auth).2.
Definition demo_auth2 : AuthState := (demo_refresh "t0" demo_auth1).2.

Local Abbreviation demo_reachable := (auth_reachable demo_settings demo_digest demo_token demo_encode demo_decode).

Lemma demo_auth1_reachable : demo_reachable demo_auth1.
Proof.
  eapply auth_step; [by apply (auth_initial _ _ _ _ _ demo_auth)|].
  by eapply ac_other, ac_login with (key := "k"%string), surjective_pairing.
Qed.


(** The same refresh in two steps. *)
Definition demo_old : RefreshToken :=
  default (mkRefreshToken 0 "" 0 false 0 0) (find_token (au_tokens demo_auth1) "t0").

Lemma demo_auth2_interleaved : ∃ pending,
  interleaved demo_settings demo_digest demo_token demo_encode demo_decode demo_auth2 pending.
Proof.
  exists []. eapply il_step with (s := demo_auth1) (pending := [demo_old]).
  - eapply il_step with (s := demo_auth1) (pending := []).
    + eapply il_step; [by apply (il_initial _ _ _ _ _ demo_auth)|]. eapply is_other.
      by eapply ac_login with (key := "k"%string), surjective_pairing.
    + eapply is_begin with (cookie := Some "t0"%string) (body := None); [vm_compute; reflexivity|].
      apply not_elem_of_nil.
  - eapply is_finish with (before := []) (after := []).
    etrans; [apply surjective_pairing|]. f_equal.
Qed.

Lemma one_valid_token_per_family_witness :
  match au_tokens demo_auth2 !! 11%N, au_tokens demo_auth2 !! 12%N with
  | Some t, Some u => rt_family_id t = rt_family_id u ∧ (rt_is_valid t = false ∨ rt_is_valid u = false)
  | _, _ => False
  end.
Proof.
  destruct (au_tokens demo_auth2 !! 11%N) as [t|] eqn:Ht; [|vm_compute in Ht; discriminate Ht].
  destruct (au_tokens demo_auth2 !! 12%N) as [u|] eqn:Hu; [|vm_compute in Hu; discriminate Hu].
  assert (rt_family_id t = rt_family_id u) as Hf.
  { vm_compute in Ht, Hu. injection Ht as <-. injection Hu as <-. reflexivity. }
  split; [exact Hf|].
  destruct demo_auth2_interleaved as [pending Hr].
  destruct (one_valid_token_per_family demo_settings demo_digest demo_token demo_encode demo_decode
    demo_tokens demo_auth2 pending 11 12 t u Hr Ht Hu) as [_ H].
  destruct (rt_is_valid t) eqn:Hvt; [right|by left].
  destruct (rt_is_valid u); [|reflexivity]. by specialize (H Hf eq_refl eq_refl).
Defined.


Lemma refresh_chain_witness :
  (demo_refresh "t0" demo_auth2).1 = Err (unauthorized "Refresh token reused" "token_reused").
Proof.
  destruct (demo_refresh "t0" demo_auth1) as [r s'] eqn:Hr.
  assert (demo_auth2 = s') as -> by (unfold demo_auth2; by rewrite Hr).
  destruct r as [[resp cookies]|e]; [|vm_compute in Hr; discriminate Hr].
  apply (refresh_chain demo_settings demo_digest demo_token demo_encode demo_decode demo_tokens
    demo_auth1 "t0" resp cookies s'); [discriminate|done|apply demo_auth1_reachable|exact Hr].
Defined.

Lemma access_token_roundtrip_witness :
  match create_access_token demo_settings demo_encode (token_data 1) demo_auth with
  | (Ok token, _) => (get_current_principal_from_token demo_settings demo_decode (Some token) demo_auth).1 = Ok 1%N
  | (Err _, _) => False
  end.
Proof.
  pose proof (access_token_roundtrip demo_settings demo_encode demo_decode demo_auth demo_auth 1) as H.
  destruct (create_access_token _ _ _ _) as [[token|e] s1] eqn:Hc; [|vm_compute in Hc; discriminate Hc].
  rewrite H; [reflexivity| |reflexivity|vm_compute; split; [discriminate|reflexivity]].
  intros claims secret now e Hplain He.
  pose proof (loads_dumps demo_float default_style [" "%char] [" "%char] eq_refl) as Hl.
  split.
  - unfold demo_encode, json_dumps. cbn [json_chars]. discriminate.
  - unfold demo_decode, demo_encode. rewrite Hl; [by rewrite He| | |exact Hplain];
      (split; [reflexivity|by repeat constructor]).
Defined.
