(* ===== verification/RateLimit.v ===== *)
(** * The rate limiter

    src/backend/app/api/middleware/rate_limit.py: the sliding window kept in memory, and the
    middleware that counts in Redis and falls back to it. The state holds the window, the
    clock (in microseconds), the Redis side [R] and the application [App]; the Redis
    pipeline [INCR key; EXPIRE key window NX] and the application behind [call_next] are
    parameters. *)

From Stdlib Require Import Ascii.
From stdpp Require Import sorting.
From S2P Require Import Prelude Json PyStr Errors Dumps JsonParse Monad Registry Conditions Executors.

(** ** The sliding window *)

Abbreviation Requests := (gmap string (list Z)).

(** [is_allowed], with [now] the time and [window] in seconds. *)
Definition is_allowed (identifier : string) (limit window now : Z) (requests : Requests) :
    (bool * Z) * Requests :=
  let cutoff := (now - window * 1000000)%Z in
  let timestamps := filter (fun t => (cutoff < t)%Z) (default [] (requests !! identifier)) ++ [now] in
  let count := Z.of_nat (length timestamps) in
  (((count <=? limit)%Z, Z.max 0 (limit - count)), <[identifier := timestamps]> requests).

(** ** The middleware *)

Record Request : Type := mkRequest {
  rq_path : string;
  rq_http_method : string;
  rq_forwarded_for : option string;
  rq_api_key : option string;
  rq_client_host : option string
}.

Record Response : Type := mkResponse {
  rs_status : Z;
  rs_content : json;
  rs_headers : list (string * string)
}.

Record RateSettings : Type := mkRateSettings {
  rate_limit_requests : Z;
  rate_limit_window_seconds : Z
}.

(** ** Headers *)

Definition lower (s : string) : string := text (map ascii_lower (chars s)).

(** Names of headers do not depend on the case. *)
Definition header_is (k : string) (h : string * string) : bool := String.eqb (lower h.1) (lower k).

Definition has_header (k : string) (headers : list (string * string)) : bool :=
  existsb (header_is k) headers.

(** [headers[k] = v]: the first header of the name is replaced and the others go. *)
Fixpoint set_header (k v : string) (headers : list (string * string)) : list (string * string) :=
  match headers with
  | [] => [(k, v)]
  | h :: headers =>
      if header_is k h then (k, v) :: List.filter (fun h => negb (header_is k h)) headers
      else h :: set_header k v headers
  end.

(** The value of a header: the first of its name. *)
Definition header_value (k : string) (headers : list (string * string)) : option string :=
  (fun p => p.2.2) <$> list_find (fun h => header_is k h = true) headers.

Lemma header_value_cons k h headers :
  header_value k (h :: headers) = if header_is k h then Some h.2 else header_value k headers.
Proof.
  unfold header_value. simpl. case_decide as Hh; [by rewrite Hh|].
  apply not_true_is_false in Hh. rewrite Hh. by destruct (list_find _ headers) as [[]|].
Qed.

Lemma header_value_app k l1 l2 :
  header_value k (l1 ++ l2) = match header_value k l1 with Some v => Some v | None => header_value k l2 end.
Proof.
  induction l1 as [|h l1 IH]; [done|]. rewrite <- app_comm_cons, !header_value_cons, IH.
  by destruct (header_is k h).
Qed.

(** Setting a header changes no other. *)
Lemma header_value_set_header k k' v headers :
  header_value k (set_header k' v headers) =
    if String.eqb (lower k') (lower k) then Some v else header_value k headers.
Proof.
  induction headers as [|h headers IH]; [by simpl; rewrite header_value_cons|]. simpl.
  destruct (header_is k' h) eqn:Hh; rewrite !header_value_cons; unfold header_is in *; simpl.
  - apply String.eqb_eq in Hh. rewrite Hh. destruct (String.eqb_spec (lower k') (lower k)) as [|Hne]; [done|].
    clear IH Hh. induction headers as [|h' headers IH]; [done|]. simpl.
    destruct (String.eqb_spec (lower h'.1) (lower k')) as [Heq|]; simpl; rewrite !header_value_cons, IH;
      [|done]. unfold header_is. rewrite Heq. by destruct (String.eqb_spec (lower k') (lower k)).
  - rewrite IH. destruct (String.eqb_spec (lower h.1) (lower k)) as [Heq|]; [|done].
    rewrite <- Heq. destruct (String.eqb_spec (lower k') (lower h.1)) as [Heq'|]; [|done].
    by rewrite Heq', String.eqb_refl in Hh.
Qed.

Section middleware.
Context {R App : Type}.

Record LimitState : Type := mkLimitState {
  ls_requests : Requests;
  ls_now : Z;
  ls_redis : R;
  ls_app : App
}.

(** What the pipeline answers: [results[0]], or an exception of redis-py. *)
Context (pipeline : string → Z → Z → R → res exc Z * R).
Context (call_next : Request → App → res exc Response * App).
Context (settings : RateSettings).

Local Abbreviation L := (SE LimitState).

Definition run_app (request : Request) : L Response := fun s =>
  let '(r, app) := call_next request (ls_app s) in
  (r, mkLimitState (ls_requests s) (ls_now s) (ls_redis s) app).

Definition run_pipeline (key : string) (window : Z) : L Z := fun s =>
  let '(r, redis) := pipeline key window (ls_now s) (ls_redis s) in
  (r, mkLimitState (ls_requests s) (ls_now s) redis (ls_app s)).

Definition in_memory_is_allowed (identifier : string) (limit window : Z) : L (bool * Z) := fun s =>
  let '(r, requests) := is_allowed identifier limit window (ls_now s) (ls_requests s) in
  (Ok r, mkLimitState requests (ls_now s) (ls_redis s) (ls_app s)).

Definition starts_with (p s : string) : bool :=
  match drop_prefix (chars p) (chars s) with Some _ => true | None => false end.

Definition exempt (request : Request) : bool :=
  let path := rq_path request in
  negb (starts_with "/api/" path) ||
  (String.eqb (rq_http_method request) "GET" &&
   (existsb (String.eqb path) ["/api/v1/metrics/summary"; "/health/live"; "/health/ready"]%string ||
    starts_with "/health/" path)).

(** [forwarded.split(",")[0].strip()], or the peer. *)
Definition client_ip (request : Request) : string :=
  match rq_forwarded_for request with
  | Some (String c l) =>
      text (strip py_isspace (span (fun x => negb (Ascii.eqb x ",")) (chars (String c l))).1)
  | _ => match rq_client_host request with Some h => h | None => "unknown" end
  end.

Definition identifier_of (request : Request) : string :=
  match rq_api_key request with
  | Some (String c k) => String c k
  | _ => client_ip request
  end.

Definition too_many : Response :=
  mkResponse 429 (JDict [("detail", JStr "Too many requests, please try again later.")]%string)
    [("X-RateLimit-Limit", py_str_Z (rate_limit_requests settings));
     ("X-RateLimit-Remaining", "0");
     ("X-RateLimit-Reset", py_str_Z (rate_limit_window_seconds settings))]%string.

Definition with_headers (remaining : Z) (response : Response) : Response :=
  mkResponse (rs_status response) (rs_content response)
    (set_header "X-RateLimit-Remaining" (py_str_Z remaining)
       (set_header "X-RateLimit-Limit" (py_str_Z (rate_limit_requests settings)) (rs_headers response))).

(** The body of the [try]: the application runs inside it. *)
Definition dispatch_redis (request : Request) : L Response :=
  let limit := rate_limit_requests settings in
  request_count ← run_pipeline ("rate_limit:" +:+ identifier_of request) (rate_limit_window_seconds settings);
  if (limit <? request_count)%Z then mret too_many
  else
    response ← run_app request;
    mret (with_headers (Z.max 0 (limit - request_count)) response).

(** The handler of [except Exception]. *)
Definition dispatch_fallback (request : Request) : L Response :=
  p ← in_memory_is_allowed (identifier_of request) (rate_limit_requests settings)
        (rate_limit_window_seconds settings);
  if (p.1 : bool) then
    response ← run_app request;
    mret (with_headers p.2 response)
  else mret too_many.

Definition dispatch (request : Request) : L Response := fun s =>
  if exempt request then run_app request s
  else
    match dispatch_redis request s with
    | (Ok response, s') => (Ok response, s')
    | (Err _, s') => dispatch_fallback request s'
    end.

(** ** A failing application runs twice *)

(** When the application raises, the middleware takes that for a failure of Redis, counts
    the request once more in memory and hands it to the application a second time. *)
Lemma dispatch_runs_twice request s e app1 n redis1 :
  exempt request = false → (n ≤ rate_limit_requests settings)%Z → (1 ≤ rate_limit_requests settings)%Z →
  pipeline ("rate_limit:" +:+ identifier_of request) (rate_limit_window_seconds settings)
    (ls_now s) (ls_redis s) = (Ok n, redis1) →
  call_next request (ls_app s) = (Err e, app1) →
  ls_requests s !! identifier_of request = None →
  let second := call_next request app1 in
  ls_app (dispatch request s).2 = second.2 ∧
  (is_ok (dispatch request s).1 = is_ok second.1).
Proof.
  intros Hex Hn Hlim Hpipe Happ Hnone second. unfold dispatch. rewrite Hex.
  unfold dispatch_redis. rewrite run_bind. unfold run_pipeline. rewrite Hpipe.
  rewrite (proj2 (Z.ltb_ge _ _)) by done. rewrite run_bind. unfold run_app. simpl. rewrite Happ.
  unfold dispatch_fallback. rewrite run_bind. unfold in_memory_is_allowed, is_allowed. simpl.
  rewrite Hnone. simpl. rewrite (proj2 (Z.leb_le _ _)) by lia. rewrite run_bind.
  unfold run_app. simpl. subst second. by destruct (call_next request app1) as [[r|e'] app2].
Qed.

End middleware.

(** ** The window holds *)

(** Requests, as pairs of an identifier and a time, from the first; and what each was
    answered. *)
Fixpoint run_limiter (limit window : Z) (requests : Requests) (events : list (string * Z)) :
    list bool :=
  match events with
  | [] => []
  | (identifier, now) :: events' =>
      let '((allowed, _), requests') := is_allowed identifier limit window now requests in
      allowed :: run_limiter limit window requests' events'
  end.

(** The times of an identifier in a window that ends at [t]. *)
Definition in_window (identifier : string) (window t : Z) (events : list (string * Z)) : list Z :=
  filter (fun u => (t - window * 1000000 < u)%Z)
    (snd <$> filter (fun e => e.1 = identifier) events).

(** What is remembered is at least what the window of a later request needs. *)
Definition remembers (window now : Z) (past : list (string * Z)) (requests : Requests) : Prop :=
  ∀ identifier t, (now ≤ t)%Z →
    filter (fun u => (t - window * 1000000 < u)%Z) (default [] (requests !! identifier)) =
    in_window identifier window t past.

Lemma filter_filter_weaker {B} (P P' : B → Prop) `{!∀ x, Decision (P x), !∀ x, Decision (P' x)} (l : list B) :
  (∀ x, P' x → P x) → filter P' (filter P l) = filter P' l.
Proof.
  intros HP. induction l as [|x l IH]; [done|]. rewrite (filter_cons P).
  case_decide as Hx; rewrite !(filter_cons P'); repeat case_decide; rewrite ?IH; try done. naive_solver.
Qed.

Lemma is_allowed_remembers identifier limit window now past requests :
  (0 ≤ window)%Z →
  remembers window now past requests →
  remembers window now (past ++ [(identifier, now)]) (is_allowed identifier limit window now requests).2.
Proof.
  intros Hw Hrem i t Ht. unfold is_allowed. cbv zeta. cbn [snd]. unfold in_window.
  rewrite filter_app, fmap_app, filter_app. rewrite lookup_insert. case_decide as Hi.
  - subst i. simpl. rewrite filter_app, filter_filter_weaker by lia. rewrite (Hrem identifier t Ht).
    unfold in_window. rewrite (filter_cons _ (identifier, now)), decide_True by done. done.
  - rewrite (Hrem i t Ht). unfold in_window. rewrite (filter_cons _ (identifier, now)).
    simpl. rewrite decide_False by done. simpl. by rewrite app_nil_r.
Qed.

Lemma remembers_later window now now' past requests :
  (now ≤ now')%Z → remembers window now past requests → remembers window now' past requests.
Proof. intros Hle Hrem i t Ht. apply Hrem. lia. Qed.

Lemma run_limiter_window limit window events : ∀ past requests now0 k identifier t,
  (0 < window)%Z → remembers window now0 past requests →
  StronglySorted Z.le (now0 :: events.*2) → events !! k = Some (identifier, t) →
  run_limiter limit window requests events !! k =
    Some (Z.of_nat (length (in_window identifier window t (past ++ take (S k) events))) <=? limit)%Z.
Proof.
  induction events as [|[i now] events IH]; intros past requests now0 k identifier t Hw Hrem Hsorted Hk;
    [done|].
  inversion Hsorted as [|? ? Hs Hall]; subst. apply Forall_cons in Hall as [Hle _]. simpl in Hle.
  apply (remembers_later _ _ now) in Hrem; [|done].
  pose proof (is_allowed_remembers i limit window now past requests (Z.lt_le_incl _ _ Hw) Hrem) as Hrem'.
  cbn [run_limiter]. destruct (is_allowed i limit window now requests) as [[a rem] requests'] eqn:Ha.
  destruct k as [|k].
  - injection Hk as -> ->. simpl. f_equal. unfold is_allowed in Ha. injection Ha as <- _ _.
    rewrite (Hrem identifier t) by lia. do 2 f_equal. unfold in_window.
    rewrite filter_app, fmap_app, filter_app, !length_app. f_equal.
    rewrite (filter_cons _ (identifier, t)), decide_True by done.
    cbn [take filter list_filter fmap list_fmap snd length]. rewrite decide_True by lia. done.
  - simpl. rewrite (IH (past ++ [(i, now)]) requests' now k identifier t); [|done|done|done|done].
    rewrite <- app_assoc. done.
Qed.

(** C30. The window limiter answers as its specification says: requests arriving in the
    order of time, a request is let through if and only if no more than [limit] requests
    of the same identifier, this one and refused ones included, arrived within the last
    [window] seconds; forgetting the older ones makes no difference. *)
Theorem sliding_window_limit limit window events k identifier t :
  (0 < window)%Z → StronglySorted Z.le events.*2 → events !! k = Some (identifier, t) →
  run_limiter limit window ∅ events !! k =
    Some (Z.of_nat (length (in_window identifier window t (take (S k) events))) <=? limit)%Z.
Proof.
  intros Hw Hsorted Hk. destruct events as [|[i now] events]; [done|].
  apply (run_limiter_window limit window ((i, now) :: events) [] ∅ now); [done| | |done].
  - intros j u _. by rewrite lookup_empty.
  - simpl. constructor; [done|]. simpl in Hsorted. inversion Hsorted; subst. by constructor.
Qed.

(** Three requests within a minute, two allowed; a minute later the window has moved. *)
Lemma sliding_window_limit_witness :
  run_limiter 2 60 ∅ [("a"%string, 0%Z); ("a"%string, 1000000%Z); ("a"%string, 2000000%Z);
                      ("a"%string, 60500000%Z)] !! 2%nat = Some false.
Proof.
  rewrite (sliding_window_limit 2 60 _ 2 "a" 2000000); [reflexivity|lia| |reflexivity].
  simpl. repeat (apply SSorted_cons; [|repeat (apply Forall_cons; split; [lia|]); apply Forall_nil; exact I]).
  apply SSorted_nil.
Defined.
