(* ===== verification/Workers.v ===== *)
(** * The registry of workers

    src/backend/app/services/worker_service.py with the rows of models/worker.py, the
    heartbeat controller of worker/heartbeat.py, the responses of schemas/worker.py and the
    endpoints of api/workers.py. The state is the committed table, the clock and the supply
    of identifiers: every method that writes commits as its last write. The foreign key to
    the API keys is not modelled. *)

From stdpp Require Import sorting.
From S2P Require Import Prelude Json PyStr Errors Models Monad.

(** ** Rows *)

Record Worker : Type := mkWorker {
  wk_id : uuid;
  wk_worker_name : string;
  wk_status : WorkerStatus;
  wk_last_heartbeat_at : option datetime;
  wk_current_job_id : option string;
  wk_worker_metadata : option pydict;
  wk_owner_api_key_id : option uuid;
  wk_created_at : datetime
}.

Record WorkerState : Type := mkWorkerState {
  wks_workers : gmap uuid Worker;
  wks_now : datetime;
  wks_next_uuid : uuid
}.

Local Abbreviation W := (SE WorkerState).

Definition set_workers (f : gmap uuid Worker → gmap uuid Worker) (s : WorkerState) : WorkerState :=
  mkWorkerState (f (wks_workers s)) (wks_now s) (wks_next_uuid s).

(** The three columns the service assigns together. *)
Definition report (status : WorkerStatus) (job : option string) (now : datetime) (k : Worker) : Worker :=
  mkWorker (wk_id k) (wk_worker_name k) status (Some now) job (wk_worker_metadata k)
    (wk_owner_api_key_id k) (wk_created_at k).

Definition set_hostname (hostname : string) (k : Worker) : Worker :=
  mkWorker (wk_id k) (wk_worker_name k) (wk_status k) (wk_last_heartbeat_at k) (wk_current_job_id k)
    (Some (dict_set "hostname" (JStr hostname) (default [] (wk_worker_metadata k))))
    (wk_owner_api_key_id k) (wk_created_at k).

(** ** WorkerService *)

(** The [select] of [register_worker]: the owner is compared only when one is given. *)
Definition registered (worker_name : string) (owner_api_key_id : option uuid)
    (workers : gmap uuid Worker) : list (uuid * Worker) :=
  map_to_list (filter (fun p => wk_worker_name p.2 = worker_name ∧
                                (owner_api_key_id = None ∨ wk_owner_api_key_id p.2 = owner_api_key_id))
                 workers).

(** The constraint [unique=True] of [worker_name]. *)
Definition name_taken (worker_name : string) (workers : gmap uuid Worker) : bool :=
  existsb (fun k => String.eqb (wk_worker_name k) worker_name) (map_to_list workers).*2.

Definition new_worker (id : uuid) (worker_name hostname : string) (owner_api_key_id : option uuid)
    (now : datetime) : Worker :=
  mkWorker id worker_name WSTARTING (Some now) None (Some [("hostname"%string, JStr hostname)])
    owner_api_key_id now.

(** [register_worker]; the violated constraint shows at the commit. *)
Definition register_worker (worker_name hostname : string) (owner_api_key_id : option uuid) :
    W Worker := fun s =>
  match registered worker_name owner_api_key_id (wks_workers s) with
  | [] =>
      if name_taken worker_name (wks_workers s) then (Err EIntegrityError, s)
      else
        let worker := new_worker (wks_next_uuid s) worker_name hostname owner_api_key_id (wks_now s) in
        (Ok worker, mkWorkerState (<[wks_next_uuid s := worker]> (wks_workers s)) (wks_now s)
                      (N.succ (wks_next_uuid s)))
  | [(id, worker)] =>
      let worker := set_hostname hostname (report WSTARTING None (wks_now s) worker) in
      (Ok worker, set_workers (<[id := worker]>) s)
  | _ => (Err EMultipleResultsFound, s)
  end.

Definition update_heartbeat (worker_id : uuid) (status : WorkerStatus)
    (current_job_id : option string) : W () :=
  modify (fun s => set_workers (alter (report status current_job_id (wks_now s)) worker_id) s).

Definition mark_offline (worker_id : uuid) : W () :=
  modify (fun s => set_workers (alter (report WOFFLINE None (wks_now s)) worker_id) s).

(** [or_(owner_api_key_id == ..., owner_api_key_id.is_(None))]. *)
Definition visible_to (owner_api_key_id : uuid) (k : Worker) : bool :=
  match wk_owner_api_key_id k with None => true | Some o => (o =? owner_api_key_id)%N end.

(** [last_heartbeat_at DESC NULLS LAST]. *)
Definition beats_before (a b : Worker) : Prop :=
  match wk_last_heartbeat_at a, wk_last_heartbeat_at b with
  | Some x, Some y => (y ≤ x)%Z
  | _, None => True
  | None, Some _ => False
  end.

#[export] Instance beats_before_dec : RelDecision beats_before.
Proof. intros a b. unfold beats_before. repeat case_match; apply _. Defined.

Definition list_workers (owner_api_key_id : uuid) (limit offset : nat) : W (list Worker) :=
  gets (fun s => take limit (drop offset (merge_sort beats_before
    (List.filter (visible_to owner_api_key_id) (map_to_list (wks_workers s)).*2)))).

Definition get_worker (worker_id : uuid) (owner_api_key_id : option uuid) : W (option Worker) :=
  gets (fun s =>
    worker ← wks_workers s !! worker_id;
    match owner_api_key_id with
    | Some owner => if visible_to owner worker then Some worker else None
    | None => Some worker
    end).

Definition require_worker (worker_id owner_api_key_id : uuid) : W Worker :=
  worker ← get_worker worker_id (Some owner_api_key_id);
  match worker with
  | None => raise (EApp (app_error_status "Worker not found" "not_found" 404))
  | Some worker => mret worker
  end.

(** ** Responses and endpoints *)

(** [heartbeat_age_seconds] in microseconds. *)
Record WorkerResponse : Type := mkWorkerResponse {
  wr_worker_id : uuid;
  wr_hostname : string;
  wr_status : WorkerStatus;
  wr_current_job_id : option string;
  wr_started_at : datetime;
  wr_last_heartbeat_at : option datetime;
  wr_heartbeat_age : option Z
}.

(** [from_worker]; the model's field is a [str], anything else is a [ValidationError]. *)
Definition from_worker (k : Worker) (now : datetime) : res exc WorkerResponse :=
  match default (JStr "unknown") (dict_get "hostname" (default [] (wk_worker_metadata k))) with
  | JStr hostname =>
      Ok (mkWorkerResponse (wk_id k) hostname (wk_status k) (wk_current_job_id k) (wk_created_at k)
            (wk_last_heartbeat_at k) ((fun t => now - t)%Z <$> wk_last_heartbeat_at k))
  | _ => Err EValueError
  end.

Definition respond (k : Worker) : W WorkerResponse :=
  now ← gets wks_now; lift (from_worker k now).

Definition list_workers_endpoint (owner_id : uuid) (limit offset : nat) : W (list WorkerResponse) :=
  workers ← list_workers owner_id limit offset; for_collect respond workers.

Definition get_worker_endpoint (worker_id owner_id : uuid) : W WorkerResponse :=
  worker ← require_worker worker_id owner_id; respond worker.

(** ** Spawning (worker/background.py) *)

Definition MAX_SPAWNED_WORKERS : nat := 5.

(** The background tasks, [true] for those that are done. *)
Definition get_active_worker_count (tasks : list bool) : nat := length (List.filter negb tasks).

Definition spawn_background_worker_task (tasks : list bool) : res exc () * list bool :=
  if (MAX_SPAWNED_WORKERS <=? get_active_worker_count tasks)%nat then
    (Err (EApp (app_error_status "Maximum background worker limit reached (max 5)"
                  "worker_limit_reached" 429)), tasks)
  else (Ok tt, tasks ++ [false]).

(** ** HeartbeatController (worker/heartbeat.py) *)

Record HeartbeatController : Type := mkHeartbeatController {
  hc_worker_id : uuid;
  hc_status : WorkerStatus;
  hc_current_job_id : option string
}.

Definition new_controller (worker_id : uuid) : HeartbeatController :=
  mkHeartbeatController worker_id WSTARTING None.

Definition set_worker_status (status : WorkerStatus) (current_job_id : option string)
    (c : HeartbeatController) : HeartbeatController :=
  mkHeartbeatController (hc_worker_id c) status
    (match current_job_id with
     | Some job => Some job
     | None => if decide (status ≠ WBUSY) then None else hc_current_job_id c
     end).

Definition snapshot (c : HeartbeatController) : WorkerStatus * option string :=
  (hc_status c, hc_current_job_id c).

(** One pass of [run_heartbeat_loop]: the snapshot is persisted. *)
Definition heartbeat_pass (c : HeartbeatController) : W () :=
  update_heartbeat (hc_worker_id c) (snapshot c).1 (snapshot c).2.

(** ** The table of workers *)

Record workers_ok (s : WorkerState) : Prop := {
  wo_key id k : wks_workers s !! id = Some k → wk_id k = id;
  wo_name i j k l : wks_workers s !! i = Some k → wks_workers s !! j = Some l →
    wk_worker_name k = wk_worker_name l → i = j;
  wo_fresh id : (wks_next_uuid s ≤ id)%N → wks_workers s !! id = None
}.

Lemma elem_of_registered name owner workers id k :
  (id, k) ∈ registered name owner workers ↔
    workers !! id = Some k ∧ wk_worker_name k = name ∧ (owner = None ∨ wk_owner_api_key_id k = owner).
Proof. unfold registered. rewrite elem_of_map_to_list, map_lookup_filter_Some. done. Qed.

Lemma name_taken_true name workers :
  name_taken name workers = true ↔ ∃ id k, workers !! id = Some k ∧ wk_worker_name k = name.
Proof.
  unfold name_taken. rewrite existsb_exists. setoid_rewrite <- list_elem_of_In. split.
  - intros (k & Hk & Hn%String.eqb_eq). apply list_elem_of_fmap in Hk as ([id k'] & -> & Hk).
    apply elem_of_map_to_list in Hk. by exists id, k'.
  - intros (id & k & Hk & Hn). exists k. split; [|by apply String.eqb_eq].
    apply list_elem_of_fmap. exists (id, k). split; [done|]. by apply elem_of_map_to_list.
Qed.

(** At most one row has the name. *)
Lemma registered_cases name owner s :
  workers_ok s →
  registered name owner (wks_workers s) = [] ∨
  ∃ id k, registered name owner (wks_workers s) = [(id, k)].
Proof.
  intros Hok. destruct (registered name owner (wks_workers s)) as [|[i k] [|[j l] rest]] eqn:Hr;
    [by left|by right; exists i, k|].
  assert ((i, k) ∈ registered name owner (wks_workers s)) as Hi by (rewrite Hr; set_solver).
  assert ((j, l) ∈ registered name owner (wks_workers s)) as Hj by (rewrite Hr; set_solver).
  pose proof (NoDup_fst_map_to_list (filter (fun p => wk_worker_name p.2 = name ∧
    (owner = None ∨ wk_owner_api_key_id p.2 = owner)) (wks_workers s))) as Hnd.
  change (map_to_list (filter _ _)) with (registered name owner (wks_workers s)) in Hnd.
  rewrite Hr in Hnd. simpl in Hnd. apply NoDup_cons in Hnd as [Hnot _]. exfalso. apply Hnot.
  apply elem_of_registered in Hi as (Hi & Hni & _). apply elem_of_registered in Hj as (Hj & Hnj & _).
  rewrite (wo_name _ Hok i j k l Hi Hj); [by apply list_elem_of_here|congruence].
Qed.

(** Replacing a row, or adding one, under a name no other row has. *)
Lemma workers_ok_insert s k next :
  workers_ok s → (wks_next_uuid s ≤ next)%N → (wk_id k < next)%N →
  (∀ j l, wks_workers s !! j = Some l → wk_worker_name l = wk_worker_name k → j = wk_id k) →
  workers_ok (mkWorkerState (<[wk_id k := k]> (wks_workers s)) (wks_now s) next).
Proof.
  intros Hok Hle Hlt Hname. split; simpl.
  - intros id l. rewrite lookup_insert. case_decide; [by intros [= <-]|by apply (wo_key _ Hok)].
  - intros i j l m. rewrite !lookup_insert. repeat case_decide; subst; try done.
    + intros [= <-] Hm Heq. symmetry. by eapply Hname.
    + intros Hl [= <-] Heq. by eapply Hname.
    + apply (wo_name _ Hok).
  - intros id Hid. rewrite lookup_insert_ne by lia. apply (wo_fresh _ Hok). lia.
Qed.

Lemma workers_ok_update s id f :
  workers_ok s → (∀ k, wk_id (f k) = wk_id k) → (∀ k, wk_worker_name (f k) = wk_worker_name k) →
  workers_ok (set_workers (alter f id) s).
Proof.
  intros Hok Hid Hname. split; simpl.
  - intros i k. rewrite lookup_alter. case_decide as Hi; [|by apply (wo_key _ Hok)].
    intros (k0 & Hk0 & ->)%fmap_Some. rewrite Hid. subst. by apply (wo_key _ Hok).
  - assert (∀ i k, alter f id (wks_workers s) !! i = Some k →
      ∃ k0, wks_workers s !! i = Some k0 ∧ wk_worker_name k0 = wk_worker_name k) as Hold.
    { intros i k. rewrite lookup_alter. case_decide as Hi; [subst|by eauto].
      intros (k0 & Hk0 & ->)%fmap_Some. by exists k0. }
    intros i j k l (k0 & Hk0 & Ek)%Hold (l0 & Hl0 & El)%Hold Heq.
    eapply (wo_name _ Hok); [done|done|congruence].
  - intros i Hi. rewrite lookup_alter, (wo_fresh _ Hok i Hi). case_decide as Hi'; [subst|done].
    by rewrite (wo_fresh _ Hok _ Hi).
Qed.

Lemma dict_set_same {A} k (v : A) d : dict_get k d = Some v → dict_set k v d = d.
Proof.
  induction d as [|[k' v'] d IH]; simpl; [done|]. case_decide; [by intros [= ->]; subst|].
  intros Hd. by rewrite IH.
Qed.

Lemma set_hostname_get host k :
  dict_get "hostname" (default [] (wk_worker_metadata (set_hostname host k))) = Some (JStr host).
Proof. unfold set_hostname. cbn [wk_worker_metadata default id]. rewrite dict_get_set. by rewrite decide_True. Qed.

Lemma set_hostname_same host k :
  dict_get "hostname" (default [] (wk_worker_metadata k)) = Some (JStr host) →
  wk_worker_metadata k ≠ None → set_hostname host k = k.
Proof.
  destruct k as [? ? ? ? ? [m|] ? ?]; unfold set_hostname; cbn [wk_worker_metadata default id]; [|done].
  intros Hm _. by rewrite dict_set_same.
Qed.

(** Registering a worker that the call found, or made, again changes nothing. *)
Lemma register_again name host owner s id k :
  workers_ok s → wks_workers s !! id = Some k → wk_worker_name k = name →
  (owner = None ∨ wk_owner_api_key_id k = owner) →
  set_hostname host (report WSTARTING None (wks_now s) k) = k →
  register_worker name host owner s = (Ok k, s).
Proof.
  intros Hok Hk Hn Ho Hsame. unfold register_worker.
  assert ((id, k) ∈ registered name owner (wks_workers s)) as Hin by (by apply elem_of_registered).
  destruct (registered_cases name owner s Hok) as [Hr|(i & l & Hr)]; rewrite Hr in *; [set_solver|].
  apply list_elem_of_singleton in Hin. injection Hin as <- <-. rewrite Hsame. f_equal.
  destruct s as [workers now next]. unfold set_workers. simpl in *. by rewrite insert_id.
Qed.

(** The table after a registration, and the row it returns. *)
Lemma register_worker_inv name host owner s r s' :
  workers_ok s → register_worker name host owner s = (r, s') →
  workers_ok s' ∧
  match r with
  | Ok k => (wk_id k < wks_next_uuid s')%N ∧ wks_workers s' = <[wk_id k := k]> (wks_workers s)
  | Err _ => s' = s
  end.
Proof.
  intros Hok. unfold register_worker.
  destruct (registered_cases name owner s Hok) as [Hr|(id & k & Hr)]; rewrite Hr.
  - destruct (name_taken name (wks_workers s)) eqn:Ht; intros [= <- <-]; [done|].
    set (k := new_worker _ _ _ _ _). split; [|split; [cbn [wk_id k new_worker wks_next_uuid]; lia|done]].
    change (wks_next_uuid s) with (wk_id k) at 1. apply workers_ok_insert; [done|lia|simpl; lia|]. intros j l Hl Hn.
    assert (name_taken name (wks_workers s) = true) as Ht'; [|congruence].
    apply name_taken_true. by exists j, l.
  - intros [= <- <-]. assert ((id, k) ∈ registered name owner (wks_workers s)) as Hin
      by (rewrite Hr; by apply list_elem_of_here).
    apply elem_of_registered in Hin as (Hk & Hn & Ho). pose proof (wo_key _ Hok _ _ Hk) as Hid.
    set (k' := set_hostname host (report WSTARTING None (wks_now s) k)).
    assert (wk_id k' = id) as Hid' by done.
    assert (id < wks_next_uuid s)%N as Hlt.
    { destruct (decide (wks_next_uuid s ≤ id)%N) as [Hle|Hlt]; [|lia].
      by rewrite (wo_fresh _ Hok id Hle) in Hk. }
    split; [|by rewrite Hid']. rewrite <- Hid'. apply workers_ok_insert; [done|done|by rewrite Hid'|].
    intros j l Hl Hln. rewrite Hid'. eapply (wo_name _ Hok); [done|done|done].
Qed.

(** ** Properties *)

(** What [register_worker] promises of the row it returns. *)
Definition starting_row (name host : string) (s : WorkerState) (k : Worker) : Prop :=
  wk_worker_name k = name ∧ wk_status k = WSTARTING ∧ wk_current_job_id k = None ∧
  wk_last_heartbeat_at k = Some (wks_now s) ∧
  dict_get "hostname" (default [] (wk_worker_metadata k)) = Some (JStr host).

(** C31. [register_worker] is an upsert by name. It returns the one row of that name, made or
    reused, as [STARTING] with no job, the current time and the host, writes no other row,
    and a second call changes nothing. It fails only if the name belongs to a worker of
    another owner, with a violated constraint and nothing written. Names stay unique. *)
Theorem register_worker_spec name host owner s r s' :
  workers_ok s → register_worker name host owner s = (r, s') →
  workers_ok s' ∧
  match r with
  | Ok k =>
      starting_row name host s k ∧
      wks_workers s' = <[wk_id k := k]> (wks_workers s) ∧
      match wks_workers s !! wk_id k with
      | Some old => wk_worker_name old = name ∧ wk_owner_api_key_id k = wk_owner_api_key_id old ∧
                    (owner = None ∨ wk_owner_api_key_id old = owner)
      | None => wk_owner_api_key_id k = owner
      end ∧
      register_worker name host owner s' = (Ok k, s')
  | Err e =>
      e = EIntegrityError ∧ s' = s ∧ owner ≠ None ∧
      ∃ id k, wks_workers s !! id = Some k ∧ wk_worker_name k = name ∧ wk_owner_api_key_id k ≠ owner
  end.
Proof.
  intros Hok Hrun. destruct (register_worker_inv _ _ _ _ _ _ Hok Hrun) as [Hok' Hrow]. split; [done|].
  revert Hrun. unfold register_worker at 1.
  destruct (registered_cases name owner s Hok) as [Hr|(id & k & Hr)]; rewrite Hr.
  - destruct (name_taken name (wks_workers s)) eqn:Ht; intros [= <- <-].
    + apply name_taken_true in Ht as (id & k & Hk & Hn).
      assert (¬ (owner = None ∨ wk_owner_api_key_id k = owner)) as Hno.
      { intros Ho. assert ((id, k) ∈ registered name owner (wks_workers s)) as Hin
          by (by apply elem_of_registered). rewrite Hr in Hin. set_solver. }
      split_and!; [done|done|tauto|]. exists id, k. tauto.
    + set (k := new_worker _ _ _ _ _) in *. split_and!; try done.
      * simpl. by rewrite (wo_fresh _ Hok) by done.
      * apply (register_again name host owner _ (wk_id k) k Hok'); try done;
          [simpl; by rewrite lookup_insert_eq|by right].
  - intros [= <- <-]. assert ((id, k) ∈ registered name owner (wks_workers s)) as Hin
      by (rewrite Hr; by apply list_elem_of_here).
    apply elem_of_registered in Hin as (Hk & Hn & Ho). pose proof (wo_key _ Hok _ _ Hk) as Hid.
    set (k' := set_hostname host (report WSTARTING None (wks_now s) k)) in *.
    assert (wk_id k' = id) as Hid' by done. split_and!; try done.
    + unfold starting_row. split_and!; [done|done|done|done|apply set_hostname_get].
    + by rewrite Hid'.
    + rewrite Hid', Hk. done.
    + apply (register_again name host owner _ id k' Hok'); try done; [simpl; by rewrite lookup_insert_eq|].
      by apply set_hostname_same; [apply set_hostname_get|].
Qed.

(** ** Witness *)

Definition demo_workers : WorkerState :=
  mkWorkerState {[4%N := new_worker 4 "worker-1" "host-a" (Some 9%N) 10]} 70 5.

Lemma demo_workers_ok : workers_ok demo_workers.
Proof.
  split; simpl.
  - by intros id k [<- <-]%lookup_singleton_Some.
  - by intros i j k l [<- <-]%lookup_singleton_Some [<- <-]%lookup_singleton_Some.
  - intros id Hid. apply lookup_singleton_None. lia.
Qed.

(** The worker of the name belongs to owner 9; owner 8 cannot register it. *)
Lemma register_worker_spec_witness :
  (register_worker "worker-1" "host-b" (Some 8%N) demo_workers).1 = Err EIntegrityError ∧
  match (register_worker "worker-1" "host-b" None demo_workers).1 with
  | Ok k => starting_row "worker-1" "host-b" demo_workers k
  | Err _ => False
  end.
Proof.
  split.
  - destruct (register_worker "worker-1" "host-b" (Some 8%N) demo_workers) as [r s'] eqn:Hr.
    destruct (register_worker_spec _ _ _ _ _ _ demo_workers_ok Hr) as [_ H].
    destruct r as [k|e]; [vm_compute in Hr; discriminate Hr|]. by destruct H as [-> _].
  - destruct (register_worker "worker-1" "host-b" None demo_workers) as [r s'] eqn:Hr.
    destruct (register_worker_spec _ _ _ _ _ _ demo_workers_ok Hr) as [_ H].
    destruct r as [k|e]; [exact (proj1 H)|vm_compute in Hr; discriminate Hr].
Defined.
