(* ===== verification/WorkerLoop.v ===== *)
(** * The loops of a worker: [run_worker] of src/backend/app/worker/runtime.py, [run_recovery_loop]
    of worker/recovery.py

    The loop reads a batch of messages, processes each in a session of its own and
    acknowledges it if the processing returned. [asyncio.gather] starts the messages of a
    batch in their order; here each runs to its end before the next, System.v has the
    interleavings. The answers of [XREADGROUP] are the input. *)

From S2P Require Import Prelude Json PyStr Errors Models Registry Events Monad Store LogHelpers.
From S2P Require Import Publisher Runtime Recovery Workers.

(** What [XREADGROUP] answers. *)
Inductive ReadOutcome : Type :=
| ReadTimeout
| ReadFailed
| ReadMessages (response : list (string * list (string * fields))).

Section worker.
Context {Q : Type} `{QueuePublisher Q} {Net : Type}.
Context (str_exc : exc → string) (set_order : list json → list json).

(** The tables and the broker, the heartbeat of the worker, and the messages acknowledged. *)
Record Consumer : Type := mkConsumer {
  co_world : World Q;
  co_heartbeat : option HeartbeatController;
  co_acked : list string
}.

Local Abbreviation C := (SE Consumer).

Definition in_world {A} (m : M Q A) : C A := fun c =>
  let '(r, w) := m (co_world c) in (r, mkConsumer w (co_heartbeat c) (co_acked c)).

Definition xack (message_id : string) : C () :=
  modify (fun c => mkConsumer (co_world c) (co_heartbeat c) (co_acked c ++ [message_id])).

(** [heartbeat.set_status(...)] and [broadcast_worker_updated(...)], if there is a heartbeat. *)
Definition report_status (execution_id : M Q uuid) (status : WorkerStatus) (job : option string) : C () :=
  c ← gets id;
  match co_heartbeat c with
  | None => mret ()
  | Some heartbeat =>
      modify (fun c => mkConsumer (co_world c) (Some (set_worker_status status job heartbeat)) (co_acked c)) ≫= fun _ =>
      in_world (execution_id ≫= fun eid =>
        broadcast_worker_updated (Some eid) (hc_worker_id heartbeat) (worker_status_name status) job)
  end.

Definition process_and_ack (reg : ExecutorRegistry Net) (net : Net) (m : string * fields) : C () :=
  job ← lift (deserialize_job_payload m.2);
  report_status (mret (job_execution_id job)) WBUSY (Some (uuid_str (job_node_execution_id job))) ≫= fun _ =>
  in_world (with_session (process_job str_exc set_order reg net m.2)) ≫= fun _ =>
  xack m.1.

(** [gather(..., return_exceptions=True)]: an exception is logged and ends only its message. *)
Definition gathered (m : C ()) : C () := fun c => (Ok (), (m c).2).

Definition process_messages (reg : ExecutorRegistry Net) (net : Net) (messages : list (string * fields)) : C () :=
  for_each (fun m => gathered (process_and_ack reg net m)) messages ≫= fun _ =>
  report_status uuid4 WIDLE None.

(** The loop until the stop event, which comes when the answers end. *)
Fixpoint worker_loop (reg : ExecutorRegistry Net) (net : Net) (answers : list ReadOutcome) : C () :=
  match answers with
  | [] => mret ()
  | ReadTimeout :: answers => worker_loop reg net answers
  | ReadFailed :: _ => raise ERedisError
  | ReadMessages response :: answers =>
      for_each (fun r => process_messages reg net r.2) response ≫= fun _ =>
      worker_loop reg net answers
  end.

(** [run_worker]; [ensured] is what [ensure_consumer_group] answers (Publisher.v). *)
Definition run_worker (reg : ExecutorRegistry Net) (net : Net) (ensured : res exc ())
    (answers : list ReadOutcome) : C () :=
  lift ensured ≫= fun _ =>
  modify (fun c => mkConsumer (co_world c) (set_worker_status WIDLE None <$> co_heartbeat c) (co_acked c)) ≫= fun _ =>
  worker_loop reg net answers.

(** ** The recovery loop *)

(** What Redis answers to a pass: [XPENDING] fails, or lists entries, and then [XCLAIM] may
    fail. *)
Inductive PendingAnswer : Type :=
| PendingFailed
| PendingListed (entries : list PendingEntry) (xclaim : list string → res exc (list (string * fields))).

(** One pass; its exceptions are logged. The result is what it has acknowledged. *)
Definition recovery_round (reg : ExecutorRegistry Net) (net : Net) (consumer_name : string)
    (idle_timeout_ms : Z) (answer : PendingAnswer) : M Q (list string) :=
  match answer with
  | PendingFailed => mret []
  | PendingListed entries xclaim =>
      match (stale_entries idle_timeout_ms entries).1 with
      | [] => mret []
      | stale_ids =>
          match xclaim stale_ids with
          | Err _ => mret []
          | Ok claimed =>
              recover_batch str_exc set_order reg net consumer_name
                (_claim_stale_pending idle_timeout_ms entries (fun _ => claimed))
          end
      end
  end.

(** [run_recovery_loop] until the stop event, which comes when the answers end. *)
Definition run_recovery_loop (reg : ExecutorRegistry Net) (net : Net) (consumer_name : string)
    (idle_timeout_ms : Z) (answers : list PendingAnswer) : M Q (list (list string)) :=
  for_collect (recovery_round reg net consumer_name idle_timeout_ms) answers.

(** Whatever Redis and the jobs do, the loop goes on until it is stopped, so a worker can
    wait for it when it ends. *)
Lemma recover_batch_returns (reg : ExecutorRegistry Net) (net : Net) consumer_name jobs : ∀ w,
  ∃ acked w', recover_batch str_exc set_order reg net consumer_name jobs w = (Ok acked, w').
Proof.
  induction jobs as [|[[mid fs] prev] jobs IH]; intros w; simpl; [by eauto|].
  destruct (process_recovered_job _ _ _ _ _ _ _ _ w) as [[b|e] w1]; [|by eauto].
  destruct (IH (w_close w1)) as (acked & w2 & ->). by eauto.
Qed.

Lemma recovery_loop_returns (reg : ExecutorRegistry Net) (net : Net) consumer_name idle_timeout_ms answers : ∀ w,
  ∃ acked w', run_recovery_loop reg net consumer_name idle_timeout_ms answers w = (Ok acked, w') ∧
    length acked = length answers.
Proof.
  unfold run_recovery_loop. induction answers as [|answer answers IH]; intros w; [by exists [], w|].
  assert (∃ a w1, recovery_round reg net consumer_name idle_timeout_ms answer w = (Ok a, w1)) as (a & w1 & Hr).
  { unfold recovery_round. destruct answer as [|entries xclaim]; [by exists [], w|].
    destruct (stale_entries _ _).1; [by exists [], w|]. destruct (xclaim _); [|by exists [], w].
    apply recover_batch_returns. }
  destruct (IH w1) as (acked & w2 & Hrest & Hlen). exists (a :: acked), w2. split; [|simpl; by rewrite Hlen].
  cbn [for_collect]. by rewrite run_bind, Hr, run_bind, Hrest.
Qed.

End worker.
