(* ===== verification/Delivery.v ===== *)
(** * What an acknowledged message means

    The loop of a worker acknowledges a message after its job has returned. Then the node
    of the message has been dealt with in the committed tables, and every node the job has
    queued has a job in the queue. *)

From S2P Require Import Prelude Json PyStr Errors Models Registry DagValidator Events Monad Store.
From S2P Require Import LogHelpers StateTransition Tx Machine Publisher Runtime Downstream Complete.
From S2P Require Import Engine Dlq Recovery Abstraction Start Steps System Evolution Invariant Execute.
From S2P Require Import Workers WorkerLoop.

(** ** The rows a job leaves queued *)

Section rows.
Context (ld : Loaded) (result : ExecutorResult).

Lemma finished_rows t t' : finished t t' → tx_rows t' = tx_rows t.
Proof. by destruct 1. Qed.

Lemma downstream_refs_elem wf seeds cs rows refs y n :
  downstream_refs wf seeds cs rows refs → rows !! y = Some n →
  y ∈ cs → ready wf (status_of rows) y → ¬ skip_reach wf (status_of rows) (seed_of seeds) y →
  ne_id n ∈ refs.
Proof.
  intros (xs & _ & _ & Hxs & Hall) Hy Hc Hr Hs.
  assert (y ∈ xs) as Hin by (apply Hxs; tauto). apply list_elem_of_lookup in Hin as [i Hi].
  destruct (Forall2_lookup_l _ _ _ _ _ Hall Hi) as (id & Hid & Heq). rewrite Hy in Heq.
  injection Heq as <-. by eapply list_elem_of_lookup_2.
Qed.

Lemma outcome_queued t x n refs t' y m :
  outcome ld result t x n refs t' → tx_rows t' !! y = Some m → ne_status m = NQUEUED →
  (y ≠ x ∧ tx_rows t !! y = Some m) ∨ ne_id m ∈ refs.
Proof.
  intros Hout Hy Hq. destruct Hout as [seeds rows' refs Hs Hseeds rows1 cs Hd Hr|Hs Hlt|k Hs Hge]; simpl in Hy.
  - destruct (Hd y) as [[_ Heq]|[(Hnr & [Hc Hready] & Heq)|(_ & _ & Heq)]]; rewrite Heq in Hy.
    + apply fmap_Some in Hy as (n' & _ & ->). discriminate Hq.
    + apply fmap_Some in Hy as (n' & Hn' & ->). right.
      by apply (downstream_refs_elem (ld_definition ld) seeds cs rows1 refs y n').
    + unfold rows1 in Hy. rewrite lookup_insert in Hy. case_decide; [|by left].
      injection Hy as <-. discriminate Hq.
  - rewrite lookup_insert in Hy. case_decide; [|by left]. injection Hy as <-. right.
    by apply list_elem_of_here.
  - left. unfold dead_lettered_tx in Hy.
    assert (<[x := entered (tx_now t) NDEAD_LETTERED (failed_row (tx_now t) result n)]> (tx_rows t) !! y =
            Some m) as Hm by (by destruct (decide _) in Hy).
    rewrite lookup_insert in Hm. case_decide; [|done]. injection Hm as <-. discriminate Hq.
Qed.

(** The node itself. *)
Lemma outcome_self t x n refs t' :
  outcome ld result t x n refs t' →
  ∃ n', tx_rows t' !! x = Some n' ∧ ne_id n' = ne_id n ∧
        ne_status n' ∈ [NSUCCEEDED; NQUEUED; NDEAD_LETTERED].
Proof.
  intros [seeds rows' refs' Hs Hseeds rows1 cs Hd Hr|Hs Hlt|k Hs Hge].
  - exists (succeeded_row (tx_now t) result n). simpl. split_and!; [|done|simpl; set_solver].
    assert (rows1 !! x = Some (succeeded_row (tx_now t) result n)) as Hx
      by (unfold rows1; by rewrite lookup_insert_eq).
    destruct (Hd x) as [[Hreach _]|[(_ & [_ [Hp _]] & _)|(_ & _ & ->)]]; [| |done].
    + apply skip_reach_pending in Hreach. unfold status_of in Hreach. by rewrite Hx in Hreach.
    + unfold status_of in Hp. by rewrite Hx in Hp.
  - eexists. simpl. rewrite lookup_insert_eq. split_and!; [done|done|simpl; set_solver].
  - exists (entered (tx_now t) NDEAD_LETTERED (failed_row (tx_now t) result n)).
    unfold dead_lettered_tx. split_and!; [|done|simpl; set_solver].
    destruct (decide _); simpl; by rewrite lookup_insert_eq.
Qed.

(** The nodes to publish are rows of the execution. *)
Lemma outcome_refs t x n refs t' id :
  tx_rows t !! x = Some n → outcome ld result t x n refs t' → id ∈ refs →
  ∃ y m, tx_rows t' !! y = Some m ∧ ne_id m = id.
Proof.
  intros Hx Hout Hin. destruct Hout as [seeds rows' refs Hs Hseeds rows1 cs Hd Hr|Hs Hlt|k Hs Hge].
  - destruct Hr as (xs & _ & _ & _ & Hall). apply list_elem_of_lookup in Hin as [i Hi].
    destruct (Forall2_lookup_r _ _ _ _ _ Hall Hi) as (y & _ & Hy). apply fmap_Some in Hy as (m & Hm & ->).
    exists y. simpl. destruct (Hd y) as [[_ ->]|[(_ & _ & ->)|(_ & _ & ->)]]; rewrite Hm; simpl; eauto.
  - apply list_elem_of_singleton in Hin as ->. exists x. simpl. rewrite lookup_insert_eq. by eexists.
  - by apply not_elem_of_nil in Hin.
Qed.

End rows.

(** ** Publishing *)

Section publishing.
Context {Q : Type} `{QueuePublisherLaws Q}.
Implicit Types w : World Q.

(** The session's objects for the nodes have their identifiers. *)
Definition objects_keyed (refs : list uuid) w : Prop :=
  ∀ id n, id ∈ refs → s_nodes (w_session w) !! id = Some n → ne_id n = id.

Lemma wp_publish_node_job vid eid id refs js w (Φ : () → World Q → Prop) (Ψ : exc → World Q → Prop) :
  objects_keyed refs w → id ∈ refs → published (w_queue w) js →
  (∀ j w', job_node_execution_id j = id → published (w_queue w') (js ++ [j]) → objects_keyed refs w' →
     db_quiet (w_db w) (w_db w') → Φ tt w') →
  (∀ e w', Ψ e w') →
  wp (publish_node vid eid id) Φ Ψ w.
Proof.
  intros Hkey Hin Hpub HΦ HΨ. unfold publish_node. apply wp_bind. unfold wp at 1, node_object.
  destruct (s_nodes (w_session w) !! id) as [node|] eqn:Hn; [|apply HΨ].
  pose proof (Hkey _ _ Hin Hn) as Hid. apply wp_bind. unfold wp at 1, publish.
  set (j := mkJob _ _ _ _ _).
  destruct (publish_node_execution j (w_queue w)) as [[m|e] q] eqn:Hq; [|apply HΨ].
  pose proof (publish_ok _ _ _ _ _ Hpub Hq) as Hpub'.
  assert (∀ w', w_queue w' = q → objects_keyed refs w' → db_quiet (w_db w) (w_db w') → Φ tt w') as Hend.
  { intros w' <- Hk Hdb. by apply (HΦ j). }
  destruct m as [m|]; [|apply wp_ret, Hend; [done|done|apply db_quiet_refl]].
  destruct (String.eqb m ""); [apply wp_ret, Hend; [done|done|apply db_quiet_refl]|].
  unfold wp, update_node. cbn [w_set_queue w_db].
  destruct (db_nodes (w_db w) !! id) as [row|] eqn:Hrow; [|apply HΨ].
  apply Hend; [done| |].
  - intros i n' Hi. simpl. rewrite lookup_alter. case_decide; [subst i|by apply Hkey].
    rewrite Hn. intros [= <-]. exact Hid.
  - split; simpl; try done. intros i. rewrite lookup_alter.
    case_decide as Hi; [subst i; by rewrite Hrow|].
    destruct (db_nodes (w_db w) !! i); simpl; [reflexivity|done].
Qed.

Lemma wp_publish_nodes_jobs vid eid refs js w (Φ : () → World Q → Prop) (Ψ : exc → World Q → Prop) :
  objects_keyed refs w → published (w_queue w) js →
  (∀ new w', job_node_execution_id <$> new = refs → published (w_queue w') (js ++ new) →
     db_quiet (w_db w) (w_committed w') → Φ tt w') →
  (∀ e w', Ψ e w') →
  wp (publish_nodes vid eid refs) Φ Ψ w.
Proof.
  intros Hkey Hpub HΦ HΨ. unfold publish_nodes. apply wp_bind.
  eapply wp_mono; [apply (wp_for_each _ refs (fun l w' => ∃ new dn, refs = dn ++ l ∧
    job_node_execution_id <$> new = dn ∧ published (w_queue w') (js ++ new) ∧ objects_keyed refs w' ∧
    db_quiet (w_db w) (w_db w')) (fun _ _ => True) w)| |].
  - exists [], []. rewrite app_nil_r. split_and!; [done..|apply db_quiet_refl].
  - intros id l w1 (new & dn & Hrefs & Hnew & Hp & Hk & Hq).
    eapply wp_publish_node_job; [exact Hk|rewrite Hrefs; set_solver|exact Hp| |done].
    intros j w2 Hj Hp2 Hk2 Hq2. exists (new ++ [j]), (dn ++ [id]).
    rewrite <- app_assoc in Hp2. split_and!; [by rewrite <- app_assoc| |done|done|by eapply db_quiet_trans].
    rewrite fmap_app, Hnew. simpl. by rewrite Hj.
  - intros [] w1 (new & dn & Hrefs & Hnew & Hp & _ & Hq). rewrite app_nil_r in Hrefs. subst dn.
    apply wp_bind, wp_modify, wp_flush_events. intros w2 Hq2 _. apply (HΦ new); [done| |].
    + by rewrite (qu_queue _ _ Hq2).
    + by rewrite (qu_committed _ _ Hq2).
  - done.
Qed.

End publishing.

(** ** A job, from the claim to the published successors *)

Section delivery.
Context {Q : Type} `{QueuePublisherLaws Q} {Net : Type}.
Context (registry : ExecutorRegistry Net).
Context (str_exc : exc → string) (set_order : list json → list json).
Hypothesis Hord : ∀ l, set_order l ≡ₚ l.
Implicit Types w : World Q.

Local Abbreviation tx_ok := (fresh_tx registry (fun _ => True)).

(** The job's node has ended or waits for its next attempt, and the nodes queued since are
    those of the new jobs. *)
Definition dealt_with (node : uuid) (d d' : DB) (new : list Job) : Prop :=
  (∀ n, db_nodes d' !! node = Some n → ne_status n ∈ NQUEUED :: TERMINAL_NODE_STATUSES) ∧
  (∀ i n, db_nodes d' !! i = Some n → ne_status n = NQUEUED →
     i ∈ job_node_execution_id <$> new ∨
     i ≠ node ∧ ∃ m, db_nodes d !! i = Some m ∧ ne_status m = NQUEUED).

Lemma dealt_with_quiet node d d1 d' new :
  dealt_with node d d1 new → db_quiet d1 d' → dealt_with node d d' new.
Proof.
  intros [Hnode Hqueued] Hq. split.
  - intros n' Hn'. destruct (db_quiet_lookup _ _ _ _ Hq Hn') as (n & Hn & _ & -> & _). eauto.
  - intros i n' Hn' Hst. destruct (db_quiet_lookup _ _ _ _ Hq Hn') as (n & Hn & _ & Heq & _).
    apply (Hqueued i n Hn). congruence.
Qed.

(** [complete_job] for the node that was claimed. *)
Lemma completed_dealt_with ld result refs t' w1 w2 d id n new :
  let eid := ex_id (ld_execution ld) in
  let t := mkTx (w_now w1) (rows_of (w_db w1) eid) (ld_execution ld) (ld_execution ld) (db_dlq (w_db w1)) in
  db_wf (w_db w1) → db_nodes (w_db w1) = <[id := n]> (db_nodes d) → ne_status n = NRUNNING →
  ld_node ld = id → completed ld result t (Some refs) t' → in_tx eid t' w2 → tx_frame eid w1 w2 →
  job_node_execution_id <$> new = refs →
  dealt_with id d (w_db w2) new.
Proof.
  intros eid t Hwf Hnodes Hrun Hld Hcomp Ht2 Hf Hnew.
  inversion Hcomp as [|x n0 refs' t1 t'' Hx Hid Hst Hout Hfin]; subst t'' refs'.
  pose proof (finished_rows _ _ Hfin) as Hrows.
  assert (∀ i m, db_nodes (w_db w1) !! i = Some m → ne_status m = NQUEUED →
    i ≠ id ∧ ∃ m0, db_nodes d !! i = Some m0 ∧ ne_status m0 = NQUEUED) as Hold.
  { intros i m. rewrite Hnodes, lookup_insert. case_decide; [intros [= <-]; congruence|].
    intros Hm Hq. split; [done|]. by exists m. }
  split.
  - intros m Hm. destruct (outcome_self _ _ _ _ _ _ _ Hout) as (n' & Hn' & Hid' & Hst').
    rewrite <- Hrows in Hn'. destruct (it_rows _ _ _ Ht2 _ _ Hn') as (Hdb & _).
    rewrite Hid', Hid, Hld, Hm in Hdb. injection Hdb as <-. revert Hst'.
    unfold TERMINAL_NODE_STATUSES. rewrite !elem_of_cons. tauto.
  - intros i m Hm Hq. destruct (decide (ne_execution_id m = eid)) as [He|He].
    + destruct (it_cover _ _ _ Ht2 _ _ Hm He) as [Hmi Hrow]. rewrite Hrows in Hrow.
      destruct (outcome_queued _ _ _ _ _ _ _ _ _ Hout Hrow Hq) as [[_ Hsame]|Hin].
      * right. apply (Hold i m); [|done]. simpl in Hsame.
        apply rows_of_lookup in Hsame as (Hsame & _); [|done]. by rewrite Hmi in Hsame.
      * left. by rewrite Hnew, <- Hmi.
    + right. apply (tx_frame_other _ _ _ _ _ Hf He) in Hm. by apply (Hold i m).
Qed.

(** The claim: the message is void, or the node is [RUNNING] and nothing else happened. *)
Lemma claim_dealt_with fs w r w' js :
  tx_ok w → synced w → published (w_queue w) js → claim_job fs w = (Ok r, w') →
  ∃ job, deserialize_job_payload fs = Ok job ∧ published (w_queue w') js ∧
    match r with
    | None => dealt_with (job_node_execution_id job) (w_db w) (w_committed w') []
    | Some id => id = job_node_execution_id job ∧ tx_ok w' ∧
        ∃ n, db_nodes (w_db w') = <[id := n]> (db_nodes (w_db w)) ∧ ne_status n = NRUNNING ∧
             s_nodes (w_session w') !! id = Some n ∧
             s_execs (w_session w') = s_execs (w_session w)
    end.
Proof.
  intros Hft Hs Hpub Hrun. pose proof Hft as [Hinv Hc].
  pose proof (claim_evolved registry (fun _ => True) (fun _ => True) (fun _ _ => I) _ _ _ _ Hft Hs Hrun)
    as [Hev _].
  apply (wp_adequate _ (fun r0 w' => r0 = Ok r → evolved registry (fun _ => True) w w' → ∃ job, _) _ _ _ Hrun);
    [|done|done].
  apply wp_claim_job; [apply Hinv|done|..].
  - intros j w1 Hj Hterm Hdb1 Hc1 Hq1 _ [= <-] _. exists j. rewrite Hq1. split_and!; [done|done|].
    rewrite Hc1, Hc. split; [|intros i n Hn Hst; right; split; [|by exists n]].
    + intros n Hn. apply elem_of_cons. right. by apply Hterm.
    + intros ->. specialize (Hterm _ Hn). rewrite Hst in Hterm.
      unfold TERMINAL_NODE_STATUSES in Hterm. rewrite !elem_of_cons, elem_of_nil in Hterm. naive_solver.
  - done.
  - intros id n w1 Hn Hst (j & Hj & Hid) (w2 & Hw & Hq) [= <-] Hev1. exists j. split; [done|]. split.
    { rewrite (qu_queue _ _ Hq). simpl. by rewrite (wr_queue _ _ _ _ Hw). }
    split; [done|]. split.
    { assert (w_committed w1 = w_db w1) as Hcw by (by rewrite (qu_committed _ _ Hq), (qu_db _ _ Hq)).
      split; [|done]. rewrite <- Hcw. by eapply evolves_db_inv. }
    exists (entered (w_now w) NRUNNING n). rewrite (qu_db _ _ Hq), (qu_nodes _ _ Hq), (qu_execs _ _ Hq).
    simpl. split_and!; [apply Hw|done|apply Hw|apply Hw].
Qed.

(** The rest of the job. *)
Lemma process_claimed net id n w w' js d job :
  tx_ok w → db_nodes (w_db w) = <[id := n]> (db_nodes d) → ne_status n = NRUNNING →
  s_nodes (w_session w) !! id = Some n → s_execs (w_session w) = ∅ → published (w_queue w) js →
  id = job_node_execution_id job →
  (ld ← load_job id; result ← lift (run_executor str_exc registry net ld);
   completed ← complete_job set_order ld result;
   match completed with
   | None => mret ()
   | Some nodes => publish_nodes (ex_workflow_version_id (ld_execution ld)) (ex_id (ld_execution ld)) nodes
   end) w = (Ok (), w') →
  ∃ new, published (w_queue w') (js ++ new) ∧ dealt_with id d (w_committed w') new.
Proof using Hord.
  intros [Hinv Hc] Hnodes Hst Hobj Hex Hpub Hid Hrun.
  apply (wp_adequate _ (fun r w' => r = Ok () → ∃ new, published (w_queue w') (js ++ new) ∧
    dealt_with id d (w_committed w') new) _ _ _ Hrun); [|done].
  pose proof (di_wf _ _ _ _ Hinv) as Hwf.
  apply wp_bind. eapply wp_load_job; [exact Hobj|exact Hex|done|].
  intros ld e v w1 Hdb1 Hc1 Hnow1 Hq1 Hnx1 He Hv Hlde Hldd Hldn _ Hobj1.
  apply wp_bind, wp_lift. destruct (run_executor _ _ _ _) as [result|x]; [|done].
  pose proof (dw_exec_key _ Hwf _ _ He) as Hkey. rewrite <- Hkey, <- Hlde in *.
  apply wp_bind. eapply (wp_complete_job set_order ld result Hord w1 (ld_execution ld) (ld_execution ld));
    [by rewrite Hdb1|by rewrite Hdb1|done| | |done].
  { intros p c. rewrite Hdb1. eapply edge_row; [exact Hinv|exact He|].
    unfold definition_of. rewrite He. simpl. rewrite Hv. simpl. by rewrite Hldd. }
  intros o t' w2 Hcomp Ht2 Hf. destruct o as [refs|].
  2:{ exfalso. inversion Hcomp as [x m Hx Hm Hne|]. simpl in Hx. rewrite Hdb1 in Hx.
      apply rows_of_lookup in Hx as (Hx & _); [|done]. rewrite Hm, Hldn, Hnodes, lookup_insert_eq in Hx.
      injection Hx as <-. done. }
  eapply (wp_publish_nodes_jobs _ _ _ js); [| |intros new w3 Hnew Hpub3 Hq3 _|done].
  - intros i m Hi Hm. inversion Hcomp as [|x n0 refs' t1 t'' Hx Hxid Hxst Hout Hfin]; subst t'' refs'.
    destruct (outcome_refs _ _ _ _ _ _ _ _ Hx Hout Hi) as (y & m' & Hy & Hmi).
    rewrite <- (finished_rows _ _ Hfin) in Hy. destruct (it_rows _ _ _ Ht2 _ _ Hy) as (_ & Hs & _).
    rewrite Hmi in Hs. simpl in Hm. congruence.
  - simpl. by rewrite (tf_queue _ _ _ Hf), Hq1.
  - exists new. split; [done|]. eapply dealt_with_quiet; [|exact Hq3]. simpl.
    eapply (completed_dealt_with ld result refs t' w1 w2 d id n new); try done; by rewrite Hdb1.
Qed.

Lemma process_job_dealt_with net fs w w' js :
  tx_ok w → synced w → s_execs (w_session w) = ∅ → published (w_queue w) js →
  process_job str_exc set_order registry net fs w = (Ok (), w') →
  ∃ job new, deserialize_job_payload fs = Ok job ∧ published (w_queue w') (js ++ new) ∧
    dealt_with (job_node_execution_id job) (w_db w) (w_committed w') new.
Proof using Hord.
  intros Hft Hs Hnew Hpub. unfold process_job. rewrite run_bind.
  destruct (claim_job fs w) as [[[id|]|e] w1] eqn:Hclaim; [| |done].
  - destruct (claim_dealt_with _ _ _ _ _ Hft Hs Hpub Hclaim)
      as (job & Hjob & Hpub1 & Hid & Hft1 & n & Hnodes & Hst & Hobj & Hex).
    rewrite Hnew in Hex. intros Hrun. subst id.
    destruct (process_claimed _ _ _ _ _ _ _ job Hft1 Hnodes Hst Hobj Hex Hpub1 eq_refl Hrun)
      as (new & Hpub2 & Hd). by exists job, new.
  - intros [= <-].
    destruct (claim_dealt_with _ _ _ _ _ Hft Hs Hpub Hclaim) as (job & Hjob & Hpub1 & Hd).
    exists job, []. by rewrite app_nil_r.
Qed.

(** Reporting a status sends an event and nothing else. *)
Lemma report_status_quiet eid status job (c : @Consumer Q) :
  ∃ c', report_status (mret eid) status job c = (Ok (), c') ∧ co_acked c' = co_acked c ∧
        quiet (co_world c) (co_world c').
Proof.
  unfold report_status. rewrite run_bind. cbn [gets id]. destruct (co_heartbeat c) as [h|].
  2:{ exists c. split_and!; [done|done|reflexivity]. }
  unfold modify, in_world, broadcast_worker_updated, datetime_now, safe_broadcast.
  rewrite !run_bind. cbn. eexists. split_and!; [reflexivity|done|]. cbn [co_world].
  destruct (w_redis_up (co_world c)); by split.
Qed.

(** C33. A message is acknowledged only after its job has returned, and then its node has
    ended, is gone, or waits for the next attempt, all committed; and every node that is
    queued in the committed tables either was queued before or has a job among those the
    call appended to the queue. A failed job is not acknowledged. *)
Theorem acknowledged_job net message_id fs (c c' : @Consumer Q) r js :
  tx_ok (w_close (co_world c)) → published (w_queue (co_world c)) js →
  process_and_ack str_exc set_order registry net (message_id, fs) c = (r, c') →
  match r with
  | Ok _ =>
      co_acked c' = co_acked c ++ [message_id] ∧
      ∃ job new, deserialize_job_payload fs = Ok job ∧
        published (w_queue (co_world c')) (js ++ new) ∧
        dealt_with (job_node_execution_id job) (w_committed (co_world c)) (w_committed (co_world c')) new
  | Err _ => co_acked c' = co_acked c
  end.
Proof using Hord.
  intros Hft Hpub. unfold process_and_ack. rewrite run_bind. unfold lift. cbn [fst snd].
  destruct (deserialize_job_payload fs) as [job|e] eqn:Hjob; [|by intros [= <- <-]].
  rewrite run_bind. destruct (report_status_quiet (job_execution_id job) WBUSY
    (Some (uuid_str (job_node_execution_id job))) c) as (c1 & -> & Hack & Hq).
  rewrite run_bind. unfold in_world, with_session.
  destruct (process_job _ _ _ _ _ _) as [r0 w1] eqn:Hrun.
  destruct r0 as [[]|e]; [|by intros [= <- <-]]. intros [= <- <-]. simpl.
  split; [by rewrite Hack|].
  assert (tx_ok (w_close (co_world c1))) as Hft1.
  { destruct Hft as [Hinv _]. split; [|done]. simpl in *.
    by rewrite (qu_committed _ _ Hq), (qu_next _ _ Hq). }
  rewrite <- (qu_queue _ _ Hq) in Hpub.
  assert (synced (w_close (co_world c1))) as Hs1 by done.
  destruct (process_job_dealt_with _ _ _ _ js Hft1 Hs1 eq_refl Hpub Hrun) as (job' & new & Hj & Hp & Hd).
  rewrite Hjob in Hj. injection Hj as <-. exists job, new. split; [done|]. split; [done|].
  simpl in Hd. by rewrite (qu_committed _ _ Hq) in Hd.
Qed.

End delivery.

(** ** Witness *)

Definition demo_jobs : list Job := [mkJob 100 101 2 "pick" 1; mkJob 100 102 2 "left" 1].

Definition demo_consumer : @Consumer InMemoryQueuePublisher :=
  mkConsumer (demo_world left_queued) (Some (new_controller 77)) [].

(** The left task succeeds, and the job of its successor is published. *)
Lemma acknowledged_job_witness :
  match process_and_ack demo_exc id demo_registry (success_result [])
          ("5-1"%string, demo_message 100 102 "left" 1) demo_consumer with
  | (Ok _, c') => co_acked c' = ["5-1"%string] ∧
      ∃ new, published (w_queue (co_world c')) (demo_jobs ++ new) ∧
        dealt_with 102 (w_committed (demo_world left_queued)) (w_committed (co_world c')) new
  | (Err _, _) => False
  end.
Proof.
  destruct (process_and_ack _ _ _ _ _ _) as [r c'] eqn:Hr.
  assert (match r with Ok _ => True | Err _ => False end) as Hok.
  { vm_compute in Hr. by injection Hr as <- _. }
  pose proof (acknowledged_job demo_registry demo_exc id (fun l => Permutation_refl l) (success_result [])
    "5-1" (demo_message 100 102 "left" 1) demo_consumer c' r demo_jobs) as H.
  assert (fresh_tx demo_registry (fun _ => True) (w_close (co_world demo_consumer))) as Hft.
  { split; [apply demo_inv|reflexivity]. }
  assert (published (w_queue (co_world demo_consumer)) demo_jobs) as Hpub by (vm_compute; reflexivity).
  specialize (H Hft Hpub Hr). destruct r as [[]|e]; [|done].
  destruct H as (Hack & job & new & Hjob & Hp & Hd). split; [exact Hack|].
  assert (job = mkJob 100 102 2 "left" 1) as -> by (vm_compute in Hjob; by injection Hjob as <-).
  exists new. split; [exact Hp|exact Hd].
Defined.
