(* ===== verification/Redelivery.v ===== *)
(** * What the recovery loop acknowledges

    A pass of the loop takes over the stale messages in their order and acknowledges each
    once its job has returned; the first that fails ends the pass. The tables stay good
    whatever happens to a job. *)

From S2P Require Import Prelude Json PyStr Errors Models Registry DagValidator Events Monad Store.
From S2P Require Import LogHelpers StateTransition Tx Machine Publisher Runtime Downstream Complete.
From S2P Require Import Engine Dlq Recovery Abstraction Start Steps System Evolution Invariant Execute.
From S2P Require Import Workers WorkerLoop Delivery.

Section redelivery.
Context {Q : Type} `{QueuePublisherLaws Q} {Net : Type}.
Context (registry : ExecutorRegistry Net).
Context (str_exc : exc → string) (set_order : list json → list json).
Hypothesis Hord : ∀ l, set_order l ≡ₚ l.
Implicit Types w : World Q.

Local Abbreviation tx_ok := (fresh_tx registry (fun _ => True)).
Local Abbreviation evo := (evolved registry (fun _ => True)).

(** ** The tables after a job *)

Lemma evolved_tx_ok w w' : tx_ok w → evo w w' → tx_ok (w_close w').
Proof.
  intros [Hinv _] Hev. split; [|done]. simpl. by eapply (evolves_db_inv _ (fun _ => True) (fun _ => True)).
Qed.

Lemma complete_tx_ok ld result w r w' :
  tx_ok w → task_ok (w_db w) (w_next_uuid w) (TLoaded (w_session w) ld result) →
  complete_job set_order ld result w = (r, w') → tx_ok (w_close w').
Proof using Hord.
  intros Hft Htask Hrun. eapply evolved_tx_ok; [exact Hft|]. by eapply (complete_evolved _ (fun _ => True)).
Qed.

Lemma load_quiet net id w r w' :
  s_execs (w_session w) = ∅ → load_and_execute str_exc registry net id w = (r, w') →
  w_db w' = w_db w ∧ w_committed w' = w_committed w.
Proof.
  intros Hex Hrun.
  apply (wp_adequate _ (fun _ w' => w_db w' = w_db w ∧ w_committed w' = w_committed w) _ _ _ Hrun).
  unfold load_and_execute. apply wp_bind.
  destruct (s_nodes (w_session w) !! id) as [n|] eqn:Hn.
  - eapply wp_load_job; [exact Hn|exact Hex|done|]. intros ld e v w1 Hdb Hc _ _ _ _ _ _ _ _ _ _.
    apply wp_bind, wp_lift. by destruct (run_executor _ _ _ _).
  - eapply wp_run_err; [|done]. unfold load_job, node_object. rewrite run_bind. by rewrite Hn.
Qed.

Lemma complete_commits ld result w refs w' :
  complete_job set_order ld result w = (Ok (Some refs), w') → w_committed w' = w_db w'.
Proof.
  unfold complete_job. intros Hrun. apply run_bind_inv in Hrun as (? & ? & _ & Hrun).
  apply run_bind_inv in Hrun as (l & ? & _ & Hrun). cbv zeta in Hrun.
  destruct (list_find _ l) as [[i n]|]; [|done]. case_decide; [done|].
  apply run_bind_inv in Hrun as (? & ? & _ & Hrun). apply run_bind_inv in Hrun as (? & ? & _ & Hrun).
  apply run_bind_inv in Hrun as (? & ? & Hcommit & Hrun). injection Hrun as _ <-.
  unfold commit, modify in Hcommit. by inversion Hcommit.
Qed.

Lemma process_job_tx_ok net fs w r w' :
  tx_ok w → synced w → s_execs (w_session w) = ∅ →
  process_job str_exc set_order registry net fs w = (r, w') → tx_ok (w_close w').
Proof using Hord.
  intros Hft Hs Hex. unfold process_job. rewrite run_bind.
  destruct (claim_job fs w) as [r1 w1] eqn:Hclaim.
  destruct (claim_evolved registry (fun _ => True) (fun _ => True) (fun _ _ => I) _ _ _ _ Hft Hs Hclaim)
    as [Hev Hex1].
  assert (tx_ok (w_close w1)) as Hclosed by (by eapply evolved_tx_ok).
  destruct r1 as [[id|]|e]; [|by intros [= _ <-]..].
  assert (w_committed w1 = w_db w1) as Hc1.
  { unfold claim_job in Hclaim. apply run_bind_inv in Hclaim as (j & ? & _ & Hclaim).
    apply run_bind_inv in Hclaim as ([n|] & ? & _ & Hclaim); [|done]. case_decide; [done|].
    apply run_bind_inv in Hclaim as (? & ? & _ & Hclaim). apply run_bind_inv in Hclaim as (? & w2 & _ & Hclaim).
    apply run_bind_inv in Hclaim as (? & w3 & Hcommit & Hclaim).
    unfold commit, modify in Hcommit. injection Hcommit as _ <-.
    destruct (run_flush_events (w_commit w2)) as (w4 & Hf & Hq & _).
    rewrite (run_bind_Ok _ _ _ _ _ Hf) in Hclaim. injection Hclaim as _ <-.
    by rewrite (qu_committed _ _ Hq), (qu_db _ _ Hq). }
  assert (tx_ok w1) as Hft1.
  { destruct Hclosed as [Hinv _]. simpl in Hinv. split; [by rewrite <- Hc1|done]. }
  specialize (Hex1 id eq_refl). rewrite Hex in Hex1.
  intros Hrun. destruct (load_and_execute str_exc registry net id w1) as [r2 w2] eqn:Hload.
  destruct (load_evolved registry (fun _ => True) (fun _ => True) _ _ _ _ _ _ Hft1 Hex1 Hload) as [Hev2 Htask].
  destruct (load_quiet _ _ _ _ _ Hex1 Hload) as [Hdb2 Hc2].
  assert (tx_ok (w_close w2)) as Hclosed2 by (by eapply evolved_tx_ok).
  unfold load_and_execute in Hload. rewrite run_bind in Hload. revert Hrun. rewrite run_bind.
  destruct (load_job id w1) as [[ld|e] w2']; [|injection Hload as <- <-; by intros [= _ <-]].
  cbv beta iota in Hload |- *. rewrite run_bind in Hload. rewrite run_bind. unfold lift in *.
  destruct (run_executor str_exc registry net ld) as [result|e]; [|injection Hload as <- <-; by intros [= _ <-]].
  injection Hload as <- <-. rewrite run_bind.
  assert (w_committed w2' = w_db w2') as Hc2' by congruence.
  assert (tx_ok w2') as Hft2.
  { destruct Hclosed2 as [Hinv _]. simpl in Hinv. split; [by rewrite <- Hc2'|done]. }
  specialize (Htask ld result eq_refl). rewrite Hc2' in Htask.
  destruct (complete_job set_order ld result w2') as [r3 w3] eqn:Hcomp.
  pose proof (complete_tx_ok _ _ _ _ _ Hft2 Htask Hcomp) as Hclosed3.
  destruct r3 as [[refs|]|e]; [|by intros [= _ <-]..]. intros Hpub.
  assert (tx_ok w3) as Hft3.
  { pose proof (complete_commits _ _ _ _ _ Hcomp) as Hc3. destruct Hclosed3 as [Hinv _].
    simpl in Hinv. split; [by rewrite <- Hc3|done]. }
  eapply evolved_tx_ok; [exact Hft3|]. by eapply publish_evolved.
Qed.

(** ** A recovered job *)

(** No node but the message's is newly queued. *)
Definition queues_only (node : uuid) (d d' : DB) : Prop :=
  ∀ i n, db_nodes d' !! i = Some n → ne_status n = NQUEUED → i ≠ node →
    ∃ m, db_nodes d !! i = Some m ∧ ne_status m = NQUEUED.

Lemma dealt_with_weaken node d d0 d' new :
  queues_only node d d0 → dealt_with node d0 d' new → dealt_with node d d' new.
Proof.
  intros Hq [Hnode Hqueued]. split; [done|]. intros i n Hn Hst.
  destruct (Hqueued i n Hn Hst) as [Hin|(Hne & m & Hm & Hms)]; [by left|right]. split; [done|by eapply Hq].
Qed.

Lemma recover_dealt_with fs mid prev me w b w' js :
  tx_ok w → synced w → published (w_queue w) js → recover_job fs mid prev me w = (Ok b, w') →
  ∃ job, deserialize_job_payload fs = Ok job ∧ published (w_queue w') js ∧
    if (b : bool) then queues_only (job_node_execution_id job) (w_db w) (w_db w')
    else dealt_with (job_node_execution_id job) (w_db w) (w_committed w') [].
Proof.
  intros [Hinv Hc] Hs Hpub Hrun.
  apply (wp_adequate _ (fun r w' => ∀ b, r = Ok b → ∃ job, deserialize_job_payload fs = Ok job ∧
    published (w_queue w') js ∧
    if (b : bool) then queues_only (job_node_execution_id job) (w_db w) (w_db w')
    else dealt_with (job_node_execution_id job) (w_db w) (w_committed w') []) _ _ _ Hrun); [|done].
  apply wp_recover_job; [apply Hinv|done|done|done|..].
  - intros j w1 Hj Hterm Hc1 Hq1 _ b' [= <-]. exists j. rewrite Hq1. split_and!; [done|done|].
    assert (dealt_with (job_node_execution_id j) (w_db w) (w_db w) []) as Hd.
    { split; [intros n Hn; apply elem_of_cons; right; by apply Hterm|].
      intros i n Hn Hst. right. split; [|by exists n]. intros ->. specialize (Hterm _ Hn).
      rewrite Hst in Hterm. unfold TERMINAL_NODE_STATUSES in Hterm.
      rewrite !elem_of_cons, elem_of_nil in Hterm. naive_solver. }
    destruct Hc1 as [->|Hq]; [by rewrite Hc|by eapply dealt_with_quiet].
  - intros w1 id n d1 (j & Hj & Hid) Hq1 _ _ _ _ Hd1 Hnodes Hn _ Hcase b' [= <-]. exists j.
    rewrite Hq1. split_and!; [done|done|]. rewrite Hid. intros i m Hm Hst Hne.
    destruct Hcase as [[_ Hq]|(_ & Hrow & _)].
    + destruct (db_quiet_lookup _ _ _ _ Hq Hm) as (m1 & Hm1 & _ & Heq & _). rewrite Hnodes in Hm1.
      exists m1. split; [done|congruence].
    + rewrite Hrow, lookup_insert_ne, Hnodes in Hm by done. by exists m.
Qed.

Lemma process_recovered_tx_ok net fs mid prev me w r w' :
  tx_ok w → synced w → s_execs (w_session w) = ∅ →
  process_recovered_job str_exc set_order registry net fs mid prev me w = (r, w') → tx_ok (w_close w').
Proof using Hord.
  intros Hft Hs Hex. unfold process_recovered_job. rewrite run_bind.
  destruct (recover_job fs mid prev me w) as [r1 w1] eqn:Hrec.
  destruct (recover_evolved registry (fun _ => True) (fun _ => True) (fun _ _ => I) _ _ _ _ _ _ _ I Hft Hs Hrec)
    as [Hev Hok].
  assert (tx_ok (w_close w1)) as Hclosed by (by eapply evolved_tx_ok).
  destruct r1 as [[]|e]; [|by intros [= _ <-]..].
  destruct (Hok eq_refl) as (Hft1 & Hs1 & Hex1). rewrite Hex in Hex1. rewrite run_bind.
  destruct (process_job _ _ _ _ _ w1) as [[[]|e] w2] eqn:Hrun; intros [= _ <-];
    by eapply process_job_tx_ok.
Qed.

Lemma process_recovered_dealt_with net fs mid prev me w b w' js :
  tx_ok w → synced w → s_execs (w_session w) = ∅ → published (w_queue w) js →
  process_recovered_job str_exc set_order registry net fs mid prev me w = (Ok b, w') →
  ∃ job new, deserialize_job_payload fs = Ok job ∧ published (w_queue w') (js ++ new) ∧
    dealt_with (job_node_execution_id job) (w_db w) (w_committed w') new.
Proof using Hord.
  intros Hft Hs Hex Hpub. unfold process_recovered_job. rewrite run_bind.
  destruct (recover_job fs mid prev me w) as [[proceed|e] w1] eqn:Hrec; [|done].
  destruct (recover_dealt_with _ _ _ _ _ _ _ _ Hft Hs Hpub Hrec) as (job & Hj & Hpub1 & Hd).
  destruct (recover_evolved registry (fun _ => True) (fun _ => True) (fun _ _ => I) _ _ _ _ _ _ _ I Hft Hs Hrec)
    as [_ Hok].
  destruct proceed.
  - destruct (Hok eq_refl) as (Hft1 & Hs1 & Hex1). rewrite Hex in Hex1. rewrite run_bind.
    destruct (process_job _ _ _ _ _ w1) as [[[]|e] w2] eqn:Hrun; [|done]. intros [= _ <-].
    destruct (process_job_dealt_with _ _ _ Hord _ _ _ _ js Hft1 Hs1 Hex1 Hpub1 Hrun) as (job' & new & Hj' & Hp & Hd').
    rewrite Hj in Hj'. injection Hj' as <-. exists job, new. split_and!; [done|done|].
    by eapply dealt_with_weaken.
  - intros [= _ <-]. exists job, []. by rewrite app_nil_r.
Qed.

(** ** A pass of the loop *)

(** The messages of a pass dealt with one after the other, and the jobs they published. *)
Inductive handled : list (string * fields * option string) → DB → list Job → DB → Prop :=
| handled_nil d : handled [] d [] d
| handled_cons mid fs prev l d d1 d2 job new new' :
    deserialize_job_payload fs = Ok job →
    dealt_with (job_node_execution_id job) d d1 new → handled l d1 new' d2 →
    handled ((mid, fs, prev) :: l) d (new ++ new') d2.

(** C34. A pass of the recovery loop acknowledges exactly the messages before the first one
    that fails, in their order: each of these has been dealt with, one after the other, in
    the committed tables, and its successors' jobs are in the queue. The failing message and
    all the messages behind it are not acknowledged, those behind it not even looked at. *)
Theorem recovery_pass net me jobs w r w' js :
  tx_ok w → w_session w = new_session → published (w_queue w) js →
  recover_batch str_exc set_order registry net me jobs w = (r, w') →
  ∃ pre rest new w1, jobs = pre ++ rest ∧ r = Ok (pre.*1.*1) ∧
    handled pre (w_committed w) new (w_committed w1) ∧ published (w_queue w1) (js ++ new) ∧
    match rest with
    | [] => w' = w1
    | (mid, fs, prev) :: _ =>
        ∃ e w2, process_recovered_job str_exc set_order registry net fs mid prev me w1 = (Err e, w2) ∧
                w' = w_close w2
    end.
Proof using Hord.
  revert w r w' js. induction jobs as [|[[mid fs] prev] jobs IH]; intros w r w' js Hft Hnew Hpub; simpl.
  { intros [= <- <-]. exists [], [], [], w. rewrite (app_nil_r js). split_and!; [done|done|apply handled_nil|done|done]. }
  assert (synced w) as Hs by (intros i n; by rewrite Hnew).
  assert (s_execs (w_session w) = ∅) as Hex by (by rewrite Hnew).
  destruct (process_recovered_job _ _ _ _ _ _ _ _ w) as [[b|e] w1] eqn:Hrun.
  2:{ intros [= <- <-]. exists [], ((mid, fs, prev) :: jobs), [], w. rewrite (app_nil_r js).
      split_and!; [done|done|constructor|done|by exists e, w1]. }
  pose proof (process_recovered_tx_ok _ _ _ _ _ _ _ _ Hft Hs Hex Hrun) as Hft1.
  destruct (process_recovered_dealt_with _ _ _ _ _ _ _ _ js Hft Hs Hex Hpub Hrun) as (job & new & Hj & Hp & Hd).
  destruct (recover_batch _ _ _ _ _ jobs (w_close w1)) as [r2 w2] eqn:Hrec. intros [= <- <-].
  destruct (IH _ _ _ (js ++ new) Hft1 eq_refl Hp Hrec) as (pre & rest & new' & w3 & -> & -> & Hh & Hp' & Hrest).
  exists ((mid, fs, prev) :: pre), rest, (new ++ new'), w3. rewrite (app_assoc js).
  split_and!; [done|done| |done|done]. econstructor; [exact Hj| |exact Hh]. by rewrite (ft_committed _ _ _ Hft).
Qed.

End redelivery.

(** ** Witness *)

(** The left task's job was lost with its worker after the claim. *)
Definition left_running : list (Action ExecutorResult) :=
  left_queued ++ [AClaim 2 (demo_message 100 102 "left" 1); ACrash 2].

(** A payload that does not parse stops the pass after the first message. *)
Lemma recovery_pass_witness :
  match recover_batch demo_exc id demo_registry (success_result []) "w2"
          [("5-1", demo_message 100 102 "left" 1, Some "w1"); ("6-1", [], None);
           ("7-1", demo_message 100 102 "left" 1, None)]%string (demo_world left_running) with
  | (r, w') => r = Ok ["5-1"%string] ∧
      ∃ new d1, handled [("5-1", demo_message 100 102 "left" 1, Some "w1")]%string
                  (w_committed (demo_world left_running)) new d1
  end.
Proof.
  destruct (recover_batch _ _ _ _ _ _ _) as [r w'] eqn:Hr.
  assert (fresh_tx demo_registry (fun _ => True) (demo_world left_running)) as Hft
    by (split; [apply demo_inv|reflexivity]).
  assert (published (w_queue (demo_world left_running)) demo_jobs) as Hpub by (vm_compute; reflexivity).
  destruct (recovery_pass demo_registry demo_exc id (fun l => Permutation_refl l) _ _ _ _ _ _ demo_jobs
    Hft eq_refl Hpub Hr) as (pre & rest & new & w1 & Hjobs & Hres & Hh & _ & _).
  assert (r = Ok ["5-1"%string]) as Heq by (vm_compute in Hr; by injection Hr as <- _).
  split; [exact Heq|]. rewrite Heq in Hres. clear Hr.
  destruct pre as [|p1 [|p2 pre]]; try discriminate Hres.
  injection Hjobs as <- _. exists new, (w_committed w1). exact Hh.
Defined.
