(* ===== verification/WebSocket.v ===== *)
(** * WebSocket delivery

    The manager of the connections (src/backend/app/websocket/connection_manager.py), the
    endpoint that opens and closes them (src/backend/app/api/websocket.py), the payload
    [_safe_broadcast] publishes (websocket/broadcaster.py) and the listener that hands it
    to the manager (src/backend/app/main.py).

    The tasks of the endpoints and their pings are in [Sockets]. Sockets are numbers; [sends] says whether a socket's [send_json] works. The order in
    which a broadcast goes through the sockets of an execution is that of the set. *)

From Stdlib Require Import Ascii SpecFloat.
From S2P Require Import Prelude Json PyStr Dumps JsonParse JsonRoundtrip Errors Models Registry.
From S2P Require Import Events Monad Store Publisher Runtime Engine Auth.

(** ** ConnectionManager *)

(** [_connections], and what was sent to which socket. *)
Record Hub : Type := mkHub {
  hub_connections : gmap string (gset N);
  hub_sent : list (N * json)
}.

Definition sockets_of (hub : Hub) (execution_id : string) : gset N :=
  default ∅ (hub_connections hub !! execution_id).

Definition connect (execution_id : string) (websocket : N) (hub : Hub) : Hub :=
  mkHub (<[execution_id := sockets_of hub execution_id ∪ {[websocket]}]> (hub_connections hub)) (hub_sent hub).

Definition disconnect (execution_id : string) (websocket : N) (hub : Hub) : Hub :=
  match hub_connections hub !! execution_id with
  | None => hub
  | Some sockets =>
      let sockets := sockets ∖ {[websocket]} in
      mkHub (if decide (sockets = ∅) then delete execution_id (hub_connections hub)
             else <[execution_id := sockets]> (hub_connections hub)) (hub_sent hub)
  end.

Definition connection_count (execution_id : string) (hub : Hub) : nat := size (sockets_of hub execution_id).

Section sockets.
Context (sends : N → json → bool).

(** The loop of [broadcast]: the messages sent and [broken]. *)
Definition send_all (message : json) (sockets : list N) : list (N * json) * list N :=
  (map (fun s => (s, message)) (List.filter (fun s => sends s message) sockets),
   List.filter (fun s => negb (sends s message)) sockets).

Definition broadcast (execution_id : string) (message : json) (hub : Hub) : Hub :=
  let sockets := elements (sockets_of hub execution_id) in
  let '(sent, broken) := send_all message sockets in
  foldl (fun hub websocket => disconnect execution_id websocket hub)
    (mkHub (hub_connections hub) (hub_sent hub ++ sent)) broken.

(** ** The channel *)

Context (float_repr : spec_float → string) (isoformat : datetime → string).

(** The dictionary of an envelope. *)
Definition envelope_json (e : Envelope) : json :=
  JDict [("type", JStr (env_type e)); ("execution_id", json_opt_str (env_execution_id e));
         ("timestamp", JStr (isoformat (env_timestamp e))); ("data", JDict (env_data e))]%string.

(** What [_safe_broadcast] publishes on [eventflow:ws]. *)
Definition payload_of (m : string * Envelope) : string :=
  json_dumps float_repr default_style
    (JDict [("execution_id", JStr m.1); ("message", envelope_json m.2)]%string).

(** The body of the loop of [_redis_pubsub_listener]: a payload that is not an object with
    both keys raises and is logged; so does an unhashable [execution_id]. *)
Definition handle_pubsub_message (data : string) (hub : Hub) : Hub :=
  match json_loads data with
  | Some (JDict payload) =>
      match dict_get "execution_id" payload, dict_get "message" payload with
      | Some (JStr execution_id), Some message => broadcast execution_id message hub
      | _, _ => hub
      end
  | _ => hub
  end.

Definition redis_pubsub_listener (messages : list string) (hub : Hub) : Hub :=
  foldl (fun hub data => handle_pubsub_message data hub) hub messages.

End sockets.

(** ** The endpoint (api/websocket.py) *)

(** [_authorize]: [principal] is what [get_current_principal_from_token] answers for the
    cookie; an [AppError] is a refusal, anything else goes through. *)
Definition authorize (d : DB) (execution_id : uuid) (principal : res exc uuid) : res exc bool :=
  match principal with
  | Ok owner_id => Ok (owns_execution d execution_id owner_id)
  | Err (EApp _) => Ok false
  | Err e => Err e
  end.

(** The first half of [execution_updates]; [accepted] is whether [websocket.accept()]
    works. The result says whether the socket was refused with code 1008. *)
Definition open_socket (d : DB) (execution_id : uuid) (principal : res exc uuid) (accepted : bool)
    (websocket : N) (hub : Hub) : res exc bool * Hub :=
  match authorize d execution_id principal with
  | Err e => (Err e, hub)
  | Ok false => (Ok true, hub)
  | Ok true =>
      (Ok false, if accepted then connect (uuid_str execution_id) websocket hub else hub)
  end.

(** The [finally] of the receive loop. *)
Definition close_socket (execution_id : uuid) (websocket : N) (hub : Hub) : Hub :=
  disconnect (uuid_str execution_id) websocket hub.

(** ** The sets of sockets *)

Lemma sockets_of_connect e s hub e' :
  sockets_of (connect e s hub) e' =
  if decide (e = e') then sockets_of hub e ∪ {[s]} else sockets_of hub e'.
Proof. unfold connect, sockets_of. simpl. rewrite lookup_insert. by case_decide. Qed.

Lemma sockets_of_disconnect e s hub e' :
  sockets_of (disconnect e s hub) e' =
  if decide (e = e') then sockets_of hub e ∖ {[s]} else sockets_of hub e'.
Proof.
  unfold disconnect, sockets_of. destruct (hub_connections hub !! e) as [ss|] eqn:He; simpl.
  - destruct (decide (ss ∖ {[s]} = ∅)) as [Hemp|_]; simpl;
      rewrite ?lookup_delete, ?lookup_insert; case_decide; done.
  - case_decide; [subst; rewrite He; simpl; set_solver|done].
Qed.

Lemma disconnect_sent e s hub : hub_sent (disconnect e s hub) = hub_sent hub.
Proof. unfold disconnect. by destruct (hub_connections hub !! e). Qed.

Lemma disconnect_all e l hub :
  let hub' := foldl (fun hub s => disconnect e s hub) hub l in
  hub_sent hub' = hub_sent hub ∧
  ∀ e' t, t ∈ sockets_of hub' e' ↔ t ∈ sockets_of hub e' ∧ ¬ (e = e' ∧ t ∈ l).
Proof.
  revert hub. induction l as [|s l IH]; intros hub; simpl.
  { split; [done|]. intros e' t. set_solver. }
  destruct (IH (disconnect e s hub)) as [-> Hs]. split; [apply disconnect_sent|].
  intros e' t. rewrite Hs, sockets_of_disconnect. case_decide; [subst|]; set_solver.
Qed.

Section delivery.
Context (sends : N → json → bool) (float_repr : spec_float → string) (isoformat : datetime → string).
Implicit Types hub : Hub.

(** What a socket was sent, in the order of sending. *)
Definition received (s : N) hub : list json := snd <$> filter (fun p => p.1 = s) (hub_sent hub).

Lemma received_send_all s message l :
  NoDup l →
  snd <$> filter (fun p => p.1 = s) (send_all sends message l).1 =
  if decide (s ∈ l ∧ sends s message = true) then [message] else [].
Proof.
  unfold send_all. cbn [fst]. induction 1 as [|t l Hnot Hnd IH].
  { case_decide as Hd; [|done]. destruct Hd as [Hd%not_elem_of_nil _]. done. }
  cbn [List.filter]. destruct (decide (t = s)) as [->|Hne].
  - rewrite (decide_False (P := s ∈ l ∧ _)) in IH by tauto.
    destruct (sends s message) eqn:Hs; case_decide as Hd; try done; try set_solver.
    cbn [map]. rewrite filter_cons_True by done. cbn. by rewrite IH.
  - assert (snd <$> filter (fun p => p.1 = s) (map (fun s => (s, message))
      (if sends t message then t :: List.filter (fun s => sends s message) l
       else List.filter (fun s => sends s message) l)) =
      snd <$> filter (fun p => p.1 = s) (map (fun s => (s, message)) (List.filter (fun s => sends s message) l)))
      as -> by (destruct (sends t message); [cbn [map]; by rewrite filter_cons_False|done]).
    rewrite IH. repeat case_decide; try done; set_solver.
Qed.

Lemma broadcast_spec e message hub :
  let hub' := broadcast sends e message hub in
  (∀ s, received s hub' = received s hub ++
     (if decide (s ∈ sockets_of hub e ∧ sends s message = true) then [message] else [])) ∧
  ∀ e' s, s ∈ sockets_of hub' e' ↔ s ∈ sockets_of hub e' ∧ (e = e' → sends s message = true).
Proof.
  unfold broadcast. destruct (send_all _ _ _) as [sent broken] eqn:Hsend.
  destruct (disconnect_all e broken (mkHub (hub_connections hub) (hub_sent hub ++ sent))) as [Hsent Hsock].
  split.
  - intros s. unfold received. rewrite Hsent. simpl. rewrite filter_app, fmap_app. f_equal.
    pose proof (received_send_all s message (elements (sockets_of hub e)) (NoDup_elements _)) as Hr.
    rewrite Hsend in Hr. simpl in Hr. rewrite Hr.
    repeat case_decide; try done; set_solver.
  - intros e' s. rewrite Hsock. unfold sockets_of at 1. simpl. fold (sockets_of hub e').
    assert (s ∈ broken ↔ s ∈ sockets_of hub e ∧ sends s message = false) as Hb.
    { unfold send_all in Hsend. injection Hsend as _ <-. rewrite list_elem_of_In, filter_In.
      rewrite <- list_elem_of_In, elem_of_elements, negb_true_iff. done. }
    rewrite Hb. destruct (sends s message); naive_solver.
Qed.

(** ** Through the channel *)

(** The listener reads back what the broadcaster published. *)
Lemma handle_payload m hub :
  json_plain (envelope_json isoformat m.2) = true →
  handle_pubsub_message sends (payload_of float_repr isoformat m) hub =
  broadcast sends m.1 (envelope_json isoformat m.2) hub.
Proof.
  intros Hp. unfold handle_pubsub_message, payload_of.
  rewrite (loads_dumps _ _ [" "%char] [" "%char]); [done|done|by split; [|repeat constructor]..|].
  cbn [json_plain]. apply andb_true_iff. split; [vm_compute; reflexivity|].
  cbn [forallb snd json_plain]. by rewrite Hp.
Qed.

(** C35. Every event published on the channel reaches the sockets of its execution: the
    payload is read back as the envelope it was built from, a socket whose sends work gets
    exactly the events of the executions it is connected to, once each and in the order of
    publication, and stays connected; a broken socket gets nothing, and is dropped from every
    execution an event came for. *)
Theorem pubsub_delivery (messages : list (string * Envelope)) hub :
  Forall (fun m => json_plain (envelope_json isoformat m.2) = true) messages →
  let hub' := redis_pubsub_listener sends (payload_of float_repr isoformat <$> messages) hub in
  ∀ s,
    ((∀ message, sends s message = true) →
     received s hub' = received s hub ++
       ((fun m => envelope_json isoformat m.2) <$> filter (fun m => s ∈ sockets_of hub m.1) messages) ∧
     ∀ e, s ∈ sockets_of hub' e ↔ s ∈ sockets_of hub e) ∧
    ((∀ message, sends s message = false) →
     received s hub' = received s hub ∧
     ∀ e, s ∈ sockets_of hub' e ↔ s ∈ sockets_of hub e ∧ e ∉ messages.*1).
Proof.
  intros Hall. cbv zeta. intros s. revert hub. induction Hall as [|m messages Hm Hall IH]; intros hub.
  { simpl. split; intros _; (split; [by rewrite ?app_nil_r|set_solver]). }
  unfold redis_pubsub_listener in *. cbn [fmap list_fmap foldl]. rewrite handle_payload by done.
  destruct (broadcast_spec m.1 (envelope_json isoformat m.2) hub) as [Hr Hs].
  set (hub1 := broadcast _ _ _ _) in *. destruct (IH hub1) as [Hgood Hbad]. split.
  - intros Hsend. destruct (Hgood Hsend) as [Hrec Hsock]. split.
    + rewrite Hrec, (Hr s), <- app_assoc. f_equal. rewrite filter_cons.
      assert (filter (fun m => s ∈ sockets_of hub1 m.1) messages =
              filter (fun m => s ∈ sockets_of hub m.1) messages) as ->.
      { apply list_filter_iff. intros x. rewrite Hs, Hsend. tauto. }
      rewrite Hsend. repeat case_decide; tauto || done.
    + intros e. rewrite Hsock, Hs, Hsend. tauto.
  - intros Hsend. destruct (Hbad Hsend) as [Hrec Hsock]. split.
    + rewrite Hrec, (Hr s), Hsend, decide_False by (by intros [_ ?]). by rewrite app_nil_r.
    + intros e. rewrite Hsock, Hs, Hsend. set_solver.
Qed.

End delivery.

(** ** Witness *)

(** Two sockets follow one execution and one of them is broken; a third follows another. *)
Definition demo_sends (s : N) (_ : json) : bool := negb (s =? 2)%N.
Definition demo_hub : Hub := mkHub {["x"%string := {[1%N; 2%N]}; "y"%string := {[3%N]}]} [].
Definition demo_envelope : Envelope := mkEnvelope "execution_updated" (Some "x") 0 [("status", JStr "RUNNING")]%string.

Lemma pubsub_delivery_witness :
  let hub := redis_pubsub_listener demo_sends
               (payload_of (fun _ => "0.5"%string) (fun _ => "now"%string) <$> [("x"%string, demo_envelope)]) demo_hub in
  received 1 hub = [envelope_json (fun _ => "now"%string) demo_envelope] ∧ received 3 hub = [] ∧
  2%N ∉ sockets_of hub "x".
Proof.
  pose proof (pubsub_delivery demo_sends (fun _ => "0.5"%string) (fun _ => "now"%string)
    [("x"%string, demo_envelope)] demo_hub) as H.
  cbv zeta in H. specialize (H ltac:(repeat constructor)). split_and!.
  - destruct (H 1%N) as [[-> _] _]; [done|reflexivity].
  - destruct (H 3%N) as [[-> _] _]; [done|reflexivity].
  - destruct (H 2%N) as [_ [_ Hs]]; [done|]. rewrite Hs. intros [_ Hno]. apply Hno, list_elem_of_here.
Defined.
