(* ===== verification/Sockets.v ===== *)
(** * The endpoints of the sockets and the listener, together

    src/backend/app/api/websocket.py ([execution_updates], [_heartbeat]) and the listener of
    src/backend/app/main.py with [broadcast] (websocket/connection_manager.py), as tasks of
    one event loop: each takes a step of its own at a time. A broadcast takes the sockets of
    its execution under the lock, sends to one after the other, and then drops the broken
    ones; endpoints open and close in between. A trace lists the steps in order. One
    simplification: an endpoint is authorized, accepted and connected in one step
    ([begin_endpoint]), while the code also waits between the three; until the last of them
    the manager knows nothing of the socket. *)

From Stdlib Require Import SpecFloat.
From S2P Require Import Prelude Json PyStr JsonParse Errors Models Events Store Engine Execute WebSocket.

(** ** States and steps *)

(** A broadcast on its way: the sockets still to send to, and the broken ones to drop. *)
Record Sending : Type := mkSending {
  sd_execution_id : string;
  sd_message : json;
  sd_sockets : list N;
  sd_broken : list N
}.

(** [ep_open]: the endpoints in their receive loop, with their [execution_key];
    [ep_beating]: the sockets whose heartbeat task runs. *)
Record Endpoints : Type := mkEndpoints {
  ep_hub : Hub;
  ep_open : gmap N string;
  ep_beating : gset N;
  ep_sending : option Sending
}.

Definition no_endpoints : Endpoints := mkEndpoints (mkHub ∅ []) ∅ ∅ None.

(** What happens to the tasks. [Handshake] runs an endpoint to its receive loop, if it gets
    there; [principal] and the tables are what [_authorize] sees. *)
Inductive WsEvent : Type :=
| Handshake (d : DB) (execution_id : uuid) (principal : res exc uuid) (accepted : bool) (websocket : N)
| Frame (websocket : N)
| Gone (websocket : N)
| Heartbeat (websocket : N) (now : datetime) (sent : bool)
| Published (data : string)
| SendNext (sent : bool)
| DropNext.

Section steps.
Context (isoformat : datetime → string).

Definition set_hub (hub : Hub) (w : Endpoints) : Endpoints :=
  mkEndpoints hub (ep_open w) (ep_beating w) (ep_sending w).
Definition set_sending (o : option Sending) (w : Endpoints) : Endpoints :=
  mkEndpoints (ep_hub w) (ep_open w) (ep_beating w) o.

Definition sent_to (websocket : N) (message : json) (hub : Hub) : Hub :=
  mkHub (hub_connections hub) (hub_sent hub ++ [(websocket, message)]).

(** [execution_updates] up to its receive loop. *)
Definition begin_endpoint (d : DB) (execution_id : uuid) (principal : res exc uuid) (accepted : bool)
    (websocket : N) (w : Endpoints) : Endpoints :=
  match open_socket d execution_id principal accepted websocket (ep_hub w) with
  | (Ok false, hub) =>
      if accepted
      then mkEndpoints hub (<[websocket := uuid_str execution_id]> (ep_open w))
             ({[websocket]} ∪ ep_beating w) (ep_sending w)
      else w
  | _ => w
  end.

(** The loop ends, by a disconnect or an error, and the [finally] runs. *)
Definition end_endpoint (websocket : N) (w : Endpoints) : Endpoints :=
  match ep_open w !! websocket with
  | None => w
  | Some execution_key =>
      mkEndpoints (disconnect execution_key websocket (ep_hub w)) (delete websocket (ep_open w))
        (ep_beating w ∖ {[websocket]}) (ep_sending w)
  end.

(** One turn of [_heartbeat]: a failed ping ends the task. *)
Definition heartbeat_turn (websocket : N) (now : datetime) (sent : bool) (w : Endpoints) : Endpoints :=
  if sent then set_hub (sent_to websocket (envelope_json isoformat (ping now)) (ep_hub w)) w
  else mkEndpoints (ep_hub w) (ep_open w) (ep_beating w ∖ {[websocket]}) (ep_sending w).

(** What the listener reads in a message of the channel. *)
Definition read_payload (data : string) : option (string * json) :=
  match json_loads data with
  | Some (JDict payload) =>
      match dict_get "execution_id" payload, dict_get "message" payload with
      | Some (JStr execution_id), Some message => Some (execution_id, message)
      | _, _ => None
      end
  | _ => None
  end.

Inductive ws_step (w : Endpoints) : WsEvent → Endpoints → Prop :=
| ws_handshake d execution_id principal accepted websocket :
    ep_open w !! websocket = None →
    ws_step w (Handshake d execution_id principal accepted websocket)
      (begin_endpoint d execution_id principal accepted websocket w)
| ws_frame websocket :
    is_Some (ep_open w !! websocket) → ws_step w (Frame websocket) w
| ws_gone websocket :
    is_Some (ep_open w !! websocket) → ws_step w (Gone websocket) (end_endpoint websocket w)
| ws_heartbeat websocket now sent :
    websocket ∈ ep_beating w →
    ws_step w (Heartbeat websocket now sent) (heartbeat_turn websocket now sent w)
| ws_unreadable data :
    ep_sending w = None → read_payload data = None → ws_step w (Published data) w
| ws_published data execution_id message sockets :
    ep_sending w = None → read_payload data = Some (execution_id, message) →
    sockets ≡ₚ elements (sockets_of (ep_hub w) execution_id) →
    ws_step w (Published data) (set_sending (Some (mkSending execution_id message sockets [])) w)
| ws_sent websocket sockets broken execution_id message :
    ep_sending w = Some (mkSending execution_id message (websocket :: sockets) broken) →
    ws_step w (SendNext true)
      (set_sending (Some (mkSending execution_id message sockets broken))
         (set_hub (sent_to websocket message (ep_hub w)) w))
| ws_broken websocket sockets broken execution_id message :
    ep_sending w = Some (mkSending execution_id message (websocket :: sockets) broken) →
    ws_step w (SendNext false)
      (set_sending (Some (mkSending execution_id message sockets (broken ++ [websocket]))) w)
| ws_drop websocket broken execution_id message :
    ep_sending w = Some (mkSending execution_id message [] (websocket :: broken)) →
    ws_step w DropNext
      (set_sending (Some (mkSending execution_id message [] broken))
         (set_hub (disconnect execution_id websocket (ep_hub w)) w))
| ws_done execution_id message :
    ep_sending w = Some (mkSending execution_id message [] []) → ws_step w DropNext (set_sending None w).

Inductive ws_run : list WsEvent → Endpoints → Prop :=
| ws_start : ws_run [] no_endpoints
| ws_next trace w event w' : ws_run trace w → ws_step w event w' → ws_run (trace ++ [event]) w'.

(** ** What a socket may be sent *)

(** The endpoint of the socket was opened for the execution by its owner. *)
Definition admitted (trace : list WsEvent) (websocket : N) (execution_key : string) : Prop :=
  ∃ d execution_id owner,
    Handshake d execution_id (Ok owner) true websocket ∈ trace ∧
    owns_execution d execution_id owner = true ∧ execution_key = uuid_str execution_id.

(** The message was published for the execution. *)
Definition published_for (trace : list WsEvent) (execution_key : string) (message : json) : Prop :=
  ∃ data, Published data ∈ trace ∧ read_payload data = Some (execution_key, message).

Record ws_inv (trace : list WsEvent) (w : Endpoints) : Prop := {
  wi_hub execution_key websocket :
    websocket ∈ sockets_of (ep_hub w) execution_key → ep_open w !! websocket = Some execution_key;
  wi_open websocket execution_key :
    ep_open w !! websocket = Some execution_key → admitted trace websocket execution_key;
  wi_beating websocket : websocket ∈ ep_beating w → is_Some (ep_open w !! websocket);
  wi_sending sending : ep_sending w = Some sending →
    published_for trace (sd_execution_id sending) (sd_message sending) ∧
    ∀ websocket, websocket ∈ sd_sockets sending → admitted trace websocket (sd_execution_id sending);
  wi_sent websocket message : (websocket, message) ∈ hub_sent (ep_hub w) →
    ∃ execution_key, admitted trace websocket execution_key ∧
      (published_for trace execution_key message ∨ ∃ now, message = envelope_json isoformat (ping now))
}.

Lemma admitted_snoc trace event s k : admitted trace s k → admitted (trace ++ [event]) s k.
Proof. intros (d & x & o & Hin & Ho & Hk). exists d, x, o. split_and!; [set_solver|done|done]. Qed.

Lemma published_for_snoc trace event k m : published_for trace k m → published_for (trace ++ [event]) k m.
Proof. intros (x & Hin & Hr). exists x. split; [set_solver|done]. Qed.

Hint Resolve admitted_snoc published_for_snoc : core.

(** A longer trace admits and publishes no less. *)
Lemma ws_inv_snoc trace event w : ws_inv trace w → ws_inv (trace ++ [event]) w.
Proof.
  intros [Hh Ho Hb Hs Hm]. split; [done|eauto|done| |].
  - intros x Hx. destruct (Hs x Hx) as [Hp Ha]. split; eauto.
  - intros s m Hin. destruct (Hm s m Hin) as (k & Ha & Hp). exists k. split; [auto|].
    destruct Hp as [Hp|Hp]; [left; auto|by right].
Qed.

(** Dropping a socket from the manager keeps the invariant, also of the rest of a broadcast. *)
Lemma sockets_of_disconnect_subset e s hub e' t :
  t ∈ sockets_of (disconnect e s hub) e' → t ∈ sockets_of hub e' ∧ ¬ (e = e' ∧ t = s).
Proof. rewrite sockets_of_disconnect. case_decide; [subst|]; set_solver. Qed.

Lemma begin_endpoint_cases d execution_id principal accepted s w :
  begin_endpoint d execution_id principal accepted s w = w ∨
  ∃ owner, principal = Ok owner ∧ accepted = true ∧ owns_execution d execution_id owner = true ∧
    begin_endpoint d execution_id principal accepted s w =
      mkEndpoints (connect (uuid_str execution_id) s (ep_hub w)) (<[s := uuid_str execution_id]> (ep_open w))
        ({[s]} ∪ ep_beating w) (ep_sending w).
Proof.
  unfold begin_endpoint, open_socket, authorize.
  destruct principal as [owner|[]]; try by left.
  destruct (owns_execution d execution_id owner) eqn:Howns; [|by left].
  destruct accepted; [|by left]. right. by exists owner.
Qed.

Lemma ws_inv_begin trace d execution_id principal accepted s w :
  ep_open w !! s = None → ws_inv trace w →
  ws_inv (trace ++ [Handshake d execution_id principal accepted s])
    (begin_endpoint d execution_id principal accepted s w).
Proof.
  intros Hs Hinv. destruct (begin_endpoint_cases d execution_id principal accepted s w)
    as [->|(owner & Hp & Hacc & Howns & ->)]; [by apply ws_inv_snoc|].
  subst principal accepted.
  assert (admitted (trace ++ [Handshake d execution_id (Ok owner) true s]) s (uuid_str execution_id)) as Hadm
    by (exists d, execution_id, owner; split_and!; [set_solver|done|done]).
  destruct (ws_inv_snoc _ (Handshake d execution_id (Ok owner) true s) _ Hinv) as [Hh Ho Hb Hq Hm].
  split; cbn [ep_hub ep_open ep_beating ep_sending].
  - intros k t. rewrite sockets_of_connect, lookup_insert.
    intros Ht. destruct (decide (s = t)) as [<-|Hne].
    + case_decide; [by subst|]. rewrite (Hh _ _ Ht) in Hs. done.
    + apply Hh. case_decide; [subst; set_solver|done].
  - intros t k. rewrite lookup_insert. case_decide; [|apply Ho]. subst t. by intros [= <-].
  - intros t Ht. rewrite lookup_insert. case_decide; [done|]. apply Hb. set_solver.
  - exact Hq.
  - exact Hm.
Qed.

Lemma ws_inv_end trace s w : ws_inv trace w → ws_inv trace (end_endpoint s w).
Proof.
  intros Hinv. unfold end_endpoint. destruct (ep_open w !! s) as [key|] eqn:Hs; [|done].
  destruct Hinv as [Hh Ho Hb Hq Hm]. split; cbn [ep_hub ep_open ep_beating ep_sending].
  - intros k t [Ht Hno]%sockets_of_disconnect_subset. rewrite lookup_delete. apply Hh in Ht.
    case_decide; [|done]. subst t. rewrite Hs in Ht. injection Ht as ->. tauto.
  - intros t k. rewrite lookup_delete. case_decide; [done|apply Ho].
  - intros t Ht. rewrite lookup_delete. case_decide; [set_solver|]. apply Hb. set_solver.
  - exact Hq.
  - by rewrite disconnect_sent.
Qed.

(** A send adds one message to one admitted socket. *)
Lemma ws_inv_sent trace s k m w :
  admitted trace s k → (published_for trace k m ∨ ∃ now, m = envelope_json isoformat (ping now)) →
  ws_inv trace w → ws_inv trace (set_hub (sent_to s m (ep_hub w)) w).
Proof.
  intros Ha Hp [Hh Ho Hb Hq Hm]. split; [exact Hh|exact Ho|exact Hb|exact Hq|].
  intros t m'. cbn [set_hub ep_hub sent_to hub_sent]. rewrite elem_of_app, list_elem_of_singleton.
  intros [Hin|[= -> ->]]; [by apply Hm|by exists k].
Qed.

Lemma ws_inv_sending trace o w :
  ws_inv trace w →
  (∀ x, o = Some x → published_for trace (sd_execution_id x) (sd_message x) ∧
     ∀ s, s ∈ sd_sockets x → admitted trace s (sd_execution_id x)) →
  ws_inv trace (set_sending o w).
Proof. intros [Hh Ho Hb Hq Hm] Hx. by split. Qed.

Lemma ws_inv_drop trace k s w : ws_inv trace w → ws_inv trace (set_hub (disconnect k s (ep_hub w)) w).
Proof.
  intros [Hh Ho Hb Hq Hm]. split; cbn [set_hub ep_hub ep_open ep_beating ep_sending]; [|done..|].
  - intros k' t [Ht _]%sockets_of_disconnect_subset. by apply Hh.
  - by rewrite disconnect_sent.
Qed.

Lemma ws_inv_step trace w event w' : ws_inv trace w → ws_step w event w' → ws_inv (trace ++ [event]) w'.
Proof.
  intros Hinv Hstep. destruct Hstep.
  - by apply ws_inv_begin.
  - by apply ws_inv_snoc.
  - by apply ws_inv_end, ws_inv_snoc.
  - apply ws_inv_snoc. unfold heartbeat_turn. destruct sent.
    + destruct (wi_beating _ _ Hinv _ H) as [k Hk].
      apply (ws_inv_sent _ _ k); [by apply (wi_open _ _ Hinv)|right; by eexists|done].
    + destruct Hinv as [Hh Ho Hb Hq Hm]. split; cbn [ep_hub ep_open ep_beating ep_sending]; try done.
      intros t Ht. apply Hb. set_solver.
  - by apply ws_inv_snoc.
  - apply ws_inv_sending; [by apply ws_inv_snoc|]. intros x [= <-]. split; simpl.
    + exists data. split; [set_solver|done].
    + intros s. rewrite H1, elem_of_elements. intros Hs.
      by apply admitted_snoc, (wi_open _ _ Hinv), (wi_hub _ _ Hinv).
  - destruct (wi_sending _ _ Hinv _ H) as [Hp Ha]. apply ws_inv_sending.
    + apply ws_inv_snoc, (ws_inv_sent _ _ execution_id); [|by left|done]. apply Ha, list_elem_of_here.
    + intros x [= <-]. split; simpl; [auto|]. intros s Hs. apply admitted_snoc, Ha. by right.
  - destruct (wi_sending _ _ Hinv _ H) as [Hp Ha]. apply ws_inv_sending; [by apply ws_inv_snoc|].
    intros x [= <-]. split; simpl; [auto|]. intros s Hs. apply admitted_snoc, Ha. by right.
  - destruct (wi_sending _ _ Hinv _ H) as [Hp Ha].
    apply ws_inv_sending; [by apply ws_inv_snoc, ws_inv_drop|].
    intros x [= <-]. split; simpl; [auto|]. by intros s ?%not_elem_of_nil.
  - apply ws_inv_sending; [by apply ws_inv_snoc|done].
Qed.

Lemma ws_run_inv trace w : ws_run trace w → ws_inv trace w.
Proof.
  induction 1 as [|trace w event w' _ IH Hstep]; [|by eapply ws_inv_step].
  split; simpl; try done. by intros s m ?%not_elem_of_nil.
Qed.

(** ** A broadcast nothing interrupts is the one of [WebSocket] *)

Definition ws_moves (w w' : Endpoints) : Prop := ∃ event, ws_step w event w'.

Lemma sends_run sends k m sockets : ∀ w broken,
  ep_sending w = Some (mkSending k m sockets broken) →
  rtc ws_moves w
    (set_sending (Some (mkSending k m [] (broken ++ (send_all sends m sockets).2)))
      (set_hub (mkHub (hub_connections (ep_hub w)) (hub_sent (ep_hub w) ++ (send_all sends m sockets).1)) w)).
Proof.
  induction sockets as [|s sockets IH]; intros w broken Hw.
  - destruct w as [[c l] o b q]. simpl in *. subst q. unfold set_sending, set_hub. simpl.
    by rewrite !app_nil_r.
  - unfold send_all in *. cbn [List.filter map fst snd] in *. destruct (sends s m) eqn:Hs; cbn [negb map].
    + eapply rtc_l; [exists (SendNext true); by eapply ws_sent|].
      rewrite (cons_middle (s, m) (hub_sent (ep_hub w)) (map _ _)), app_assoc.
      apply (IH (set_sending (Some (mkSending k m sockets broken)) (set_hub (sent_to s m (ep_hub w)) w))
               broken eq_refl).
    + eapply rtc_l; [exists (SendNext false); by eapply ws_broken|].
      rewrite (cons_middle s broken (List.filter _ _)), app_assoc.
      apply (IH (set_sending (Some (mkSending k m sockets (broken ++ [s]))) w) (broken ++ [s]) eq_refl).
Qed.

Lemma drops_run k m broken : ∀ w,
  ep_sending w = Some (mkSending k m [] broken) →
  rtc ws_moves w
    (set_sending None (set_hub (foldl (fun hub s => disconnect k s hub) (ep_hub w) broken) w)).
Proof.
  induction broken as [|s broken IH]; intros w Hw.
  - apply rtc_once. exists DropNext. replace (set_hub _ w) with w by (by destruct w). by eapply ws_done.
  - eapply rtc_l; [exists DropNext; by eapply ws_drop|].
    apply (IH (set_sending (Some (mkSending k m [] broken)) (set_hub (disconnect k s (ep_hub w)) w)) eq_refl).
Qed.

Lemma broadcast_run sends data k m w :
  ep_sending w = None → read_payload data = Some (k, m) →
  rtc ws_moves w (set_hub (broadcast sends k m (ep_hub w)) w).
Proof.
  intros Hw Hr. set (sockets := elements (sockets_of (ep_hub w) k)).
  set (w1 := set_sending (Some (mkSending k m sockets [])) w).
  apply (rtc_l _ _ w1); [exists (Published data); by apply ws_published|].
  etrans; [exact (sends_run sends k m sockets w1 [] eq_refl)|].
  etrans; [by apply (drops_run k m ([] ++ (send_all sends m sockets).2))|]. unfold broadcast. fold sockets.
  destruct (send_all sends m sockets) as [sent broken]. destruct w as [h o b q]. simpl in *. by subst q.
Qed.

(** C36. However endpoints, heartbeats and the broadcasts of the listener interleave, step by
    step: a socket the manager holds for an execution belongs to an endpoint still in its
    receive loop, opened for that execution with a token of its owner; once the endpoint has
    ended the manager holds the socket nowhere and its heartbeat is over; and whatever a
    socket was ever sent is a ping or a message published for an execution it was opened for
    by the execution's owner. *)
Theorem socket_isolation trace w :
  ws_run trace w →
  (∀ execution_key websocket, websocket ∈ sockets_of (ep_hub w) execution_key →
     ep_open w !! websocket = Some execution_key ∧ admitted trace websocket execution_key) ∧
  (∀ websocket, ep_open w !! websocket = None →
     (websocket ∉ ep_beating w) ∧ (∀ execution_key, websocket ∉ sockets_of (ep_hub w) execution_key)) ∧
  (∀ websocket message, (websocket, message) ∈ hub_sent (ep_hub w) →
     ∃ execution_key, admitted trace websocket execution_key ∧
       (published_for trace execution_key message ∨ ∃ now, message = envelope_json isoformat (ping now))).
Proof.
  intros [Hh Ho Hb _ Hm]%ws_run_inv. split_and!; [|intros s Hs; split|exact Hm].
  - intros k s Hs. split; [by apply Hh|by apply Ho, Hh].
  - intros Hbeat. destruct (Hb _ Hbeat). congruence.
  - intros k Hk%Hh. congruence.
Qed.

End steps.

(** ** Witness *)

(** The owner of the demo's execution follows it and is pinged; somebody else is refused. *)
Definition demo_now (_ : datetime) : string := "now".
Definition demo_owner_handshake : WsEvent := Handshake (w_db (demo_world left_queued)) 100 (Ok 7%N) true 1.
Definition demo_other_handshake : WsEvent := Handshake (w_db (demo_world left_queued)) 100 (Ok 8%N) true 2.
Definition demo_followed : Endpoints :=
  begin_endpoint (w_db (demo_world left_queued)) 100 (Ok 7%N) true 1 no_endpoints.
Definition demo_refused : Endpoints :=
  begin_endpoint (w_db (demo_world left_queued)) 100 (Ok 8%N) true 2 demo_followed.
Definition demo_endpoints : Endpoints := heartbeat_turn demo_now 1 0 true demo_refused.

Lemma demo_endpoints_run :
  ws_run demo_now [demo_owner_handshake; demo_other_handshake; Heartbeat 1 0 true] demo_endpoints.
Proof.
  apply (ws_next _ [demo_owner_handshake; demo_other_handshake] demo_refused);
    [apply (ws_next _ [demo_owner_handshake] demo_followed);
      [apply (ws_next _ [] no_endpoints); [apply ws_start|]|]|].
  - by apply ws_handshake.
  - apply ws_handshake. vm_compute. reflexivity.
  - apply ws_heartbeat. apply (bool_decide_unpack _). vm_compute. exact I.
Qed.

Lemma socket_isolation_witness :
  admitted [demo_owner_handshake; demo_other_handshake; Heartbeat 1 0 true] 1 (uuid_str 100) ∧
  2%N ∉ sockets_of (ep_hub demo_endpoints) (uuid_str 100).
Proof.
  destruct (socket_isolation demo_now _ _ demo_endpoints_run) as (Hin & Hout & _). split.
  - apply Hin. apply (bool_decide_unpack _). vm_compute. exact I.
  - apply Hout. vm_compute. reflexivity.
Defined.
