(* ===== verification/Messages.v ===== *)
(** * The messages of the gRPC services

    src/backend/app/transport/eventflow/execution_engine_pb2.py and worker_control_pb2.py:
    the classes the generated modules define, one constructor of [MessageType] and one
    record of fields each. Protobuf's own [Struct] is a parameter. An optional field and a
    message field know whether they were set ([HasField]); a string, a number and a repeated
    field have their default when they were not. [Descriptors] relates the classes to the
    bytes the modules register. *)

From S2P Require Import Prelude.

(** ** The classes *)

(** Named as the code names them, [pb.ExecutionDTO]. *)
Module pb.

Inductive MessageType : Type :=
| StartExecutionRequest
| GetExecutionRequest
| ListExecutionsRequest
| GetNodeExecutionsRequest
| RetryNodeRequest
| DeleteExecutionRequest
| DeleteExecutionResponse
| TransitionNodeRequest
| NodeExecutionDTO
| ExecutionDTO
| NodeExecutionListDTO
| ExecutionListDTO
| WorkerHeartbeatRequest
| WorkerHeartbeatResponse
| ClaimStaleJobRequest
| ClaimStaleJobResponse.

#[global] Instance MessageType_eq_dec : EqDecision MessageType.
Proof. solve_decision. Defined.

End pb.

(** ** Requests *)

Record PbStartExecutionRequest (Struct : Type) : Type := mkPbStart {
  ps_workflow_version_id : string;
  ps_input_payload : option Struct;
  ps_owner_api_key_id : string
}.

Record PbGetExecutionRequest : Type := mkPbGet {
  pg_execution_id : string;
  pg_owner_api_key_id : string
}.

Record PbListExecutionsRequest : Type := mkPbList {
  pl_owner_api_key_id : string;
  pl_status : option string;
  pl_limit : Z;
  pl_offset : Z
}.

Record PbGetNodeExecutionsRequest : Type := mkPbGetNodes {
  pgn_execution_id : string;
  pgn_owner_api_key_id : string
}.

Record PbRetryNodeRequest : Type := mkPbRetry {
  pr_execution_id : string;
  pr_node_id : string;
  pr_owner_api_key_id : string
}.

Record PbDeleteExecutionRequest : Type := mkPbDelete {
  pd_execution_id : string;
  pd_owner_api_key_id : string
}.

Record PbTransitionNodeRequest (Struct : Type) : Type := mkPbTransition {
  pt_execution_id : string;
  pt_node_execution_id : string;
  pt_status : string;
  pt_result : option Struct;
  pt_error : option string
}.

Record PbWorkerHeartbeatRequest : Type := mkPbHeartbeat {
  pw_worker_id : string;
  pw_status : string;
  pw_current_job_id : option string
}.

Record PbClaimStaleJobRequest : Type := mkPbClaim {
  pc_worker_id : string;
  pc_node_execution_id : string
}.

(** ** Responses *)

Record PbNodeExecutionDTO (Struct : Type) : Type := mkPbNode {
  pn_id : string;
  pn_execution_id : string;
  pn_node_id : string;
  pn_node_type : string;
  pn_status : string;
  pn_attempt : Z;
  pn_max_attempts : Z;
  pn_input_payload : option Struct;
  pn_output_payload : option Struct;
  pn_error_message : option string
}.

Record PbExecutionDTO (Struct : Type) : Type := mkPbExecution {
  pe_id : string;
  pe_workflow_id : string;
  pe_workflow_version_id : string;
  pe_status : string;
  pe_input_payload : option Struct;
  pe_error_message : option string;
  pe_node_executions : list (PbNodeExecutionDTO Struct)
}.

Arguments mkPbStart {Struct} _ _ _.
Arguments ps_workflow_version_id {Struct} _.
Arguments ps_input_payload {Struct} _.
Arguments ps_owner_api_key_id {Struct} _.
Arguments mkPbTransition {Struct} _ _ _ _ _.
Arguments pt_execution_id {Struct} _.
Arguments pt_node_execution_id {Struct} _.
Arguments pt_status {Struct} _.
Arguments pt_result {Struct} _.
Arguments pt_error {Struct} _.
Arguments mkPbNode {Struct} _ _ _ _ _ _ _ _ _ _.
Arguments pn_id {Struct} _.
Arguments pn_execution_id {Struct} _.
Arguments pn_node_id {Struct} _.
Arguments pn_node_type {Struct} _.
Arguments pn_status {Struct} _.
Arguments pn_attempt {Struct} _.
Arguments pn_max_attempts {Struct} _.
Arguments pn_input_payload {Struct} _.
Arguments pn_output_payload {Struct} _.
Arguments pn_error_message {Struct} _.
Arguments mkPbExecution {Struct} _ _ _ _ _ _ _.
Arguments pe_id {Struct} _.
Arguments pe_workflow_id {Struct} _.
Arguments pe_workflow_version_id {Struct} _.
Arguments pe_status {Struct} _.
Arguments pe_input_payload {Struct} _.
Arguments pe_error_message {Struct} _.
Arguments pe_node_executions {Struct} _.

(** What an instance of a class holds; the lists have their one repeated field, the two
    responses of the worker control service their one boolean. *)
Definition message (Struct : Type) (t : pb.MessageType) : Type :=
  match t with
  | pb.StartExecutionRequest => PbStartExecutionRequest Struct
  | pb.GetExecutionRequest => PbGetExecutionRequest
  | pb.ListExecutionsRequest => PbListExecutionsRequest
  | pb.GetNodeExecutionsRequest => PbGetNodeExecutionsRequest
  | pb.RetryNodeRequest => PbRetryNodeRequest
  | pb.DeleteExecutionRequest => PbDeleteExecutionRequest
  | pb.DeleteExecutionResponse => ()
  | pb.TransitionNodeRequest => PbTransitionNodeRequest Struct
  | pb.NodeExecutionDTO => PbNodeExecutionDTO Struct
  | pb.ExecutionDTO => PbExecutionDTO Struct
  | pb.NodeExecutionListDTO => list (PbNodeExecutionDTO Struct)
  | pb.ExecutionListDTO => list (PbExecutionDTO Struct)
  | pb.WorkerHeartbeatRequest => PbWorkerHeartbeatRequest
  | pb.WorkerHeartbeatResponse => bool
  | pb.ClaimStaleJobRequest => PbClaimStaleJobRequest
  | pb.ClaimStaleJobResponse => bool
  end.

(** [pb.ExecutionDTO()]. *)
Definition empty_execution {Struct : Type} : message Struct pb.ExecutionDTO :=
  mkPbExecution "" "" "" "" None None [].
