(* ===== verification/Rpc.v ===== *)
(** * The generated gRPC code

    src/backend/app/transport/eventflow/execution_engine_pb2_grpc.py and
    worker_control_pb2_grpc.py: the stubs a client calls, the base classes of the servicers,
    the functions that register a servicer with a server, the calls without a stub, and the
    check of the installed version each module makes.

    grpcio itself is the interface [Grpc]: the wire's bytes, the serialization of each class
    and what a call of a method of a server answers. [GrpcLaws] is what grpcio documents: a
    message survives the wire; a call reaches the handler registered for its path, the
    first one added; a path nobody has registered answers UNIMPLEMENTED; and a handler that
    raises, or sets a code, answers its code, UNKNOWN when it set none. *)

From S2P Require Import Prelude Json Errors Monad Messages.

(** ** Handlers and servers *)

Section handlers.
Context (W : Type) (message : pb.MessageType → Type).

(** A method of a servicer runs with a context, of which the code matters. *)
Definition InContext (A : Type) : Type := SE (W * option string) A.

Record RpcMethodHandler : Type := mkHandler {
  mh_request : pb.MessageType;
  mh_response : pb.MessageType;
  mh_behavior : message mh_request → InContext (message mh_response)
}.

(** [grpc.aio.server()]: the handlers by path, in the order they were added. *)
Record Server : Type := mkServer {
  srv_generic : list (string * RpcMethodHandler);
  srv_registered : list (string * RpcMethodHandler)
}.

End handlers.

Arguments mkHandler {W message} _ _ _.
Arguments mh_request {W message} _.
Arguments mh_response {W message} _.
Arguments mh_behavior {W message} _ _.
Arguments mkServer {W message} _ _.
Arguments srv_generic {W message} _.
Arguments srv_registered {W message} _.

Section contexts.
Context {W : Type}.

(** [context.set_code(code)]. *)
Definition set_code (code : string) : InContext W () := fun s => (Ok (), (s.1, Some code)).

(** What the caller of a method sees of it. *)
Definition reply {A} (m : InContext W A) : SE W A := fun w =>
  match m (w, None) with
  | (Ok a, (w', None)) => (Ok a, w')
  | (Ok _, (w', Some code)) => (Err (ERpcError code), w')
  | (Err _, (w', code)) => (Err (ERpcError (default "UNKNOWN" code)), w')
  end.

(** A method of a base class: [set_code(UNIMPLEMENTED)], then [NotImplementedError]. *)
Definition unimplemented {A} : InContext W A :=
  set_code "UNIMPLEMENTED" ≫= fun _ => raise ENotImplementedError.

End contexts.

Section servers.
Context {W : Type} {message : pb.MessageType → Type}.

Definition empty_server : Server W message := mkServer [] [].

Definition method_path (service method : string) : string := "/" +:+ service +:+ "/" +:+ method.

Definition paths (service : string) (handlers : list (string * RpcMethodHandler W message)) :
    list (string * RpcMethodHandler W message) :=
  (fun p => (method_path service p.1, p.2)) <$> handlers.

(** [method_handlers_generic_handler] and [add_generic_rpc_handlers]. *)
Definition add_generic_rpc_handlers (service : string) (handlers : list (string * RpcMethodHandler W message))
    (s : Server W message) : Server W message :=
  mkServer (srv_generic s ++ paths service handlers) (srv_registered s).

Definition add_registered_method_handlers (service : string)
    (handlers : list (string * RpcMethodHandler W message)) (s : Server W message) : Server W message :=
  mkServer (srv_generic s) (srv_registered s ++ paths service handlers).

(** The handler a path is looked up to. *)
Definition handler_of (s : Server W message) (path : string) : option (RpcMethodHandler W message) :=
  snd <$> find (fun p => String.eqb p.1 path) (srv_registered s ++ srv_generic s).

End servers.

(** ** grpcio *)

(** The arguments of a call without a stub, past its request and target. *)
Record CallOptions (Credentials : Type) : Type := mkOptions {
  co_options : list (string * string);
  co_channel_credentials : option Credentials;
  co_call_credentials : option Credentials;
  co_insecure : bool;
  co_compression : option Z;
  co_wait_for_ready : option bool;
  co_timeout : option Z;
  co_metadata : option (list (string * string))
}.

Arguments mkOptions {Credentials} _ _ _ _ _ _ _ _.

(** A call with [insecure=True] and the other arguments left out. *)
Definition insecure_call {Credentials : Type} : CallOptions Credentials :=
  mkOptions [] None None true None None None None.

Class Grpc (W : Type) (message : pb.MessageType → Type) : Type := {
  wire : Type;
  SerializeToString : ∀ t, message t → wire;
  FromString : ∀ t, wire → option (message t);
  rpc : Server W message → string → wire → SE W wire;
  Credentials : Type;
  experimental_rpc : Server W message → string → CallOptions Credentials → wire → SE W wire
}.

Definition in_wire {W A B} (f : A → B) (m : SE W A) : SE W B := fun w =>
  match m w with (Ok a, w') => (Ok (f a), w') | (Err e, w') => (Err e, w') end.

Class GrpcLaws (W : Type) (message : pb.MessageType → Type) `{Grpc W message} : Prop := {
  FromString_SerializeToString t (m : message t) : FromString t (SerializeToString t m) = Some m;
  rpc_handled server path h m w :
    handler_of server path = Some h →
    rpc server path (SerializeToString (mh_request h) m) w =
      in_wire (SerializeToString (mh_response h)) (reply (mh_behavior h m)) w;
  rpc_unhandled server path bytes w :
    handler_of server path = None → rpc server path bytes w = (Err (ERpcError "UNIMPLEMENTED"), w);
  experimental_insecure server path bytes w :
    experimental_rpc server path insecure_call bytes w = rpc server path bytes w
}.

Section calls.
Context {W : Type} {message : pb.MessageType → Type} `{Grpc W message}.

(** Bytes the class cannot parse. *)
Definition deserialized (t : pb.MessageType) (m : SE W wire) : SE W (message t) :=
  m ≫= fun bytes => match FromString t bytes with Some r => mret r | None => raise (ERpcError "INTERNAL") end.

(** [channel.unary_unary(path, request_serializer, response_deserializer)]. *)
Definition unary_unary (channel : Server W message) (path : string) (request response : pb.MessageType) :
    message request → SE W (message response) :=
  fun m => deserialized response (rpc channel path (SerializeToString request m)).

(** [grpc.experimental.unary_unary(request, target, path, ...)]. *)
Definition experimental_unary_unary (target : Server W message) (path : string)
    (request response : pb.MessageType) (options : CallOptions Credentials) :
    message request → SE W (message response) :=
  fun m => deserialized response (experimental_rpc target path options (SerializeToString request m)).

End calls.

(** ** The check of the version, at the import of each module *)

Definition GRPC_GENERATED_VERSION : string := "1.82.1".

(** [first_version_is_lower] is [None] where the installed package has no such function. *)
Definition check_grpc_version (installed : string) (first_version_is_lower : option (string → string → bool)) :
    res exc () :=
  let _version_not_supported :=
    match first_version_is_lower with
    | Some lower => lower installed GRPC_GENERATED_VERSION
    | None => true
    end in
  if _version_not_supported then Err ERuntimeError else Ok ().

Definition check_worker_grpc_version (installed : string) (first_version_is_lower : option (string → string → bool)) :
    res exc () :=
  let _version_not_supported :=
    match first_version_is_lower with
    | Some lower => lower installed GRPC_GENERATED_VERSION
    | None => true
    end in
  if _version_not_supported then Err ERuntimeError else Ok ().

(** ** The service of the engine (execution_engine_pb2_grpc.py) *)

Section engine_service.
Context (W : Type) (message : pb.MessageType → Type).

Record ExecutionEngineServiceStubs : Type := mkExecutionEngineServiceStubs {
  stub_StartExecution : message pb.StartExecutionRequest → SE W (message pb.ExecutionDTO);
  stub_GetExecution : message pb.GetExecutionRequest → SE W (message pb.ExecutionDTO);
  stub_GetNodeExecutions : message pb.GetNodeExecutionsRequest → SE W (message pb.NodeExecutionListDTO);
  stub_ListExecutions : message pb.ListExecutionsRequest → SE W (message pb.ExecutionListDTO);
  stub_TransitionNode : message pb.TransitionNodeRequest → SE W (message pb.NodeExecutionDTO);
  stub_RetryNode : message pb.RetryNodeRequest → SE W (message pb.NodeExecutionDTO);
  stub_DeleteExecution : message pb.DeleteExecutionRequest → SE W (message pb.DeleteExecutionResponse)
}.

Record ExecutionEngineServiceServicer : Type := mkExecutionEngineServiceServicer {
  servicer_StartExecution : message pb.StartExecutionRequest → InContext W (message pb.ExecutionDTO);
  servicer_GetExecution : message pb.GetExecutionRequest → InContext W (message pb.ExecutionDTO);
  servicer_GetNodeExecutions : message pb.GetNodeExecutionsRequest → InContext W (message pb.NodeExecutionListDTO);
  servicer_ListExecutions : message pb.ListExecutionsRequest → InContext W (message pb.ExecutionListDTO);
  servicer_TransitionNode : message pb.TransitionNodeRequest → InContext W (message pb.NodeExecutionDTO);
  servicer_RetryNode : message pb.RetryNodeRequest → InContext W (message pb.NodeExecutionDTO);
  servicer_DeleteExecution : message pb.DeleteExecutionRequest → InContext W (message pb.DeleteExecutionResponse)
}.

End engine_service.

Arguments mkExecutionEngineServiceStubs {W message} _ _ _ _ _ _ _.
Arguments mkExecutionEngineServiceServicer {W message} _ _ _ _ _ _ _.
Arguments stub_StartExecution {W message} _ _.
Arguments servicer_StartExecution {W message} _ _.
Arguments stub_GetExecution {W message} _ _.
Arguments servicer_GetExecution {W message} _ _.
Arguments stub_GetNodeExecutions {W message} _ _.
Arguments servicer_GetNodeExecutions {W message} _ _.
Arguments stub_ListExecutions {W message} _ _.
Arguments servicer_ListExecutions {W message} _ _.
Arguments stub_TransitionNode {W message} _ _.
Arguments servicer_TransitionNode {W message} _ _.
Arguments stub_RetryNode {W message} _ _.
Arguments servicer_RetryNode {W message} _ _.
Arguments stub_DeleteExecution {W message} _ _.
Arguments servicer_DeleteExecution {W message} _ _.

Section engine_code.
Context {W : Type} {message : pb.MessageType → Type} `{Grpc W message}.

Definition ExecutionEngineServiceStub (channel : Server W message) : ExecutionEngineServiceStubs W message :=
  mkExecutionEngineServiceStubs
    (unary_unary channel "/eventflow.ExecutionEngineService/StartExecution" pb.StartExecutionRequest pb.ExecutionDTO)
    (unary_unary channel "/eventflow.ExecutionEngineService/GetExecution" pb.GetExecutionRequest pb.ExecutionDTO)
    (unary_unary channel "/eventflow.ExecutionEngineService/GetNodeExecutions" pb.GetNodeExecutionsRequest
      pb.NodeExecutionListDTO)
    (unary_unary channel "/eventflow.ExecutionEngineService/ListExecutions" pb.ListExecutionsRequest
      pb.ExecutionListDTO)
    (unary_unary channel "/eventflow.ExecutionEngineService/TransitionNode" pb.TransitionNodeRequest
      pb.NodeExecutionDTO)
    (unary_unary channel "/eventflow.ExecutionEngineService/RetryNode" pb.RetryNodeRequest pb.NodeExecutionDTO)
    (unary_unary channel "/eventflow.ExecutionEngineService/DeleteExecution" pb.DeleteExecutionRequest
      pb.DeleteExecutionResponse).

(** The methods of the base class. *)
Definition engine_StartExecution : message pb.StartExecutionRequest → InContext W (message pb.ExecutionDTO) :=
  fun _ => unimplemented.
Definition engine_GetExecution : message pb.GetExecutionRequest → InContext W (message pb.ExecutionDTO) := fun _ =>
  unimplemented.
Definition engine_GetNodeExecutions : message pb.GetNodeExecutionsRequest → InContext W (message
  pb.NodeExecutionListDTO) := fun _ => unimplemented.
Definition engine_ListExecutions : message pb.ListExecutionsRequest → InContext W (message pb.ExecutionListDTO) :=
  fun _ => unimplemented.
Definition engine_TransitionNode : message pb.TransitionNodeRequest → InContext W (message pb.NodeExecutionDTO) :=
  fun _ => unimplemented.
Definition engine_RetryNode : message pb.RetryNodeRequest → InContext W (message pb.NodeExecutionDTO) := fun _ =>
  unimplemented.
Definition engine_DeleteExecution : message pb.DeleteExecutionRequest → InContext W (message
  pb.DeleteExecutionResponse) := fun _ => unimplemented.

Definition engine_base_servicer : ExecutionEngineServiceServicer W message :=
  mkExecutionEngineServiceServicer engine_StartExecution engine_GetExecution engine_GetNodeExecutions
    engine_ListExecutions engine_TransitionNode engine_RetryNode engine_DeleteExecution.

Definition engine_rpc_method_handlers (servicer : ExecutionEngineServiceServicer W message) :
    list (string * RpcMethodHandler W message) :=
  [("StartExecution", mkHandler pb.StartExecutionRequest pb.ExecutionDTO (servicer_StartExecution servicer));
   ("GetExecution", mkHandler pb.GetExecutionRequest pb.ExecutionDTO (servicer_GetExecution servicer));
   ("GetNodeExecutions", mkHandler pb.GetNodeExecutionsRequest pb.NodeExecutionListDTO (servicer_GetNodeExecutions
     servicer));
   ("ListExecutions", mkHandler pb.ListExecutionsRequest pb.ExecutionListDTO (servicer_ListExecutions servicer));
   ("TransitionNode", mkHandler pb.TransitionNodeRequest pb.NodeExecutionDTO (servicer_TransitionNode servicer));
   ("RetryNode", mkHandler pb.RetryNodeRequest pb.NodeExecutionDTO (servicer_RetryNode servicer));
   ("DeleteExecution", mkHandler pb.DeleteExecutionRequest pb.DeleteExecutionResponse (servicer_DeleteExecution
     servicer))].

Definition add_ExecutionEngineServiceServicer_to_server (servicer : ExecutionEngineServiceServicer W message)
    (server : Server W message) : Server W message :=
  add_registered_method_handlers "eventflow.ExecutionEngineService" (engine_rpc_method_handlers servicer)
    (add_generic_rpc_handlers "eventflow.ExecutionEngineService" (engine_rpc_method_handlers servicer) server).

(** The static methods of [ExecutionEngineService]. *)
Definition call_StartExecution (target : Server W message) (options : CallOptions Credentials) :
    message pb.StartExecutionRequest → SE W (message pb.ExecutionDTO) :=
  experimental_unary_unary target "/eventflow.ExecutionEngineService/StartExecution" pb.StartExecutionRequest
    pb.ExecutionDTO options.
Definition call_GetExecution (target : Server W message) (options : CallOptions Credentials) :
    message pb.GetExecutionRequest → SE W (message pb.ExecutionDTO) :=
  experimental_unary_unary target "/eventflow.ExecutionEngineService/GetExecution" pb.GetExecutionRequest
    pb.ExecutionDTO options.
Definition call_GetNodeExecutions (target : Server W message) (options : CallOptions Credentials) :
    message pb.GetNodeExecutionsRequest → SE W (message pb.NodeExecutionListDTO) :=
  experimental_unary_unary target "/eventflow.ExecutionEngineService/GetNodeExecutions" pb.GetNodeExecutionsRequest
    pb.NodeExecutionListDTO options.
Definition call_ListExecutions (target : Server W message) (options : CallOptions Credentials) :
    message pb.ListExecutionsRequest → SE W (message pb.ExecutionListDTO) :=
  experimental_unary_unary target "/eventflow.ExecutionEngineService/ListExecutions" pb.ListExecutionsRequest
    pb.ExecutionListDTO options.
Definition call_TransitionNode (target : Server W message) (options : CallOptions Credentials) :
    message pb.TransitionNodeRequest → SE W (message pb.NodeExecutionDTO) :=
  experimental_unary_unary target "/eventflow.ExecutionEngineService/TransitionNode" pb.TransitionNodeRequest
    pb.NodeExecutionDTO options.
Definition call_RetryNode (target : Server W message) (options : CallOptions Credentials) :
    message pb.RetryNodeRequest → SE W (message pb.NodeExecutionDTO) :=
  experimental_unary_unary target "/eventflow.ExecutionEngineService/RetryNode" pb.RetryNodeRequest
    pb.NodeExecutionDTO options.
Definition call_DeleteExecution (target : Server W message) (options : CallOptions Credentials) :
    message pb.DeleteExecutionRequest → SE W (message pb.DeleteExecutionResponse) :=
  experimental_unary_unary target "/eventflow.ExecutionEngineService/DeleteExecution" pb.DeleteExecutionRequest
    pb.DeleteExecutionResponse options.

End engine_code.

(** ** The service of the workers (worker_control_pb2_grpc.py) *)

Section control_service.
Context (W : Type) (message : pb.MessageType → Type).

Record WorkerControlServiceStubs : Type := mkWorkerControlServiceStubs {
  stub_ReportHeartbeat : message pb.WorkerHeartbeatRequest → SE W (message pb.WorkerHeartbeatResponse);
  stub_ClaimStaleJob : message pb.ClaimStaleJobRequest → SE W (message pb.ClaimStaleJobResponse)
}.

Record WorkerControlServiceServicer : Type := mkWorkerControlServiceServicer {
  servicer_ReportHeartbeat : message pb.WorkerHeartbeatRequest → InContext W (message pb.WorkerHeartbeatResponse);
  servicer_ClaimStaleJob : message pb.ClaimStaleJobRequest → InContext W (message pb.ClaimStaleJobResponse)
}.

End control_service.

Arguments mkWorkerControlServiceStubs {W message} _ _.
Arguments mkWorkerControlServiceServicer {W message} _ _.
Arguments stub_ReportHeartbeat {W message} _ _.
Arguments servicer_ReportHeartbeat {W message} _ _.
Arguments stub_ClaimStaleJob {W message} _ _.
Arguments servicer_ClaimStaleJob {W message} _ _.

Section control_code.
Context {W : Type} {message : pb.MessageType → Type} `{Grpc W message}.

Definition WorkerControlServiceStub (channel : Server W message) : WorkerControlServiceStubs W message :=
  mkWorkerControlServiceStubs
    (unary_unary channel "/eventflow.WorkerControlService/ReportHeartbeat" pb.WorkerHeartbeatRequest
      pb.WorkerHeartbeatResponse)
    (unary_unary channel "/eventflow.WorkerControlService/ClaimStaleJob" pb.ClaimStaleJobRequest
      pb.ClaimStaleJobResponse).

(** The methods of the base class. *)
Definition control_ReportHeartbeat : message pb.WorkerHeartbeatRequest → InContext W (message
  pb.WorkerHeartbeatResponse) := fun _ => unimplemented.
Definition control_ClaimStaleJob : message pb.ClaimStaleJobRequest → InContext W (message pb.ClaimStaleJobResponse)
  := fun _ => unimplemented.

Definition control_base_servicer : WorkerControlServiceServicer W message :=
  mkWorkerControlServiceServicer control_ReportHeartbeat control_ClaimStaleJob.

Definition control_rpc_method_handlers (servicer : WorkerControlServiceServicer W message) :
    list (string * RpcMethodHandler W message) :=
  [("ReportHeartbeat", mkHandler pb.WorkerHeartbeatRequest pb.WorkerHeartbeatResponse (servicer_ReportHeartbeat
    servicer));
   ("ClaimStaleJob", mkHandler pb.ClaimStaleJobRequest pb.ClaimStaleJobResponse (servicer_ClaimStaleJob servicer))].

Definition add_WorkerControlServiceServicer_to_server (servicer : WorkerControlServiceServicer W message)
    (server : Server W message) : Server W message :=
  add_registered_method_handlers "eventflow.WorkerControlService" (control_rpc_method_handlers servicer)
    (add_generic_rpc_handlers "eventflow.WorkerControlService" (control_rpc_method_handlers servicer) server).

(** The static methods of [WorkerControlService]. *)
Definition call_ReportHeartbeat (target : Server W message) (options : CallOptions Credentials) :
    message pb.WorkerHeartbeatRequest → SE W (message pb.WorkerHeartbeatResponse) :=
  experimental_unary_unary target "/eventflow.WorkerControlService/ReportHeartbeat" pb.WorkerHeartbeatRequest
    pb.WorkerHeartbeatResponse options.
Definition call_ClaimStaleJob (target : Server W message) (options : CallOptions Credentials) :
    message pb.ClaimStaleJobRequest → SE W (message pb.ClaimStaleJobResponse) :=
  experimental_unary_unary target "/eventflow.WorkerControlService/ClaimStaleJob" pb.ClaimStaleJobRequest
    pb.ClaimStaleJobResponse options.

End control_code.

(** ** Dispatch *)

Section dispatch.
Context {W : Type} {message : pb.MessageType → Type} `{GrpcLaws W message}.
Implicit Types server : Server W message.

Lemma deserialized_reply t (m : SE W (message t)) (r : SE W wire) w :
  r w = in_wire (SerializeToString t) m w → deserialized t r w = m w.
Proof.
  intros Hr. unfold deserialized. rewrite run_bind, Hr. unfold in_wire.
  destruct (m w) as [[a|e] w']; [by rewrite FromString_SerializeToString|done].
Qed.

(** A stub's method runs the handler of its path, if the classes agree. *)
Lemma unary_unary_handled server path request response f m w :
  handler_of server path = Some (mkHandler request response f) →
  unary_unary server path request response m w = reply (f m) w.
Proof. intros Hh. apply deserialized_reply. exact (rpc_handled _ _ (mkHandler request response f) m w Hh). Qed.

Lemma unary_unary_unhandled server path request response m w :
  handler_of server path = None →
  unary_unary server path request response m w = (Err (ERpcError "UNIMPLEMENTED"), w).
Proof.
  intros Hh. unfold unary_unary, deserialized. rewrite run_bind. by rewrite rpc_unhandled by done.
Qed.

Lemma experimental_unary_unary_insecure server path request response m w :
  experimental_unary_unary server path request response insecure_call m w =
  unary_unary server path request response m w.
Proof.
  unfold experimental_unary_unary, unary_unary, deserialized. rewrite !run_bind.
  by rewrite experimental_insecure.
Qed.

(** Every method of a client answers as the method of its name answers. *)
Record engine_served (stub : ExecutionEngineServiceStubs W message)
    (servicer : ExecutionEngineServiceServicer W message) : Prop := {
  es_StartExecution m w : stub_StartExecution stub m w = reply (servicer_StartExecution servicer m) w;
  es_GetExecution m w : stub_GetExecution stub m w = reply (servicer_GetExecution servicer m) w;
  es_GetNodeExecutions m w : stub_GetNodeExecutions stub m w = reply (servicer_GetNodeExecutions servicer m) w;
  es_ListExecutions m w : stub_ListExecutions stub m w = reply (servicer_ListExecutions servicer m) w;
  es_TransitionNode m w : stub_TransitionNode stub m w = reply (servicer_TransitionNode servicer m) w;
  es_RetryNode m w : stub_RetryNode stub m w = reply (servicer_RetryNode servicer m) w;
  es_DeleteExecution m w : stub_DeleteExecution stub m w = reply (servicer_DeleteExecution servicer m) w
}.

Record control_served (stub : WorkerControlServiceStubs W message)
    (servicer : WorkerControlServiceServicer W message) : Prop := {
  cs_ReportHeartbeat m w : stub_ReportHeartbeat stub m w = reply (servicer_ReportHeartbeat servicer m) w;
  cs_ClaimStaleJob m w : stub_ClaimStaleJob stub m w = reply (servicer_ClaimStaleJob servicer m) w
}.

(** The static methods, called on a target without encryption. *)
Definition ExecutionEngineService (target : Server W message) : ExecutionEngineServiceStubs W message :=
  mkExecutionEngineServiceStubs
    (call_StartExecution target insecure_call)
    (call_GetExecution target insecure_call)
    (call_GetNodeExecutions target insecure_call)
    (call_ListExecutions target insecure_call)
    (call_TransitionNode target insecure_call)
    (call_RetryNode target insecure_call)
    (call_DeleteExecution target insecure_call).

Definition WorkerControlService (target : Server W message) : WorkerControlServiceStubs W message :=
  mkWorkerControlServiceStubs
    (call_ReportHeartbeat target insecure_call)
    (call_ClaimStaleJob target insecure_call).

(** With a stub or without one, on a registered path or not. *)
Ltac dispatch :=
  intros; try (etrans; [apply experimental_unary_unary_insecure|]);
  first [apply unary_unary_handled; reflexivity|etrans; [apply unary_unary_unhandled; reflexivity|reflexivity]].

Lemma engine_stub_served servicer :
  engine_served (ExecutionEngineServiceStub (add_ExecutionEngineServiceServicer_to_server servicer empty_server))
    servicer.
Proof. split; dispatch. Qed.

(** The generated clients and servers fit: on a server a servicer was added to, every
    method of the stub and every static method reaches the servicer's method of its name,
    through the serialization of the same classes, and answers its message or its code; the
    two services can share a server. A service that was not added, the workers' one in this
    program, answers UNIMPLEMENTED with nothing done, as its base class would. *)
Theorem generated_calls_dispatch (servicer : ExecutionEngineServiceServicer W message)
    (worker : WorkerControlServiceServicer W message) :
  let engine := add_ExecutionEngineServiceServicer_to_server servicer empty_server in
  let both := add_WorkerControlServiceServicer_to_server worker engine in
  (∀ stub, stub ∈ [ExecutionEngineServiceStub engine; ExecutionEngineService engine;
                   ExecutionEngineServiceStub both; ExecutionEngineService both] → engine_served stub servicer) ∧
  (∀ stub, stub ∈ [WorkerControlServiceStub both; WorkerControlService both] → control_served stub worker) ∧
  (∀ stub, stub ∈ [WorkerControlServiceStub engine; WorkerControlService engine] →
     control_served stub control_base_servicer) ∧
  (∀ stub, stub ∈ [ExecutionEngineServiceStub empty_server; ExecutionEngineService empty_server] →
     engine_served stub engine_base_servicer).
Proof.
  cbv zeta. split_and!; intros stub; rewrite !elem_of_cons, elem_of_nil; intros Hs;
    destruct_or? Hs; try done; subst stub; split; dispatch.
Qed.

End dispatch.

(** ** A wire that carries its messages *)

Section typed.
Context {W : Type} {message : pb.MessageType → Type}.

Definition typed_from (t : pb.MessageType) (b : sigT message) : option (message t) :=
  match decide (projT1 b = t) with
  | left e => Some (eq_rect _ message (projT2 b) _ e)
  | right _ => None
  end.

Definition typed_rpc (server : Server W message) (path : string) (b : sigT message) : SE W (sigT message) :=
  match handler_of server path with
  | None => raise (ERpcError "UNIMPLEMENTED")
  | Some h =>
      match typed_from (mh_request h) b with
      | Some m => in_wire (existT (mh_response h)) (reply (mh_behavior h m))
      | None => raise (ERpcError "INTERNAL")
      end
  end.

Definition typed_grpc : Grpc W message := {|
  wire := sigT message;
  SerializeToString := existT;
  FromString := typed_from;
  rpc := typed_rpc;
  Credentials := ();
  experimental_rpc server path options b :=
    if co_insecure _ options then typed_rpc server path b else raise (ERpcError "UNAVAILABLE")
|}.

Lemma typed_from_existT t (m : message t) : typed_from t (existT t m) = Some m.
Proof. unfold typed_from. simpl. by rewrite (decide_True_pi eq_refl). Qed.

Lemma typed_grpc_laws : @GrpcLaws W message typed_grpc.
Proof.
  split; simpl.
  - apply typed_from_existT.
  - intros server path h m w Hh. unfold typed_rpc. by rewrite Hh, typed_from_existT.
  - intros server path b w Hh. unfold typed_rpc. by rewrite Hh.
  - done.
Qed.

End typed.

(** The engine's servicer finds nothing; the workers' service is not registered. *)
Definition demo_servicer : ExecutionEngineServiceServicer () (message ()) :=
  mkExecutionEngineServiceServicer engine_StartExecution
    (fun _ => set_code "NOT_FOUND" ≫= fun _ => mret empty_execution)
    engine_GetNodeExecutions engine_ListExecutions engine_TransitionNode engine_RetryNode
    (fun _ => mret ()).

Definition demo_server : Server () (message ()) :=
  add_ExecutionEngineServiceServicer_to_server demo_servicer empty_server.

Lemma generated_calls_dispatch_witness :
  stub_GetExecution (@ExecutionEngineServiceStub _ _ typed_grpc demo_server) (mkPbGet "e" "o") () =
    (Err (ERpcError "NOT_FOUND"), ()) ∧
  stub_DeleteExecution (@ExecutionEngineServiceStub _ _ typed_grpc demo_server) (mkPbDelete "e" "o") () = (Ok (),
    ()) ∧
  stub_ReportHeartbeat (@WorkerControlServiceStub _ _ typed_grpc demo_server) (mkPbHeartbeat "w" "IDLE" None) () =
    (Err (ERpcError "UNIMPLEMENTED"), ()).
Proof.
  destruct (@generated_calls_dispatch _ _ typed_grpc typed_grpc_laws demo_servicer control_base_servicer)
    as (He & _ & Hc & _).
  specialize (He _ (list_elem_of_here _ _)). specialize (Hc _ (list_elem_of_here _ _)).
  split_and!; [apply (es_GetExecution _ _ He)|apply (es_DeleteExecution _ _ He)|apply (cs_ReportHeartbeat _ _ Hc)].
Defined.
