(* ===== verification/Descriptors.v ===== *)
(** * The descriptors of the messages

    src/backend/app/transport/eventflow/execution_engine_pb2.py and worker_control_pb2.py
    register their classes from the bytes of a serialized file descriptor, and record where
    in the bytes each class is. The bytes are the modules' own literals; the files they
    were generated from, src/proto/eventflow/execution_engine.proto and worker_control.proto,
    are transcribed declaration by declaration, and [encode_file] is protobuf's documented
    encoding of the descriptor of a file. The theorem is a translation validation of the two
    generated modules, of the records of [Messages] and of the handlers of [Rpc]. *)

From Stdlib Require Import Ascii String.
From S2P Require Import Prelude Errors Monad Messages Rpc.

(** ** The language of the .proto files *)

Inductive ProtoType : Type :=
| TString
| TInt32
| TBool
| TStruct
| TMessage (t : pb.MessageType).

Inductive Label : Type := Singular | Optional | Repeated.

Record ProtoField : Type := field {
  fd_label : Label;
  fd_type : ProtoType;
  fd_name : string;
  fd_number : N
}.

Record ProtoFile : Type := mkProtoFile {
  pf_name : string;
  pf_package : string;
  pf_imports : list string;
  pf_service : string;
  pf_rpcs : list (string * (pb.MessageType * pb.MessageType));
  pf_messages : list (pb.MessageType * list ProtoField)
}.

Definition message_name (t : pb.MessageType) : string :=
  match t with
  | pb.StartExecutionRequest => "StartExecutionRequest"
  | pb.GetExecutionRequest => "GetExecutionRequest"
  | pb.ListExecutionsRequest => "ListExecutionsRequest"
  | pb.GetNodeExecutionsRequest => "GetNodeExecutionsRequest"
  | pb.RetryNodeRequest => "RetryNodeRequest"
  | pb.DeleteExecutionRequest => "DeleteExecutionRequest"
  | pb.DeleteExecutionResponse => "DeleteExecutionResponse"
  | pb.TransitionNodeRequest => "TransitionNodeRequest"
  | pb.NodeExecutionDTO => "NodeExecutionDTO"
  | pb.ExecutionDTO => "ExecutionDTO"
  | pb.NodeExecutionListDTO => "NodeExecutionListDTO"
  | pb.ExecutionListDTO => "ExecutionListDTO"
  | pb.WorkerHeartbeatRequest => "WorkerHeartbeatRequest"
  | pb.WorkerHeartbeatResponse => "WorkerHeartbeatResponse"
  | pb.ClaimStaleJobRequest => "ClaimStaleJobRequest"
  | pb.ClaimStaleJobResponse => "ClaimStaleJobResponse"
  end.

(** ** The two files *)

Definition execution_engine_proto : ProtoFile := {|
  pf_name := "eventflow/execution_engine.proto";
  pf_package := "eventflow";
  pf_imports := ["google/protobuf/struct.proto"];
  pf_service := "ExecutionEngineService";
  pf_rpcs :=
    [("StartExecution", (pb.StartExecutionRequest, pb.ExecutionDTO));
     ("GetExecution", (pb.GetExecutionRequest, pb.ExecutionDTO));
     ("GetNodeExecutions", (pb.GetNodeExecutionsRequest, pb.NodeExecutionListDTO));
     ("ListExecutions", (pb.ListExecutionsRequest, pb.ExecutionListDTO));
     ("TransitionNode", (pb.TransitionNodeRequest, pb.NodeExecutionDTO));
     ("RetryNode", (pb.RetryNodeRequest, pb.NodeExecutionDTO));
     ("DeleteExecution", (pb.DeleteExecutionRequest, pb.DeleteExecutionResponse))];
  pf_messages :=
    [(pb.StartExecutionRequest, [field Singular TString "workflow_version_id" 1;
       field Singular TStruct "input_payload" 2;
       field Singular TString "owner_api_key_id" 3]);
     (pb.GetExecutionRequest, [field Singular TString "execution_id" 1;
       field Singular TString "owner_api_key_id" 2]);
     (pb.ListExecutionsRequest, [field Singular TString "owner_api_key_id" 1;
       field Optional TString "status" 2;
       field Singular TInt32 "limit" 3;
       field Singular TInt32 "offset" 4]);
     (pb.GetNodeExecutionsRequest, [field Singular TString "execution_id" 1;
       field Singular TString "owner_api_key_id" 2]);
     (pb.RetryNodeRequest, [field Singular TString "execution_id" 1;
       field Singular TString "node_id" 2;
       field Singular TString "owner_api_key_id" 3]);
     (pb.DeleteExecutionRequest, [field Singular TString "execution_id" 1;
       field Singular TString "owner_api_key_id" 2]);
     (pb.DeleteExecutionResponse, []);
     (pb.TransitionNodeRequest, [field Singular TString "execution_id" 1;
       field Singular TString "node_execution_id" 2;
       field Singular TString "status" 3;
       field Singular TStruct "result" 4;
       field Optional TString "error" 5]);
     (pb.NodeExecutionDTO, [field Singular TString "id" 1;
       field Singular TString "execution_id" 2;
       field Singular TString "node_id" 3;
       field Singular TString "node_type" 4;
       field Singular TString "status" 5;
       field Singular TInt32 "attempt" 6;
       field Singular TInt32 "max_attempts" 7;
       field Singular TStruct "input_payload" 8;
       field Singular TStruct "output_payload" 9;
       field Optional TString "error_message" 10]);
     (pb.ExecutionDTO, [field Singular TString "id" 1;
       field Singular TString "workflow_id" 2;
       field Singular TString "workflow_version_id" 3;
       field Singular TString "status" 4;
       field Singular TStruct "input_payload" 5;
       field Optional TString "error_message" 6;
       field Repeated (TMessage pb.NodeExecutionDTO) "node_executions" 7]);
     (pb.NodeExecutionListDTO, [field Repeated (TMessage pb.NodeExecutionDTO) "node_executions" 1]);
     (pb.ExecutionListDTO, [field Repeated (TMessage pb.ExecutionDTO) "executions" 1])]
|}.

Definition worker_control_proto : ProtoFile := {|
  pf_name := "eventflow/worker_control.proto";
  pf_package := "eventflow";
  pf_imports := [];
  pf_service := "WorkerControlService";
  pf_rpcs :=
    [("ReportHeartbeat", (pb.WorkerHeartbeatRequest, pb.WorkerHeartbeatResponse));
     ("ClaimStaleJob", (pb.ClaimStaleJobRequest, pb.ClaimStaleJobResponse))];
  pf_messages :=
    [(pb.WorkerHeartbeatRequest, [field Singular TString "worker_id" 1;
       field Singular TString "status" 2;
       field Optional TString "current_job_id" 3]);
     (pb.WorkerHeartbeatResponse, [field Singular TBool "success" 1]);
     (pb.ClaimStaleJobRequest, [field Singular TString "worker_id" 1;
       field Singular TString "node_execution_id" 2]);
     (pb.ClaimStaleJobResponse, [field Singular TBool "claimed" 1])]
|}.

(** ** Protobuf's encoding *)

Definition bytes : Type := list N.

Definition bytes_of (s : string) : bytes := N_of_ascii <$> list_ascii_of_string s.

(** Ten groups of seven bits hold 64. *)
Fixpoint varint_groups (groups : nat) (n : N) : bytes :=
  match groups with
  | O => []
  | S groups => if (n <? 128)%N then [n] else (N.land n 127 + 128)%N :: varint_groups groups (N.shiftr n 7)
  end.
Definition varint (n : N) : bytes := varint_groups 10 n.

(** A number with wire type 0, and bytes with their length, wire type 2. *)
Definition number_field (k n : N) : bytes := varint (8 * k) ++ varint n.
Definition bytes_field (k : N) (b : bytes) : bytes := varint (8 * k + 2) ++ varint (N.of_nat (length b)) ++ b.
Definition string_field (k : N) (s : string) : bytes := bytes_field k (bytes_of s).

(** ** The descriptor of a file (google/protobuf/descriptor.proto) *)

Definition type_code (t : ProtoType) : N :=
  match t with TInt32 => 5 | TBool => 8 | TString => 9 | TStruct | TMessage _ => 11 end.
Definition type_name (package : string) (t : ProtoType) : option string :=
  match t with
  | TStruct => Some ".google.protobuf.Struct"
  | TMessage t => Some ("." +:+ package +:+ "." +:+ message_name t)
  | _ => None
  end.
Definition label_code (l : Label) : N := match l with Repeated => 3 | _ => 1 end.

(** An optional field is alone in a oneof of its own. *)
Definition encode_field (package : string) (oneof : N) (f : ProtoField) : bytes :=
  string_field 1 (fd_name f) ++ number_field 3 (fd_number f) ++ number_field 4 (label_code (fd_label f)) ++
  number_field 5 (type_code (fd_type f)) ++
  match type_name package (fd_type f) with Some n => string_field 6 n | None => [] end ++
  match fd_label f with Optional => number_field 9 oneof ++ number_field 17 1 | _ => [] end.

Fixpoint encode_fields (package : string) (oneof : N) (fs : list ProtoField) : bytes :=
  match fs with
  | [] => []
  | f :: fs =>
      bytes_field 2 (encode_field package oneof f) ++
      encode_fields package (match fd_label f with Optional => oneof + 1 | _ => oneof end) fs
  end.

Definition encode_oneof (f : ProtoField) : bytes :=
  match fd_label f with Optional => bytes_field 8 (string_field 1 ("_" +:+ fd_name f)) | _ => [] end.

Definition encode_message (package : string) (m : pb.MessageType * list ProtoField) : bytes :=
  string_field 1 (message_name m.1) ++ encode_fields package 0 m.2 ++ concat (encode_oneof <$> m.2).

Definition encode_rpc (package : string) (r : string * (pb.MessageType * pb.MessageType)) : bytes :=
  let qualified t := "." +:+ package +:+ "." +:+ message_name t in
  string_field 1 r.1 ++ string_field 2 (qualified r.2.1) ++ string_field 3 (qualified r.2.2).

Definition encode_service (f : ProtoFile) : bytes :=
  string_field 1 (pf_service f) ++ concat (bytes_field 2 <$> (encode_rpc (pf_package f) <$> pf_rpcs f)).

Definition encode_file (f : ProtoFile) : bytes :=
  string_field 1 (pf_name f) ++ string_field 2 (pf_package f) ++
  concat (string_field 3 <$> pf_imports f) ++
  concat (bytes_field 4 <$> (encode_message (pf_package f) <$> pf_messages f)) ++
  bytes_field 6 (encode_service f) ++ string_field 12 "proto3".

(** ** The modules' literals *)

Definition hex_digit (a : ascii) : N :=
  let n := N_of_ascii a in if (n <? 58)%N then n - 48 else n - 87.

(** A bytes literal of Python between single quotes; a double quote is written [\x22]. *)
Fixpoint python_bytes (s : string) : bytes :=
  match s with
  | String "\" (String "x" (String a (String b s))) => (16 * hex_digit a + hex_digit b)%N :: python_bytes s
  | String "\" (String "n" s) => 10%N :: python_bytes s
  | String "\" (String "t" s) => 9%N :: python_bytes s
  | String "\" (String "r" s) => 13%N :: python_bytes s
  | String "\" (String a s) => N_of_ascii a :: python_bytes s
  | String a s => N_of_ascii a :: python_bytes s
  | EmptyString => []
  end.

Definition execution_engine_DESCRIPTOR : bytes := python_bytes (
  "\n eventflow/execution_engine.proto\x12\teventflow\x1a\x1cgoogle/protobuf/struct.proto\x22~\n" +:+
  "\x15StartExecutionRequest\x12\x1b\n\x13workflow_version_id\x18\x01 \x01(\t\x12.\n\rinput_payload" +:+
  "\x18\x02 \x01(\x0b\x32\x17.google.protobuf.Struct\x12\x18\n\x10owner_api_key_id\x18\x03 \x01(\t" +:+
  "\x22E\n\x13GetExecutionRequest\x12\x14\n\x0c\x65xecution_id\x18\x01 \x01(\t\x12\x18\n\x10owner_a" +:+
  "pi_key_id\x18\x02 \x01(\t\x22p\n\x15ListExecutionsRequest\x12\x18\n\x10owner_api_key_id\x18\x01 " +:+
  "\x01(\t\x12\x13\n\x06status\x18\x02 \x01(\tH\x00\x88\x01\x01\x12\r\n\x05limit\x18\x03 \x01(\x05" +:+
  "\x12\x0e\n\x06offset\x18\x04 \x01(\x05\x42\t\n\x07_status\x22J\n\x18GetNodeExecutionsRequest\x12" +:+
  "\x14\n\x0c\x65xecution_id\x18\x01 \x01(\t\x12\x18\n\x10owner_api_key_id\x18\x02 \x01(\t\x22S\n" +:+
  "\x10RetryNodeRequest\x12\x14\n\x0c\x65xecution_id\x18\x01 \x01(\t\x12\x0f\n\x07node_id\x18\x02 " +:+
  "\x01(\t\x12\x18\n\x10owner_api_key_id\x18\x03 \x01(\t\x22H\n\x16\x44\x65leteExecutionRequest\x12" +:+
  "\x14\n\x0c\x65xecution_id\x18\x01 \x01(\t\x12\x18\n\x10owner_api_key_id\x18\x02 \x01(\t\x22\x19" +:+
  "\n\x17\x44\x65leteExecutionResponse\x22\x9f\x01\n\x15TransitionNodeRequest\x12\x14\n\x0c\x65xecu" +:+
  "tion_id\x18\x01 \x01(\t\x12\x19\n\x11node_execution_id\x18\x02 \x01(\t\x12\x0e\n\x06status\x18" +:+
  "\x03 \x01(\t\x12\'\n\x06result\x18\x04 \x01(\x0b\x32\x17.google.protobuf.Struct\x12\x12\n\x05" +:+
  "\x65rror\x18\x05 \x01(\tH\x00\x88\x01\x01\x42\x08\n\x06_error\x22\x9e\x02\n\x10NodeExecutionDTO" +:+
  "\x12\n\n\x02id\x18\x01 \x01(\t\x12\x14\n\x0c\x65xecution_id\x18\x02 \x01(\t\x12\x0f\n\x07node_id" +:+
  "\x18\x03 \x01(\t\x12\x11\n\tnode_type\x18\x04 \x01(\t\x12\x0e\n\x06status\x18\x05 \x01(\t\x12" +:+
  "\x0f\n\x07\x61ttempt\x18\x06 \x01(\x05\x12\x14\n\x0cmax_attempts\x18\x07 \x01(\x05\x12.\n\rinput" +:+
  "_payload\x18\x08 \x01(\x0b\x32\x17.google.protobuf.Struct\x12/\n\x0eoutput_payload\x18\t \x01(" +:+
  "\x0b\x32\x17.google.protobuf.Struct\x12\x1a\n\rerror_message\x18\n \x01(\tH\x00\x88\x01\x01\x42" +:+
  "\x10\n\x0e_error_message\x22\xf0\x01\n\x0c\x45xecutionDTO\x12\n\n\x02id\x18\x01 \x01(\t\x12\x13" +:+
  "\n\x0bworkflow_id\x18\x02 \x01(\t\x12\x1b\n\x13workflow_version_id\x18\x03 \x01(\t\x12\x0e\n\x06" +:+
  "status\x18\x04 \x01(\t\x12.\n\rinput_payload\x18\x05 \x01(\x0b\x32\x17.google.protobuf.Struct" +:+
  "\x12\x1a\n\rerror_message\x18\x06 \x01(\tH\x00\x88\x01\x01\x12\x34\n\x0fnode_executions\x18\x07 " +:+
  "\x03(\x0b\x32\x1b.eventflow.NodeExecutionDTOB\x10\n\x0e_error_message\x22L\n\x14NodeExecutionLis" +:+
  "tDTO\x12\x34\n\x0fnode_executions\x18\x01 \x03(\x0b\x32\x1b.eventflow.NodeExecutionDTO\x22?\n" +:+
  "\x10\x45xecutionListDTO\x12+\n\nexecutions\x18\x01 \x03(\x0b\x32\x17.eventflow.ExecutionDTO2\xcc" +:+
  "\x04\n\x16\x45xecutionEngineService\x12K\n\x0eStartExecution\x12 .eventflow.StartExecutionReques" +:+
  "t\x1a\x17.eventflow.ExecutionDTO\x12G\n\x0cGetExecution\x12\x1e.eventflow.GetExecutionRequest" +:+
  "\x1a\x17.eventflow.ExecutionDTO\x12Y\n\x11GetNodeExecutions\x12#.eventflow.GetNodeExecutionsRequ" +:+
  "est\x1a\x1f.eventflow.NodeExecutionListDTO\x12O\n\x0eListExecutions\x12 .eventflow.ListExecution" +:+
  "sRequest\x1a\x1b.eventflow.ExecutionListDTO\x12O\n\x0eTransitionNode\x12 .eventflow.TransitionNo" +:+
  "deRequest\x1a\x1b.eventflow.NodeExecutionDTO\x12\x45\n\tRetryNode\x12\x1b.eventflow.RetryNodeReq" +:+
  "uest\x1a\x1b.eventflow.NodeExecutionDTO\x12X\n\x0f\x44\x65leteExecution\x12!.eventflow.DeleteExe" +:+
  "cutionRequest\x1a\x22.eventflow.DeleteExecutionResponseb\x06proto3").

(** [_serialized_start] and [_serialized_end] of each class, and of the service. *)
Definition execution_engine_offsets : list (pb.MessageType * (nat * nat)) :=
  [(pb.StartExecutionRequest, (77, 203));
   (pb.GetExecutionRequest, (205, 274));
   (pb.ListExecutionsRequest, (276, 388));
   (pb.GetNodeExecutionsRequest, (390, 464));
   (pb.RetryNodeRequest, (466, 549));
   (pb.DeleteExecutionRequest, (551, 623));
   (pb.DeleteExecutionResponse, (625, 650));
   (pb.TransitionNodeRequest, (653, 812));
   (pb.NodeExecutionDTO, (815, 1101));
   (pb.ExecutionDTO, (1104, 1344));
   (pb.NodeExecutionListDTO, (1346, 1422));
   (pb.ExecutionListDTO, (1424, 1487))].
Definition execution_engine_service_offsets : nat * nat := (1490, 2078).

Definition worker_control_DESCRIPTOR : bytes := python_bytes (
  "\n\x1e\x65ventflow/worker_control.proto\x12\teventflow\x22k\n\x16WorkerHeartbeatRequest\x12\x11" +:+
  "\n\tworker_id\x18\x01 \x01(\t\x12\x0e\n\x06status\x18\x02 \x01(\t\x12\x1b\n\x0e\x63urrent_job_id" +:+
  "\x18\x03 \x01(\tH\x00\x88\x01\x01\x42\x11\n\x0f_current_job_id\x22*\n\x17WorkerHeartbeatResponse" +:+
  "\x12\x0f\n\x07success\x18\x01 \x01(\x08\x22D\n\x14\x43laimStaleJobRequest\x12\x11\n\tworker_id" +:+
  "\x18\x01 \x01(\t\x12\x19\n\x11node_execution_id\x18\x02 \x01(\t\x22(\n\x15\x43laimStaleJobRespon" +:+
  "se\x12\x0f\n\x07\x63laimed\x18\x01 \x01(\x08\x32\xc4\x01\n\x14WorkerControlService\x12X\n\x0fRep" +:+
  "ortHeartbeat\x12!.eventflow.WorkerHeartbeatRequest\x1a\x22.eventflow.WorkerHeartbeatResponse\x12" +:+
  "R\n\rClaimStaleJob\x12\x1f.eventflow.ClaimStaleJobRequest\x1a .eventflow.ClaimStaleJobResponseb" +:+
  "\x06proto3").

Definition worker_control_offsets : list (pb.MessageType * (nat * nat)) :=
  [(pb.WorkerHeartbeatRequest, (45, 152));
   (pb.WorkerHeartbeatResponse, (154, 196));
   (pb.ClaimStaleJobRequest, (198, 266));
   (pb.ClaimStaleJobResponse, (268, 308))].
Definition worker_control_service_offsets : nat * nat := (311, 507).

(** ** The records of the messages *)

Definition declared (t : pb.MessageType) : list ProtoField :=
  match find (fun m => bool_decide (m.1 = t))
          (pf_messages execution_engine_proto ++ pf_messages worker_control_proto) with
  | Some m => m.2
  | None => []
  end.

Section values.
Context (Struct : Type).

Definition base_type (t : ProtoType) : Type :=
  match t with
  | TString => string
  | TInt32 => Z
  | TBool => bool
  | TStruct => Struct
  | TMessage t => message Struct t
  end.

(** A message field and an optional one may be unset; the others have their default. *)
Definition value_type (l : Label) (t : ProtoType) : Type :=
  match l, t with
  | Repeated, _ => list (base_type t)
  | Singular, (TString | TInt32 | TBool) => base_type t
  | _, _ => option (base_type t)
  end.

Fixpoint values (fs : list ProtoField) : Type :=
  match fs with
  | [] => ()
  | f :: fs => value_type (fd_label f) (fd_type f) * values fs
  end.

(** The values of a message's fields, in the order of the declarations. *)
Definition values_of (t : pb.MessageType) : message Struct t → values (declared t) :=
  match t with
  | pb.StartExecutionRequest => fun m =>
      (ps_workflow_version_id m, (ps_input_payload m, (ps_owner_api_key_id m, ())))
  | pb.GetExecutionRequest => fun m =>
      (pg_execution_id m, (pg_owner_api_key_id m, ()))
  | pb.ListExecutionsRequest => fun m =>
      (pl_owner_api_key_id m, (pl_status m, (pl_limit m, (pl_offset m, ()))))
  | pb.GetNodeExecutionsRequest => fun m =>
      (pgn_execution_id m, (pgn_owner_api_key_id m, ()))
  | pb.RetryNodeRequest => fun m =>
      (pr_execution_id m, (pr_node_id m, (pr_owner_api_key_id m, ())))
  | pb.DeleteExecutionRequest => fun m =>
      (pd_execution_id m, (pd_owner_api_key_id m, ()))
  | pb.DeleteExecutionResponse => fun _ => ()
  | pb.TransitionNodeRequest => fun m =>
      (pt_execution_id m, (pt_node_execution_id m, (pt_status m, (pt_result m, (pt_error m, ())))))
  | pb.NodeExecutionDTO => fun m =>
      (pn_id m, (pn_execution_id m, (pn_node_id m, (pn_node_type m, (pn_status m, (pn_attempt m, (pn_max_attempts m,
        (pn_input_payload m, (pn_output_payload m, (pn_error_message m, ()))))))))))
  | pb.ExecutionDTO => fun m =>
      (pe_id m, (pe_workflow_id m, (pe_workflow_version_id m, (pe_status m, (pe_input_payload m, (pe_error_message
        m, (pe_node_executions m, ())))))))
  | pb.NodeExecutionListDTO => fun m => (m, ())
  | pb.ExecutionListDTO => fun m => (m, ())
  | pb.WorkerHeartbeatRequest => fun m =>
      (pw_worker_id m, (pw_status m, (pw_current_job_id m, ())))
  | pb.WorkerHeartbeatResponse => fun m => (m, ())
  | pb.ClaimStaleJobRequest => fun m =>
      (pc_worker_id m, (pc_node_execution_id m, ()))
  | pb.ClaimStaleJobResponse => fun m => (m, ())
  end.

Definition of_values (t : pb.MessageType) : values (declared t) → message Struct t :=
  match t with
  | pb.StartExecutionRequest => fun '(x1, (x2, (x3, _))) => mkPbStart x1 x2 x3
  | pb.GetExecutionRequest => fun '(x1, (x2, _)) => mkPbGet x1 x2
  | pb.ListExecutionsRequest => fun '(x1, (x2, (x3, (x4, _)))) => mkPbList x1 x2 x3 x4
  | pb.GetNodeExecutionsRequest => fun '(x1, (x2, _)) => mkPbGetNodes x1 x2
  | pb.RetryNodeRequest => fun '(x1, (x2, (x3, _))) => mkPbRetry x1 x2 x3
  | pb.DeleteExecutionRequest => fun '(x1, (x2, _)) => mkPbDelete x1 x2
  | pb.DeleteExecutionResponse => fun _ => ()
  | pb.TransitionNodeRequest => fun '(x1, (x2, (x3, (x4, (x5, _))))) => mkPbTransition x1 x2 x3 x4 x5
  | pb.NodeExecutionDTO =>
    fun '(x1, (x2, (x3, (x4, (x5, (x6, (x7, (x8, (x9, (x10, _)))))))))) => mkPbNode x1 x2 x3 x4 x5 x6 x7 x8 x9 x10
  | pb.ExecutionDTO => fun '(x1, (x2, (x3, (x4, (x5, (x6, (x7, _))))))) => mkPbExecution x1 x2 x3 x4 x5 x6 x7
  | pb.NodeExecutionListDTO => fun m => m.1
  | pb.ExecutionListDTO => fun m => m.1
  | pb.WorkerHeartbeatRequest => fun '(x1, (x2, (x3, _))) => mkPbHeartbeat x1 x2 x3
  | pb.WorkerHeartbeatResponse => fun m => m.1
  | pb.ClaimStaleJobRequest => fun '(x1, (x2, _)) => mkPbClaim x1 x2
  | pb.ClaimStaleJobResponse => fun m => m.1
  end.

Ltac each_value x :=
  let T := type of x in
  lazymatch eval hnf in T with
  | prod _ _ => let y := fresh "y" in destruct x as [? y]; each_value y
  | _ => destruct x
  end.

Lemma of_values_of t (m : message Struct t) : of_values t (values_of t m) = m.
Proof. by destruct t; destruct m. Qed.

Lemma values_of_of t (x : values (declared t)) : values_of t (of_values t x) = x.
Proof. destruct t; by each_value x. Qed.

End values.

(** ** The generated modules *)

Definition slice (range : nat * nat) (b : bytes) : bytes := take (range.2 - range.1) (drop range.1 b).

(** The bytes of a module are the file's, and its offsets delimit its classes and service. *)
Record generated_from (f : ProtoFile) (b : bytes) (offsets : list (pb.MessageType * (nat * nat)))
    (service : nat * nat) : Prop := {
  gf_bytes : b = encode_file f;
  gf_classes : offsets.*1 = (pf_messages f).*1;
  gf_offsets : Forall (fun p => slice p.2 b = encode_message (pf_package f) (p.1, declared p.1)) offsets;
  gf_service : slice service b = encode_service f
}.

(** The methods a function registers, with their classes. *)
Definition rpcs {W message} (handlers : list (string * RpcMethodHandler W message)) :
    list (string * (pb.MessageType * pb.MessageType)) :=
  (fun p => (p.1, (mh_request p.2, mh_response p.2))) <$> handlers.

(** The generated code is what the .proto files say: the bytes each module registers are
    the encoding of its file, the recorded offsets delimit each class and the service in
    them; the handlers a servicer is registered with are the file's methods, each with its
    two classes; every class is declared in one file; and the records of the messages have
    the fields their class declares, with the values those fields take and no others. *)
Theorem generated_code_matches_proto :
  generated_from execution_engine_proto execution_engine_DESCRIPTOR execution_engine_offsets
    execution_engine_service_offsets ∧
  generated_from worker_control_proto worker_control_DESCRIPTOR worker_control_offsets
    worker_control_service_offsets ∧
  (∀ W message (s : ExecutionEngineServiceServicer W message),
     rpcs (engine_rpc_method_handlers s) = pf_rpcs execution_engine_proto) ∧
  (∀ W message (s : WorkerControlServiceServicer W message),
     rpcs (control_rpc_method_handlers s) = pf_rpcs worker_control_proto) ∧
  NoDup (pf_messages execution_engine_proto ++ pf_messages worker_control_proto).*1 ∧
  (∀ t, t ∈ (pf_messages execution_engine_proto ++ pf_messages worker_control_proto).*1) ∧
  (∀ Struct t (m : message Struct t), of_values Struct t (values_of Struct t m) = m) ∧
  (∀ Struct t (x : values Struct (declared t)), values_of Struct t (of_values Struct t x) = x).
Proof.
  split_and!.
  - split; [vm_compute; reflexivity|reflexivity| |vm_compute; reflexivity].
    repeat constructor; vm_compute; reflexivity.
  - split; [vm_compute; reflexivity|reflexivity| |vm_compute; reflexivity].
    repeat constructor; vm_compute; reflexivity.
  - reflexivity.
  - reflexivity.
  - apply (bool_decide_unpack _). vm_compute. exact I.
  - intros t. apply (bool_decide_unpack _). destruct t; vm_compute; exact I.
  - apply of_values_of.
  - apply values_of_of.
Qed.
