(* ===== verification/Transport.v ===== *)
(** * The transports between the API and the engine

    src/backend/app/transport: the contract of an engine client (contracts.py), the client
    that calls the engine in the process (local_execution_client.py), and the gRPC client
    and server (grpc_execution_client.py, grpc_server.py) over the messages of [Messages]
    and the generated stub and servicer of [Rpc].

    Protobuf's [Struct] is a parameter: [to_struct] is [Struct().update(d)], [struct_dict]
    is [MessageToDict], and [struct_items] is [dict(s.items())] as the command and the
    column take it. grpcio is the interface of [Rpc]; its failures on the way are not
    modelled. A server call runs in a session of its own, a local call in the request's. *)

From S2P Require Import Prelude Json PyStr Errors Models Registry Monad Store Publisher Engine Execute Messages Rpc.

Record TransitionNodeCommand : Type := mkTransitionNodeCommand {
  tc_execution_id : uuid;
  tc_node_execution_id : uuid;
  tc_status : string;
  tc_result : option pydict;
  tc_error : option string
}.

(** Assigning an [int32] field: [ValueError] out of its range. *)
Definition int32 (z : Z) : res exc Z :=
  if ((- 2 ^ 31 <=? z) && (z <? 2 ^ 31))%Z then Ok z else Err EValueError.

(** [UUID(s)]. *)
Definition UUID (s : string) : res exc uuid := or_value_error (uuid_parse s).

(** [if x: msg.x = x]. *)
Definition truthy_str (o : option string) : option string :=
  match o with Some ""%string => None | _ => o end.

Section messages.
Context {Struct : Type} (to_struct : pydict → res exc Struct) (struct_dict : Struct → res exc pydict).

(** [if d: s = Struct(); s.update(d); msg.f.CopyFrom(s)]. *)
Definition copy_struct (d : option pydict) : res exc (option Struct) :=
  match d with
  | None | Some [] => Ok None
  | Some d => Some <$> to_struct d
  end.

(** [MessageToDict(msg.f) if msg.HasField("f") else None]. *)
Definition read_struct (s : option Struct) : res exc (option pydict) :=
  match s with Some s => Some <$> struct_dict s | None => Ok None end.

(** ** The server's and the client's mappings *)

Definition _map_node_execution_dto_to_pb (dto : NodeExecutionDTO) : res exc (PbNodeExecutionDTO Struct) :=
  attempt ← int32 (nd_attempt dto);
  max_attempts ← int32 (nd_max_attempts dto);
  input_payload ← copy_struct (nd_input_payload dto);
  output_payload ← copy_struct (nd_output_payload dto);
  Ok (mkPbNode (uuid_str (nd_id dto)) (uuid_str (nd_execution_id dto)) (nd_node_id dto)
        (nd_node_type dto) (nd_status dto) attempt max_attempts input_payload output_payload
        (truthy_str (nd_error_message dto))).

Definition _map_execution_dto_to_pb (dto : ExecutionDTO) : res exc (PbExecutionDTO Struct) :=
  input_payload ← copy_struct (ed_input_payload dto);
  node_executions ← mapM _map_node_execution_dto_to_pb (ed_node_executions dto);
  Ok (mkPbExecution (uuid_str (ed_id dto)) (uuid_str (ed_workflow_id dto))
        (uuid_str (ed_workflow_version_id dto)) (ed_status dto) input_payload
        (truthy_str (ed_error_message dto)) node_executions).

Definition _map_node_execution (msg : PbNodeExecutionDTO Struct) : res exc NodeExecutionDTO :=
  id ← UUID (pn_id msg);
  execution_id ← UUID (pn_execution_id msg);
  input_payload ← read_struct (pn_input_payload msg);
  output_payload ← read_struct (pn_output_payload msg);
  Ok (mkNodeExecutionDTO id execution_id (pn_node_id msg) (pn_node_type msg) (pn_status msg)
        (pn_attempt msg) (pn_max_attempts msg) input_payload output_payload (pn_error_message msg)).

Definition _map_execution (msg : PbExecutionDTO Struct) : res exc ExecutionDTO :=
  id ← UUID (pe_id msg);
  workflow_id ← UUID (pe_workflow_id msg);
  workflow_version_id ← UUID (pe_workflow_version_id msg);
  input_payload ← read_struct (pe_input_payload msg);
  node_executions ← mapM _map_node_execution (pe_node_executions msg);
  Ok (mkExecutionDTO id workflow_id workflow_version_id (pe_status msg) input_payload
        (pe_error_message msg) node_executions).

End messages.

(** ** The contract of a client (contracts.py) *)

(** [start_execution] returns what the engine's [get_execution] found. *)
Record ExecutionEngineClient (Q : Type) : Type := mkClient {
  client_start_execution : StartExecutionCommand → uuid → M Q (option ExecutionDTO);
  client_get_execution : uuid → uuid → M Q (option ExecutionDTO);
  client_list_executions : uuid → option string → nat → nat → M Q (list ExecutionDTO);
  client_get_node_executions : uuid → uuid → M Q (list NodeExecutionDTO);
  client_transition_node : TransitionNodeCommand → M Q NodeExecutionDTO;
  client_retry_node : uuid → string → uuid → M Q NodeExecutionDTO;
  client_delete_execution : uuid → uuid → M Q ()
}.

Arguments mkClient {Q} _ _ _ _ _ _ _.
Arguments client_start_execution {Q} _.
Arguments client_get_execution {Q} _.
Arguments client_list_executions {Q} _.
Arguments client_get_node_executions {Q} _.
Arguments client_transition_node {Q} _.
Arguments client_retry_node {Q} _.
Arguments client_delete_execution {Q} _.

Inductive TransportMode : Type := LOCAL | GRPC.

Section transport.
Context {Q : Type} `{QueuePublisher Q} {Net : Type} (registry : ExecutorRegistry Net).
Context {Struct : Type} (to_struct : pydict → res exc Struct) (struct_dict : Struct → res exc pydict).
Context (struct_nonempty : Struct → bool) (struct_items : Struct → res exc pydict).
Context `{!Grpc (World Q) (message Struct)}.

Local Abbreviation Msg := (message Struct).
Local Abbreviation Handler := (InContext (World Q)).
Local Abbreviation to_pb := (_map_execution_dto_to_pb to_struct).
Local Abbreviation node_to_pb := (_map_node_execution_dto_to_pb to_struct).

(** ** The client in the process *)

Definition LocalExecutionEngineClient : ExecutionEngineClient Q :=
  mkClient (start_execution registry) get_execution list_executions get_node_executions
    (fun _ => transition_node) retry_node delete_execution.

(** ** The server *)

(** [except Exception: context.set_code(INTERNAL); raise]. *)
Definition internal {A} (m : M Q A) : Handler A := fun s =>
  match m s.1 with
  | (Ok a, w) => (Ok a, (w, s.2))
  | (Err e, w) => (Err e, (w, Some "INTERNAL"%string))
  end.

Definition StartExecution (request : Msg pb.StartExecutionRequest) : Handler (Msg pb.ExecutionDTO) :=
  internal (
    workflow_version_id ← lift (UUID (ps_workflow_version_id request));
    input_payload ← lift (match ps_input_payload request with
                          | Some s => if struct_nonempty s then struct_items s else Ok []
                          | None => Ok []
                          end);
    owner_id ← lift (UUID (ps_owner_api_key_id request));
    with_session (
      dto ← start_execution registry (mkStartExecutionCommand workflow_version_id input_payload) owner_id;
      match dto with
      | None => raise EAttributeError
      | Some dto => lift (to_pb dto)
      end)).

(** The code is set in the body; nothing can fail after it. *)
Definition GetExecution (request : Msg pb.GetExecutionRequest) : Handler (Msg pb.ExecutionDTO) :=
  resp ← internal (
    execution_id ← lift (UUID (pg_execution_id request));
    owner_id ← lift (UUID (pg_owner_api_key_id request));
    with_session (
      dto ← get_execution execution_id owner_id;
      match dto with
      | None => mret None
      | Some dto => lift (Some <$> to_pb dto)
      end));
  match resp with
  | None => set_code "NOT_FOUND" ≫= fun _ => mret empty_execution
  | Some resp => mret resp
  end.

Definition ListExecutions (request : Msg pb.ListExecutionsRequest) : Handler (Msg pb.ExecutionListDTO) :=
  internal (
    owner_id ← lift (UUID (pl_owner_api_key_id request));
    let limit := if (pl_limit request =? 0)%Z then 50%Z else pl_limit request in
    with_session (
      dtos ← list_executions owner_id (pl_status request) (Z.to_nat limit) (Z.to_nat (pl_offset request));
      lift (mapM to_pb dtos))).

Definition GetNodeExecutions (request : Msg pb.GetNodeExecutionsRequest) : Handler (Msg pb.NodeExecutionListDTO) :=
  internal (
    execution_id ← lift (UUID (pgn_execution_id request));
    owner_id ← lift (UUID (pgn_owner_api_key_id request));
    with_session (
      dtos ← get_node_executions execution_id owner_id;
      lift (mapM node_to_pb dtos))).

(** The engine's method raises, so the command it would take does not matter. *)
Definition TransitionNode (request : Msg pb.TransitionNodeRequest) : Handler (Msg pb.NodeExecutionDTO) :=
  internal (
    lift (UUID (pt_execution_id request)) ≫= fun _ =>
    lift (UUID (pt_node_execution_id request)) ≫= fun _ =>
    lift (read_struct struct_dict (pt_result request)) ≫= fun _ =>
    with_session (dto ← transition_node; lift (node_to_pb dto))).

Definition RetryNode (request : Msg pb.RetryNodeRequest) : Handler (Msg pb.NodeExecutionDTO) :=
  internal (
    execution_id ← lift (UUID (pr_execution_id request));
    owner_id ← lift (UUID (pr_owner_api_key_id request));
    with_session (dto ← retry_node execution_id (pr_node_id request) owner_id; lift (node_to_pb dto))).

Definition DeleteExecution (request : Msg pb.DeleteExecutionRequest) : Handler (Msg pb.DeleteExecutionResponse) :=
  internal (
    execution_id ← lift (UUID (pd_execution_id request));
    owner_id ← lift (UUID (pd_owner_api_key_id request));
    with_session (delete_execution execution_id owner_id)).

(** The servicer of the server overrides every method of the generated base class. *)
Definition servicer : ExecutionEngineServiceServicer (World Q) (message Struct) :=
  mkExecutionEngineServiceServicer StartExecution GetExecution GetNodeExecutions ListExecutions
    TransitionNode RetryNode DeleteExecution.

(** The server [GrpcServerContext.start] starts. *)
Definition grpc_server : Server (World Q) (message Struct) :=
  add_ExecutionEngineServiceServicer_to_server servicer empty_server.

(** ** The gRPC client *)

Local Abbreviation from_pb := (_map_execution struct_dict).
Local Abbreviation node_from_pb := (_map_node_execution struct_dict).

Section client.
Context (stub : ExecutionEngineServiceStubs (World Q) (message Struct)).

Definition grpc_start_execution (command : StartExecutionCommand) (owner : uuid) : M Q (option ExecutionDTO) :=
  input_payload ← lift (copy_struct to_struct (Some (cmd_input_payload command)));
  resp ← stub_StartExecution stub
           (mkPbStart (uuid_str (cmd_workflow_version_id command)) input_payload (uuid_str owner));
  lift (Some <$> from_pb resp).

(** [except grpc.aio.AioRpcError]: [NOT_FOUND] is [None]. *)
Definition none_if_not_found {A} (m : M Q A) : M Q (option A) := fun w =>
  match m w with
  | (Ok a, w') => (Ok (Some a), w')
  | (Err (ERpcError code), w') =>
      if String.eqb code "NOT_FOUND" then (Ok None, w') else (Err (ERpcError code), w')
  | (Err e, w') => (Err e, w')
  end.

Definition grpc_get_execution (execution_id owner : uuid) : M Q (option ExecutionDTO) :=
  none_if_not_found (
    resp ← stub_GetExecution stub (mkPbGet (uuid_str execution_id) (uuid_str owner));
    lift (from_pb resp)).

Definition grpc_list_executions (owner : uuid) (status : option string) (limit offset : nat) :
    M Q (list ExecutionDTO) :=
  limit ← lift (int32 (Z.of_nat limit));
  offset ← lift (int32 (Z.of_nat offset));
  resp ← stub_ListExecutions stub (mkPbList (uuid_str owner) (truthy_str status) limit offset);
  lift (mapM from_pb resp).

Definition grpc_get_node_executions (execution_id owner : uuid) : M Q (list NodeExecutionDTO) :=
  resp ← stub_GetNodeExecutions stub (mkPbGetNodes (uuid_str execution_id) (uuid_str owner));
  lift (mapM node_from_pb resp).

Definition grpc_transition_node (command : TransitionNodeCommand) : M Q NodeExecutionDTO :=
  result ← lift (copy_struct to_struct (tc_result command));
  resp ← stub_TransitionNode stub
           (mkPbTransition (uuid_str (tc_execution_id command)) (uuid_str (tc_node_execution_id command))
              (tc_status command) result (truthy_str (tc_error command)));
  lift (node_from_pb resp).

Definition grpc_retry_node (execution_id : uuid) (node_id : string) (owner : uuid) : M Q NodeExecutionDTO :=
  resp ← stub_RetryNode stub (mkPbRetry (uuid_str execution_id) node_id (uuid_str owner));
  lift (node_from_pb resp).

Definition grpc_delete_execution (execution_id owner : uuid) : M Q () :=
  stub_DeleteExecution stub (mkPbDelete (uuid_str execution_id) (uuid_str owner)) ≫= fun _ => mret tt.

Definition stub_client : ExecutionEngineClient Q :=
  mkClient grpc_start_execution grpc_get_execution grpc_list_executions grpc_get_node_executions
    grpc_transition_node grpc_retry_node grpc_delete_execution.

End client.

(** [_get_stub]: a channel to the target, and its stub. *)
Definition GrpcExecutionEngineClient (channel : Server (World Q) (message Struct)) : ExecutionEngineClient Q :=
  stub_client (ExecutionEngineServiceStub channel).

(** [get_execution_engine_client] (factory.py). *)
Definition get_execution_engine_client (mode : TransportMode) (channel : Server (World Q) (message Struct)) :
    ExecutionEngineClient Q :=
  match mode with GRPC => GrpcExecutionEngineClient channel | LOCAL => LocalExecutionEngineClient end.

End transport.

(** ** Through the messages *)

Section roundtrip.
Context {Struct : Type} (to_struct : pydict → res exc Struct) (struct_dict : Struct → res exc pydict).

(** What a payload becomes: an empty one, and none, are not sent. *)
Definition payload_rel (p p' : option pydict) : Prop :=
  match p with
  | None | Some [] => p' = None
  | Some d => ∃ s d', to_struct d = Ok s ∧ struct_dict s = Ok d' ∧ p' = Some d'
  end.

Record node_rel (n n' : NodeExecutionDTO) : Prop := {
  nr_input : payload_rel (nd_input_payload n) (nd_input_payload n');
  nr_output : payload_rel (nd_output_payload n) (nd_output_payload n');
  nr_rest : n' = mkNodeExecutionDTO (nd_id n) (nd_execution_id n) (nd_node_id n) (nd_node_type n)
                   (nd_status n) (nd_attempt n) (nd_max_attempts n) (nd_input_payload n')
                   (nd_output_payload n') (truthy_str (nd_error_message n))
}.

Record execution_rel (e e' : ExecutionDTO) : Prop := {
  er_input : payload_rel (ed_input_payload e) (ed_input_payload e');
  er_nodes : Forall2 node_rel (ed_node_executions e) (ed_node_executions e');
  er_rest : e' = mkExecutionDTO (ed_id e) (ed_workflow_id e) (ed_workflow_version_id e) (ed_status e)
                   (ed_input_payload e') (truthy_str (ed_error_message e)) (ed_node_executions e')
}.

(** What the messages can carry: identifiers of 128 bits, counters of 32, and payloads that
    [Struct] takes and gives back. *)
Definition uuid_ok (u : uuid) : Prop := (u < 2 ^ 128)%N.
Definition int32_ok (z : Z) : Prop := (- 2 ^ 31 <= z < 2 ^ 31)%Z.
Definition payload_ok (p : option pydict) : Prop := ∃ p', payload_rel p p'.

Record node_ok (n : NodeExecutionDTO) : Prop := {
  no_id : uuid_ok (nd_id n);
  no_execution : uuid_ok (nd_execution_id n);
  no_attempt : int32_ok (nd_attempt n);
  no_max : int32_ok (nd_max_attempts n);
  no_input : payload_ok (nd_input_payload n);
  no_output : payload_ok (nd_output_payload n)
}.

Record execution_ok (e : ExecutionDTO) : Prop := {
  eo_id : uuid_ok (ed_id e);
  eo_workflow : uuid_ok (ed_workflow_id e);
  eo_version : uuid_ok (ed_workflow_version_id e);
  eo_input : payload_ok (ed_input_payload e);
  eo_nodes : Forall node_ok (ed_node_executions e)
}.

Lemma UUID_str u : uuid_ok u → UUID (uuid_str u) = Ok u.
Proof. intros Hu. unfold UUID. by rewrite uuid_parse_str. Qed.

Lemma int32_Ok z : int32_ok z → int32 z = Ok z.
Proof.
  unfold int32_ok, int32. intros [Hlo Hhi].
  by rewrite (proj2 (Z.leb_le _ _) Hlo), (proj2 (Z.ltb_lt _ _) Hhi).
Qed.

Lemma copy_read_struct p :
  payload_ok p → ∃ s p', copy_struct to_struct p = Ok s ∧ read_struct struct_dict s = Ok p' ∧ payload_rel p p'.
Proof.
  intros [p' Hp]. unfold copy_struct. destruct p as [[|x d]|]; simpl in Hp.
  - by exists None, None.
  - destruct Hp as (s & d' & Hs & Hd & ->). exists (Some s), (Some d').
    rewrite Hs. simpl. rewrite Hd. simpl. split_and!; [done|done|by exists s, d'].
  - by exists None, None.
Qed.

Lemma node_roundtrip n :
  node_ok n → ∃ msg n', _map_node_execution_dto_to_pb to_struct n = Ok msg ∧
    _map_node_execution struct_dict msg = Ok n' ∧ node_rel n n'.
Proof.
  intros [Hid Hex Hat Hmax Hin Hout].
  destruct (copy_read_struct _ Hin) as (si & pi & Hsi & Hpi & Hri).
  destruct (copy_read_struct _ Hout) as (so & po & Hso & Hpo & Hro).
  unfold _map_node_execution_dto_to_pb. rewrite (int32_Ok _ Hat), (int32_Ok _ Hmax), Hsi, Hso.
  cbn [mbind res_bind]. eexists _, _. split; [reflexivity|].
  unfold _map_node_execution. cbn [pn_id pn_execution_id pn_input_payload pn_output_payload].
  rewrite (UUID_str _ Hid), (UUID_str _ Hex), Hpi, Hpo. cbn [mbind res_bind].
  split; [reflexivity|]. by split.
Qed.

Lemma mapM_roundtrip {A B C} (f : A → res exc B) (g : B → res exc C) (ok : A → Prop) (R : A → C → Prop) l :
  (∀ a, ok a → ∃ b c, f a = Ok b ∧ g b = Ok c ∧ R a c) → Forall ok l →
  ∃ bs cs, mapM f l = Ok bs ∧ mapM g bs = Ok cs ∧ Forall2 R l cs.
Proof.
  intros Hfg. induction 1 as [|a l Ha _ IH]; [by exists [], []|].
  destruct (Hfg a Ha) as (b & c & Hf & Hg & HR). destruct IH as (bs & cs & Hfs & Hgs & HRs).
  exists (b :: bs), (c :: cs). simpl. rewrite Hf, Hg. simpl. rewrite Hfs, Hgs. by split_and!; [..|constructor].
Qed.

Lemma execution_roundtrip e :
  execution_ok e → ∃ msg e', _map_execution_dto_to_pb to_struct e = Ok msg ∧
    _map_execution struct_dict msg = Ok e' ∧ execution_rel e e'.
Proof.
  intros [Hid Hwf Hv Hin Hns].
  destruct (copy_read_struct _ Hin) as (s & p & Hs & Hp & Hr).
  destruct (mapM_roundtrip _ _ _ _ _ node_roundtrip Hns) as (bs & cs & Hbs & Hcs & HRs).
  unfold _map_execution_dto_to_pb. rewrite Hs, Hbs. cbn [mbind res_bind].
  eexists _, _. split; [reflexivity|]. unfold _map_execution.
  cbn [pe_id pe_workflow_id pe_workflow_version_id pe_input_payload pe_node_executions].
  rewrite (UUID_str _ Hid), (UUID_str _ Hwf), (UUID_str _ Hv), Hp, Hcs. cbn [mbind res_bind].
  split; [reflexivity|]. by split.
Qed.

End roundtrip.

(** ** The gRPC client refines the client in the process *)

Section agreement.
Context {Q : Type} `{QueuePublisher Q} {Net : Type} (registry : ExecutorRegistry Net).
Context {Struct : Type} (to_struct : pydict → res exc Struct) (struct_dict : Struct → res exc pydict).
Context (struct_nonempty : Struct → bool) (struct_items : Struct → res exc pydict).
Context `{!Grpc (World Q) (message Struct), !GrpcLaws (World Q) (message Struct)}.
Implicit Types w : World Q.

Local Abbreviation server := (grpc_server (Q := Q) registry to_struct struct_dict struct_nonempty struct_items).
Local Abbreviation stub := (ExecutionEngineServiceStub server).
Local Abbreviation local := (LocalExecutionEngineClient (Q := Q) registry).
Local Abbreviation grpc := (GrpcExecutionEngineClient to_struct struct_dict server).
Local Abbreviation ex_ok := (execution_ok to_struct struct_dict).
Local Abbreviation ex_rel := (execution_rel to_struct struct_dict).
Local Abbreviation nd_ok := (node_ok to_struct struct_dict).
Local Abbreviation nd_rel := (node_rel to_struct struct_dict).

(** A remote call leaves what the local one leaves, its session closed; its result is the
    local one through the messages; whatever the engine raises arrives as [INTERNAL]. *)
Definition agrees {A B} (ok : A → Prop) (R : A → B → Prop) (l : res exc A * World Q)
    (g : res exc B * World Q) : Prop :=
  g.2 = w_close l.2 ∧
  match l.1 with
  | Ok a => ok a → ∃ b, g.1 = Ok b ∧ R a b
  | Err _ => g.1 = Err (ERpcError "INTERNAL")
  end.

(** What the caller of a handler sees. *)
Definition answered {A} (m : M Q A) : M Q A := fun w =>
  match m w with
  | (Ok a, w') => (Ok a, w')
  | (Err _, w') => (Err (ERpcError "INTERNAL"), w')
  end.

Lemma reply_internal {A} (m : M Q A) w : reply (internal m) w = answered m w.
Proof. unfold reply, internal, answered. simpl. by destruct (m w) as [[a|e] w']. Qed.

Lemma reply_bind_internal {A B} (m : M Q A) (k : A → InContext (World Q) B) w :
  reply (internal m ≫= k) w = (answered m ≫= fun a => reply (k a)) w.
Proof.
  unfold reply, internal, answered, mbind, SE_bind. cbn [fst snd].
  by destruct (m w) as [[a|e] w'].
Qed.

Lemma stub_served :
  engine_served stub (servicer (Q := Q) registry to_struct struct_dict struct_nonempty struct_items).
Proof. apply engine_stub_served. Qed.

(** A handler whose identifiers parse, and the client around it. *)
Lemma agrees_call {A B C} (m : M Q A) (f : A → res exc B) (g : B → res exc C) ok R
    (call : M Q B) (client : M Q C) w :
  (∀ a, ok a → ∃ b c, f a = Ok b ∧ g b = Ok c ∧ R a c) →
  call w = answered (with_session (m ≫= fun a => lift (f a))) w →
  client w = (call ≫= fun b => lift (g b)) w →
  agrees ok R (m (w_close w)) (client w).
Proof.
  intros Hfg Hh ->. rewrite run_bind, Hh. unfold answered, with_session, agrees. rewrite run_bind.
  destruct (m (w_close w)) as [[a|e] w1]; [|done]. unfold lift. simpl.
  destruct (f a) as [b|e] eqn:Hf; simpl.
  - split; [done|]. intros Ha. destruct (Hfg a Ha) as (b' & c & Hf' & Hg & HR).
    rewrite Hf in Hf'. injection Hf' as <-. by exists c.
  - split; [done|]. intros Ha. destruct (Hfg a Ha) as (b' & c & Hf' & _). congruence.
Qed.

Lemma with_session_ext {A} (m m' : M Q A) w :
  (∀ w, m w = m' w) → answered (with_session m) w = answered (with_session m') w.
Proof. intros Hm. unfold answered, with_session. by rewrite Hm. Qed.

Lemma bind_ext {A B} (m : M Q A) (f g : A → M Q B) w : (∀ a w, f a w = g a w) → (m ≫= f) w = (m ≫= g) w.
Proof. intros Hfg. rewrite !run_bind. destruct (m w) as [[a|e] w']; [apply Hfg|done]. Qed.

(** The answer runs past the parsing of an identifier. *)
Lemma answered_UUID {B} u (k : uuid → M Q B) w :
  uuid_ok u → answered (lift (UUID (uuid_str u)) ≫= k) w = answered (k u) w.
Proof. intros Hu. unfold answered. rewrite run_bind. unfold lift. by rewrite UUID_str. Qed.

Lemma answered_ret {A B} (a : A) (k : A → M Q B) w : answered (lift (Ok a) ≫= k) w = answered (k a) w.
Proof. done. Qed.

(** A call through the stub, to the servicer's method and past its identifiers. *)
Tactic Notation "served" uconstr(field) :=
  etrans; [apply (field _ _ stub_served)|]; etrans; [apply reply_internal|];
  cbn [ps_workflow_version_id ps_input_payload ps_owner_api_key_id pl_owner_api_key_id pl_status pl_limit
    pl_offset pgn_execution_id pgn_owner_api_key_id pr_execution_id pr_node_id pr_owner_api_key_id
    pd_execution_id pd_owner_api_key_id pg_execution_id pg_owner_api_key_id];
  rewrite ?answered_UUID, ?answered_ret, ?answered_UUID by done.

(** Fetching goes through the code [NOT_FOUND] where the local call answers [None]. *)
Lemma get_reply eid owner w :
  uuid_ok eid → uuid_ok owner →
  stub_GetExecution stub (mkPbGet (uuid_str eid) (uuid_str owner)) w =
  match get_execution eid owner (w_close w) with
  | (Ok None, w') => (Err (ERpcError "NOT_FOUND"), w_close w')
  | (Ok (Some e), w') =>
      (match _map_execution_dto_to_pb to_struct e with
       | Ok msg => Ok msg
       | Err _ => Err (ERpcError "INTERNAL")
       end, w_close w')
  | (Err _, w') => (Err (ERpcError "INTERNAL"), w_close w')
  end.
Proof.
  intros He Ho. etrans; [apply (es_GetExecution _ _ stub_served)|].
  etrans; [apply reply_bind_internal|]. cbn [pg_execution_id pg_owner_api_key_id].
  rewrite run_bind, !answered_UUID by done. unfold answered, with_session. rewrite run_bind.
  destruct (get_execution eid owner (w_close w)) as [[[e|]|x] w']; [|done|done].
  unfold lift. by destruct (_map_execution_dto_to_pb to_struct e).
Qed.

Lemma get_agrees eid owner w :
  uuid_ok eid → uuid_ok owner →
  agrees (fun o => ∀ e, o = Some e → ex_ok e) (option_relation ex_rel (fun _ => False) (fun _ => False))
    (client_get_execution local eid owner (w_close w)) (client_get_execution grpc eid owner w).
Proof.
  intros He Ho. simpl. unfold grpc_get_execution, none_if_not_found. rewrite run_bind.
  rewrite get_reply by done. unfold agrees, lift.
  destruct (get_execution eid owner (w_close w)) as [[[e|]|x] w']; [|by split; [|intros _; exists None]|done].
  destruct (_map_execution_dto_to_pb to_struct e) as [msg|x] eqn:Hm.
  - split; [by destruct (_map_execution struct_dict msg) as [|[]]; simpl; repeat case_match|].
    intros Hok. destruct (execution_roundtrip _ _ e (Hok e eq_refl)) as (msg' & e' & Hm' & He' & HR).
    rewrite Hm in Hm'. injection Hm' as <-. exists (Some e'). by rewrite He'.
  - split; [done|]. intros Hok.
    destruct (execution_roundtrip _ _ e (Hok e eq_refl)) as (msg' & e' & Hm' & _). congruence.
Qed.

Lemma nodes_agrees eid owner w :
  uuid_ok eid → uuid_ok owner →
  agrees (Forall nd_ok) (Forall2 nd_rel)
    (client_get_node_executions local eid owner (w_close w)) (client_get_node_executions grpc eid owner w).
Proof.
  intros He Ho. apply (agrees_call _ (mapM (_map_node_execution_dto_to_pb to_struct))
    (mapM (_map_node_execution struct_dict)) _ _
    (stub_GetNodeExecutions stub (mkPbGetNodes (uuid_str eid) (uuid_str owner))));
    [|by served es_GetNodeExecutions|reflexivity].
  intros l Hl. by apply mapM_roundtrip with (ok := nd_ok); [intros n; apply node_roundtrip|].
Qed.

(** A limit of 0 reads as not given. *)
Definition served_limit (limit : nat) : nat := if decide (limit = 0) then 50 else limit.

Lemma list_agrees owner status limit offset w :
  uuid_ok owner → (Z.of_nat limit < 2 ^ 31)%Z → (Z.of_nat offset < 2 ^ 31)%Z →
  agrees (Forall ex_ok) (Forall2 ex_rel)
    (client_list_executions local owner (truthy_str status) (served_limit limit) offset (w_close w))
    (client_list_executions grpc owner status limit offset w).
Proof.
  intros Ho Hl Hf. apply (agrees_call _ (mapM (_map_execution_dto_to_pb to_struct))
    (mapM (_map_execution struct_dict)) _ _
    (stub_ListExecutions stub (mkPbList (uuid_str owner) (truthy_str status) (Z.of_nat limit) (Z.of_nat offset)))).
  - intros l Hok. by apply mapM_roundtrip with (ok := ex_ok); [intros e; apply execution_roundtrip|].
  - served es_ListExecutions. unfold served_limit. destruct limit as [|n]; [by rewrite !Nat2Z.id|].
    rewrite (proj2 (Z.eqb_neq _ _)) by lia. rewrite decide_False by done. by rewrite !Nat2Z.id.
  - cbn [client_list_executions GrpcExecutionEngineClient stub_client]. unfold grpc_list_executions.
    rewrite run_bind. unfold lift at 1.
    rewrite int32_Ok by (unfold int32_ok; lia). rewrite run_bind. unfold lift at 1.
    by rewrite int32_Ok by (unfold int32_ok; lia).
Qed.

(** What the server makes of a payload sent to it. *)
Definition received (d d' : pydict) : Prop :=
  match d with
  | [] => d' = []
  | _ => ∃ s, to_struct d = Ok s ∧ (if struct_nonempty s then struct_items s else Ok []) = Ok d'
  end.

Lemma received_sent d d' :
  received d d' → ∃ o, copy_struct to_struct (Some d) = Ok o ∧
    match o with Some s => if struct_nonempty s then struct_items s else Ok [] | None => Ok [] end = Ok d'.
Proof.
  unfold received. destruct d as [|x d]; [intros ->; by exists None|].
  intros (s & Hs & Hd). exists (Some s). simpl. by rewrite Hs.
Qed.

Lemma start_agrees version d d' owner w :
  uuid_ok version → uuid_ok owner → received d d' →
  agrees (fun o => ∃ e, o = Some e ∧ ex_ok e) (option_relation ex_rel (fun _ => False) (fun _ => False))
    (client_start_execution local (mkStartExecutionCommand version d') owner (w_close w))
    (client_start_execution grpc (mkStartExecutionCommand version d) owner w).
Proof.
  intros Hv Ho (o & Hs & Hd)%received_sent. apply (agrees_call _
    (fun o => match o with None => Err EAttributeError | Some dto => _map_execution_dto_to_pb to_struct dto end)
    (fun msg => Some <$> _map_execution struct_dict msg) _ _
    (stub_StartExecution stub (mkPbStart (uuid_str version) o (uuid_str owner)))).
  - intros e0 (e & -> & Hok). destruct (execution_roundtrip _ _ e Hok) as (msg & e' & Hm & He' & HR).
    exists msg, (Some e'). by rewrite Hm, He'.
  - served es_StartExecution. rewrite Hd, answered_ret, answered_UUID by done.
    apply with_session_ext. intros w'. apply bind_ext. by intros [e|] ?.
  - cbn [client_start_execution GrpcExecutionEngineClient stub_client]. unfold grpc_start_execution.
    cbn [cmd_input_payload cmd_workflow_version_id]. rewrite run_bind. unfold lift at 1. rewrite Hs.
    apply bind_ext. done.
Qed.

Lemma transition_agrees command w :
  uuid_ok (tc_execution_id command) → uuid_ok (tc_node_execution_id command) →
  payload_ok to_struct struct_dict (tc_result command) →
  agrees nd_ok nd_rel (client_transition_node local command (w_close w))
    (client_transition_node grpc command w).
Proof.
  intros He Hn (o & p & Hs & Hp & _)%copy_read_struct.
  apply (agrees_call _ (_map_node_execution_dto_to_pb to_struct) (_map_node_execution struct_dict) _ _
    (stub_TransitionNode stub (mkPbTransition (uuid_str (tc_execution_id command))
      (uuid_str (tc_node_execution_id command)) (tc_status command) o (truthy_str (tc_error command))))).
  - apply node_roundtrip.
  - served es_TransitionNode. cbn [pt_execution_id pt_node_execution_id pt_result].
    by rewrite !answered_UUID, Hp, answered_ret by done.
  - cbn [client_transition_node GrpcExecutionEngineClient stub_client]. unfold grpc_transition_node.
    rewrite run_bind. unfold lift at 1. by rewrite Hs.
Qed.

Lemma retry_agrees eid node_id owner w :
  uuid_ok eid → uuid_ok owner →
  agrees nd_ok nd_rel (client_retry_node local eid node_id owner (w_close w))
    (client_retry_node grpc eid node_id owner w).
Proof.
  intros He Ho. apply (agrees_call _ (_map_node_execution_dto_to_pb to_struct) (_map_node_execution struct_dict) _ _
    (stub_RetryNode stub (mkPbRetry (uuid_str eid) node_id (uuid_str owner))));
    [apply node_roundtrip|by served es_RetryNode|reflexivity].
Qed.

Lemma delete_agrees eid owner w :
  uuid_ok eid → uuid_ok owner →
  agrees (fun _ => True) eq (client_delete_execution local eid owner (w_close w))
    (client_delete_execution grpc eid owner w).
Proof.
  intros He Ho. apply (agrees_call _ (fun _ => Ok tt) (fun _ => Ok tt) _ _
    (stub_DeleteExecution stub (mkPbDelete (uuid_str eid) (uuid_str owner)))); [|served es_DeleteExecution|done].
  - intros [] _. by exists tt, tt.
  - apply with_session_ext. intros w'. etrans; [|symmetry; apply run_bind].
    cbn [client_delete_execution LocalExecutionEngineClient].
    by destruct (delete_execution eid owner w') as [[[]|] ?].
Qed.

(** C37. With the gRPC transport, through the generated stub and the server the program
    starts, the API sees what the engine in the process would have answered, on all seven
    operations: the same tables, queue and events are left; a result comes back field by
    field, with empty payloads and error messages read as none and the others as [Struct]
    gives them back, if it fits into the messages; and every exception, the 404s and 403s of
    the engine included, becomes the code [INTERNAL]. Two requests are not the caller's: a
    new execution gets the payload the server received, and a listing with an empty status
    or a limit of 0 is that of no status and of the limit 50. *)
Theorem grpc_client_agrees eid version owner d d' command node_id status limit offset w :
  uuid_ok eid → uuid_ok version → uuid_ok owner → received d d' →
  uuid_ok (tc_execution_id command) → uuid_ok (tc_node_execution_id command) →
  payload_ok to_struct struct_dict (tc_result command) →
  (Z.of_nat limit < 2 ^ 31)%Z → (Z.of_nat offset < 2 ^ 31)%Z →
  agrees (fun o => ∃ e, o = Some e ∧ ex_ok e) (option_relation ex_rel (fun _ => False) (fun _ => False))
    (client_start_execution local (mkStartExecutionCommand version d') owner (w_close w))
    (client_start_execution grpc (mkStartExecutionCommand version d) owner w) ∧
  agrees (fun o => ∀ e, o = Some e → ex_ok e) (option_relation ex_rel (fun _ => False) (fun _ => False))
    (client_get_execution local eid owner (w_close w)) (client_get_execution grpc eid owner w) ∧
  agrees (Forall ex_ok) (Forall2 ex_rel)
    (client_list_executions local owner (truthy_str status) (served_limit limit) offset (w_close w))
    (client_list_executions grpc owner status limit offset w) ∧
  agrees (Forall nd_ok) (Forall2 nd_rel)
    (client_get_node_executions local eid owner (w_close w)) (client_get_node_executions grpc eid owner w) ∧
  agrees nd_ok nd_rel (client_transition_node local command (w_close w))
    (client_transition_node grpc command w) ∧
  agrees nd_ok nd_rel (client_retry_node local eid node_id owner (w_close w))
    (client_retry_node grpc eid node_id owner w) ∧
  agrees (fun _ => True) eq (client_delete_execution local eid owner (w_close w))
    (client_delete_execution grpc eid owner w).
Proof.
  intros He Hv Ho Hd Hte Htn Htp Hl Hf.
  split_and!; [by apply start_agrees|by apply get_agrees|by apply list_agrees|by apply nodes_agrees|
    by apply transition_agrees|by apply retry_agrees|by apply delete_agrees].
Qed.

End agreement.

(** ** Witness *)

Local Abbreviation demo_channel := (@grpc_server InMemoryQueuePublisher _ ExecutorResult demo_registry pydict Ok Ok
  (fun _ : pydict => true) Ok).
Local Abbreviation demo_grpc :=
  (@GrpcExecutionEngineClient InMemoryQueuePublisher pydict Ok Ok typed_grpc demo_channel).

(** With a [Struct] that keeps every payload, only the numbers matter. *)
Definition fits_node (n : NodeExecutionDTO) : bool :=
  (nd_id n <? 2 ^ 128)%N && (nd_execution_id n <? 2 ^ 128)%N &&
  is_ok (int32 (nd_attempt n)) && is_ok (int32 (nd_max_attempts n)).
Definition fits (e : ExecutionDTO) : bool :=
  (ed_id e <? 2 ^ 128)%N && (ed_workflow_id e <? 2 ^ 128)%N && (ed_workflow_version_id e <? 2 ^ 128)%N &&
  forallb fits_node (ed_node_executions e).

Lemma any_payload_ok (p : option pydict) : payload_ok Ok Ok p.
Proof. destruct p as [[|x d]|]; [by exists None| |by exists None]. by exists (Some (x :: d)), (x :: d), (x :: d). Qed.

Lemma is_ok_int32 z : is_ok (int32 z) = true → int32_ok z.
Proof. unfold int32, int32_ok. destruct (_ && _) eqn:Hz; [|done]. apply andb_true_iff in Hz as [?%Z.leb_le
  ?%Z.ltb_lt]. done. Qed.

Lemma fits_ok e : fits e = true → execution_ok Ok Ok e.
Proof.
  unfold fits. rewrite !andb_true_iff, !N.ltb_lt, forallb_forall. intros [[[? ?] ?] Hn].
  split; [done|done|done|apply any_payload_ok|]. apply Forall_forall. intros n Hin%list_elem_of_In.
  specialize (Hn n Hin). unfold fits_node in Hn. rewrite !andb_true_iff, !N.ltb_lt in Hn.
  destruct Hn as [[[? ?] ?] ?].
  split; first [done|by apply is_ok_int32|by apply any_payload_ok].
Qed.

(** The running execution of the demo, fetched and deleted through gRPC. *)
Lemma grpc_client_agrees_witness :
  match (client_get_execution demo_grpc 100 7 (demo_world left_queued)).1 with
  | Ok (Some e) => ed_status e = "RUNNING"%string
  | _ => False
  end ∧
  (client_delete_execution demo_grpc 100 7 (demo_world left_queued)).1 = Ok ().
Proof.
  pose proof (@grpc_client_agrees _ _ _ demo_registry pydict Ok Ok (fun _ : pydict => true) Ok
    typed_grpc typed_grpc_laws 100 2 7 [] [] (mkTransitionNodeCommand 100 101 "SUCCEEDED" None None) "left" None 10 0
    (demo_world left_queued) eq_refl eq_refl eq_refl eq_refl eq_refl eq_refl (any_payload_ok None)
    ltac:(done) ltac:(done))
    as (_ & [_ Hget] & _ & _ & _ & _ & [_ Hdel]).
  split.
  - destruct (client_get_execution (LocalExecutionEngineClient demo_registry) 100 7
      (w_close (demo_world left_queued))).1 as [o|e] eqn:Hl; [|vm_compute in Hl; discriminate Hl].
    assert (∃ dto, o = Some dto ∧ ed_status dto = "RUNNING"%string ∧ execution_ok Ok Ok dto) as (dto & -> & Hst &
      Hok).
    { vm_compute in Hl. injection Hl as <-. eexists. split; [reflexivity|]. split; [reflexivity|].
      clear. apply fits_ok. vm_compute. reflexivity. }
    destruct Hget as (o' & -> & HR); [by intros e [= <-]|].
    destruct o' as [e'|]; [|done]. destruct HR as [_ _ ->]. exact Hst.
  - destruct (client_delete_execution (LocalExecutionEngineClient demo_registry) 100 7
      (w_close (demo_world left_queued))).1 as [[]|e] eqn:Hl; [|vm_compute in Hl; discriminate Hl].
    destruct Hdel as (b & -> & <-); done.
Defined.
