(* ===== verification/Guarantees.v ===== *)
(** * Guarantees

    What holds of the committed tables in every reachable state, for every execution,
    whatever the interleaving of workers, recoveries and API calls. *)

From S2P Require Import Prelude Json PyStr Errors Models Registry DagValidator Events Monad Store.
From S2P Require Import LogHelpers StateTransition Tx Machine Publisher Runtime.
From S2P Require Import Downstream Complete Engine Dlq Recovery Abstraction Start Steps System.
From S2P Require Import Evolution Invariant Execute.

(** The status of a node of an execution, by node id. *)
Definition node_status (d : DB) (execution_id : uuid) (x : string) : option NodeExecutionStatus :=
  status_of (rows_of d execution_id) x.

(** The steps the nodes of an execution can still take. *)
Definition exec_weight (d : DB) (execution_id : uuid) : nat :=
  match definition_of d execution_id, abs d execution_id with
  | Some wf, Some a => total_weight wf (m_nodes a)
  | _, _ => 0
  end.

Definition no_manual_retry (op : Op) : Prop := op ≠ OpRetry.

Section views.
Context {Net : Type} (registry : ExecutorRegistry Net) (P : Label → Prop).

(** An execution of the tables and its state of the machine. *)
Lemma exec_machine next d eid wf :
  db_inv registry P next d → definition_of d eid = Some wf →
  ∃ e a, db_executions d !! eid = Some e ∧ abs d eid = Some a ∧ graph_ok registry wf ∧
    machine_reachable P wf a ∧ minv wf a ∧ m_exec a = ex_status e ∧
    (∀ x, m_status (m_nodes a) x = node_status d eid x).
Proof.
  intros Hinv Hdef. unfold definition_of in Hdef.
  destruct (db_executions d !! eid) as [e|] eqn:He; [|done].
  destruct (db_inv_exec _ _ _ _ _ _ Hinv He) as (wf' & a & Hdef' & Ha & Hg & Hr).
  assert (wf' = wf) as ->.
  { unfold definition_of in Hdef'. rewrite He in Hdef'. simpl in *. congruence. }
  exists e, a. split_and!; [done..|by eapply machine_reachable_inv| |].
  - unfold abs in Ha. rewrite He in Ha. by injection Ha as <-.
  - intros x. unfold abs in Ha. rewrite He in Ha. injection Ha as <-. simpl. apply status_of_abs.
Qed.

Lemma exec_has_definition next d eid e :
  db_inv registry P next d → db_executions d !! eid = Some e → ∃ wf, definition_of d eid = Some wf.
Proof. intros Hinv He. destruct (db_inv_exec _ _ _ _ _ _ Hinv He) as (wf & a & ? & _). eauto. Qed.

Lemma node_status_row d eid x st :
  db_wf d → node_status d eid x = Some st ↔
  ∃ n, db_nodes d !! ne_id n = Some n ∧ ne_execution_id n = eid ∧ ne_node_id n = x ∧ ne_status n = st.
Proof.
  intros Hwf. unfold node_status. rewrite status_of_Some. setoid_rewrite rows_of_lookup; [|done].
  naive_solver.
Qed.

Lemma row_node_status d id n :
  db_wf d → db_nodes d !! id = Some n → node_status d (ne_execution_id n) (ne_node_id n) = Some (ne_status n).
Proof.
  intros Hwf Hn. apply node_status_row; [done|]. exists n.
  by rewrite (dw_node_key _ Hwf _ _ Hn).
Qed.

(** The row of a node in the machine. *)
Lemma row_machine next d id n :
  db_inv registry P next d → db_nodes d !! id = Some n →
  ∃ e wf a, db_executions d !! ne_execution_id n = Some e ∧
    definition_of d (ne_execution_id n) = Some wf ∧ abs d (ne_execution_id n) = Some a ∧
    machine_reachable P wf a ∧ minv wf a ∧ m_nodes a !! ne_node_id n = Some (abs_node n).
Proof.
  intros Hinv Hn. pose proof (di_wf _ _ _ _ Hinv) as Hwf.
  destruct (dw_node_exec _ Hwf _ _ Hn) as [e He].
  destruct (exec_has_definition _ _ _ _ Hinv He) as [wf Hdef].
  destruct (exec_machine _ _ _ _ Hinv Hdef) as (e' & a & He' & Ha & _ & Hr & Hm & _ & _).
  exists e, wf, a. split_and!; [done..|]. unfold abs in Ha. rewrite He in Ha. injection Ha as <-.
  simpl. unfold abs_rows. rewrite lookup_fmap.
  assert (rows_of d (ne_execution_id n) !! ne_node_id n = Some n) as ->; [|done].
  apply rows_of_lookup; [done|]. by rewrite (dw_node_key _ Hwf _ _ Hn).
Qed.

(** Without nodes the machine has no step, so such an execution stays as it began. *)
Lemma mrun_empty wf ls a a' : (∀ x, m_nodes a !! x = None) → mrun wf ls a a' → a' = a.
Proof.
  intros Hno Hrun. destruct Hrun as [|l ls s1 s2 s3 Hstep _]; [done|].
  destruct Hstep; by rewrite Hno in *.
Qed.

Lemma empty_is_running next d eid e wf :
  db_inv registry P next d → db_executions d !! eid = Some e → definition_of d eid = Some wf →
  wf_nodes wf = [] → ex_status e = ERUNNING.
Proof.
  intros Hinv He Hdef Hnil.
  destruct (exec_machine _ _ _ _ Hinv Hdef) as (e' & a & He' & _ & _ & (a0 & ls & Hi & Hrun & _) & _ & Hst & _).
  rewrite He in He'. injection He' as <-. destruct Hi as (Hex & Hdom & _).
  assert (a = a0) as ->; [|congruence]. eapply mrun_empty; [|done]. intros x.
  destruct (m_nodes a0 !! x) as [n|] eqn:Hx; [|done]. assert (x ∈ node_ids wf) as Hin by (apply Hdom; eauto).
  unfold node_ids in Hin. rewrite Hnil in Hin. by apply not_elem_of_nil in Hin.
Qed.

(** A running execution has a node that is queued or runs. *)
Lemma running_has_active next d eid e wf :
  db_inv registry P next d → db_executions d !! eid = Some e → ex_status e = ERUNNING →
  definition_of d eid = Some wf → wf_nodes wf ≠ [] →
  ∃ id n, db_nodes d !! id = Some n ∧ ne_execution_id n = eid ∧ ne_status n ∈ [NQUEUED; NRUNNING].
Proof.
  intros Hinv He Hrun Hdef Hne.
  destruct (exec_machine _ _ _ _ Hinv Hdef) as (e' & a & He' & _ & [[_ _ Hends] Hac] & _ & Hm & Hst & Hv).
  rewrite He in He'. injection He' as <-. rewrite <- Hst in Hrun.
  destruct (m_no_deadlock wf a Hm Hends Hac Hrun Hne) as [x Hx].
  assert (∃ st, m_status (m_nodes a) x = Some st ∧ st ∈ [NQUEUED; NRUNNING]) as (st & Hxs & Hin).
  { destruct Hx as [Hx|Hx]; eexists; (split; [exact Hx|]); rewrite !elem_of_cons; auto. }
  rewrite Hv in Hxs. apply node_status_row in Hxs as (n & Hn & Hne' & _ & <-); [|apply Hinv].
  by exists (ne_id n), n.
Qed.

End views.

Section guarantees.
Context {Q : Type} `{QueuePublisher Q} {Net : Type}.
Context (str_exc : exc → string) (set_order : list json → list json)
  (registry : ExecutorRegistry Net).
Hypothesis Hord : ∀ l, set_order l ≡ₚ l.
Implicit Types s : Sys (Q := Q).

Abbreviation reachable := (reachable str_exc set_order registry).
Abbreviation sstep := (sstep str_exc set_order registry).
Abbreviation any_op := (fun _ : Op => True).

Lemma any_inv s : reachable any_op s → db_inv registry (fun _ => True) (sy_next_uuid s) (sy_db s).
Proof using Hord.
  intros Hr. eapply (sv_db registry). by eapply (reachable_sys_inv _ _ _ _ (fun _ => True)).
Qed.

Lemma automatic_sys_inv s : reachable no_manual_retry s → sys_inv registry automatic s.
Proof using Hord.
  intros Hr. eapply (reachable_sys_inv _ _ _ _ automatic); [done|by intros l []|exact Hord|done| |exact Hr].
  by intros [].
Qed.

(** ** Refinement *)

(** C1. The tables refine the abstract machine. A step of the system turns the state of
    every execution that is left into one that a run of the machine for the same
    definition reaches; an execution that is new has a definition that validation
    accepts, and is in a state the machine reaches from an initial one. *)
Theorem system_refines_machine s op s' :
  reachable any_op s → sstep s op s' →
  ∀ eid a', abs (sy_db s') eid = Some a' →
  ∃ wf, definition_of (sy_db s') eid = Some wf ∧ well_formed registry wf ∧ acyclic wf ∧
    match abs (sy_db s) eid with
    | Some a => definition_of (sy_db s) eid = Some wf ∧ ∃ ls, mrun wf ls a a'
    | None => ∃ a0 ls, m_initial wf a0 ∧ mrun wf ls a0 a'
    end.
Proof using Hord.
  intros Hr Hs eid a' Ha'.
  assert (sys_inv registry (fun _ => True) s) as Hinv
    by (by eapply (reachable_sys_inv _ _ _ _ (fun _ => True))).
  assert (step_effect registry (fun _ => True) s s') as [Hev _].
  { by eapply (sstep_effect _ _ _ (fun _ => True)). }
  pose proof (any_inv s Hr) as Hdb.
  assert (db_inv registry (fun _ => True) (sy_next_uuid s') (sy_db s')) as Hdb'
    by (by eapply evolves_db_inv).
  destruct (db_executions (sy_db s') !! eid) as [e'|] eqn:He'; [|unfold abs in Ha'; by rewrite He' in Ha'].
  pose proof (ev_execs _ _ _ _ _ _ Hev _ _ He') as Hcase.
  destruct (di_execs _ _ _ _ Hdb' _ _ Ha') as (wf & Hdef & [Hwf Hac] & _).
  exists wf. split_and!; [done..|]. unfold abs at 1.
  destruct (db_executions (sy_db s) !! eid) as [e|] eqn:He; simpl.
  - destruct Hcase as (Hsame & wf0 & a & a1 & ls & Hd0 & Ha & Ha1 & Hrun & _).
    assert (wf0 = wf) as ->.
    { pose proof (definition_of_same (sy_db s) (sy_db s') eid e e' He He' Hsame
        (ev_versions _ _ _ _ _ _ Hev _ _ _ He He')) as Heq. congruence. }
    split; [done|]. exists ls. unfold abs in Ha. rewrite He in Ha. injection Ha as <-.
    congruence.
  - destruct Hcase as (_ & wf0 & a1 & Hd0 & _ & Ha1 & a0 & ls & Hi & Hrun & _).
    assert (wf0 = wf) as -> by congruence. exists a0, ls. split; [done|]. congruence.
Qed.

(** ** Safety *)

(** C2. A node that was queued, runs, succeeded or is dead-lettered has only parents that
    succeeded. *)
Theorem dependency_safety s eid wf x st p :
  reachable any_op s → definition_of (sy_db s) eid = Some wf →
  node_status (sy_db s) eid x = Some st → st ∈ [NQUEUED; NRUNNING; NSUCCEEDED; NDEAD_LETTERED] →
  wf_edge wf p x → node_status (sy_db s) eid p = Some NSUCCEEDED.
Proof using Hord.
  intros Hr Hdef Hx Hst Hp. pose proof (any_inv s Hr) as Hinv.
  destruct (exec_machine _ _ _ _ _ _ Hinv Hdef) as (e & a & _ & _ & _ & _ & Hm & _ & Hv).
  rewrite <- Hv in *. eapply (mi_started _ _ Hm); [exact Hx| |exact Hp].
  rewrite !elem_of_cons in Hst. by destruct Hst as [-> |[-> |[-> |[-> |?%not_elem_of_nil]]]].
Qed.

(** C7. The children of a skipped node are skipped, so a branch that was not taken never
    runs; and a node waits only while some parent has not succeeded. *)
Theorem skip_closed s eid wf x :
  reachable any_op s → definition_of (sy_db s) eid = Some wf →
  (node_status (sy_db s) eid x = Some NSKIPPED →
     ∀ c, wf_edge wf x c → node_status (sy_db s) eid c = Some NSKIPPED) ∧
  (node_status (sy_db s) eid x = Some NPENDING →
     ∃ p, wf_edge wf p x ∧ node_status (sy_db s) eid p ≠ Some NSUCCEEDED).
Proof using Hord.
  intros Hr Hdef. pose proof (any_inv s Hr) as Hinv.
  destruct (exec_machine _ _ _ _ _ _ Hinv Hdef) as (e & a & _ & _ & _ & _ & Hm & _ & Hv).
  split; rewrite <- Hv; intros Hx.
  - intros c Hc. rewrite <- Hv. by eapply (mi_skipped _ _ Hm).
  - destruct (parents_succeeded_dec wf (m_status (m_nodes a)) x) as [Hp|(p & ? & ?)].
    + by destruct (mi_pending _ _ Hm x Hx).
    + exists p. by rewrite <- Hv.
Qed.

(** C3. What the status of an execution says: a successful one has only succeeded and
    skipped nodes; a running one has no dead-lettered node and, unless its workflow is
    empty, a node with status [QUEUED] or [RUNNING]; there are no other statuses but
    [FAILED]; and an execution of an empty workflow has status [RUNNING] as long as it
    exists. This is about the rows: it is not said that a queued node has a job. *)
Theorem execution_status_meaning s eid e wf :
  reachable any_op s → db_executions (sy_db s) !! eid = Some e →
  definition_of (sy_db s) eid = Some wf →
  match ex_status e with
  | ESUCCEEDED => ∀ x st, node_status (sy_db s) eid x = Some st → st = NSUCCEEDED ∨ st = NSKIPPED
  | ERUNNING => (∀ x, node_status (sy_db s) eid x ≠ Some NDEAD_LETTERED) ∧
      (wf_nodes wf ≠ [] → ∃ x, node_status (sy_db s) eid x = Some NQUEUED ∨
                               node_status (sy_db s) eid x = Some NRUNNING)
  | EFAILED => True
  | _ => False
  end ∧
  (wf_nodes wf = [] → ex_status e = ERUNNING).
Proof using Hord.
  intros Hr He Hdef. pose proof (any_inv s Hr) as Hinv.
  split; [|by eapply empty_is_running].
  destruct (exec_machine _ _ _ _ _ _ Hinv Hdef) as (e' & a & He' & _ & [[_ _ Hends] Hac] & _ & Hm & Hst & Hv).
  rewrite He in He'. injection He' as <-. rewrite <- Hst.
  pose proof (mi_exec _ _ Hm) as Hex. rewrite !elem_of_cons in Hex.
  destruct Hex as [Hex|[Hex|[Hex|?%not_elem_of_nil]]]; [..|done]; rewrite Hex; [..|done].
  - split.
    + intros x Hx. rewrite <- Hv in Hx. destruct (mi_running _ _ Hm Hex) as [Hb _].
      apply Hb, some_bad_status. by exists x, NDEAD_LETTERED.
    + intros Hne. destruct (m_no_deadlock wf a Hm Hends Hac Hex Hne) as [x Hx].
      exists x. by rewrite <- Hv.
  - intros x st. rewrite <- Hv. by apply (mi_succeeded _ _ Hm).
Qed.

(** C8. The statuses that stay: once a node has succeeded or was skipped it keeps that
    status as long as its execution exists. *)
Theorem settled_nodes_stay s op s' eid x st :
  reachable any_op s → sstep s op s' →
  node_status (sy_db s) eid x = Some st → st ∈ [NSUCCEEDED; NSKIPPED] →
  is_Some (db_executions (sy_db s') !! eid) → node_status (sy_db s') eid x = Some st.
Proof using Hord.
  intros Hr Hs Hx Hst [e' He']. pose proof (any_inv s Hr) as Hdb.
  assert (sys_inv registry (fun _ => True) s) as Hinv
    by (by eapply (reachable_sys_inv _ _ _ _ (fun _ => True))).
  assert (step_effect registry (fun _ => True) s s') as [Hev _].
  { by eapply (sstep_effect _ _ _ (fun _ => True)). }
  pose proof (ev_execs _ _ _ _ _ _ Hev _ _ He') as Hcase.
  apply node_status_row in Hx as (n & Hn & Hne & Hnx & Hns); [|apply Hdb].
  destruct (dw_node_exec _ (di_wf _ _ _ _ Hdb) _ _ Hn) as [e He]. rewrite Hne in He.
  rewrite He in Hcase. destruct Hcase as (_ & wf & a & a' & ls & _ & Ha & Ha' & Hrun & _).
  unfold abs in Ha, Ha'. rewrite He in Ha. rewrite He' in Ha'. injection Ha as <-. injection Ha' as <-.
  pose proof (mrun_settled _ _ _ _ x st Hrun) as Hset. simpl in Hset. rewrite !status_of_abs in Hset.
  apply Hset.
  - change (node_status (sy_db s) eid x = Some st). apply node_status_row; [apply Hdb|]. eauto.
  - rewrite !elem_of_cons in Hst. destruct Hst as [->|[->|?%not_elem_of_nil]]; [by left|by right|done].
Qed.

(** C10. Every committed node row is in one of six statuses (never [FAILED] or [RETRYING],
    which a transaction only passes through), and at most one dead letter job of a node
    is open, for a node that is dead-lettered. *)
Theorem committed_rows s :
  reachable any_op s →
  (∀ id n, db_nodes (sy_db s) !! id = Some n → ne_status n ∉ [NFAILED; NRETRYING]) ∧
  (∀ k j, db_dlq (sy_db s) !! k = Some j → dl_resolved_at j = None →
     ∃ n, db_nodes (sy_db s) !! dl_node_execution_id j = Some n ∧ ne_status n = NDEAD_LETTERED ∧
          ne_execution_id n = dl_execution_id j) ∧
  (∀ id, (size (unresolved_jobs (sy_db s) id) ≤ 1)%nat).
Proof using Hord.
  intros Hr. pose proof (any_inv s Hr) as Hinv. pose proof (di_wf _ _ _ _ Hinv) as Hwf.
  pose proof (di_dlq _ _ _ _ Hinv) as [Hdead Hu]. split_and!.
  - intros id n Hn. destruct (row_machine _ _ _ _ _ _ Hinv Hn) as (_ & wf & a & _ & _ & _ & _ & Hm & Hx).
    assert (m_status (m_nodes a) (ne_node_id n) = Some (ne_status n)) as Hs
      by (apply m_status_Some; eauto).
    pose proof (mi_status _ _ Hm _ _ Hs) as Hc. rewrite !elem_of_cons.
    intros [Hc'|[Hc'|?%not_elem_of_nil]]; [| |done]; rewrite Hc' in Hc; by destruct Hc as [|[|]].
  - intros k j Hj Ho. destruct (Hdead _ _ Hj Ho) as (n & Hn & Hs).
    destruct (dw_dlq _ Hwf _ _ Hj) as (n' & Hn' & He). exists n. split_and!; [done..|congruence].
  - intros id. destruct (decide (size (unresolved_jobs (sy_db s) id) ≤ 1)%nat) as [|Hc]; [done|]. exfalso.
    destruct (map_to_list (unresolved_jobs (sy_db s) id)) as [|[k1 j1] [|[k2 j2] l]] eqn:Hl.
    + apply map_to_list_empty_iff in Hl. rewrite Hl, map_size_empty in Hc. lia.
    + rewrite <- length_map_to_list, Hl in Hc. simpl in Hc. lia.
    + pose proof (NoDup_fst_map_to_list (unresolved_jobs (sy_db s) id)) as Hnd. rewrite Hl in Hnd.
      apply NoDup_cons in Hnd as [Hk _]. apply Hk. simpl.
      assert (∀ k j, (k, j) ∈ map_to_list (unresolved_jobs (sy_db s) id) →
        db_dlq (sy_db s) !! k = Some j ∧ dl_node_execution_id j = id ∧ dl_resolved_at j = None) as Hin.
      { intros k j Hkj. apply elem_of_map_to_list in Hkj. unfold unresolved_jobs in Hkj.
        apply map_lookup_filter_Some in Hkj. done. }
      destruct (Hin k1 j1) as (H1 & N1 & R1); [rewrite Hl; by left|].
      destruct (Hin k2 j2) as (H2 & N2 & R2); [rewrite Hl; by right; left|].
      rewrite (Hu k1 k2 j1 j2 H1 H2 R1 R2) by congruence. by left.
Qed.

(** ** Without manual retries *)


(** C9. Unless a user retries a node, an execution has failed exactly when one of its
    nodes is dead-lettered. *)
Theorem failed_iff_dead_lettered s eid e :
  reachable no_manual_retry s → db_executions (sy_db s) !! eid = Some e →
  (ex_status e = EFAILED ↔ ∃ x, node_status (sy_db s) eid x = Some NDEAD_LETTERED).
Proof using Hord.
  intros Hr He. pose proof (sv_db _ _ _ (automatic_sys_inv s Hr)) as Hinv.
  destruct (exec_has_definition _ _ _ _ _ _ Hinv He) as [wf Hdef].
  destruct (exec_machine _ _ _ _ _ _ Hinv Hdef) as
    (e' & a & He' & _ & _ & (a0 & ls & Hi & Hrun & Hl) & Hm & Hst & Hv).
  rewrite He in He'. injection He' as <-. rewrite <- Hst. setoid_rewrite <- Hv. split.
  - intros Hf. assert (some_bad (m_nodes a)) as Hb.
    { eapply mrun_failed; [exact Hrun|exact Hl| |exact Hf]. destruct Hi as (Hrn & _). by rewrite Hrn. }
    apply some_bad_status in Hb as (x & st & Hx & Hb). exists x. rewrite Hx. f_equal.
    destruct (mi_status _ _ Hm _ _ Hx) as [Hs|[-> | ->]]; [|done..]. by destruct st.
  - intros [x Hx]. pose proof (mi_exec _ _ Hm) as Hex. rewrite !elem_of_cons in Hex.
    destruct Hex as [Hex|[Hex|[Hex|?%not_elem_of_nil]]]; [| |done|done].
    + destruct (mi_running _ _ Hm Hex) as [Hb _]. exfalso. apply Hb, some_bad_status.
      by exists x, NDEAD_LETTERED.
    + by destruct (mi_succeeded _ _ Hm Hex _ _ Hx).
Qed.

(** C4. Executions use themselves up: in a history without manual retries, every step that is
    no recovery and changes the nodes or the status of an execution uses up some of its
    weight, which is at most 21 for each node of the workflow, and none adds any. So at
    most 21 claims and completions per node happen between two recoveries. *)
Theorem execution_progress s op s' eid :
  reachable no_manual_retry s → sstep s op s' → op ≠ OpRetry → op ≠ OpRecover →
  is_Some (db_executions (sy_db s) !! eid) → is_Some (db_executions (sy_db s') !! eid) →
  (abs (sy_db s') eid = abs (sy_db s) eid ∨
   (exec_weight (sy_db s') eid < exec_weight (sy_db s) eid)%nat) ∧
  ∃ wf, definition_of (sy_db s) eid = Some wf ∧
        (exec_weight (sy_db s) eid ≤ 21 * length (wf_nodes wf))%nat.
Proof using Hord.
  intros Hr Hs Hop1 Hop2 [e He] [e' He']. pose proof (automatic_sys_inv s Hr) as Hinv.
  pose proof (sv_db _ _ _ Hinv) as Hdb.
  assert (step_effect registry work s s') as [Hev _].
  { eapply (sstep_effect _ _ _ automatic work); [by intros l []|done|exact Hord|exact Hinv|exact Hs|done|done]. }
  pose proof (ev_execs _ _ _ _ _ _ Hev _ _ He') as Hcase. rewrite He in Hcase.
  destruct Hcase as (Hsame & wf & a & a' & ls & Hdef & Ha & Ha' & Hrun & Hls).
  destruct (exec_machine _ _ _ _ _ _ Hdb Hdef) as (e0 & a1 & _ & Ha1 & [[_ _ Hends] _] &
    (a0 & ls0 & Hi & Hrun0 & Hl0) & Hm & _ & _).
  rewrite Ha in Ha1. injection Ha1 as <-.
  assert (attempts_ok a) as Hok by (eapply mrun_attempts; [exact Hrun0|exact Hl0|by eapply m_initial_attempts]).
  assert (definition_of (sy_db s') eid = Some wf) as Hdef'.
  { rewrite <- Hdef. apply (definition_of_same (sy_db s) (sy_db s') eid e e'); [done..|by eapply (ev_versions _ _ _ _ _ _ Hev)]. }
  unfold exec_weight. rewrite Hdef, Hdef', Ha, Ha'. split.
  - destruct ls as [|l ls]; [left; by inversion Hrun|right].
    pose proof (mrun_weight _ _ _ _ Hends Hrun Hls Hm Hok). simpl in *. lia.
  - exists wf. split; [done|]. by apply total_weight_bound.
Qed.

End guarantees.

(** ** Witnesses

    One execution of [pick_workflow]: the condition chooses the left branch; then the
    left task fails as often as its policy allows. *)

Example left_dead_statuses :
  let d := sy_db (demo_run left_dead) in
  (node_status d 100 <$> ["pick"; "left"; "right"; "report"; "audit"]%string) =
    [Some NSUCCEEDED; Some NDEAD_LETTERED; Some NSKIPPED; Some NPENDING; Some NSKIPPED] ∧
  ex_status <$> db_executions d !! 100%N = Some EFAILED ∧ size (db_dlq d) = 1.
Proof. vm_compute. done. Qed.

Lemma system_refines_machine_witness :
  let s := demo_run pick_left in
  let s' := demo_run (pick_left ++ [AComplete 1]) in
  match abs (sy_db s) 100, abs (sy_db s') 100 with
  | Some a, Some a' => ∃ wf ls, mrun wf ls a a'
  | _, _ => False
  end.
Proof.
  intros s s'.
  assert (sstep demo_exc id demo_registry s OpComplete s') as Hs
    by (apply demo_run_step; vm_compute; reflexivity).
  destruct (abs (sy_db s') 100) as [a'|] eqn:Ha'; [|vm_compute in Ha'; discriminate].
  destruct (system_refines_machine demo_exc id demo_registry (fun l => Permutation_refl l) s _ s'
    (demo_run_reachable pick_left) Hs _ _ Ha') as (wf & _ & _ & _ & Hc).
  destruct (abs (sy_db s) 100) as [a|] eqn:Ha; [|vm_compute in Ha; discriminate].
  destruct Hc as [_ [ls Hls]]. by exists wf, ls.
Defined.

Lemma dependency_safety_witness :
  node_status (sy_db (demo_run left_queued)) 100 "left" = Some NQUEUED ∧
  node_status (sy_db (demo_run left_queued)) 100 "pick" = Some NSUCCEEDED.
Proof.
  assert (node_status (sy_db (demo_run left_queued)) 100 "left" = Some NQUEUED) as Hl
    by (vm_compute; reflexivity).
  split; [exact Hl|].
  apply (dependency_safety demo_exc id demo_registry (fun l => Permutation_refl l) (demo_run left_queued)
    100 pick_workflow "left" NQUEUED "pick"); [apply demo_run_reachable|vm_compute; reflexivity|exact Hl|by left|].
  unfold wf_edge. by left.
Defined.

Lemma skip_closed_witness :
  node_status (sy_db (demo_run left_queued)) 100 "audit" = Some NSKIPPED.
Proof.
  apply (skip_closed demo_exc id demo_registry (fun l => Permutation_refl l) (demo_run left_queued) 100
    pick_workflow "right"); [apply demo_run_reachable|vm_compute; reflexivity|vm_compute; reflexivity|].
  unfold wf_edge. simpl. do 3 right. by left.
Defined.

Lemma execution_status_meaning_witness :
  ∃ x, node_status (sy_db (demo_run left_queued)) 100 x = Some NQUEUED ∨
       node_status (sy_db (demo_run left_queued)) 100 x = Some NRUNNING.
Proof.
  destruct (db_executions (sy_db (demo_run left_queued)) !! 100%N) as [e|] eqn:He;
    [|vm_compute in He; discriminate].
  assert (definition_of (sy_db (demo_run left_queued)) 100 = Some pick_workflow) as Hd
    by (vm_compute; reflexivity).
  assert (ex_status e = ERUNNING) as Hst by (vm_compute in He; injection He as <-; reflexivity).
  pose proof (execution_status_meaning demo_exc id demo_registry (fun l => Permutation_refl l)
    (demo_run left_queued) 100 e pick_workflow (demo_run_reachable left_queued) He Hd) as H.
  rewrite Hst in H. destruct H as [[_ H] _]. by apply H.
Defined.

Lemma settled_nodes_stay_witness :
  node_status (sy_db (demo_run (left_queued ++ [AClaim 2 (demo_message 100 102 "left" 1)]))) 100 "pick"
    = Some NSUCCEEDED.
Proof.
  apply (settled_nodes_stay demo_exc id demo_registry (fun l => Permutation_refl l)
    (demo_run left_queued) OpClaim).
  - apply demo_run_reachable.
  - apply demo_run_step. vm_compute. reflexivity.
  - vm_compute. reflexivity.
  - by left.
  - vm_compute. by eexists.
Defined.

Lemma committed_rows_witness :
  (size (unresolved_jobs (sy_db (demo_run left_dead)) 102) = 1)%nat ∧
  ∀ id, (size (unresolved_jobs (sy_db (demo_run left_dead)) id) ≤ 1)%nat.
Proof.
  split; [vm_compute; reflexivity|].
  apply (committed_rows demo_exc id demo_registry (fun l => Permutation_refl l) (demo_run left_dead)
    (demo_run_reachable left_dead)).
Defined.


Lemma failed_iff_dead_lettered_witness :
  match db_executions (sy_db (demo_run left_dead)) !! 100%N with
  | Some e => ex_status e = EFAILED
  | None => False
  end.
Proof.
  destruct (db_executions (sy_db (demo_run left_dead)) !! 100%N) as [e|] eqn:He;
    [|vm_compute in He; discriminate].
  apply (failed_iff_dead_lettered demo_exc id demo_registry (fun l => Permutation_refl l) (demo_run left_dead)
    100 e); [by apply demo_run_automatic|exact He|].
  exists "left"%string. vm_compute. reflexivity.
Defined.

Lemma execution_progress_witness :
  (exec_weight (sy_db (demo_run left_queued)) 100 ≤ 105)%nat.
Proof.
  destruct (execution_progress demo_exc id demo_registry (fun l => Permutation_refl l)
    (demo_run left_queued) OpClaim
    (demo_run (left_queued ++ [AClaim 2 (demo_message 100 102 "left" 1)])) 100)
    as (_ & wf & Hdef & Hb).
  - by apply demo_run_automatic.
  - apply demo_run_step. vm_compute. reflexivity.
  - done.
  - done.
  - vm_compute. by eexists.
  - vm_compute. by eexists.
  - assert (definition_of (sy_db (demo_run left_queued)) 100 = Some pick_workflow) as Hd
      by (vm_compute; reflexivity).
    rewrite Hd in Hdef. injection Hdef as <-. exact Hb.
Defined.
