(* ===== verification/Liveness.v ===== *)
(** * Executions come to an end

    [execution_progress] bounds the steps between two recoveries. Here a second measure,
    the attempts that are left, does not grow even when a job is recovered; and a worker
    that is handed the job of a node and is not interrupted always uses an attempt up,
    whatever the executor answers. So a running execution ends after a bounded number of
    deliveries, provided that the branches of its condition nodes are values Python can
    hash: a job of any other condition raises each time it is delivered. *)

From S2P Require Import Prelude Json PyStr Errors Models Registry DagValidator Events Monad Store.
From S2P Require Import LogHelpers StateTransition Tx Machine Publisher Runtime.
From S2P Require Import Downstream Complete Engine Dlq Recovery Abstraction Start Steps System.
From S2P Require Import Evolution Invariant Execute Delivery Guarantees.

(** ** The attempts that are left *)

Definition attempts_left (o : option ANode) : nat :=
  match o with
  | None => 0
  | Some n =>
      match an_status n with
      | NPENDING => Z.to_nat (an_max n)
      | NQUEUED | NRUNNING => Z.to_nat (an_max n - an_attempt n + 1)
      | _ => 0
      end
  end.

Definition total_left (wf : WorkflowDefinition) (nodes : gmap string ANode) : nat :=
  sum_list_with (fun x => attempts_left (nodes !! x)) (node_ids wf).

Definition is_running (nodes : gmap string ANode) (y : string) : Prop :=
  m_status nodes y = Some NRUNNING.

(** No step takes from a node less than nothing, and a node that stops running has used
    an attempt up unless it was recovered. *)
Lemma mstep_left wf l s s' y :
  attempts_ok s → l ≠ LManualRetry → mstep wf l s s' →
  (attempts_left (m_nodes s' !! y) ≤ attempts_left (m_nodes s !! y))%nat ∧
  (l ≠ LRecover → is_running (m_nodes s) y → ¬ is_running (m_nodes s') y →
   (attempts_left (m_nodes s' !! y) < attempts_left (m_nodes s !! y))%nat).
Proof.
  intros Hok Hl Hstep. unfold is_running.
  assert (∀ e e' nodes x n n', nodes !! x = Some n →
    s = mkMState e nodes → s' = mkMState e' (<[x := n']> nodes) →
    (attempts_left (Some n') ≤ attempts_left (Some n))%nat →
    (l ≠ LRecover → an_status n = NRUNNING → an_status n' ≠ NRUNNING →
       (attempts_left (Some n') < attempts_left (Some n))%nat) →
    (attempts_left (m_nodes s' !! y) ≤ attempts_left (m_nodes s !! y))%nat ∧
    (l ≠ LRecover → m_status (m_nodes s) y = Some NRUNNING →
     m_status (m_nodes s') y ≠ Some NRUNNING →
     (attempts_left (m_nodes s' !! y) < attempts_left (m_nodes s !! y))%nat)) as Hmove.
  { intros e e' nodes x n n' Hx -> -> Hle Hlt. simpl. unfold m_status. rewrite lookup_insert.
    case_decide as Hxy; [subst; rewrite Hx|by split].
    split; [done|]. simpl. intros Hr [= H1] H2. apply Hlt; congruence. }
  destruct Hstep as
    [e nodes x n Hx Hs|e e' nodes nodes' x n seed Hx Hs Hadv Hfin|e nodes x n Hx Hs Ha
    |e e' nodes x n Hx Hs Ha He|e nodes x n Hx Hs|e nodes x n Hx Hs]; [..|done];
    pose proof (Hok x n Hx) as (Hmax & _ & Hstart); rewrite Hs in Hstart; simpl in Hstart;
    specialize (Hstart eq_refl).
  2:{ clear Hmove. simpl in *.
      assert (m_status (<[x := a_enter NSUCCEEDED n]> nodes) x = Some NSUCCEEDED) as Hsx
        by (by rewrite m_status_insert, decide_True).
      destruct (decide (x = y)) as [<-|Hxy].
      - assert (attempts_left (nodes' !! x) = 0) as ->.
        { destruct (Hadv x) as [[Hr _]|[(_ & _ & [Hr _] & _)|(_ & _ & ->)]].
          - apply skip_reach_pending in Hr. congruence.
          - congruence.
          - by rewrite lookup_insert_eq. }
        rewrite Hx. simpl. rewrite Hs. lia.
      - assert (m_status (<[x := a_enter NSUCCEEDED n]> nodes) y = m_status nodes y) as Hsy
          by (by rewrite m_status_insert, decide_False).
        destruct (Hadv y) as [[Hr Heq]|[(_ & _ & [Hr _] & Heq)|(_ & _ & Heq)]];
          rewrite lookup_insert_ne in Heq by done.
        + apply skip_reach_pending in Hr. rewrite Hsy in Hr.
          split; [rewrite Heq; destruct (nodes !! y); simpl; lia|]. intros _. congruence.
        + rewrite Hsy in Hr. split; [|intros _; congruence]. apply m_status_Some in Hr as (k & Hk & Hp).
          rewrite Heq, Hk. simpl. rewrite Hp. destruct (Hok y k Hk) as (Hm & H0 & _).
          rewrite Hp, elem_of_cons in H0. specialize (H0 (or_introl eq_refl)). lia.
        + split; [by rewrite Heq|]. intros _ Hy Hn. destruct Hn. unfold m_status in *. by rewrite Heq. }
  all: eapply Hmove; [exact Hx|done|done| |]; simpl; rewrite Hs; [lia|]; simpl; intros; try done; lia.
Qed.

Lemma mrun_left wf ls s s' y :
  mrun wf ls s s' → Forall automatic ls → attempts_ok s →
  (attempts_left (m_nodes s' !! y) ≤ attempts_left (m_nodes s !! y))%nat ∧
  (Forall work ls → is_running (m_nodes s) y → ¬ is_running (m_nodes s') y →
   (attempts_left (m_nodes s' !! y) < attempts_left (m_nodes s !! y))%nat).
Proof.
  induction 1 as [|l ls s1 s2 s3 Hs Hr IH]; [by split|]. intros [Hl Hls]%Forall_cons Hok.
  destruct (mstep_left _ _ _ _ y Hok Hl Hs) as [Hle Hlt].
  destruct (IH Hls) as [Hle' Hlt']; [by eapply mstep_attempts|]. split; [lia|].
  intros [[_ Hw] Hws]%Forall_cons Hrun Hno.
  destruct (decide (m_status (m_nodes s2) y = Some NRUNNING)) as [Hy|Hy].
  - specialize (Hlt' Hws Hy Hno). lia.
  - specialize (Hlt Hw Hrun Hy). lia.
Qed.

Lemma total_left_le wf nodes nodes' :
  (∀ y, attempts_left (nodes' !! y) ≤ attempts_left (nodes !! y))%nat →
  (total_left wf nodes' ≤ total_left wf nodes)%nat.
Proof. intros H. by apply sum_list_with_le. Qed.

Lemma total_left_lt wf nodes nodes' x :
  x ∈ node_ids wf → (attempts_left (nodes' !! x) < attempts_left (nodes !! x))%nat →
  (∀ y, attempts_left (nodes' !! y) ≤ attempts_left (nodes !! y))%nat →
  (total_left wf nodes' < total_left wf nodes)%nat.
Proof. intros Hx Hlt Hle. by apply (sum_list_with_lt _ _ _ x). Qed.

Lemma total_left_bound wf s :
  attempts_ok s → (total_left wf (m_nodes s) ≤ 10 * length (wf_nodes wf))%nat.
Proof.
  intros Hok. unfold total_left. rewrite <- (length_fmap node_id (wf_nodes wf)).
  change (node_id <$> wf_nodes wf) with (node_ids wf).
  induction (node_ids wf) as [|x l IH]; [simpl; lia|].
  assert (attempts_left (m_nodes s !! x) ≤ 10)%nat as Hx.
  { unfold attempts_left. destruct (m_nodes s !! x) as [n|] eqn:Hn; [|lia].
    destruct (Hok x n Hn) as (Hm & _ & Hs). unfold max_ok in Hm.
    destruct (an_status n); simpl in *; try lia; specialize (Hs eq_refl); lia. }
  simpl. lia.
Qed.

(** The measure of an execution of the tables. *)
Definition exec_left (d : DB) (execution_id : uuid) : nat :=
  match definition_of d execution_id, abs d execution_id with
  | Some wf, Some a => total_left wf (m_nodes a)
  | _, _ => 0
  end.

(** ** What an uninterrupted worker does *)

(** Python can hash the paths of every condition. *)
Definition path_of (k : string) (n : Node) : json := default JNull (dict_get k (node_config n)).

Definition plain_branches (wf : WorkflowDefinition) : Prop :=
  ∀ n, n ∈ wf_nodes wf → node_type n = "condition"%string →
    hashable (path_of "true_path" n) = true ∧ hashable (path_of "false_path" n) = true.

Lemma skip_seeds_plain wf n result :
  plain_branches wf → n ∈ wf_nodes wf → ∃ seeds, skip_seeds n result = Ok seeds.
Proof.
  intros Hp Hn. unfold skip_seeds. destruct (String.eqb_spec (node_type n) "condition") as [Ht|]; [|eauto].
  destruct (Hp n Hn Ht) as [H1 H2]. unfold path_of in *. cbn [foldM]. cbv zeta.
  repeat (rewrite ?H1, ?H2; cbn [mbind res_bind]; case_match); eauto.
Qed.

(** The node a job looks its definition up with. *)
Lemma node_def_by_id_Some wf x :
  x ∈ node_ids wf → ∃ n, node_def_by_id wf !! x = Some n ∧ n ∈ wf_nodes wf.
Proof.
  unfold node_def_by_id, node_ids. generalize (wf_nodes wf). intros l.
  induction l as [|n l IH] using rev_ind; [by intros ?%not_elem_of_nil|].
  rewrite fmap_app, foldl_app, elem_of_app. simpl. intros Hx. rewrite lookup_insert.
  case_decide as Heq; [exists n; split; [done|]; rewrite elem_of_app, elem_of_cons; auto|].
  destruct Hx as [Hx|[->|?%not_elem_of_nil]%elem_of_cons]; [|done|done].
  destruct (IH Hx) as (m & Hm & Hin). exists m. rewrite elem_of_app. auto.
Qed.

(** A message of the node's job: it parses, and names the node and its execution. *)
Definition message_of (fs : fields) (id : uuid) (n : NodeExecution) : Prop :=
  ∃ j, deserialize_job_payload fs = Ok j ∧ job_node_execution_id j = id ∧
       job_execution_id j = ne_execution_id n.

Section delivery.
Context {Q : Type} `{QueuePublisher Q} {Net : Type}.
Context (str_exc : exc → string) (set_order : list json → list json)
  (registry : ExecutorRegistry Net).
Hypothesis Hord : ∀ l, set_order l ≡ₚ l.
Implicit Types w : World Q.

Local Abbreviation tx_ok := (fresh_tx registry automatic).

(** The node's row, as the session of the worker has it too. *)
Definition held (id : uuid) (n : NodeExecution) w : Prop :=
  s_nodes (w_session w) !! id = Some n ∧ s_execs (w_session w) = ∅ ∧
  db_nodes (w_committed w) !! id = Some n ∧ ne_status n = NRUNNING.

Lemma claim_ready fs id n w :
  tx_ok w → synced w → s_execs (w_session w) = ∅ → message_of fs id n →
  db_nodes (w_db w) !! id = Some n → ne_status n = NQUEUED →
  ∃ w' n', claim_job fs w = (Ok (Some id), w') ∧ held id n' w' ∧ ne_execution_id n' = ne_execution_id n.
Proof.
  intros [Hinv Hc] Hs Hex (j & Hj & Hid & He) Hn Hst.
  destruct (wp_total_run (claim_job fs) (fun r w' => r = Some id ∧
    ∃ n', held id n' w' ∧ ne_execution_id n' = ne_execution_id n) w) as (r & w' & Hr & -> & n' & Hh & ?);
    [|by exists w', n'].
  apply wp_claim_job; [apply Hinv|done|..].
  - intros j' w' Hj' Hterm _ _ _ _. exfalso. rewrite Hj in Hj'. injection Hj' as <-.
    rewrite Hid in Hterm. specialize (Hterm _ Hn). rewrite Hst in Hterm.
    unfold TERMINAL_NODE_STATUSES in Hterm. rewrite !elem_of_cons, elem_of_nil in Hterm. naive_solver.
  - intros e w' Href _ _. unfold claim_refused in Href. rewrite Hj, Hid in Href.
    destruct Href as (m & Hm & Hne). congruence.
  - intros id' m w' Hm Hms (j' & Hj' & Hid') (w1 & Hw & Hq). rewrite Hj in Hj'. injection Hj' as <-.
    rewrite Hid in Hid'. subst id'. rewrite Hn in Hm. injection Hm as <-. split; [done|].
    exists (entered (w_now w) NRUNNING n). split; [|done]. split_and!.
    + rewrite (qu_nodes _ _ Hq). simpl. apply Hw.
    + rewrite (qu_execs _ _ Hq). simpl. rewrite (wr_s_execs _ _ _ _ Hw). done.
    + rewrite (qu_committed _ _ Hq). simpl. rewrite (wr_nodes _ _ _ _ Hw). by rewrite lookup_insert_eq.
    + done.
Qed.

Lemma recover_ready fs mid prev me id n w :
  tx_ok w → synced w → s_execs (w_session w) = ∅ → message_of fs id n →
  db_nodes (w_db w) !! id = Some n → ne_status n ∈ [NQUEUED; NRUNNING] →
  ∃ w' n', recover_job fs mid prev me w = (Ok true, w') ∧ tx_ok w' ∧ synced w' ∧
    s_execs (w_session w') = ∅ ∧ db_nodes (w_db w') !! id = Some n' ∧ ne_status n' = NQUEUED ∧
    ne_execution_id n' = ne_execution_id n.
Proof.
  intros Hft Hs Hex (j & Hj & Hid & He) Hn Hst. pose proof Hft as [Hinv Hc].
  assert (ne_status n ∉ TERMINAL_NODE_STATUSES) as Hterm.
  { unfold TERMINAL_NODE_STATUSES. rewrite !elem_of_cons, elem_of_nil in *. naive_solver congruence. }
  destruct (recover_job fs mid prev me w) as [r w'] eqn:Hr.
  assert (r = Ok true ∧ s_execs (w_session w') = ∅ ∧ ∃ n', db_nodes (w_db w') !! id = Some n' ∧ ne_status n' = NQUEUED ∧
    ne_execution_id n' = ne_execution_id n) as (-> & Hex' & n' & Hn' & Hst' & He').
  { apply (wp_adequate _ (fun r w' => r = Ok true ∧ s_execs (w_session w') = ∅ ∧ ∃ n', _) _ _ _ Hr).
    apply wp_recover_job; [apply Hinv|done|done|..].
    - intros e w1 Href. unfold recover_refused in Href. rewrite Hj, Hid, He in Href.
      rewrite (log_refers_true _ _ _ n) in Href; [done|apply Hinv|done|done].
    - intros j' w1 Hj' Hall. rewrite Hj in Hj'. injection Hj' as <-. rewrite Hid in Hall.
      by destruct Hterm; apply Hall.
    - intros w1 i m d1 (j' & Hj' & Hi) _ _ _ Hx1 _ _ Hnodes Hm _ Hcase. rewrite Hj in Hj'.
      injection Hj' as <-. rewrite Hid in Hi. subst i. rewrite Hn in Hm. injection Hm as <-.
      split; [done|]. split; [congruence|]. destruct Hcase as [[Hne Hq]|(_ & Hrow & _)].
      + rewrite <- Hnodes in Hn. destruct (db_quiet_lookup_inv _ _ _ _ Hq Hn) as (n1 & Hn1 & (_ & E1 & _) & E2 & _).
        exists n1. split_and!; [done| |congruence]. rewrite !elem_of_cons, elem_of_nil in Hst.
        destruct Hst as [?|[?|[]]]; congruence.
      + exists (set_status NQUEUED n). rewrite Hrow, lookup_insert_eq. done. }
  destruct (recover_evolved registry automatic automatic (fun _ h => h)
    fs mid prev me w (Ok true) w') as [_ Hok]; [done..|].
  destruct Hok as (Hft' & Hs' & _); [done|]. by exists w', n'.
Qed.

Lemma load_ready net id n w :
  tx_ok w → held id n w → 
  ∃ w' ld result, load_and_execute str_exc registry net id w = (Ok (ld, result), w') ∧
    w_committed w' = w_committed w ∧ ld_node ld = id ∧ ex_id (ld_execution ld) = ne_execution_id n ∧
    definition_of (w_db w) (ne_execution_id n) = Some (ld_definition ld) ∧
    ld_node_def ld ∈ wf_nodes (ld_definition ld) ∧
    is_Some (s_execs (w_session w') !! ne_execution_id n).
Proof.
  intros [Hinv Hc] (Hobj & Hex & Hn & Hst). rewrite Hc in Hn.
  pose proof (di_wf _ _ _ _ Hinv) as Hwf.
  destruct (row_machine _ _ _ _ _ _ Hinv Hn) as (e & wf & a & He & Hdef & Ha & Hr & Hm & Hx).
  assert (∃ v, db_versions (w_db w) !! ex_workflow_version_id e = Some v ∧ wv_definition v = wf) as (v & Hv & Hd).
  { unfold definition_of in Hdef. rewrite He in Hdef. simpl in Hdef. by apply fmap_Some in Hdef as (v & ? & ->); exists v. }
  assert (ne_node_id n ∈ node_ids wf) as Hin by (apply (mi_dom _ _ Hm); by rewrite Hx).
  destruct (node_def_by_id_Some _ _ Hin) as (nd & Hnd & Hndin).
  destruct (db_inv_exec _ _ _ _ _ _ Hinv He) as (wf' & a' & Hdef' & _ & [Hok _] & _).
  rewrite Hdef in Hdef'. injection Hdef' as <-.
  destruct (wp_total_run (load_and_execute str_exc registry net id) (fun r w' =>
    w_committed w' = w_committed w ∧ ld_node r.1 = id ∧ ex_id (ld_execution r.1) = ne_execution_id n ∧
    ld_definition r.1 = wf ∧ ld_node_def r.1 ∈ wf_nodes wf ∧
    is_Some (s_execs (w_session w') !! ne_execution_id n)) w) as ([ld result] & w' & Hrun & H1 & H2 & H3 & H4 & H5 & H6).
  - unfold load_and_execute. apply wp_bind. eapply wp_load_job; [exact Hobj|exact Hex|..].
    { intros x w' Href _ _ _. specialize (Href e v He Hv). rewrite Hd, Hnd in Href. done. }
    intros ld e' v' w' Hdb Hc' _ _ _ He' Hv' Hle Hld Hln Hdn Hob.
    rewrite He in He'. injection He' as <-. rewrite Hv in Hv'. injection Hv' as <-.
    rewrite Hd in Hdn, Hld. rewrite Hnd in Hdn. injection Hdn as ->.
    apply wp_bind, wp_lift. unfold run_executor.
    pose proof (wf_accepted _ _ Hok) as Hacc. rewrite Forall_forall in Hacc.
    destruct (Hacc _ Hndin) as (ex & u & Hreg & _). rewrite Hreg. cbn [mbind res_bind].
    apply wp_ret. simpl. rewrite Hle, (dw_exec_key _ Hwf _ _ He). rewrite Hob.
    split_and!; [congruence|congruence|done|congruence|done|by eexists].
  - simpl in *. exists w', ld, result. rewrite H4. done.
Qed.

(** A completion of a node that is running succeeds, and the node is not running then. *)
Lemma complete_ready ld result id n w :
  tx_ok w → db_nodes (w_db w) !! id = Some n → ne_status n = NRUNNING →
  ld_node ld = id → ex_id (ld_execution ld) = ne_execution_id n →
  definition_of (w_db w) (ne_execution_id n) = Some (ld_definition ld) →
  ld_node_def ld ∈ wf_nodes (ld_definition ld) → plain_branches (ld_definition ld) →
  is_Some (s_execs (w_session w) !! ne_execution_id n) →
  ∃ w' refs, complete_job set_order ld result w = (Ok (Some refs), w') ∧
    ∀ i n', db_nodes (w_committed w') !! i = Some n' → ne_execution_id n' = ne_execution_id n →
      ne_node_id n' = ne_node_id n → ne_status n' ≠ NRUNNING.
Proof using Hord.
  intros [Hinv Hc] Hn Hst Hld Heid Hdef Hnd Hplain [obj Hobj].
  pose proof (di_wf _ _ _ _ Hinv) as Hwf. set (eid := ne_execution_id n) in *.
  destruct (dw_node_exec _ Hwf _ _ Hn) as [e He]. fold eid in He.
  assert (rows_of (w_db w) eid !! ne_node_id n = Some n) as Hrow.
  { apply rows_of_lookup; [done|]. by rewrite (dw_node_key _ Hwf _ _ Hn). }
  destruct (wp_total_run (complete_job set_order ld result) (fun r w' => ∃ refs, r = Some refs ∧
    ∀ i n', db_nodes (w_committed w') !! i = Some n' → ne_execution_id n' = ne_execution_id n →
      ne_node_id n' = ne_node_id n → ne_status n' ≠ NRUNNING) w)
    as (r & w' & Hr & refs & -> & Hend); [|by exists w', refs].
  eapply (wp_complete_job set_order ld result Hord w e obj); rewrite ?Heid; [done|done|done| | |].
  - intros p c. eapply edge_row; [exact Hinv|exact He|exact Hdef].
  - intros r t' w' Hcomp Ht' Hf.
    inversion Hcomp as [x m Hx Hmid Hms|x m refs t1 t2 Hx Hmid Hms Hout Hfin]; subst; simpl in Hx.
    + apply rows_of_lookup in Hx as (Hx & _); [|done]. rewrite Hmid, Hn in Hx. by injection Hx as <-.
    + apply rows_of_lookup in Hx as (Hx & _ & Hxx); [|done]. rewrite Hmid, Hn in Hx. injection Hx as <-.
      exists refs. split; [done|]. intros i n' Hn' He' Hx' Hrun. simpl in Hn'.
      destruct (outcome_self _ _ _ _ _ _ _ Hout) as (n1 & Hn1 & _ & Hs1).
      rewrite <- (finished_rows _ _ Hfin) in Hn1.
      destruct (it_cover _ _ _ Ht' _ _ Hn') as [_ Hcov]; [unfold eid in *; congruence|].
      rewrite Hx', Hxx, Hn1 in Hcov. injection Hcov as ->. rewrite Hrun in Hs1.
      rewrite !elem_of_cons, elem_of_nil in Hs1. naive_solver.
  - intros x w' Herr _. destruct Herr as [[_ Hno]|(m & Hm & _ & _ & Hseeds)].
    + rewrite Hld in Hno. specialize (Hno n Hn). by rewrite Heid in Hno.
    + unfold downstream_seeds in Hseeds. destruct (children_of _ _); [done|].
      destruct (skip_seeds_plain _ _ result Hplain Hnd) as [seeds Hok]. congruence.
Qed.

End delivery.

(** ** Deliveries in the system *)

Section rounds.
Context {Q : Type} `{QueuePublisher Q} {Net : Type}.
Context (str_exc : exc → string) (set_order : list json → list json)
  (registry : ExecutorRegistry Net).
Hypothesis Hord : ∀ l, set_order l ≡ₚ l.
Implicit Types s : Sys (Q := Q).

Abbreviation reachable := (reachable str_exc set_order registry).
Abbreviation sstep := (sstep str_exc set_order registry).
Abbreviation exec_action := (exec_action str_exc set_order registry).
Abbreviation run_schedule := (run_schedule str_exc set_order registry).

(** Anything but a manual retry. *)
Definition other_steps : relation (Sys (Q := Q)) :=
  rtc (fun s s' => ∃ op, no_manual_retry op ∧ sstep s op s').

(** How a worker takes the job of a node of this status: the first delivery of a message,
    or one that the recovery has claimed. *)
Inductive takes (i : nat) (fs : fields) : NodeExecutionStatus → Action Net → Prop :=
| takes_claim : takes i fs NQUEUED (AClaim i fs)
| takes_recover st message_id previous me : takes i fs st (ARecover i fs message_id previous me).

(** A worker that is not interrupted; the executor answers [net]. *)
Definition round (i : nat) (first : Action Net) (net : Net) : list (Action Net) :=
  [first; ALoad i net; AComplete i; APublish i].

Definition active_node s (eid id : uuid) (n : NodeExecution) : Prop :=
  db_nodes (sy_db s) !! id = Some n ∧ ne_execution_id n = eid ∧ ne_status n ∈ [NQUEUED; NRUNNING].

(** The execution is not running any more, or has been deleted. *)
Definition is_over s (eid : uuid) : Prop :=
  ∀ e, db_executions (sy_db s) !! eid = Some e → ex_status e ≠ ERUNNING.

(** The execution is over after at most [k] deliveries: as long as it is not, some node is
    queued or running, and whichever message for such a node a worker takes, whatever its
    executor answers and whatever else happens afterwards, at most one less is left. *)
Inductive ends_within (eid : uuid) : nat → Sys (Q := Q) → Prop :=
| ends_over k s : is_over s eid → ends_within eid k s
| ends_round k s :
    (∃ id n, active_node s eid id n) →
    (∀ id n i fs first net s',
       active_node s eid id n → message_of fs id n →
       sy_tasks s !! i = None → takes i fs (ne_status n) first →
       other_steps (run_schedule (round i first net) s) s' → ends_within eid k s') →
    ends_within eid (S k) s.

Lemma other_steps_reachable s s' :
  reachable no_manual_retry s → other_steps s s' → reachable no_manual_retry s'.
Proof. intros Hr. induction 1 as [|s1 s2 s3 (op & Hop & Hs) _ IH]; [done|]. apply IH. by eapply reach_step. Qed.

(** New identifiers are only drawn. *)
Lemma sstep_next s op s' :
  reachable no_manual_retry s → sstep s op s' → no_manual_retry op →
  (sy_next_uuid s ≤ sy_next_uuid s')%N.
Proof using Hord.
  intros Hr Hs Hop. assert (step_effect registry automatic s s') as [Hev _]; [|apply Hev].
  eapply (sstep_effect _ _ _ automatic automatic); [done|by intros l []|exact Hord|
    by apply (automatic_sys_inv str_exc set_order registry Hord)|exact Hs|done|done].
Qed.

Lemma other_steps_next s s' :
  reachable no_manual_retry s → other_steps s s' → (sy_next_uuid s ≤ sy_next_uuid s')%N.
Proof using Hord.
  intros Hr Ho. revert Hr. induction Ho as [s|s1 s2 s3 (op & Hop & Hs) _ IH]; intros Hr; [done|].
  pose proof (sstep_next _ _ _ Hr Hs Hop). assert (reachable no_manual_retry s2) by (by eapply reach_step).
  etrans; [done|by apply IH].
Qed.

(** What a step does to the measure of an execution that is still there. *)
Lemma sstep_left s op s' eid e' :
  reachable no_manual_retry s → sstep s op s' → no_manual_retry op → (eid < sy_next_uuid s)%N →
  db_executions (sy_db s') !! eid = Some e' →
  is_Some (db_executions (sy_db s) !! eid) ∧
  definition_of (sy_db s') eid = definition_of (sy_db s) eid ∧
  (exec_left (sy_db s') eid ≤ exec_left (sy_db s) eid)%nat ∧
  (op ≠ OpRecover → ∀ x, node_status (sy_db s) eid x = Some NRUNNING →
     node_status (sy_db s') eid x ≠ Some NRUNNING →
     (exec_left (sy_db s') eid < exec_left (sy_db s) eid)%nat).
Proof using Hord.
  intros Hr Hs Hop Hlt He'. pose proof (automatic_sys_inv _ _ _ Hord s Hr) as Hinv.
  pose proof (sv_db _ _ _ Hinv) as Hdb.
  assert (∀ R : Label → Prop, (∀ l, R l → automatic l) → (∀ l, work l → R l) → (op = OpRecover → R LRecover) →
    step_effect registry R s s') as Heff.
  { intros R H1 H2 H3. eapply (sstep_effect _ _ _ automatic R); [exact H1|exact H2|exact Hord|exact Hinv|exact Hs|exact H3|done]. }
  assert (∀ R : Label → Prop, (∀ l, R l → automatic l) → step_effect registry R s s' →
    ∃ e wf a a' ls, db_executions (sy_db s) !! eid = Some e ∧ definition_of (sy_db s) eid = Some wf ∧
      definition_of (sy_db s') eid = Some wf ∧ abs (sy_db s) eid = Some a ∧ abs (sy_db s') eid = Some a' ∧
      mrun wf ls a a' ∧ Forall R ls ∧ attempts_ok a ∧ minv wf a) as Hrun.
  { intros R HR [Hev _]. pose proof (ev_execs _ _ _ _ _ _ Hev _ _ He') as Hcase.
    destruct (db_executions (sy_db s) !! eid) as [e|] eqn:He; [|destruct Hcase as [? _]; lia].
    destruct Hcase as (Hsame & wf & a & a' & ls & Hdef & Ha & Ha' & Hm & Hls).
    destruct (exec_machine _ _ _ _ _ _ Hdb Hdef) as (e0 & a1 & _ & Ha1 & _ & (a0 & ls0 & Hi & Hm0 & Hl0) & Hminv & _ & _).
    rewrite Ha in Ha1. injection Ha1 as <-. exists e, wf, a, a', ls. split_and!; try done.
    - rewrite <- Hdef. apply (definition_of_same (sy_db s) (sy_db s') eid e e'); [done..|by eapply (ev_versions _ _ _ _ _ _ Hev)].
    - eapply mrun_attempts; [exact Hm0|exact Hl0|by eapply m_initial_attempts]. }
  destruct (Hrun automatic) as (e & wf & a & a' & ls & He & Hd & Hd' & Ha & Ha' & Hm & Hls & Hok & Hminv);
    [done|apply Heff; [done|by intros l []|done]|].
  split; [by eexists|]. split; [congruence|]. unfold exec_left. rewrite Hd, Hd', Ha, Ha'. split.
  - apply total_left_le. intros y. by apply (mrun_left _ _ _ _ y Hm Hls Hok).
  - intros Hnr x Hx Hx'.
    destruct (Hrun work) as (e1 & wf1 & a1 & a1' & ls1 & _ & Hd1 & _ & Ha1 & Ha1' & Hm1 & Hls1 & _ & _);
      [by intros l []|apply Heff; [by intros l []|done|done]|].
    assert (wf1 = wf ∧ a1 = a ∧ a1' = a') as (-> & -> & ->) by (split_and!; congruence).
    assert (∀ d b, abs d eid = Some b → ∀ y, m_status (m_nodes b) y = node_status d eid y) as Hview.
    { intros d b Hb y. unfold abs in Hb. apply fmap_Some in Hb as (eb & _ & ->). simpl. apply status_of_abs. }
    assert (Forall automatic ls1) as Hls1' by (eapply Forall_impl; [exact Hls1|by intros l []]).
    eapply (total_left_lt wf _ _ x).
    + apply (mi_dom _ _ Hminv), m_status_is_Some. rewrite (Hview _ _ Ha), Hx. by eexists.
    + apply (mrun_left _ _ _ _ x Hm1 Hls1' Hok); unfold is_running;
        [done|by rewrite (Hview _ _ Ha)|by rewrite (Hview _ _ Ha')].
    + intros y. by apply (mrun_left _ _ _ _ y Hm1 Hls1' Hok).
Qed.

(** Over any number of steps. *)
Lemma other_steps_left s s' eid e' :
  reachable no_manual_retry s → other_steps s s' → (eid < sy_next_uuid s)%N →
  db_executions (sy_db s') !! eid = Some e' →
  is_Some (db_executions (sy_db s) !! eid) ∧
  definition_of (sy_db s') eid = definition_of (sy_db s) eid ∧
  (exec_left (sy_db s') eid ≤ exec_left (sy_db s) eid)%nat.
Proof using Hord.
  intros Hr Ho. revert Hr. induction Ho as [s|s1 s2 s3 (op & Hop & Hs) _ IH]; intros Hr Hlt He'.
  { split_and!; [by eexists|done|lia]. }
  assert (reachable no_manual_retry s2) as Hr2 by (by eapply reach_step).
  pose proof (sstep_next _ _ _ Hr Hs Hop) as Hle.
  destruct (IH Hr2) as ([e2 He2] & Hd & Hk); [lia|done|].
  destruct (sstep_left s1 op s2 eid e2 Hr Hs Hop Hlt He2) as (He1 & Hd1 & Hk1 & _).
  split_and!; [done|congruence|lia].
Qed.

Lemma known_execution s eid e :
  reachable no_manual_retry s → db_executions (sy_db s) !! eid = Some e → (eid < sy_next_uuid s)%N.
Proof using Hord.
  intros Hr He. pose proof (sv_db _ _ _ (automatic_sys_inv _ _ _ Hord s Hr)) as Hdb.
  destruct (N.lt_ge_cases eid (sy_next_uuid s)) as [|Hge]; [done|].
  rewrite (di_execs_fresh _ _ _ _ Hdb) in He; done.
Qed.

Lemma exec_action_other a s :
  is_retry a = false → ∃ op, no_manual_retry op ∧ sstep s op (exec_action a s).2.
Proof.
  intros Ha. exists (exec_action a s).1.
  split; [by apply (exec_action_automatic str_exc set_order registry a s)|apply exec_action_step].
Qed.

(** The first action hands the node to the worker. *)
Lemma round_take i fs first s eid id n :
  reachable no_manual_retry s → active_node s eid id n → message_of fs id n →
  sy_tasks s !! i = None → takes i fs (ne_status n) first →
  ∃ (w : World Q) n', held id n' w ∧ ne_execution_id n' = eid ∧ sy_db (exec_action first s).2 = w_committed w ∧
    sy_tasks (exec_action first s).2 !! i = Some (TClaimed (w_session w) id).
Proof using Hord.
  intros Hr (Hn & He & Hst) Hmsg Hi Ht. pose proof (automatic_sys_inv _ _ _ Hord s Hr) as Hinv.
  pose proof (fresh_world registry automatic s new_session Hinv) as Hft.
  assert (∀ (m : M Q (option uuid)) w n', m (world_of s new_session) = (Ok (Some id), w) →
    held id n' w → ne_execution_id n' = eid →
    ∃ (w0 : World Q) n', held id n' w0 ∧ ne_execution_id n' = eid ∧
      w_committed w = w_committed w0 ∧ claimed_task i (Ok (Some id)) w (sy_tasks s) !! i = Some (TClaimed (w_session w0) id)) as Hend.
  { intros m w n' _ Hh He'. exists w, n'. split_and!; [done|done|done|].
    unfold claimed_task. by rewrite lookup_insert_eq. }
  inversion Ht as [Hq|st mid prev me]; subst first; simpl; rewrite Hi.
  - destruct (claim_ready registry fs id n (world_of s new_session)) as (w & n' & Hrun & Hh & He');
      [done|apply synced_new|done|done|done|done|].
    rewrite Hrun. simpl. eapply Hend; [exact Hrun|exact Hh|congruence].
  - destruct (recover_ready registry fs mid prev me id n (world_of s new_session))
      as (w1 & n1 & Hrun1 & Hft1 & Hs1 & Hx1 & Hn1 & Hst1 & He1);
      [done|apply synced_new|done|done|done|done|].
    assert (message_of fs id n1) as Hmsg1.
    { destruct Hmsg as (j & ? & ? & ?). exists j. split_and!; [done..|congruence]. }
    destruct (claim_ready registry fs id n1 w1) as (w & n' & Hrun & Hh & He'); [done..|].
    assert (recover_and_claim fs mid prev me (world_of s new_session) = (Ok (Some id), w)) as Hboth.
    { unfold recover_and_claim. by rewrite (run_bind_Ok _ _ _ _ _ Hrun1). }
    rewrite Hboth. simpl. eapply Hend; [exact Hboth|exact Hh|congruence].
Qed.

(** The first two actions leave the worker with the result of a node that is running. *)
Lemma round_load i fs first net s eid id n :
  reachable no_manual_retry s → active_node s eid id n → message_of fs id n →
  sy_tasks s !! i = None → takes i fs (ne_status n) first →
  let s2 := run_schedule [first; ALoad i net] s in
  other_steps s s2 ∧
  ∃ session ld result n', sy_tasks s2 !! i = Some (TLoaded session ld result) ∧
    db_nodes (sy_db s2) !! id = Some n' ∧ ne_status n' = NRUNNING ∧ ne_execution_id n' = eid ∧
    ld_node ld = id ∧ ex_id (ld_execution ld) = eid ∧
    definition_of (sy_db s2) eid = Some (ld_definition ld) ∧
    ld_node_def ld ∈ wf_nodes (ld_definition ld) ∧ is_Some (s_execs session !! eid).
Proof using Hord.
  intros Hr Hact Hmsg Hi Ht.
  destruct (round_take i fs first s eid id n Hr Hact Hmsg Hi Ht) as (w1 & n1 & Hheld & He1 & Hdb1 & Hi1).
  set (s1 := (exec_action first s).2) in *.
  assert (other_steps s s1) as Ho1 by (apply rtc_once, exec_action_other; by destruct Ht).
  pose proof (other_steps_reachable _ _ Hr Ho1) as Hr1.
  pose proof (fresh_world registry automatic s1 (w_session w1) (automatic_sys_inv _ _ _ Hord s1 Hr1)) as Hft1.
  assert (held id n1 (world_of s1 (w_session w1))) as Hheld1.
  { destruct Hheld as (? & ? & Hc & ?). split_and!; [done..| |done]. simpl. by rewrite Hdb1. }
  destruct (load_ready str_exc registry net id n1 _ Hft1 Hheld1)
    as (w2 & ld & result & Hload & Hc2 & Hld & Heid & Hdef1 & Hnd & Hobj).
  assert (run_schedule [first; ALoad i net] s =
          after w2 (<[i := TLoaded (w_session w2) ld result]> (sy_tasks s1))) as ->.
  { change (run_schedule [first; ALoad i net] s) with (exec_action (ALoad i net) s1).2.
    simpl. rewrite Hi1. by rewrite Hload. }
  destruct Hheld1 as (_ & _ & Hrow1 & Hst1). simpl in *. rewrite He1 in *. split.
  - etrans; [exact Ho1|]. apply rtc_once. exists OpLoad. split; [done|].
    eapply (st_load _ _ _ s1 i (w_session w1) id net (Ok (ld, result)) w2); [exact Hi1|exact Hload].
  - exists (w_session w2), ld, result, n1. rewrite lookup_insert_eq, Hc2. done.
Qed.

(** One delivery: the worker completes the node, so an attempt is used up. *)
Lemma round_left i fs first net s eid e id n wf :
  reachable no_manual_retry s → db_executions (sy_db s) !! eid = Some e →
  definition_of (sy_db s) eid = Some wf → plain_branches wf →
  active_node s eid id n → message_of fs id n → sy_tasks s !! i = None → takes i fs (ne_status n) first →
  let s' := run_schedule (round i first net) s in
  other_steps s s' ∧
  (is_Some (db_executions (sy_db s') !! eid) → (exec_left (sy_db s') eid < exec_left (sy_db s) eid)%nat).
Proof using Hord.
  intros Hr He Hdef Hplain Hact Hmsg Hi Ht s'.
  destruct (round_load i fs first net s eid id n Hr Hact Hmsg Hi Ht)
    as (Ho2 & session & ld & result & n2 & Hi2 & Hrow2 & Hst2 & He2 & Hld & Heid & Hdef2 & Hnd & Hobj).
  set (s2 := run_schedule [first; ALoad i net] s) in *.
  pose proof (other_steps_reachable _ _ Hr Ho2) as Hr2.
  pose proof (automatic_sys_inv _ _ _ Hord s2 Hr2) as Hinv2.
  pose proof (di_wf _ _ _ _ (sv_db _ _ _ Hinv2)) as Hwf2.
  destruct (dw_node_exec _ Hwf2 _ _ Hrow2) as [e2 Hex2]. rewrite He2 in Hex2.
  destruct (other_steps_left s s2 eid e2 Hr Ho2 (known_execution s eid e Hr He) Hex2) as (_ & Hd2 & Hk2).
  rewrite Hdef2, Hdef in Hd2. injection Hd2 as Hd2.
  destruct (complete_ready set_order registry Hord ld result id n2 (world_of s2 session))
    as (w3 & refs & Hrun3 & Hrow3); rewrite ?He2, ?Hd2 in *; try done;
    [exact (fresh_world registry automatic s2 session Hinv2)|].
  set (s3 := (exec_action (AComplete i) s2).2).
  assert (sy_db s3 = w_committed w3) as Hdb3 by (unfold s3; simpl; rewrite Hi2; by rewrite Hrun3).
  assert (sstep s2 OpComplete s3) as Hs3.
  { unfold s3. simpl. rewrite Hi2, Hrun3. by eapply (st_complete _ _ _ s2 i session ld result (Ok (Some refs)) w3). }
  assert (reachable no_manual_retry s3) as Hr3 by (by eapply (reach_step _ _ _ _ s2 OpComplete s3)).
  assert (other_steps s3 s') as Ho4.
  { change s' with (exec_action (APublish i) s3).2. by apply rtc_once, exec_action_other. }
  split.
  { etrans; [exact Ho2|]. eapply rtc_l; [|exact Ho4]. by exists OpComplete. }
  intros [e' He'].
  pose proof (automatic_sys_inv _ _ _ Hord s3 Hr3) as Hinv3.
  pose proof (known_execution s2 eid e2 Hr2 Hex2) as Hlt2.
  pose proof (sstep_next s2 OpComplete s3 Hr2 Hs3 ltac:(by intros ?)) as Hnext.
  destruct (other_steps_left s3 s' eid e' Hr3 Ho4 ltac:(lia) He') as ([e3 Hex3] & _ & Hk4).
  destruct (sstep_left s2 OpComplete s3 eid e3 Hr2 Hs3 ltac:(by intros ?) Hlt2 Hex3) as (_ & _ & _ & Hstrict).
  enough (exec_left (sy_db s3) eid < exec_left (sy_db s2) eid)%nat by lia.
  apply (Hstrict ltac:(by intros ?) (ne_node_id n2)).
  - rewrite <- Hst2, <- He2. by apply (row_node_status _ id).
  - intros Hbad. apply node_status_row in Hbad as (n3 & Hn3 & He3 & Hx3 & Hst3); [|apply Hinv3].
    rewrite Hdb3 in Hn3. by apply (Hrow3 _ _ Hn3).
Qed.

(** A node to be delivered has an attempt left. *)
Lemma active_left s eid id n :
  reachable no_manual_retry s → active_node s eid id n → (1 ≤ exec_left (sy_db s) eid)%nat.
Proof using Hord.
  intros Hr (Hn & <- & Hs). pose proof (sv_db _ _ _ (automatic_sys_inv _ _ _ Hord s Hr)) as Hdb.
  destruct (row_machine _ _ _ _ _ _ Hdb Hn) as (e & wf & a & _ & Hdef & Ha & (a0 & ls & Hi & Hrun & Hl) & Hm & Hx).
  assert (attempts_ok a) as Hok by (eapply mrun_attempts; [exact Hrun|exact Hl|by eapply m_initial_attempts]).
  unfold exec_left. rewrite Hdef, Ha.
  assert (ne_node_id n ∈ node_ids wf) as Hin by (apply (mi_dom _ _ Hm); by rewrite Hx).
  etrans; [|by apply (sum_list_with_in (ne_node_id n) (fun y => attempts_left (m_nodes a !! y)))].
  destruct (Hok _ _ Hx) as (_ & _ & Hatt). rewrite Hx. simpl in *.
  rewrite !elem_of_cons, elem_of_nil in Hs. destruct Hs as [Hs|[Hs|[]]]; rewrite Hs in *;
    specialize (Hatt eq_refl); simpl in *; lia.
Qed.

Lemma ends_induction eid wf k : ∀ s,
  reachable no_manual_retry s →
  (∀ e, db_executions (sy_db s) !! eid = Some e →
     definition_of (sy_db s) eid = Some wf ∧ (exec_left (sy_db s) eid ≤ k)%nat) →
  wf_nodes wf ≠ [] → plain_branches wf → ends_within eid k s.
Proof using Hord.
  induction k as [|k IH]; intros s Hr Hk Hne Hplain;
    (destruct (db_executions (sy_db s) !! eid) as [e|] eqn:He;
      [|apply ends_over; intros e; rewrite He; discriminate]);
    (destruct (decide (ex_status e = ERUNNING)) as [Hrun|Hrun];
      [|apply ends_over; intros e'; rewrite He; by intros [= <-]]);
    destruct (Hk e eq_refl) as [Hdef Hle];
    assert (∃ id n, active_node s eid id n) as Hact
      by (exact (running_has_active _ _ _ _ _ _ _ (sv_db _ _ _ (automatic_sys_inv _ _ _ Hord s Hr)) He Hrun Hdef Hne)).
  { destruct Hact as (id & n & Hact). pose proof (active_left _ _ _ _ Hr Hact). lia. }
  apply ends_round; [exact Hact|]. clear Hact. intros id n i fs first net s' Hact Hmsg Hfree Ht Ho.
  destruct (round_left i fs first net s eid e id n wf Hr He Hdef Hplain Hact Hmsg Hfree Ht) as [Ho1 Hlt].
  set (s1 := run_schedule (round i first net) s) in *.
  pose proof (other_steps_reachable _ _ Hr Ho1) as Hr1.
  apply IH; [by eapply other_steps_reachable| |done|done]. intros e' He'.
  pose proof (known_execution s eid e Hr He) as Hknown. pose proof (other_steps_next _ _ Hr Ho1) as Hnext.
  destruct (other_steps_left s1 s' eid e' Hr1 Ho ltac:(lia) He') as (He1 & Hd1 & Hle1).
  destruct He1 as [e1 He1]. destruct (other_steps_left s s1 eid e1 Hr Ho1 Hknown He1) as (_ & Hd2 & _).
  split; [congruence|]. specialize (Hlt ltac:(by eexists)). lia.
Qed.

(** C5. Executions end, if jobs are delivered. Take an execution of a workflow that has nodes,
    whose condition nodes have paths that Python can hash, and let no user retry a node.
    It is over after at most ten deliveries for each node of its workflow: until then some
    node is queued or running, and if a worker takes a message for such a node without
    being interrupted, first-hand or through the recovery, then whatever the executor
    answers and whatever workers, recoveries, crashes and other requests do in between, one
    delivery less is left. That there is such a message in the stream is not shown: a node
    whose job was not published waits for ever. *)
Theorem executions_end s eid e wf :
  reachable no_manual_retry s → db_executions (sy_db s) !! eid = Some e →
  definition_of (sy_db s) eid = Some wf → wf_nodes wf ≠ [] → plain_branches wf →
  ends_within eid (10 * length (wf_nodes wf)) s.
Proof using Hord.
  intros Hr He Hdef Hne Hplain. apply (ends_induction eid wf); [done| |done|done].
  intros e' _. split; [done|]. pose proof (sv_db _ _ _ (automatic_sys_inv _ _ _ Hord s Hr)) as Hdb.
  destruct (exec_machine _ _ _ _ _ _ Hdb Hdef) as
    (e0 & a & _ & Ha & _ & (a0 & ls & Hi & Hrun & Hl) & _ & _ & _).
  unfold exec_left. rewrite Hdef, Ha. apply total_left_bound.
  eapply mrun_attempts; [exact Hrun|exact Hl|by eapply m_initial_attempts].
Qed.

(** ** The jobs that never end *)

(** A successful condition one of whose paths is not chosen and cannot be hashed. *)
Definition unhashable_path (n : Node) (result : ExecutorResult) : Prop :=
  node_type n = "condition"%string ∧
  ∃ k, k ∈ ["true_path"; "false_path"]%string ∧ py_truthy (path_of k n) = true ∧
    py_ne (path_of k n) (default JNull (dict_get "next_node" (output result))) = true ∧
    hashable (path_of k n) = false.

Lemma unhashable_path_seeds n result : unhashable_path n result → skip_seeds n result = Err ETypeError.
Proof.
  intros (Ht & k & Hk & H1 & H2 & H3). unfold skip_seeds, path_of in *. rewrite Ht. simpl.
  rewrite !elem_of_cons, elem_of_nil in Hk. destruct Hk as [->|[->|[]]].
  - by rewrite H1, H2, H3.
  - assert (∀ l b, (if b : bool then if hashable l then Ok (set_add l []) else Err ETypeError else @Ok exc _ []) =
      Err ETypeError ∨ ∃ seeds, (if b then if hashable l then Ok (set_add l []) else Err ETypeError else @Ok exc _ []) =
      Ok seeds) as Hor by (intros l b; destruct b, (hashable l); eauto).
    match goal with |- context [if ?b then if hashable ?l then _ else _ else _] =>
      destruct (Hor l b) as [->|[seeds ->]]; [done|] end.
    simpl. by rewrite H1, H2, H3.
Qed.

(** C19. Why [executions_end] asks for paths that can be hashed. Let a condition that has
    children succeed, and let a path it has not chosen be neither falsy nor hashable, say a
    list of node ids. Then [complete_job] raises [TypeError] with nothing committed (if the
    node is still [RUNNING]; otherwise it returns early, as always): the worker's task is
    gone, no job is published and the tables are what they were, so the next delivery of the
    job fares no better. *)
Theorem unhashable_branch_stuck s i session ld result n :
  reachable (fun _ => True) s → sy_tasks s !! i = Some (TLoaded session ld result) →
  db_nodes (sy_db s) !! ld_node ld = Some n → ne_execution_id n = ex_id (ld_execution ld) →
  success result = true → unhashable_path (ld_node_def ld) result →
  children_of (ld_definition ld) (ne_node_id n) ≠ [] →
  (complete_job set_order ld result (world_of s session)).1 =
    (if decide (ne_status n = NRUNNING) then Err ETypeError else Ok None) ∧
  let s' := (exec_action (AComplete i) s).2 in
  sy_db s' = sy_db s ∧ sy_queue s' = sy_queue s ∧ sy_tasks s' = delete i (sy_tasks s).
Proof using Hord.
  intros Hr Hi Hn He Hs Hbad Hch. pose proof (any_inv _ _ _ Hord s Hr) as Hdb.
  pose proof (di_wf _ _ _ _ Hdb) as Hwf. pose proof (unhashable_path_seeds _ _ Hbad) as Hseeds.
  assert (sys_inv registry (fun _ => True) s) as Hinv
    by (by eapply (reachable_sys_inv str_exc set_order registry (fun _ => True) (fun _ => True))).
  destruct (sv_tasks _ _ _ Hinv _ _ Hi) as (_ & obj & Hobj & Hok).
  destruct (dw_node_exec _ Hwf _ _ Hn) as [e Hex]. rewrite He in Hex.
  destruct (Hok e Hex) as [_ Hdef].
  simpl. rewrite Hi. destruct (complete_job set_order ld result (world_of s session)) as [r w'] eqn:Hrun.
  assert (downstream_seeds (ld_definition ld) (ld_node_def ld) result (ne_node_id n) = Err ETypeError) as Herr.
  { unfold downstream_seeds. by destruct (children_of _ _). }
  assert (w_committed w' = sy_db s ∧ w_queue w' = sy_queue s ∧
    r = if decide (ne_status n = NRUNNING) then Err ETypeError else Ok None) as (Hc & Hq & ->).
  { apply (wp_adequate _ (fun r w' => w_committed w' = sy_db s ∧ w_queue w' = sy_queue s ∧
      r = if decide (ne_status n = NRUNNING) then Err ETypeError else Ok None) _ _ _ Hrun).
    eapply (wp_complete_job set_order ld result Hord _ e obj); [done|done|done| | |].
    - intros p c. eapply edge_row; [exact Hdb|exact Hex|exact Hdef].
    - intros o t' w1 Hcomp _ Hf. inversion Hcomp as [x m Hx Hmid Hms|x m refs' t1 t2 Hx Hmid Hms Hout Hfin];
        subst; simpl in Hx; apply rows_of_lookup in Hx as (Hx & _ & Hxx); [|done| |done];
        rewrite Hmid, Hn in Hx; injection Hx as <-.
      + split_and!; [apply Hf|apply Hf|]. by rewrite decide_False.
      + exfalso. rewrite <- Hxx in Hout. inversion Hout; congruence.
    - intros x w1 Hx Hf. split_and!; [apply Hf|apply Hf|].
      destruct Hx as [[_ Hno]|(m & Hm & Hms & _ & Hx)]; [by destruct (Hno n Hn)|].
      assert (m = n) as -> by (simpl in Hm; congruence). rewrite decide_True by done. congruence. }
  by case_decide.
Qed.

End rounds.

(** ** Witnesses *)

Lemma pick_plain : plain_branches pick_workflow.
Proof.
  intros n Hn. unfold pick_workflow in Hn. simpl in Hn. rewrite !elem_of_cons, elem_of_nil in Hn.
  destruct Hn as [->|[->|[->|[->|[->|[]]]]]]; try (simpl; discriminate). by vm_compute.
Qed.

Lemma executions_end_witness :
  ends_within demo_exc id demo_registry 100 50 (demo_run left_queued).
Proof.
  assert (∃ e, db_executions (sy_db (demo_run left_queued)) !! 100%N = Some e) as [e He]
    by (apply is_Some_alt; vm_compute; exact I).
  apply (executions_end demo_exc id demo_registry (fun l => Permutation_refl l)
    (demo_run left_queued) 100 e pick_workflow).
  - by apply demo_run_automatic.
  - exact He.
  - vm_compute. reflexivity.
  - discriminate.
  - exact pick_plain.
Defined.

(** A condition that names two nodes for its false branch. *)
Definition both_workflow : WorkflowDefinition :=
  mkWorkflowDefinition "both" ""
    [mkNode "pick" "condition" ""
       [("true_path", JStr "left"); ("false_path", JList [JStr "left"; JStr "right"])]%string None;
     task_node "left"; task_node "right"]
    [mkEdge "pick" "left" None; mkEdge "pick" "right" None] None.

Definition both_loaded : Sys :=
  run_schedule demo_exc id demo_registry
    [AStart 0 demo_command 7; APublish 0; AClaim 1 (demo_message 100 101 "pick" 1);
     ALoad 1 (success_result [("next_node", JStr "left")]%string)] (start_of both_workflow).

Lemma unhashable_branch_stuck_witness :
  match sy_tasks both_loaded !! 1 with
  | Some (TLoaded session ld result) =>
      (complete_job id ld result (world_of both_loaded session)).1 = Err ETypeError
  | _ => False
  end.
Proof.
  destruct (sy_tasks both_loaded !! 1) as [[|session ld result| |]|] eqn:Hi; try (vm_compute in Hi; discriminate Hi).
  assert (ld_node ld = 101%N ∧ ex_id (ld_execution ld) = 100%N ∧ success result = true ∧
    unhashable_path (ld_node_def ld) result ∧ children_of (ld_definition ld) "pick" ≠ []) as (H1 & H2 & H3 & H4 & H5).
  { vm_compute in Hi. injection Hi as _ <- <-. split_and!; [done..| |vm_compute; discriminate].
    split; [done|]. exists "false_path"%string. split_and!; [set_solver|by vm_compute..]. }
  destruct (db_nodes (sy_db both_loaded) !! 101%N) as [n|] eqn:Hn; [|vm_compute in Hn; discriminate Hn].
  assert (ne_execution_id n = 100%N ∧ ne_node_id n = "pick"%string ∧ ne_status n = NRUNNING) as (H6 & H7 & H8).
  { clear Hi H1 H2 H3 H4 H5. vm_compute in Hn. injection Hn as <-. done. }
  destruct (unhashable_branch_stuck demo_exc id demo_registry (fun l => Permutation_refl l)
    both_loaded 1 session ld result n) as [H _]; [|exact Hi|congruence|congruence|exact H3|exact H4|congruence|
    rewrite decide_True in H by exact H8; exact H].
  apply run_schedule_reachable. apply start_of_reachable; [vm_compute; reflexivity|done].
Defined.
