(* ===== verification/Observe.v ===== *)
(** * Metrics and logs

    src/backend/app/services/metrics_service.py with schemas/metrics.py, and
    services/execution_log_service.py. The numbers of the dashboard are counts over the
    tables; what they say about each other follows from the invariants of the system. *)

From stdpp Require Import sorting.
From S2P Require Import Prelude Json PyStr Errors Models Registry DagValidator Events Monad Store.
From S2P Require Import LogHelpers StateTransition Tx Machine Publisher Runtime.
From S2P Require Import Downstream Complete Engine Dlq Recovery Abstraction Start Steps System.
From S2P Require Import Evolution Invariant Execute Workers Guarantees.

(** ** Metrics *)

Record MetricsSummaryResponse : Type := mkMetrics {
  mt_active_executions : Z;
  mt_queued_nodes : Z;
  mt_running_nodes : Z;
  mt_workers : Z;
  mt_active_workers : Z;
  mt_queue_depth : Z;
  mt_dead_letter_jobs : Z
}.

Definition ACTIVE_WORKER_STATUSES : list WorkerStatus := [WIDLE; WBUSY; WSTARTING].

(** The rows of the three statements: the joins with the owner's workflows. *)
Definition active_execution_rows (d : DB) (owner_api_key_id : uuid) : list Execution :=
  filter (fun e => owns_workflow d (ex_workflow_id e) owner_api_key_id = true ∧ ex_status e = ERUNNING)
    (map_to_list (db_executions d)).*2.

Definition node_status_rows (d : DB) (owner_api_key_id : uuid) : list NodeExecution :=
  filter (fun n => owns_execution d (ne_execution_id n) owner_api_key_id = true ∧
                   ne_status n ∈ [NQUEUED; NRUNNING])
    (map_to_list (db_nodes d)).*2.

Definition open_job_rows (d : DB) (owner_api_key_id : uuid) : list DeadLetterJob :=
  filter (fun j => owns_execution d (dl_execution_id j) owner_api_key_id = true ∧
                   dl_resolved_at j = None)
    (map_to_list (db_dlq d)).*2.

Definition count {A} (l : list A) : Z := Z.of_nat (length l).

(** [group_by(NodeExecution.status)]: a group for each status that occurs. *)
Definition group_by_status (rows : list NodeExecution) : list (NodeExecutionStatus * Z) :=
  omap (fun st => match filter (fun n => ne_status n = st) rows with
                  | [] => None
                  | group => Some (st, count group)
                  end) [NQUEUED; NRUNNING].

(** [node_status_counts.get(status, 0)]. *)
Definition status_count (st : NodeExecutionStatus) (counts : list (NodeExecutionStatus * Z)) : Z :=
  match list_find (fun p => p.1 = st) counts with Some (_, p) => p.2 | None => 0%Z end.

(** The body of the loop over the workers; more than 30 seconds without a heartbeat is stale. *)
Definition is_active_worker (now : datetime) (w : Worker) : bool :=
  if decide (wk_status w = WOFFLINE) then false
  else
    let is_stale := match wk_last_heartbeat_at w with
                    | Some t => (30 * 1000000 <? now - t)%Z
                    | None => false
                    end in
    negb is_stale && bool_decide (wk_status w ∈ ACTIVE_WORKER_STATUSES).

Section services.
Context {Q : Type}.

(** [queue_depth_fn] is [None] when the publisher has no such method. *)
Definition _get_queue_depth (queue_depth_fn : option (Q → res exc Z * Q)) : M Q Z :=
  match queue_depth_fn with
  | None => mret 0%Z
  | Some fn => fun w => let '(r, q) := fn (w_queue w) in (r, w_set_queue q w)
  end.

(** [get_summary]; the workers' table is read in the same session. *)
Definition get_summary (queue_depth_fn : option (Q → res exc Z * Q)) (workers : gmap uuid Worker)
    (owner_api_key_id : uuid) : M Q MetricsSummaryResponse :=
  d ← gets w_db;
  let active_executions := count (active_execution_rows d owner_api_key_id) in
  let node_status_counts := group_by_status (node_status_rows d owner_api_key_id) in
  let dead_letter_jobs := count (open_job_rows d owner_api_key_id) in
  queue_depth ← _get_queue_depth queue_depth_fn;
  now ← datetime_now;
  let workers_list := (map_to_list workers).*2 in
  let active_workers := foldl (fun n w => if is_active_worker now w then n + 1 else n)%Z 0%Z workers_list in
  mret (mkMetrics active_executions (status_count NQUEUED node_status_counts)
          (status_count NRUNNING node_status_counts) (count workers_list) active_workers
          queue_depth dead_letter_jobs).

(** ** Logs *)

Definition _check_ownership (execution_id owner_api_key_id : uuid) : M Q () :=
  d ← gets w_db;
  if owns_execution d execution_id owner_api_key_id then mret ()
  else raise (EApp (app_error_status "Execution not found" "not_found" 404)).

(** [order_by(ExecutionLog.created_at.asc())]. *)
Definition logged_before (a b : ExecutionLog) : Prop := (log_created_at a ≤ log_created_at b)%Z.

#[export] Instance logged_before_dec : RelDecision logged_before.
Proof. intros a b. unfold logged_before. apply _. Defined.
#[export] Instance logged_before_trans : Transitive logged_before.
Proof. intros a b c. unfold logged_before. lia. Qed.
#[export] Instance logged_before_total : Total logged_before.
Proof. intros a b. unfold logged_before. lia. Qed.

Definition logs_of (d : DB) (execution_id : uuid) : list ExecutionLog :=
  merge_sort logged_before (filter (fun l => log_execution_id l = execution_id) (db_logs d)).

Definition list_logs (execution_id owner_api_key_id : uuid) (limit offset : nat) :
    M Q (list ExecutionLog) :=
  _check_ownership execution_id owner_api_key_id ≫= fun _ =>
  d ← gets w_db;
  mret (take limit (drop offset (logs_of d execution_id))).

Definition get_timeline (execution_id owner_api_key_id : uuid) (limit : nat) :
    M Q (list ExecutionLog) :=
  _check_ownership execution_id owner_api_key_id ≫= fun _ =>
  d ← gets w_db;
  mret (take limit (logs_of d execution_id)).

End services.

(** ** Counting *)

Lemma length_le_by_key {A B K} (f : A → K) (g : B → K) (l : list A) (k : list B) :
  NoDup (f <$> l) → (∀ x, x ∈ l → ∃ y, y ∈ k ∧ g y = f x) → (length l ≤ length k)%nat.
Proof.
  intros Hnd Hall. rewrite <- (length_fmap f l), <- (length_fmap g k).
  apply submseteq_length, NoDup_submseteq; [done|]. intros z (x & -> & Hx)%list_elem_of_fmap.
  destruct (Hall x Hx) as (y & Hy & <-). by apply list_elem_of_fmap_2.
Qed.

(** Selected rows with a key that tells them apart. *)
Lemma NoDup_selected {A K} (f : A → K) (P : A → Prop) `{∀ x, Decision (P x)} (m : gmap uuid A) :
  (∀ i j x y, m !! i = Some x → m !! j = Some y → P x → P y → f x = f y → i = j) →
  NoDup (f <$> filter P (map_to_list m).*2).
Proof.
  intros Hinj. pose proof (NoDup_fst_map_to_list m) as Hnd.
  assert (∀ i x, (i, x) ∈ map_to_list m → m !! i = Some x) as Hin
    by (intros i x; apply elem_of_map_to_list).
  induction (map_to_list m) as [|[i x] l IH]; simpl in *; [constructor|].
  apply NoDup_cons in Hnd as [Hi Hnd]. rewrite filter_cons.
  assert (NoDup (f <$> filter P l.*2)) as Htail.
  { apply IH; [done|]. intros j y Hj. by apply Hin, list_elem_of_further. }
  case_decide as Hx; [|done]. rewrite fmap_cons. apply NoDup_cons. split; [|done].
  intros (y & Heq & [Hy Hly]%list_elem_of_filter)%list_elem_of_fmap.
  apply list_elem_of_fmap in Hly as ([j y'] & -> & Hj). apply Hi.
  assert (i = j) as ->; [|by apply (list_elem_of_fmap_2 fst) in Hj].
  apply (Hinj i j x y'); [by apply Hin, list_elem_of_here|by apply Hin, list_elem_of_further|done..].
Qed.

Lemma elem_of_rows {A} (m : gmap uuid A) x : x ∈ (map_to_list m).*2 ↔ ∃ i, m !! i = Some x.
Proof.
  rewrite list_elem_of_fmap. split.
  - intros ([i y] & -> & Hi). exists i. by apply elem_of_map_to_list.
  - intros [i Hi]. exists (i, x). split; [done|]. by apply elem_of_map_to_list.
Qed.

Lemma status_count_group st rows :
  st ∈ [NQUEUED; NRUNNING] →
  status_count st (group_by_status rows) = count (filter (fun n => ne_status n = st) rows).
Proof.
  intros Hst. unfold group_by_status. simpl.
  destruct (filter (fun n => ne_status n = NQUEUED) rows) as [|q qs] eqn:Hq,
    (filter (fun n => ne_status n = NRUNNING) rows) as [|r rs] eqn:Hr;
    rewrite !elem_of_cons, elem_of_nil in Hst; destruct Hst as [->|[->|[]]]; rewrite ?Hq, ?Hr; done.
Qed.

(** Every selected row is in one of the groups. *)
Lemma status_count_total rows :
  Forall (fun n => ne_status n ∈ [NQUEUED; NRUNNING]) rows →
  (status_count NQUEUED (group_by_status rows) + status_count NRUNNING (group_by_status rows))%Z =
  count rows.
Proof.
  intros Hall. rewrite !status_count_group by set_solver. unfold count.
  induction Hall as [|n rows Hn _ IH]; [done|]. rewrite !filter_cons.
  rewrite !elem_of_cons, elem_of_nil in Hn. destruct Hn as [Hn|[Hn|[]]]; rewrite Hn; simpl; lia.
Qed.

(** [z] is the number of the identifiers with the property. *)
Definition counts (P : uuid → Prop) (z : Z) : Prop :=
  ∃ X : gset uuid, (∀ i, i ∈ X ↔ P i) ∧ z = Z.of_nat (size X).

Lemma counts_iff (P R : uuid → Prop) z : (∀ i, P i ↔ R i) → counts P z → counts R z.
Proof. intros HPR (X & HX & Hz). exists X. split; [|done]. intros i. by rewrite HX. Qed.

Lemma counts_pos P z : counts P z → (0 ≤ z)%Z.
Proof. intros (X & _ & ->). lia. Qed.

(** The rows a filter selects, counted by their keys. *)
Lemma counts_filter {A} (P : A → Prop) `{∀ x, Decision (P x)} (m : gmap uuid A) :
  counts (fun i => ∃ x, m !! i = Some x ∧ P x) (count (filter P (map_to_list m).*2)).
Proof.
  exists (list_to_set (filter (fun p => P p.2) (map_to_list m)).*1). split.
  - intros i. rewrite elem_of_list_to_set, list_elem_of_fmap. split.
    + intros ([j x] & -> & [Hx Hin%elem_of_map_to_list]%list_elem_of_filter). by exists x.
    + intros (x & Hin & Hx). exists (i, x). split; [done|]. apply list_elem_of_filter.
      split; [done|]. by apply elem_of_map_to_list.
  - rewrite size_list_to_set.
    2:{ eapply sublist_NoDup; [apply (NoDup_fst_map_to_list m)|]. apply fmap_sublist, sublist_filter. }
    unfold count. rewrite length_fmap. f_equal. induction (map_to_list m) as [|[i x] l IH]; [done|].
    rewrite fmap_cons, !filter_cons. simpl. case_decide; simpl; by rewrite IH.
Qed.

Lemma counts_map {A} (m : gmap uuid A) : counts (fun i => is_Some (m !! i)) (Z.of_nat (size m)).
Proof. exists (dom m). split; [apply elem_of_dom|]. by rewrite size_dom. Qed.

(** Alive: not on its way out, and no heartbeat older than 30 seconds. *)
Definition alive (now : datetime) (w : Worker) : Prop :=
  (wk_status w = WIDLE ∨ wk_status w = WBUSY ∨ wk_status w = WSTARTING) ∧
  ∀ t, wk_last_heartbeat_at w = Some t → (now - t ≤ 30 * 1000000)%Z.

Lemma is_active_worker_alive now w : is_active_worker now w = true ↔ alive now w.
Proof.
  unfold is_active_worker, alive, ACTIVE_WORKER_STATUSES. case_decide as Hoff.
  { rewrite Hoff. naive_solver. }
  rewrite andb_true_iff, negb_true_iff, bool_decide_eq_true, !elem_of_cons, elem_of_nil.
  destruct (wk_last_heartbeat_at w) as [t|]; [rewrite Z.ltb_ge|]; naive_solver.
Qed.

Lemma active_workers_count now l :
  foldl (fun n w => if is_active_worker now w then n + 1 else n)%Z 0%Z l =
    count (filter (fun w => is_active_worker now w = true) l).
Proof.
  unfold count. induction l as [|w l IH] using rev_ind; [done|].
  rewrite foldl_app, filter_app, length_app, filter_cons, filter_nil. cbn [foldl]. rewrite IH.
  destruct (is_active_worker now w); [rewrite decide_True by done|rewrite decide_False by done]; simpl; lia.
Qed.

Section summary.
Context {Q : Type} `{QueuePublisher Q} {Net : Type}.
Context (str_exc : exc → string) (set_order : list json → list json)
  (registry : ExecutorRegistry Net).
Hypothesis Hord : ∀ l, set_order l ≡ₚ l.

(** The nodes of the owner that are dead-lettered. *)
Definition dead_rows (d : DB) (owner : uuid) : list NodeExecution :=
  filter (fun n => owns_execution d (ne_execution_id n) owner = true ∧ ne_status n = NDEAD_LETTERED)
    (map_to_list (db_nodes d)).*2.

(** The numbers, as lengths of lists of rows. *)
Record summarises (d : DB) (workers : gmap uuid Worker) (now : datetime) (owner : uuid)
    (m : MetricsSummaryResponse) : Prop := {
  sm_executions : mt_active_executions m = count (active_execution_rows d owner);
  sm_nodes : (mt_queued_nodes m + mt_running_nodes m)%Z = count (node_status_rows d owner);
  sm_queued : mt_queued_nodes m = count (filter (fun n => ne_status n = NQUEUED) (node_status_rows d owner));
  sm_running : mt_running_nodes m = count (filter (fun n => ne_status n = NRUNNING) (node_status_rows d owner));
  sm_jobs : mt_dead_letter_jobs m = count (open_job_rows d owner);
  sm_workers : mt_workers m = Z.of_nat (size workers);
  sm_active : mt_active_workers m =
    count (filter (fun w => is_active_worker now w = true) (map_to_list workers).*2)
}.

Lemma summarises_lists d workers now owner depth :
  summarises d workers now owner
    (mkMetrics (count (active_execution_rows d owner))
       (status_count NQUEUED (group_by_status (node_status_rows d owner)))
       (status_count NRUNNING (group_by_status (node_status_rows d owner)))
       (count (map_to_list workers).*2)
       (foldl (fun n w => if is_active_worker now w then n + 1 else n)%Z 0%Z (map_to_list workers).*2)
       depth (count (open_job_rows d owner))).
Proof.
  split; simpl.
  - done.
  - apply status_count_total, Forall_forall. unfold node_status_rows.
    intros n Hn. by apply list_elem_of_filter in Hn as [[_ Hn] _].
  - apply status_count_group. set_solver.
  - apply status_count_group. set_solver.
  - done.
  - unfold count. by rewrite length_fmap, length_map_to_list.
  - apply active_workers_count.
Qed.

(** What [_get_queue_depth] answers. *)
Definition queue_depth_of (fn : option (Q → res exc Z * Q)) (q : Q) : res exc Z :=
  match fn with None => Ok 0%Z | Some f => (f q).1 end.

Lemma get_summary_run (fn : option (Q → res exc Z * Q)) workers owner w r w' :
  get_summary fn workers owner w = (r, w') →
  w_committed w' = w_committed w ∧
  match r with
  | Ok m => queue_depth_of fn (w_queue w) = Ok (mt_queue_depth m) ∧
            summarises (w_db w) workers (w_now w) owner m
  | Err e => queue_depth_of fn (w_queue w) = Err e
  end.
Proof.
  intros Hrun. unfold get_summary, _get_queue_depth, queue_depth_of in *.
  rewrite run_bind in Hrun. cbn [gets] in Hrun. rewrite run_bind in Hrun.
  destruct fn as [f|].
  - destruct (f (w_queue w)) as [[depth|e] q] eqn:Hf; simpl in Hrun;
      injection Hrun as <- <-; [|done]. split_and!; [done|done|apply summarises_lists].
  - injection Hrun as <- <-. split_and!; [done|done|apply summarises_lists].
Qed.

(** The execution belongs to a workflow of the owner. *)
Definition owned (d : DB) (owner eid : uuid) : Prop :=
  ∃ e wf, db_executions d !! eid = Some e ∧ db_workflows d !! ex_workflow_id e = Some wf ∧
          w_owner_api_key_id wf = owner.

Lemma owns_workflow_owned d workflow_id owner :
  owns_workflow d workflow_id owner = true ↔
  ∃ wf, db_workflows d !! workflow_id = Some wf ∧ w_owner_api_key_id wf = owner.
Proof.
  unfold owns_workflow. destruct (db_workflows d !! workflow_id) as [wf|]; [|naive_solver].
  rewrite N.eqb_eq. naive_solver.
Qed.

Lemma owns_execution_owned d eid owner : owns_execution d eid owner = true ↔ owned d owner eid.
Proof.
  unfold owns_execution, owned. destruct (db_executions d !! eid) as [e|]; [|naive_solver].
  rewrite owns_workflow_owned. naive_solver.
Qed.

(** The nodes of the owner with this status. *)
Definition owned_node (d : DB) (owner : uuid) (st : NodeExecutionStatus) (id : uuid) : Prop :=
  ∃ n, db_nodes d !! id = Some n ∧ owned d owner (ne_execution_id n) ∧ ne_status n = st.

(** The numbers of the dashboard: what each of them counts. *)
Record dashboard (d : DB) (workers : gmap uuid Worker) (now : datetime) (owner : uuid)
    (m : MetricsSummaryResponse) : Prop := {
  da_executions : counts (fun i => owned d owner i ∧ ex_status <$> db_executions d !! i = Some ERUNNING)
    (mt_active_executions m);
  da_queued : counts (owned_node d owner NQUEUED) (mt_queued_nodes m);
  da_running : counts (owned_node d owner NRUNNING) (mt_running_nodes m);
  da_jobs : counts (fun i => ∃ j, db_dlq d !! i = Some j ∧ owned d owner (dl_execution_id j) ∧
    dl_resolved_at j = None) (mt_dead_letter_jobs m);
  da_workers : counts (fun i => is_Some (workers !! i)) (mt_workers m);
  da_active : counts (fun i => ∃ w, workers !! i = Some w ∧ alive now w) (mt_active_workers m)
}.

Lemma counts_nodes d owner st :
  st ∈ [NQUEUED; NRUNNING] →
  counts (owned_node d owner st) (count (filter (fun n => ne_status n = st) (node_status_rows d owner))).
Proof.
  intros Hst. unfold node_status_rows. rewrite list_filter_filter.
  eapply counts_iff; [|apply counts_filter]. intros i. unfold owned_node. simpl.
  setoid_rewrite owns_execution_owned. naive_solver congruence.
Qed.

Lemma summarises_dashboard d workers now owner m :
  summarises d workers now owner m → dashboard d workers now owner m.
Proof.
  intros [He _ Hnq Hnr Hj Hw Ha]. split.
  - rewrite He. eapply counts_iff; [|apply counts_filter]. intros i. simpl. unfold owned.
    setoid_rewrite owns_workflow_owned. rewrite fmap_Some. naive_solver.
  - rewrite Hnq. apply counts_nodes. set_solver.
  - rewrite Hnr. apply counts_nodes. set_solver.
  - rewrite Hj. eapply counts_iff; [|apply counts_filter]. intros i. simpl.
    by setoid_rewrite owns_execution_owned.
  - rewrite Hw. apply counts_map.
  - rewrite Ha. eapply counts_iff; [|apply counts_filter]. intros i. simpl.
    by setoid_rewrite is_active_worker_alive.
Qed.

Lemma counts_dead d owner : counts (owned_node d owner NDEAD_LETTERED) (count (dead_rows d owner)).
Proof.
  eapply counts_iff; [|apply counts_filter]. intros i. simpl. unfold owned_node.
  by setoid_rewrite owns_execution_owned.
Qed.

(** Running executions have active nodes, and open jobs dead nodes. *)
Lemma counts_related s workers now owner m :
  reachable str_exc set_order registry (fun _ => True) s → summarises (sy_db s) workers now owner m →
  ((∀ eid wf, definition_of (sy_db s) eid = Some wf → wf_nodes wf ≠ []) →
   (mt_active_executions m ≤ mt_queued_nodes m + mt_running_nodes m)%Z) ∧
  (mt_dead_letter_jobs m ≤ count (dead_rows (sy_db s) owner))%Z.
Proof using Hord.
  intros Hr [He Hn _ _ Hj _ Ha].
  pose proof (any_inv _ _ _ Hord s Hr) as Hinv. pose proof (di_wf _ _ _ _ Hinv) as Hwf.
  pose proof (di_dlq _ _ _ _ Hinv) as [Hdead Huniq]. rewrite He, Hj, Hn. unfold count.
  split; [intros Hne|]; apply Nat2Z.inj_le.
  - apply (length_le_by_key ex_id ne_execution_id).
    { apply NoDup_selected. intros i k x y Hx Hy _ _ Heq.
      by rewrite <- (dw_exec_key _ Hwf _ _ Hx), <- (dw_exec_key _ Hwf _ _ Hy). }
    intros e [[Hown Hst] [eid Hex]%elem_of_rows]%list_elem_of_filter.
    pose proof (dw_exec_key _ Hwf _ _ Hex) as Hkey.
    destruct (exec_has_definition _ _ _ _ _ _ Hinv Hex) as [wf Hdef].
    destruct (running_has_active registry _ _ _ _ _ _ Hinv Hex Hst Hdef (Hne _ _ Hdef)) as (id & n & Hrow & Hnx & Hns).
    exists n. split; [|congruence]. apply list_elem_of_filter. split; [split; [|done]|].
    + unfold owns_execution. by rewrite Hnx, Hex.
    + apply elem_of_rows. by exists id.
  - apply (length_le_by_key dl_node_execution_id ne_id).
    { apply NoDup_selected. intros i k x y Hx Hy [_ Hox] [_ Hoy]. by apply Huniq. }
    intros j [[Hown Ho] [k Hk]%elem_of_rows]%list_elem_of_filter.
    destruct (Hdead _ _ Hk Ho) as (n & Hrow & Hs). destruct (dw_dlq _ Hwf _ _ Hk) as (n' & Hrow' & Hx).
    rewrite Hrow in Hrow'. injection Hrow' as <-. exists n.
    split; [|by apply (dw_node_key _ Hwf)]. apply list_elem_of_filter. split; [split; [congruence|done]|].
    apply elem_of_rows. by eexists.
Qed.

(** C11. The dashboard's numbers are right, and fit together. Read in one snapshot of a
    reachable state, each number is that of the rows it names: the owner's running
    executions, queued and running nodes and open dead letter jobs, the workers, and the
    workers whose status is an active one and that have no heartbeat older than 30 seconds;
    the queue depth is the queue's. The summary fails only when the queue does, and reading
    changes no table. The open dead letter jobs are no more than the dead-lettered nodes,
    and unless some workflow is empty, the running executions are no more than the queued
    and running nodes. *)
Theorem metrics_consistent (fn : option (Q → res exc Z * Q)) workers owner s r w' :
  reachable str_exc set_order registry (fun _ => True) s →
  get_summary fn workers owner (world_of s new_session) = (r, w') →
  w_committed w' = sy_db s ∧
  match r with
  | Err e => queue_depth_of fn (sy_queue s) = Err e
  | Ok m =>
      queue_depth_of fn (sy_queue s) = Ok (mt_queue_depth m) ∧
      dashboard (sy_db s) workers (sy_now s) owner m ∧
      (∃ dead, counts (owned_node (sy_db s) owner NDEAD_LETTERED) dead ∧ (mt_dead_letter_jobs m ≤ dead)%Z) ∧
      ((∀ eid wf, definition_of (sy_db s) eid = Some wf → wf_nodes wf ≠ []) →
       (mt_active_executions m ≤ mt_queued_nodes m + mt_running_nodes m)%Z)
  end.
Proof using Hord.
  intros Hr Hrun. apply get_summary_run in Hrun as [Hc Hsum]. split; [done|].
  destruct r as [m|e]; [|done]. destruct Hsum as [Hq Hsum].
  destruct (counts_related _ _ _ _ _ Hr Hsum) as [Hle Hdead].
  split_and!; [done|by apply summarises_dashboard| |done].
  exists (count (dead_rows (sy_db s) owner)). split; [apply counts_dead|done].
Qed.

End summary.

(** ** Witness *)

Lemma metrics_consistent_witness :
  ∃ m w', get_summary None ∅ 7 (demo_world left_queued) = (Ok m, w') ∧
    mt_active_executions m = 1%Z ∧
    counts (owned_node (sy_db (demo_run left_queued)) 7 NQUEUED) (mt_queued_nodes m) ∧
    (mt_active_executions m ≤ mt_queued_nodes m + mt_running_nodes m)%Z.
Proof.
  destruct (get_summary None ∅ 7 (demo_world left_queued)) as [[m|e] w'] eqn:Hrun;
    [|vm_compute in Hrun; discriminate Hrun].
  exists m, w'. split; [done|]. split; [vm_compute in Hrun; by injection Hrun as <- _|].
  destruct (metrics_consistent demo_exc id demo_registry (fun l => Permutation_refl l)
    None ∅ 7 (demo_run left_queued) (Ok m) w' (demo_run_reachable left_queued) Hrun)
    as (_ & _ & Hd & _ & Hle).
  split; [exact (da_queued _ _ _ _ _ Hd)|]. apply Hle. clear Hd Hle Hrun.
  intros eid wf Hdef Hnil. unfold definition_of in Hdef. rewrite bind_Some in Hdef.
  destruct Hdef as (e & He & Hd). apply fmap_Some in Hd as (v & Hv & ->).
  assert (∀ k x, db_versions (sy_db (demo_run left_queued)) !! k = Some x → wv_definition x = pick_workflow) as Hall.
  { intros k x Hx. assert (db_versions (sy_db (demo_run left_queued)) = db_versions demo_db) as Heq
      by (vm_compute; reflexivity).
    rewrite Heq in Hx. unfold demo_db, tables_of in Hx. simpl in Hx.
    by apply lookup_singleton_Some in Hx as [_ <-]. }
  rewrite (Hall _ _ Hv) in Hnil. discriminate Hnil.
Defined.
