(* ===== verification/Api.v ===== *)
(** * The routers of the engine, the dead letters, the logs and the metrics

    src/backend/app/api/executions.py, api/dlq.py, api/metrics.py with schemas/execution.py
    and schemas/dlq.py, and the exception handlers of core/errors.py. An endpoint maps
    its validated parameters and the owner that [require_api_key_id] found to a response:
    a status and a JSON body. Each request has a session of its own. The texts of
    pydantic's errors and of datetimes are parameters. *)

From stdpp Require Import sorting.
From S2P Require Import Prelude Json PyStr Errors Models Registry DagValidator Events Monad Store.
From S2P Require Import LogHelpers StateTransition Tx Machine Publisher Runtime.
From S2P Require Import Downstream Complete Engine Dlq Recovery Abstraction Start Steps System.
From S2P Require Import Evolution Invariant Execute Workers EngineSpec Transport Guarantees Observe.

(** ** Errors *)

(** What can leave a router: an exception of the code, FastAPI's validation error or an
    [HTTPException] (as for an unknown route). *)
Inductive api_error : Type :=
| Raised (e : exc)
| RequestValidationError (errors : json)
| HTTPException (status_code : Z) (detail : string).

(** The four handlers of [register_exception_handlers]. *)
Definition respond_error (e : api_error) : Z * json :=
  match e with
  | Raised x => handle_exception x
  | HTTPException status detail => (status, error_envelope "http_error" detail None)
  | RequestValidationError errors =>
      (422%Z, error_envelope "validation_error" "Request validation failed" (Some errors))
  end.

(** ** Responses *)

Record NodeExecutionResponse : Type := mkNodeExecutionResponse {
  nr_id : uuid;
  nr_execution_id : uuid;
  nr_node_id : string;
  nr_node_type : string;
  nr_status : string;
  nr_attempt : Z;
  nr_max_attempts : Z;
  nr_input_payload : option pydict;
  nr_output_payload : option pydict;
  nr_error_message : option string
}.

Record ExecutionResponse : Type := mkExecutionResponse {
  er_id : uuid;
  er_workflow_id : uuid;
  er_workflow_version_id : uuid;
  er_status : string;
  er_input_payload : option pydict;
  er_error_message : option string;
  er_node_executions : list NodeExecutionResponse
}.

(** [model_validate] with [from_attributes=True]. *)
Definition validate_node (n : NodeExecutionDTO) : NodeExecutionResponse :=
  mkNodeExecutionResponse (nd_id n) (nd_execution_id n) (nd_node_id n) (nd_node_type n)
    (nd_status n) (nd_attempt n) (nd_max_attempts n) (nd_input_payload n) (nd_output_payload n)
    (nd_error_message n).

Definition validate_execution (e : ExecutionDTO) : ExecutionResponse :=
  mkExecutionResponse (ed_id e) (ed_workflow_id e) (ed_workflow_version_id e) (ed_status e)
    (ed_input_payload e) (ed_error_message e) (validate_node <$> ed_node_executions e).

Record ExecutionLogResponse : Type := mkExecutionLogResponse {
  lr_log_id : uuid;
  lr_timestamp : datetime;
  lr_level : LogLevel;
  lr_message : string;
  lr_metadata : option pydict
}.

Definition from_log (log : ExecutionLog) : ExecutionLogResponse :=
  mkExecutionLogResponse (log_id log) (log_created_at log) (log_level log) (log_message log)
    (log_metadata log).

Record DeadLetterJobResponse : Type := mkDeadLetterJobResponse {
  jr_id : uuid;
  jr_execution_id : uuid;
  jr_node_execution_id : uuid;
  jr_redis_message_id : option string;
  jr_reason : string;
  jr_attempts : Z;
  jr_payload : option pydict;
  jr_created_at : datetime;
  jr_resolved_at : option datetime;
  jr_resolution_note : option string
}.

Definition validate_job (j : DeadLetterJob) : DeadLetterJobResponse :=
  mkDeadLetterJobResponse (dl_id j) (dl_execution_id j) (dl_node_execution_id j)
    (dl_redis_message_id j) (dl_reason j) (dl_attempts j) (dl_payload j) (dl_created_at j)
    (dl_resolved_at j) (dl_resolution_note j).

(** ** JSON *)

Section dumps.
Context (isoformat : datetime → string).

Definition json_uuid (u : uuid) : json := JStr (uuid_str u).
Definition json_opt_datetime (o : option datetime) : json := json_opt_str (isoformat <$> o).

Definition dump_node_response (n : NodeExecutionResponse) : json :=
  JDict [("id", json_uuid (nr_id n)); ("execution_id", json_uuid (nr_execution_id n));
         ("node_id", JStr (nr_node_id n)); ("node_type", JStr (nr_node_type n));
         ("status", JStr (nr_status n)); ("attempt", JInt (nr_attempt n));
         ("max_attempts", JInt (nr_max_attempts n));
         ("input_payload", json_opt_dict (nr_input_payload n));
         ("output_payload", json_opt_dict (nr_output_payload n));
         ("error_message", json_opt_str (nr_error_message n))]%string.

Definition dump_execution_response (e : ExecutionResponse) : json :=
  JDict [("id", json_uuid (er_id e)); ("workflow_id", json_uuid (er_workflow_id e));
         ("workflow_version_id", json_uuid (er_workflow_version_id e));
         ("status", JStr (er_status e)); ("input_payload", json_opt_dict (er_input_payload e));
         ("error_message", json_opt_str (er_error_message e));
         ("node_executions", JList (dump_node_response <$> er_node_executions e))]%string.

Definition dump_log_response (l : ExecutionLogResponse) : json :=
  JDict [("log_id", json_uuid (lr_log_id l)); ("timestamp", JStr (isoformat (lr_timestamp l)));
         ("level", JStr (log_level_name (lr_level l))); ("message", JStr (lr_message l));
         ("metadata", json_opt_dict (lr_metadata l))]%string.

Definition dump_job_response (j : DeadLetterJobResponse) : json :=
  JDict [("id", json_uuid (jr_id j)); ("execution_id", json_uuid (jr_execution_id j));
         ("node_execution_id", json_uuid (jr_node_execution_id j));
         ("redis_message_id", json_opt_str (jr_redis_message_id j));
         ("reason", JStr (jr_reason j)); ("attempts", JInt (jr_attempts j));
         ("payload", json_opt_dict (jr_payload j));
         ("created_at", JStr (isoformat (jr_created_at j)));
         ("resolved_at", json_opt_datetime (jr_resolved_at j));
         ("resolution_note", json_opt_str (jr_resolution_note j))]%string.

Definition dump_metrics (m : MetricsSummaryResponse) : json :=
  JDict [("active_executions", JInt (mt_active_executions m)); ("queued_nodes", JInt (mt_queued_nodes m));
         ("running_nodes", JInt (mt_running_nodes m)); ("workers", JInt (mt_workers m));
         ("active_workers", JInt (mt_active_workers m)); ("queue_depth", JInt (mt_queue_depth m));
         ("dead_letter_jobs", JInt (mt_dead_letter_jobs m))]%string.

End dumps.

(** ** Endpoints *)

Section endpoints.
Context {Q : Type} `{QueuePublisher Q} {Net : Type} (registry : ExecutorRegistry Net).
Context (isoformat : datetime → string) (query_errors : json).
Context (client : ExecutionEngineClient Q).

Abbreviation Endpoint Q := (World Q → (Z * json) * World Q).

(** A request: [get_db_session] gives it a session, the router's status code goes with a
    value, and the handlers answer an exception. *)
Definition endpoint {A} (status_code : Z) (dump : A → json) (m : M Q A) : Endpoint Q := fun w =>
  match with_session m w with
  | (Ok a, w') => ((status_code, dump a), w')
  | (Err e, w') => (respond_error (Raised e), w')
  end.

(** [Query(ge=0, le=hi)]; a value outside is answered before the endpoint runs. *)
Definition in_query (hi : option Z) (value : Z) : bool :=
  (0 <=? value)%Z && match hi with Some h => (value <=? h)%Z | None => true end.

Definition with_query (limit : Z) (hi : Z) (offset : Z) (k : nat → nat → Endpoint Q) : Endpoint Q :=
  if in_query (Some hi) limit && in_query None offset
  then k (Z.to_nat limit) (Z.to_nat offset)
  else fun w => (respond_error (RequestValidationError query_errors), w).

Definition dump_execution (e : ExecutionDTO) : json := dump_execution_response (validate_execution e).
Definition dump_node (n : NodeExecutionDTO) : json := dump_node_response (validate_node n).
Definition dump_list {A} (dump : A → json) (l : list A) : json := JList (dump <$> l).
Definition no_content (_ : ()) : json := JNull.

(** api/executions.py. *)
Definition api_list_executions (owner_id : uuid) (status : option string) (limit offset : Z) : Endpoint Q :=
  with_query limit 100 offset (fun limit offset =>
    endpoint 200 (dump_list dump_execution) (client_list_executions client owner_id status limit offset)).

(** [ExecutionResponse.model_validate(None)] is pydantic's error. *)
Definition api_create_execution (workflow_version_id : uuid) (input_payload : pydict) (owner_id : uuid) :
    Endpoint Q :=
  endpoint 201 dump_execution
    (execution ← client_start_execution client (mkStartExecutionCommand workflow_version_id input_payload) owner_id;
     match execution with Some e => mret e | None => raise EValueError end).

Definition api_get_execution (execution_id owner_id : uuid) : Endpoint Q :=
  endpoint 200 dump_execution
    (execution ← client_get_execution client execution_id owner_id;
     match execution with
     | None => raise (EApp (app_error_status "Execution not found" "not_found" 404))
     | Some e => mret e
     end).

Definition api_delete_execution (execution_id owner_id : uuid) : Endpoint Q :=
  endpoint 204 no_content (client_delete_execution client execution_id owner_id).

Definition api_get_execution_nodes (execution_id owner_id : uuid) : Endpoint Q :=
  endpoint 200 (dump_list dump_node) (client_get_node_executions client execution_id owner_id).

Definition api_retry_node_execution (execution_id : uuid) (node_id : string) (owner_id : uuid) : Endpoint Q :=
  endpoint 200 dump_node (client_retry_node client execution_id node_id owner_id).

Definition api_get_execution_logs (execution_id owner_id : uuid) (limit offset : Z) : Endpoint Q :=
  with_query limit 100 offset (fun limit offset =>
    endpoint 200 (dump_list (dump_log_response isoformat ∘ from_log))
      (list_logs execution_id owner_id limit offset)).

Definition api_get_execution_timeline (execution_id owner_id : uuid) (limit : Z) : Endpoint Q :=
  with_query limit 1000 0 (fun limit _ =>
    endpoint 200 (dump_list (dump_log_response isoformat ∘ from_log))
      (get_timeline execution_id owner_id limit)).

(** api/dlq.py. *)
Definition dump_job (j : DeadLetterJob) : json := dump_job_response isoformat (validate_job j).

Definition api_list_dlq_jobs (owner_id : uuid) (limit offset : Z) : Endpoint Q :=
  with_query limit 100 offset (fun limit offset =>
    endpoint 200 (dump_list dump_job) (list_dlq_jobs owner_id limit offset)).

Definition api_get_dlq_job (dlq_id owner_id : uuid) : Endpoint Q :=
  endpoint 200 dump_job
    (job ← get_dlq_job dlq_id owner_id;
     match job with
     | None => raise (EApp (app_error_status "Dead letter job not found" "not_found" 404))
     | Some job => mret job
     end).

Definition api_resolve_dlq_job (dlq_id owner_id : uuid) (resolution_note : option string) : Endpoint Q :=
  endpoint 200 dump_job (resolve_dlq_job dlq_id owner_id resolution_note).

(** api/metrics.py. *)
Definition api_get_metrics_summary (queue_depth_fn : option (Q → res exc Z * Q))
    (workers : gmap uuid Worker) (owner_id : uuid) : Endpoint Q :=
  endpoint 200 dump_metrics (get_summary queue_depth_fn workers owner_id).

End endpoints.

Abbreviation Endpoint Q := (World Q → (Z * json) * World Q).

(** ** Executions of other tenants *)

Section hidden.
Context {Q : Type} `{QueuePublisher Q} {Net : Type} (registry : ExecutorRegistry Net).
Context (isoformat : datetime → string) (query_errors : json).

Abbreviation local := (LocalExecutionEngineClient registry).

Definition not_found_response (message : string) : Z * json :=
  (404%Z, error_envelope "not_found" message None).

Lemma endpoint_not_found {A} status (dump : A → json) (m : M Q A) w message :
  m (w_close w) = (Err (EApp (app_error_status message "not_found" 404)), w_close w) →
  endpoint status dump m w = (not_found_response message, w_close w).
Proof. intros Hm. unfold endpoint, with_session. by rewrite Hm. Qed.

Lemma endpoint_Ok {A} status (dump : A → json) (m : M Q A) w a :
  m (w_close w) = (Ok a, w_close w) → endpoint status dump m w = ((status, dump a), w_close w).
Proof. intros Hm. unfold endpoint, with_session. by rewrite Hm. Qed.

Lemma with_query_ok limit hi offset (k : nat → nat → Endpoint Q) w :
  (0 ≤ limit ≤ hi)%Z → (0 ≤ offset)%Z →
  with_query query_errors limit hi offset k w = k (Z.to_nat limit) (Z.to_nat offset) w.
Proof.
  intros [H1 H2] H3. unfold with_query, in_query.
  apply Z.leb_le in H1, H2, H3. by rewrite H1, H2, H3.
Qed.

Lemma logs_hidden eid owner (w : World Q) :
  owns_execution (w_db w) eid owner = false →
  let err := Err (EApp (app_error_status "Execution not found" "not_found" 404)) in
  (∀ limit offset, list_logs eid owner limit offset w = (err, w)) ∧
  (∀ limit, get_timeline eid owner limit w = (err, w)).
Proof.
  intros Hno. split; intros *; unfold list_logs, get_timeline, _check_ownership;
    rewrite run_bind, run_bind; cbn [gets]; by rewrite Hno.
Qed.

(** C22. Executions of other tenants are hidden. Asked for an execution that the caller does
    not own, or that does not exist, the API gives the same answer: reading, deleting and
    retrying it, its logs and its timeline are a 404 with the same body, the list of its
    nodes is empty; its dead letter jobs are a 404 too; and no table changes. So the
    answers do not tell which identifiers other tenants use. *)
Theorem foreign_execution_hidden eid owner (w : World Q) :
  db_wf (w_committed w) → owns_execution (w_committed w) eid owner = false →
  api_get_execution local eid owner w = (not_found_response "Execution not found", w_close w) ∧
  api_delete_execution local eid owner w = (not_found_response "Execution not found", w_close w) ∧
  api_get_execution_nodes local eid owner w = ((200%Z, JList []), w_close w) ∧
  (∀ x, api_retry_node_execution local eid x owner w =
        (not_found_response "NodeExecution not found", w_close w)) ∧
  (∀ limit offset, (0 ≤ limit ≤ 100)%Z → (0 ≤ offset)%Z →
     api_get_execution_logs isoformat query_errors eid owner limit offset w =
       (not_found_response "Execution not found", w_close w)) ∧
  (∀ limit, (0 ≤ limit ≤ 1000)%Z →
     api_get_execution_timeline isoformat query_errors eid owner limit w =
       (not_found_response "Execution not found", w_close w)) ∧
  (∀ k j, db_dlq (w_committed w) !! k = Some j → dl_execution_id j = eid →
     api_get_dlq_job isoformat k owner w = (not_found_response "Dead letter job not found", w_close w) ∧
     ∀ note, api_resolve_dlq_job isoformat k owner note w =
       (not_found_response "Dead letter job not found", w_close w)).
Proof.
  intros Hwf Hno. set (w0 := w_close w).
  assert (owns_execution (w_db w0) eid owner = false) as Hno0 by done.
  destruct (logs_hidden eid owner w0 Hno0) as [Hlogs Htimeline].
  assert (∀ k j, db_dlq (w_committed w) !! k = Some j → dl_execution_id j = eid →
    get_dlq_job k owner w0 = (Ok None, w0)) as Hjob.
  { intros k j Hj He. unfold get_dlq_job. rewrite run_bind. cbn [gets].
    assert (owned_jobs (w_db w0) owner !! k = None) as ->; [|done]. apply map_lookup_filter_None. right. intros j' Hj'. simpl in Hj'.
    rewrite Hj in Hj'. injection Hj' as <-. simpl. by rewrite He, Hno. }
  split_and!.
  - unfold api_get_execution. apply endpoint_not_found. unfold client_get_execution, LocalExecutionEngineClient, get_execution, select_owned_execution.
    rewrite run_bind, run_bind, run_bind. cbn [gets]. fold w0. by rewrite Hno0.
  - unfold api_delete_execution. apply endpoint_not_found. unfold client_delete_execution, LocalExecutionEngineClient, delete_execution, select_owned_execution.
    rewrite run_bind, run_bind. cbn [gets]. fold w0. by rewrite Hno0.
  - unfold api_get_execution_nodes. change (JList []) with (dump_list dump_node []).
    apply endpoint_Ok. unfold client_get_node_executions, LocalExecutionEngineClient, get_node_executions, select_owned_execution.
    rewrite run_bind, run_bind. cbn [gets]. fold w0. by rewrite Hno0.
  - intros x. unfold api_retry_node_execution. apply endpoint_not_found. unfold client_retry_node, LocalExecutionEngineClient, retry_node, retry_requeue.
    rewrite run_bind, run_bind. cbn [gets]. cbv zeta. fold w0. by rewrite Hno0.
  - intros limit offset Hl Ho. unfold api_get_execution_logs. rewrite with_query_ok by done.
    apply endpoint_not_found, Hlogs.
  - intros limit Hl. unfold api_get_execution_timeline. rewrite with_query_ok by (done || lia).
    apply endpoint_not_found, Htimeline.
  - intros k j Hj He. split; [|intros note]; unfold api_get_dlq_job, api_resolve_dlq_job; apply endpoint_not_found;
      unfold resolve_dlq_job;
      by rewrite (run_bind_Ok _ _ _ _ _ (Hjob k j Hj He)).
Qed.

End hidden.

(** ** Witness *)

(** Tenant 8 asks for the execution of tenant 7. *)
Lemma foreign_execution_hidden_witness :
  (api_get_execution (LocalExecutionEngineClient demo_registry) 100 8 (demo_world left_dead)).1 =
    not_found_response "Execution not found".
Proof.
  assert (db_wf (w_committed (demo_world left_dead))) as Hwf
    by (unfold demo_world, world_of; cbn [w_committed]; apply demo_wf).
  assert (owns_execution (w_committed (demo_world left_dead)) 100 8 = false) as Hno
    by (vm_compute; reflexivity).
  exact (f_equal fst (proj1 (foreign_execution_hidden demo_registry (fun _ => ""%string) JNull 100 8
    (demo_world left_dead) Hwf Hno))).
Defined.
