(* ===== verification/App.v ===== *)
(** * The application

    src/backend/app/main.py, core/config.py, api/middleware/security_headers.py and
    api/health.py: the stack of middlewares around the routers, the settings, and the start
    and the stop of the process. Starlette puts the middleware added last outermost, the
    handlers of the exception classes inside all of them and that of [Exception] outside.
    The routers and the CORS middleware are parameters. *)

From Stdlib Require Import SpecFloat Ascii.
From S2P Require Import Prelude Json PyStr Errors Dumps JsonParse Monad Registry Conditions Executors.
From S2P Require Import Models Events Store StateTransition Publisher RateLimit Transport Observe Api.

(** ** Settings (core/config.py; TransportMode is in Transport.v) *)

(** A whole number of seconds as a float. *)
Definition py_float (z : Z) : spec_float := binary_normalize 53 1024 z 0 false.

Record AppSettings : Type := mkAppSettings {
  app_name : string;
  environment : string;
  debug : bool;
  eventflow_internal_transport : TransportMode;
  database_url : string;
  redis_url : string;
  redis_stream_name : string;
  redis_consumer_group : string;
  queue_publisher_backend : string;
  worker_name : option string;
  worker_concurrency : Z;
  worker_heartbeat_interval_seconds : spec_float;
  worker_pending_idle_timeout_seconds : spec_float;
  worker_recovery_poll_interval_seconds : spec_float;
  websocket_heartbeat_interval_seconds : spec_float;
  api_key_header_name : string;
  jwt_access_secret_key : string;
  jwt_refresh_secret_key : string;
  jwt_algorithm : string;
  jwt_access_token_expire_minutes : Z;
  jwt_refresh_token_expire_days : Z;
  cors_origins : string;
  st_rate_limit_requests : Z;
  st_rate_limit_window_seconds : Z
}.

(** The fields without a default come from the environment. *)
Definition default_settings (database_url redis_url access_key refresh_key : string) : AppSettings :=
  mkAppSettings "EventFlow" "development" false LOCAL database_url redis_url
    "eventflow:jobs" "eventflow-workers" "memory" None 4 (py_float 5) (py_float 600) (py_float 30)
    (py_float 20) "X-EventFlow-API-Key" access_key refresh_key "HS256" 60 7
    "http://localhost:3000,http://localhost:3001,http://127.0.0.1:3000,http://127.0.0.1:3001" 100 60.

(** [s.split(",")]. *)
Fixpoint split_comma (l : list ascii) : list (list ascii) :=
  match l with
  | [] => [[]]
  | c :: l =>
      if Ascii.eqb c "," then [] :: split_comma l
      else match split_comma l with
           | [] => [[c]]
           | x :: xs => (c :: x) :: xs
           end
  end.

Definition cors_origins_list (settings : AppSettings) : list string :=
  omap (fun origin => match strip py_isspace origin with
                      | [] => None
                      | s => Some (text s)
                      end) (split_comma (chars (cors_origins settings))).

Example default_origins :
  cors_origins_list (default_settings "" "" "" "") =
    ["http://localhost:3000"; "http://localhost:3001"; "http://127.0.0.1:3000";
     "http://127.0.0.1:3001"]%string.
Proof. vm_compute. reflexivity. Qed.

(** ** Headers *)

(** [headers.setdefault(k, v)]. *)
Definition setdefault (headers : list (string * string)) (h : string * string) : list (string * string) :=
  if has_header h.1 headers then headers else headers ++ [h].

Definition SECURITY_HEADERS : list (string * string) :=
  [("X-Content-Type-Options", "nosniff"); ("X-Frame-Options", "DENY");
   ("X-XSS-Protection", "1; mode=block"); ("Referrer-Policy", "strict-origin-when-cross-origin");
   ("Permissions-Policy", "geolocation=(), camera=(), microphone=()");
   ("Content-Security-Policy", "default-src 'self'; frame-ancestors 'none';")]%string.

Definition add_security_headers (response : Response) : Response :=
  mkResponse (rs_status response) (rs_content response)
    (foldl setdefault (rs_headers response) SECURITY_HEADERS).

(** ** The stack of middlewares *)

Section application.
Context {R A : Type}.
Context (pipeline : string → Z → Z → R → res exc Z * R) (settings : RateSettings).
(** The routers. *)
Context (router : Request → A → res api_error Response * A).
(** CORSMiddleware answers a preflight request itself and adds headers to other responses. *)
Context (preflight : Request → option Response) (cors_headers : Request → list (string * string)).

(** A handler's JSON response. *)
Definition error_response (e : api_error) : Response :=
  let '(status, content) := respond_error e in mkResponse status content [].

(** The handlers registered for the classes of exceptions; others go on. *)
Definition exception_middleware (request : Request) (app : A) : res exc Response * A :=
  match router request app with
  | (Ok response, app') => (Ok response, app')
  | (Err e, app') =>
      match e with
      | Raised (EApp _) | RequestValidationError _ | HTTPException _ _ => (Ok (error_response e), app')
      | Raised x => (Err x, app')
      end
  end.

(** SecurityHeadersMiddleware. *)
Definition security_headers (request : Request) (app : A) : res exc Response * A :=
  match exception_middleware request app with
  | (Ok response, app') => (Ok (add_security_headers response), app')
  | (Err e, app') => (Err e, app')
  end.

(** RateLimitMiddleware around it. *)
Definition rate_limited (request : Request) (s : LimitState) : res exc Response * LimitState :=
  dispatch pipeline security_headers settings request s.

Definition append_headers (extra : list (string * string)) (response : Response) : Response :=
  mkResponse (rs_status response) (rs_content response) (rs_headers response ++ extra).

(** CORSMiddleware around that. *)
Definition cors (request : Request) (s : LimitState) : res exc Response * LimitState :=
  match preflight request with
  | Some response => (Ok response, s)
  | None =>
      match rate_limited request s with
      | (Ok response, s') => (Ok (append_headers (cors_headers request) response), s')
      | (Err e, s') => (Err e, s')
      end
  end.

(** The outermost handler, for [Exception]. *)
Definition application (request : Request) (s : LimitState) : Response * LimitState :=
  match cors request s with
  | (Ok response, s') => (response, s')
  | (Err e, s') => (error_response (Raised e), s')
  end.

Lemma has_header_value k headers : has_header k headers = true ↔ is_Some (header_value k headers).
Proof.
  induction headers as [|h headers IH]; [split; [done|by intros []]|].
  rewrite header_value_cons. unfold has_header. simpl. destruct (header_is k h); [by split; eauto|].
  exact IH.
Qed.

Lemma header_value_setdefault k headers h :
  header_value k (setdefault headers h) =
  match header_value k headers with
  | Some v => Some v
  | None => if header_is k h then Some h.2 else None
  end.
Proof.
  unfold setdefault. destruct (has_header h.1 headers) eqn:Hh.
  - destruct (header_value k headers) eqn:Hk; [done|]. destruct (header_is k h) eqn:Heq; [|done].
    apply has_header_value in Hh as [v Hv]. exfalso. revert Hk Hv.
    induction headers as [|h' headers IH]; [done|]. rewrite !header_value_cons.
    unfold header_is in *. apply String.eqb_eq in Heq. rewrite Heq.
    destruct (String.eqb _ _); [done|apply IH].
  - rewrite header_value_app, header_value_cons. by destruct (header_value k headers).
Qed.

(** A later default does not change what an earlier one set. *)
Lemma header_value_defaults k l : ∀ headers,
  header_value k (foldl setdefault headers l) =
  match header_value k headers with Some v => Some v | None => header_value k l end.
Proof.
  induction l as [|h l IH]; intros headers; simpl; [by destruct (header_value k headers)|].
  rewrite IH, header_value_setdefault, header_value_cons.
  destruct (header_value k headers); [done|]. by destruct (header_is k h).
Qed.

(** The response, its rate limit headers apart. *)
Definition relabelled (r0 response : Response) : Prop :=
  rs_status response = rs_status r0 ∧ rs_content response = rs_content r0 ∧
  ∀ k, lower k ∉ ["x-ratelimit-limit"; "x-ratelimit-remaining"]%string →
    header_value k (rs_headers response) = header_value k (rs_headers r0).

Lemma with_headers_relabelled remaining r0 : relabelled r0 (with_headers settings remaining r0).
Proof.
  split_and!; [done..|]. intros k Hk. unfold with_headers. cbn [rs_headers]. rewrite !header_value_set_header.
  change (lower "X-RateLimit-Limit") with "x-ratelimit-limit"%string.
  change (lower "X-RateLimit-Remaining") with "x-ratelimit-remaining"%string.
  rewrite !elem_of_cons in Hk.
  destruct (String.eqb_spec "x-ratelimit-remaining" (lower k)); [naive_solver|].
  destruct (String.eqb_spec "x-ratelimit-limit" (lower k)); [naive_solver|done].
Qed.

(** What the limiter does with the response of the application. *)
Lemma dispatch_cases request s r s' :
  rate_limited request s = (r, s') →
  match r with
  | Ok response => response = too_many settings ∨
      ∃ app r0, (security_headers request app).1 = Ok r0 ∧ relabelled r0 response
  | Err e => ∃ app, (security_headers request app).1 = Err e
  end.
Proof.
  assert (∀ (s : LimitState (R := R)) r s', run_app security_headers request s = (r, s') →
    ∃ app, (security_headers request app).1 = r) as Hrun.
  { intros s0 r0 s0'. unfold run_app. destruct (security_headers request (ls_app s0)) as [r1 a1] eqn:Ha.
    intros [= <- <-]. exists (ls_app s0). by rewrite Ha. }
  assert (∀ (s : LimitState (R := R)) r s' n,
    (response ← run_app security_headers request; mret (with_headers settings n response)) s = (r, s') →
    match r with
    | Ok response => ∃ app r0, (security_headers request app).1 = Ok r0 ∧ relabelled r0 response
    | Err e => ∃ app, (security_headers request app).1 = Err e
    end) as Hbody.
  { intros s0 r0 s0' n. rewrite run_bind.
    destruct (run_app security_headers request s0) as [[r1|e] s1] eqn:Ha; intros [= <- <-];
      destruct (Hrun _ _ _ Ha) as [app Happ]; exists app; [|done]. exists r1. split; [done|].
    apply with_headers_relabelled. }
  unfold rate_limited, dispatch. destruct (exempt request).
  { intros Ha. destruct (Hrun _ _ _ Ha) as [app Happ]. destruct r as [r0|e]; [|by exists app].
    right. by exists app, r0. }
  assert (∀ (s : LimitState (R := R)) r s', dispatch_fallback security_headers settings request s = (r, s') →
    match r with
    | Ok response => response = too_many settings ∨
        ∃ app r0, (security_headers request app).1 = Ok r0 ∧ relabelled r0 response
    | Err e => ∃ app, (security_headers request app).1 = Err e
    end) as Hfall.
  { intros s0 r0 s0'. unfold dispatch_fallback. rewrite run_bind. unfold in_memory_is_allowed.
    destruct (is_allowed _ _ _ _ _) as [[[] k] reqs]; cbn [fst snd]; [|intros [= <- <-]; by left].
    intros Ha%Hbody. destruct r0; [by right|done]. }
  destruct (dispatch_redis _ _ _ _ s) as [[r0|e] s1] eqn:Hr; [|intros Ha; by eapply Hfall].
  intros [= <- <-]. revert Hr. unfold dispatch_redis. rewrite run_bind.
  destruct (run_pipeline _ _ _ s) as [[n|e] s2]; [|done]. case_match; [intros [= <- <-]; by left|].
  intros Ha%Hbody. by right.
Qed.

Lemma exception_middleware_Err request app e app' :
  exception_middleware request app = (Err e, app') → rs_status (error_response (Raised e)) = 500%Z.
Proof.
  unfold exception_middleware. destruct (router request app) as [[r0|[x| |]] a]; try done.
  destruct x; try done; by intros [= <- <-].
Qed.

Lemma security_headers_inv request app :
  match (security_headers request app).1 with
  | Ok r => ∃ r0, (exception_middleware request app).1 = Ok r0 ∧ r = add_security_headers r0
  | Err e => rs_status (error_response (Raised e)) = 500%Z
  end.
Proof.
  unfold security_headers. destruct (exception_middleware request app) as [[r0|e] a] eqn:He; simpl.
  - by exists r0.
  - by eapply exception_middleware_Err.
Qed.

(** The defaults are looked up by their own names. *)
Lemma security_header_default k v :
  (k, v) ∈ SECURITY_HEADERS → header_value k SECURITY_HEADERS = Some v.
Proof.
  unfold SECURITY_HEADERS. rewrite !elem_of_cons, elem_of_nil. intros H.
  repeat destruct H as [[= -> ->]|H]; [vm_compute; reflexivity..|done].
Qed.

Lemma security_header_name k v :
  (k, v) ∈ SECURITY_HEADERS → lower k ∉ ["x-ratelimit-limit"; "x-ratelimit-remaining"]%string.
Proof.
  unfold SECURITY_HEADERS. rewrite !elem_of_cons, elem_of_nil. intros H.
  repeat destruct H as [[= -> ->]|H]; [apply (bool_decide_unpack _); vm_compute; exact I..|done].
Qed.

(** C38. Where a response comes from and what headers it has. A response of the application
    answers a preflight request, or is the limiter's 429, or the 500 of an exception
    nobody handles, or comes from a router or the handler of its exception; and in that
    last case it keeps its status and content and has every security header, with the
    value the router gave it or else the default. The limiter's refusals and the 500s are
    made outside the middleware that adds them; a 500 has no CORS headers either. *)
Theorem response_headers request s r s' :
  application request s = (r, s') →
  preflight request = Some r ∨
  r = append_headers (cors_headers request) (too_many settings) ∨
  (∃ e, r = error_response (Raised e) ∧ rs_status r = 500%Z ∧ rs_headers r = []) ∨
  ∃ app r0, (exception_middleware request app).1 = Ok r0 ∧
    rs_status r = rs_status r0 ∧ rs_content r = rs_content r0 ∧
    ∀ k v, (k, v) ∈ SECURITY_HEADERS →
      header_value k (rs_headers r) = Some (default v (header_value k (rs_headers r0))).
Proof.
  unfold application, cors. destruct (preflight request) as [p|]; [intros [= <- <-]; by left|].
  destruct (rate_limited request s) as [r1 s1] eqn:Hr. pose proof (dispatch_cases _ _ _ _ Hr) as Hcase.
  destruct r1 as [resp|e].
  - intros [= <- <-]. destruct Hcase as [->|(app & r2 & Happ & Hst & Hct & Hrl)]; [auto|].
    right; right; right. pose proof (security_headers_inv request app) as Hinv. rewrite Happ in Hinv.
    destruct Hinv as (r0 & Hr0 & ->). exists app, r0. split_and!; [done..|].
    intros k v Hkv. unfold append_headers. cbn [rs_headers]. rewrite header_value_app.
    rewrite Hrl by (by eapply security_header_name). unfold add_security_headers. cbn [rs_headers].
    rewrite header_value_defaults, (security_header_default _ _ Hkv).
    by destruct (header_value k (rs_headers r0)).
  - destruct Hcase as [app Happ]. pose proof (security_headers_inv request app) as Hinv.
    rewrite Happ in Hinv. intros [= <- <-]. right; right; left. exists e. split_and!; [done..|].
    unfold error_response. by destruct (respond_error _).
Qed.

End application.

(** ** Health (api/health.py, check_database_connection, check_redis_connection) *)

Record ReadyResponse : Type := mkReadyResponse {
  rd_status : string;
  rd_database : bool;
  rd_redis : bool
}.

Definition live : string := "ok".

(** The statement ran; any exception is caught. *)
Definition check_database_connection (select_one : res exc ()) : bool := is_ok select_one.

(** [bool(await redis.ping())]; any exception is caught. *)
Definition check_redis_connection (ping : res exc bool) : bool :=
  match ping with Ok pong => pong | Err _ => false end.

Definition ready (select_one : res exc ()) (ping : res exc bool) : Z * ReadyResponse :=
  let database_ok := check_database_connection select_one in
  let redis_ok := check_redis_connection ping in
  let is_ready := database_ok && redis_ok in
  ((if is_ready then 200 else 503)%Z,
   mkReadyResponse (if is_ready then "ok" else "degraded") database_ok redis_ok).

(** ** Start and stop of the process (lifespan) *)

(** How a task ends that is awaited after [cancel()]. *)
Inductive TaskEnd : Type := Returned | Cancelled | Failed (e : exc).

Inductive LifeAction : Type :=
| CreateListener | CreateWorker | StartGrpc | StopGrpc | CancelTasks
| AwaitListener | AwaitWorker | DisposeEngine | CloseRedis.

#[export] Instance LifeAction_eq_dec : EqDecision LifeAction.
Proof. solve_decision. Defined.

(** Before the [yield]; [grpc] says what [start_grpc_server] does. *)
Definition lifespan_startup (transport : TransportMode) : list LifeAction :=
  [CreateListener; CreateWorker] ++
  match transport with GRPC => [StartGrpc] | LOCAL => [] end.

(** After the [yield]: the actions in order, and the exception that leaves. Both awaits are
    in one [try] that catches [CancelledError]. *)
Definition lifespan_shutdown (transport : TransportMode) (listener worker : TaskEnd) :
    list LifeAction * option exc :=
  let before := match transport with GRPC => [StopGrpc] | LOCAL => [] end ++
                [CancelTasks; AwaitListener] in
  let release := [DisposeEngine; CloseRedis] in
  match listener with
  | Failed e => (before, Some e)
  | Cancelled => (before ++ release, None)
  | Returned =>
      match worker with
      | Failed e => (before ++ [AwaitWorker], Some e)
      | _ => (before ++ [AwaitWorker] ++ release, None)
      end
  end.

(** The engine and the Redis client are released unless a task has failed, and the worker
    is waited for unless the listener did not return. *)
Lemma shutdown_releases transport listener worker :
  let '(actions, error) := lifespan_shutdown transport listener worker in
  (DisposeEngine ∈ actions ↔ error = None) ∧ (CloseRedis ∈ actions ↔ error = None) ∧
  (AwaitWorker ∈ actions ↔ listener = Returned).
Proof. destruct transport, listener, worker; simpl; rewrite ?elem_of_cons, ?elem_of_nil; naive_solver. Qed.

(** ** Witness *)

(** A page of the API that allows itself to be framed by its own site. *)
Definition demo_pipeline (_ : string) (_ _ n : Z) : res exc Z * Z := (Ok (n + 1)%Z, (n + 1)%Z).
Definition demo_page : Response := mkResponse 200 (JStr "ok") [("x-frame-options", "SAMEORIGIN")]%string.
Definition demo_router (_ : Request) (u : ()) : res api_error Response * () := (Ok demo_page, u).
Definition demo_request : Request := mkRequest "/api/v1/executions" "GET" None None None.
Definition demo_limiter : LimitState := mkLimitState ∅ 0 0%Z ().

Lemma response_headers_witness :
  let r := (application demo_pipeline (mkRateSettings 100 60) demo_router (fun _ => None) (fun _ => [])
              demo_request demo_limiter).1 in
  header_value "X-Frame-Options" (rs_headers r) = Some "SAMEORIGIN"%string ∧
  header_value "X-Content-Type-Options" (rs_headers r) = Some "nosniff"%string.
Proof.
  intros r. destruct (application demo_pipeline (mkRateSettings 100 60) demo_router (fun _ => None) (fun _ => [])
    demo_request demo_limiter) as [r1 s1] eqn:Hrun.
  destruct (response_headers demo_pipeline (mkRateSettings 100 60) demo_router (fun _ => None) (fun _ => [])
    demo_request demo_limiter r1 s1 Hrun) as [H|[H|[(e & _ & H & _)|(app & r0 & H0 & _ & _ & H)]]].
  - discriminate H.
  - exfalso. rewrite H in Hrun. vm_compute in Hrun. discriminate Hrun.
  - exfalso. vm_compute in Hrun. injection Hrun as <- _. discriminate H.
  - assert (r0 = demo_page) as -> by (by injection H0 as <-).
    replace r with r1 by done.
    split; [rewrite (H "X-Frame-Options" "DENY")%string|rewrite (H "X-Content-Type-Options" "nosniff")%string];
      first [vm_compute; reflexivity|unfold SECURITY_HEADERS; rewrite !elem_of_cons; auto].
Defined.
