(* ===== verification/Lifecycle.v ===== *)
(** * The life of a process and of its workers

    What a process keeps of its own (db/session.py, queue/redis_client.py,
    [get_queue_publisher] of transport/local_execution_client.py), and the life of a worker
    (worker/background.py, worker/__main__.py, worker/heartbeat.py): it registers, its
    heartbeat loop writes its status into its row while it runs, and it ends offline. The
    steps of the two tasks, and of everybody else who writes the table of workers, come in
    any order: a list of events. *)

From S2P Require Import Prelude Json PyStr Errors Models Monad Publisher Workers.
From S2P Require Import RateLimit Transport Api App.

(** ** The singletons *)

(** The publisher of a process; its Redis client is known by its number. *)
Inductive PublisherObject : Type :=
| InMemoryPublisher (publisher : InMemoryQueuePublisher)
| RedisStreamPublisher (publisher : RedisStreamQueuePublisher N).

(** [_engine], the engine [_session_factory] is bound to, [_redis], [_instance]; and the
    engines and clients that were released. *)
Record Process : Type := mkProcess {
  _engine : option N;
  _session_factory : option N;
  _redis : option N;
  _instance : option PublisherObject;
  released : list N;
  next_handle : N
}.

Definition new_process : Process := mkProcess None None None None [] 0.

Definition get_engine (p : Process) : N * Process :=
  match _engine p with
  | Some e => (e, p)
  | None => let e := next_handle p in
            (e, mkProcess (Some e) (_session_factory p) (_redis p) (_instance p) (released p) (N.succ e))
  end.

Definition get_session_factory (p : Process) : N * Process :=
  match _session_factory p with
  | Some e => (e, p)
  | None => let '(e, p) := get_engine p in
            (e, mkProcess (_engine p) (Some e) (_redis p) (_instance p) (released p) (next_handle p))
  end.

Definition dispose_engine (p : Process) : Process :=
  match _engine p with
  | None => p
  | Some e => mkProcess None (_session_factory p) (_redis p) (_instance p) (released p ++ [e]) (next_handle p)
  end.

Definition get_redis (p : Process) : N * Process :=
  match _redis p with
  | Some r => (r, p)
  | None => let r := next_handle p in
            (r, mkProcess (_engine p) (_session_factory p) (Some r) (_instance p) (released p) (N.succ r))
  end.

Definition close_redis (p : Process) : Process :=
  match _redis p with
  | None => p
  | Some r => mkProcess (_engine p) (_session_factory p) None (_instance p) (released p ++ [r]) (next_handle p)
  end.

(** [_build_queue_publisher]. *)
Definition _build_queue_publisher (settings : AppSettings) (p : Process) : PublisherObject * Process :=
  if String.eqb (queue_publisher_backend settings) "redis" then
    let '(r, p) := get_redis p in
    (RedisStreamPublisher (mkRedisPublisher r (redis_stream_name settings)
       (redis_consumer_group settings) false), p)
  else (InMemoryPublisher (mkInMemory []), p).

(** [get_queue_publisher]. *)
Definition get_queue_publisher (settings : AppSettings) (p : Process) : PublisherObject * Process :=
  match _instance p with
  | Some publisher => (publisher, p)
  | None =>
      let '(publisher, p) := _build_queue_publisher settings p in
      (publisher, mkProcess (_engine p) (_session_factory p) (_redis p) (Some publisher) (released p)
                    (next_handle p))
  end.

(** worker/__main__.py builds one publisher for the recovery loop and one for [run_worker],
    and takes the client both loops read with. *)
Definition worker_publishers (settings : AppSettings) (p : Process) :
    (PublisherObject * PublisherObject * N) * Process :=
  let '(recovering, p) := _build_queue_publisher settings p in
  let '(running, p) := _build_queue_publisher settings p in
  let '(r, p) := get_redis p in
  ((recovering, running, r), p).

(** [GrpcServerContext]: the server has a publisher of its own; stopping it keeps the object. *)
Record GrpcServer : Type := mkGrpcServer {
  gs_publisher : PublisherObject;
  gs_port : Z;
  gs_serving : bool
}.

Definition start_grpc_server (settings : AppSettings) (p : Process) : GrpcServer * Process :=
  let '(publisher, p) := _build_queue_publisher settings p in (mkGrpcServer publisher 50051 true, p).

Definition stop_grpc_server (server : option GrpcServer) : option GrpcServer :=
  (fun g => mkGrpcServer (gs_publisher g) (gs_port g) false) <$> server.

(** What the last two actions of [lifespan] do. *)
Definition perform (a : LifeAction) (p : Process) : Process :=
  match a with DisposeEngine => dispose_engine p | CloseRedis => close_redis p | _ => p end.

(** A process that stops and starts again, as [lifespan] can, keeps its session factory,
    bound to the engine it has released, and its publisher with the closed client;
    [get_engine] and [get_redis] make new ones. *)
Lemma singletons_outlive_release settings p transport :
  let p1 := (get_queue_publisher settings (get_session_factory p).2).2 in
  let p2 := foldl (fun p a => perform a p) p1 (lifespan_shutdown transport Returned Returned).1 in
  _engine p2 = None ∧ _redis p2 = None ∧
  (get_session_factory p2).1 = (get_session_factory p1).1 ∧
  (get_queue_publisher settings p2).1 = (get_queue_publisher settings p1).1 ∧
  released p2 = released p1 ++ option_list (_engine p1) ++ option_list (_redis p1).
Proof.
  intros p1 p2.
  assert (is_Some (_session_factory p1)) as [e He].
  { unfold p1, get_queue_publisher, _build_queue_publisher, get_session_factory, get_engine, get_redis.
    repeat (case_match; simplify_eq/=); eauto. }
  assert (is_Some (_instance p1)) as [q Hq].
  { unfold p1, get_queue_publisher. repeat (case_match; simplify_eq/=); eauto. }
  assert (p2 = close_redis (dispose_engine p1)) as -> by (by destruct transport).
  clearbody p1. destruct p1 as [[e1|] f [r|] i l n]; simpl in *; subst;
    unfold get_session_factory, get_queue_publisher; simpl; rewrite ?app_nil_r, <-?app_assoc; done.
Qed.

(** ** The steps of a running worker *)

(** Everything else that writes the table of workers: the other workers' registrations,
    heartbeats and ends, and time. A worker of the same name shares the row. *)
Inductive OtherWork : Type :=
| OtherTick (elapsed : Z)
| OtherRegister (worker_name hostname : string) (owner_api_key_id : option uuid)
| OtherHeartbeat (worker_id : uuid) (status : WorkerStatus) (job : option string)
| OtherOffline (worker_id : uuid).

Definition other_work (o : OtherWork) (s : WorkerState) : WorkerState :=
  match o with
  | OtherTick elapsed => mkWorkerState (wks_workers s) (wks_now s + elapsed) (wks_next_uuid s)
  | OtherRegister worker_name hostname owner => (register_worker worker_name hostname owner s).2
  | OtherHeartbeat worker_id status job => (update_heartbeat worker_id status job s).2
  | OtherOffline worker_id => (mark_offline worker_id s).2
  end.

(** The worker's row is written by its heartbeat loop alone, a snapshot first and its commit
    later; [run_worker] reports a job to the controller or, with none, that it is idle. *)
Inductive WorkerEvent : Type :=
| HeartbeatSnapshot
| HeartbeatPersisted
| HeartbeatFailed
| Reported (job : option string)
| Other (o : OtherWork).

Record Life : Type := mkLife {
  lf_workers : WorkerState;
  lf_heartbeat : HeartbeatController;
  lf_writing : option (WorkerStatus * option string);
  lf_stop_event : bool;
  lf_written : list (WorkerStatus * option string)
}.

(** What [run_worker] reports. *)
Definition report_job (job : option string) (c : HeartbeatController) : HeartbeatController :=
  set_worker_status (match job with Some _ => WBUSY | None => WIDLE end) job c.

(** Once the stop event is set no snapshot is taken, and [run_worker] has ended. *)
Definition worker_event (ev : WorkerEvent) (l : Life) : Life :=
  match ev with
  | HeartbeatSnapshot =>
      match lf_writing l with
      | None =>
          if lf_stop_event l then l
          else mkLife (lf_workers l) (lf_heartbeat l) (Some (snapshot (lf_heartbeat l))) false (lf_written l)
      | Some _ => l
      end
  | HeartbeatPersisted =>
      match lf_writing l with
      | Some (status, job) =>
          mkLife (update_heartbeat (hc_worker_id (lf_heartbeat l)) status job (lf_workers l)).2
            (lf_heartbeat l) None (lf_stop_event l) (lf_written l ++ [(status, job)])
      | None => l
      end
  | HeartbeatFailed => mkLife (lf_workers l) (lf_heartbeat l) None (lf_stop_event l) (lf_written l)
  | Reported job =>
      if lf_stop_event l then l
      else mkLife (lf_workers l) (report_job job (lf_heartbeat l)) (lf_writing l) false (lf_written l)
  | Other o => mkLife (other_work o (lf_workers l)) (lf_heartbeat l) (lf_writing l) (lf_stop_event l) (lf_written l)
  end.

Definition worker_events (evs : list WorkerEvent) (l : Life) : Life :=
  foldl (fun l ev => worker_event ev l) l evs.

(** ** A worker from its start to its end *)

(** [settings.worker_name or f"worker-{hostname}-{os.getpid()}-{uuid.uuid4()}"]. *)
Definition consumer_name (settings : AppSettings) (hostname : string) (pid : Z) (fresh : uuid) : string :=
  let generated := ("worker-" ++ hostname ++ "-" ++ py_str_Z pid ++ "-" ++ uuid_str fresh)%string in
  match worker_name settings with
  | Some name => if String.eqb name "" then generated else name
  | None => generated
  end.

(** A cancellation that arrives while the [finally] block waits: for the heartbeat loop,
    whose write under way is cancelled with it, before its commit or after; for the recovery
    loop; or for the last session, whose write can fail as well. The rest of the block is
    skipped. *)
Inductive Interruption : Type :=
| AtHeartbeat (committed : bool)
| AtRecovery
| AtOffline (failure : option exc).

Definition interrupted_end (i : Interruption) : TaskEnd :=
  match i with AtOffline (Some e) => Failed e | _ => Cancelled end.

(** The [finally] block, and how it ends the call if it is interrupted. Setting the status does
    not suspend, so the stop event is set before anybody can look; the write under way is
    waited for, then the recovery loop. *)
Definition end_worker (interrupted : option Interruption) (draining : list WorkerEvent)
    (recovering : list OtherWork) (l : Life) : option TaskEnd * Life :=
  let l := mkLife (lf_workers l) (set_worker_status WSTOPPING None (lf_heartbeat l)) (lf_writing l) true
             (lf_written l) in
  let l := worker_events draining l in
  match interrupted with
  | Some (AtHeartbeat committed) =>
      (Some Cancelled, worker_event (if (committed : bool) then HeartbeatPersisted else HeartbeatFailed) l)
  | _ =>
      let l := worker_events (Other <$> recovering) (worker_event HeartbeatPersisted l) in
      match interrupted with
      | Some i => (Some (interrupted_end i), l)
      | None =>
          (None, mkLife (mark_offline (hc_worker_id (lf_heartbeat l)) (lf_workers l)).2 (lf_heartbeat l)
                   (lf_writing l) true (lf_written l))
      end
  end.

(** What happens to a worker: the events before [run_worker] ends, how it ends, the events of
    the last block, and whether that is interrupted. *)
Record Fate : Type := mkFate {
  ft_running : list WorkerEvent;
  ft_run_worker : TaskEnd;
  ft_draining : list WorkerEvent;
  ft_recovering : list OtherWork;
  ft_interrupted : option Interruption
}.

(** What both entry points do, [caught] being what they make of the end of [run_worker]: how
    the call ends, the tables, and what the heartbeat has written. *)
Definition run_registered (caught : TaskEnd → TaskEnd) (name hostname : string)
    (owner_api_key_id : option uuid) (fate : Fate) (s : WorkerState) :
    TaskEnd * WorkerState * list (WorkerStatus * option string) :=
  match register_worker name hostname owner_api_key_id s with
  | (Err e, s) => (Failed e, s, [])
  | (Ok worker, s) =>
      let heartbeat := set_worker_status WIDLE None (new_controller (wk_id worker)) in
      let l := worker_events (ft_running fate) (mkLife s heartbeat None false []) in
      let '(ended, l) := end_worker (ft_interrupted fate) (ft_draining fate) (ft_recovering fate) l in
      (default (caught (ft_run_worker fate)) ended, lf_workers l, lf_written l)
  end.

(** [main] of worker/__main__.py, which has no owner. *)
Definition main (settings : AppSettings) (hostname : string) (pid : Z) (fresh : uuid) (fate : Fate) :=
  run_registered (fun r => r) (consumer_name settings hostname pid fresh) hostname None fate.

(** [except asyncio.CancelledError: pass], around [run_worker] alone. *)
Definition caught_cancelled (r : TaskEnd) : TaskEnd := match r with Cancelled => Returned | r => r end.

(** [start_background_worker]: the same, but a cancelled [run_worker] is no error. *)
Definition start_background_worker (settings : AppSettings) (hostname : string) (pid : Z) (fresh : uuid)
    (owner_api_key_id : option uuid) (fate : Fate) (s : WorkerState) :
    TaskEnd * WorkerState * list (WorkerStatus * option string) :=
  run_registered caught_cancelled (consumer_name settings hostname pid fresh) hostname owner_api_key_id fate s.

(** [main] of scripts/run_worker.py. *)
Definition run_worker_script (settings : AppSettings) (hostname : string) (pid : Z) (fresh : uuid)
    (owner_api_key_id : option uuid) (fate : Fate) (s : WorkerState) :
    TaskEnd * WorkerState * list (WorkerStatus * option string) :=
  let '(r, s, written) := start_background_worker settings hostname pid fresh owner_api_key_id fate s in
  (match r with Cancelled => Returned | r => r end, s, written).

(** ** Proofs *)

(** With Redis both loops publish through the client they read with. *)
Lemma worker_publishers_share_client settings p recovering running r p' :
  queue_publisher_backend settings = "redis"%string →
  worker_publishers settings p = ((recovering, running, r), p') →
  recovering = running ∧ _redis p' = Some r ∧
  recovering = RedisStreamPublisher (mkRedisPublisher r (redis_stream_name settings)
                                       (redis_consumer_group settings) false).
Proof.
  unfold worker_publishers, _build_queue_publisher. intros ->. simpl. unfold get_redis.
  destruct (_redis p) as [c|] eqn:Hc; simpl; rewrite ?Hc; by intros [= <- <- <- <-].
Qed.

(** A worker's row, whatever its status. *)
Definition has_worker (id : uuid) (s : WorkerState) : Prop := is_Some (wks_workers s !! id).

Lemma alter_has_worker id i f s : has_worker id s → has_worker id (set_workers (alter f i) s).
Proof.
  intros Hk. unfold has_worker, set_workers. simpl. rewrite lookup_alter. case_decide; [subst|done].
  by apply fmap_is_Some.
Qed.

Lemma other_work_ok o s :
  workers_ok s → workers_ok (other_work o s) ∧ ∀ id, has_worker id s → has_worker id (other_work o s).
Proof.
  intros Hok. destruct o as [d|name host owner|id st job|id]; simpl.
  - split; [by destruct Hok; split|done].
  - destruct (register_worker name host owner s) as [r s'] eqn:Hr.
    destruct (register_worker_inv _ _ _ _ _ _ Hok Hr) as [Hok' Hrow]. split; [done|]. intros id Hid.
    destruct r as [k|e]; [|by subst]. unfold has_worker. simpl. rewrite (proj2 Hrow), lookup_insert.
    by case_decide; eauto.
  - split; [by apply workers_ok_update|]. intros j. apply alter_has_worker.
  - split; [by apply workers_ok_update|]. intros j. apply alter_has_worker.
Qed.

(** A status the heartbeat may write. *)
Definition running_status (p : WorkerStatus * option string) : Prop :=
  p.1 = WIDLE ∧ p.2 = None ∨ p.1 = WBUSY ∧ is_Some p.2.

Record life_ok (id : uuid) (l : Life) : Prop := {
  lo_workers : workers_ok (lf_workers l);
  lo_row : has_worker id (lf_workers l);
  lo_id : hc_worker_id (lf_heartbeat l) = id;
  lo_status : lf_stop_event l = false → running_status (snapshot (lf_heartbeat l));
  lo_writing p : lf_writing l = Some p → running_status p;
  lo_written : Forall running_status (lf_written l)
}.

Lemma worker_event_ok id ev l : life_ok id l → life_ok id (worker_event ev l).
Proof.
  intros Hl. pose proof Hl as [Hok Hrow Hid Hst Hwr Hwn]. destruct ev as [| | |job|o]; simpl.
  - destruct (lf_writing l) eqn:Hw; [done|]. destruct (lf_stop_event l) eqn:Hs; [done|].
    split; simpl; try done. intros p Hp. assert (p = snapshot (lf_heartbeat l)) as -> by congruence.
    by apply Hst.
  - destruct (lf_writing l) as [[st job]|] eqn:Hw; [|done]. split; simpl; try done.
    + by apply workers_ok_update.
    + by apply alter_has_worker.
    + apply Forall_app; split; [done|]. apply Forall_singleton. by apply Hwr.
  - by split.
  - destruct (lf_stop_event l) eqn:Hs; [done|]. split; simpl; try done.
    intros _. destruct job; [right|left]; unfold report_job; simpl; eauto.
  - destruct (other_work_ok o (lf_workers l) Hok) as [Hok' Hrow']. split; simpl; eauto.
Qed.

Lemma worker_events_ok id evs : ∀ l, life_ok id l → life_ok id (worker_events evs l).
Proof. induction evs as [|ev evs IH]; intros l Hl; [done|]. by apply IH, worker_event_ok. Qed.

(** The last block: it keeps the row, and if nothing interrupts it the row is offline. *)
Lemma end_worker_ok id interrupted draining recovering l ended l' :
  life_ok id l → end_worker interrupted draining recovering l = (ended, l') →
  life_ok id l' ∧
  match interrupted with
  | Some i => ended = Some (interrupted_end i)
  | None => ended = None ∧ ∀ k, wks_workers (lf_workers l') !! id = Some k →
      wk_status k = WOFFLINE ∧ wk_current_job_id k = None ∧
      wk_last_heartbeat_at k = Some (wks_now (lf_workers l'))
  end.
Proof.
  intros Hl. unfold end_worker. cbv zeta. set (l1 := mkLife (lf_workers l) _ _ true _).
  assert (life_ok id (worker_events draining l1)) as Hl2.
  { apply worker_events_ok. destruct Hl. by split. }
  set (l2 := worker_events draining l1) in *. clearbody l2.
  set (l3 := worker_events (Other <$> recovering) (worker_event HeartbeatPersisted l2)).
  assert (life_ok id l3) as Hl3 by (by apply worker_events_ok, worker_event_ok).
  clearbody l3. destruct interrupted as [[committed| |failure]|]; intros [= <- <-].
  - split; [by apply worker_event_ok|done].
  - done.
  - done.
  - destruct Hl3 as [Hok Hrow Hid _ Hwr Hwn]. split.
    + split; simpl; try done; [by apply workers_ok_update|by apply alter_has_worker].
    + split; [done|]. intros k. simpl. rewrite Hid, lookup_alter_eq.
      by intros (k0 & _ & ->)%fmap_Some.
Qed.

(** ** Properties *)

(** C32. A worker ends offline, unless it is interrupted at the very end. If it cannot
    register, it ends with that error, and has written nothing. Otherwise, however
    [run_worker] ends and whatever is written into the table in between, the row it has
    registered is still there when it ends, and says OFFLINE, no job, and the time, and a
    cancelled [run_worker] is no error: provided that the [finally] block itself is not
    cancelled and its last write does not fail. If it is, the call ends as cancelled or with
    that error. While the worker lived its heartbeat wrote only IDLE without a job and BUSY
    with one: STOPPING, which it sets before its last writes, is never persisted. *)
Theorem worker_ends_offline settings hostname pid fresh owner fate s r s' written :
  workers_ok s →
  start_background_worker settings hostname pid fresh owner fate s = (r, s', written) →
  workers_ok s' ∧
  match register_worker (consumer_name settings hostname pid fresh) hostname owner s with
  | (Err e, _) => r = Failed e ∧ s' = s ∧ written = []
  | (Ok worker, _) =>
      Forall running_status written ∧
      ∃ k, wks_workers s' !! wk_id worker = Some k ∧
        match ft_interrupted fate with
        | Some i => r = interrupted_end i
        | None => r = caught_cancelled (ft_run_worker fate) ∧ wk_status k = WOFFLINE ∧
            wk_current_job_id k = None ∧ wk_last_heartbeat_at k = Some (wks_now s')
        end
  end.
Proof.
  intros Hok. unfold start_background_worker, run_registered.
  destruct (register_worker _ hostname owner s) as [r0 s0] eqn:Hr.
  destruct (register_worker_inv _ _ _ _ _ _ Hok Hr) as [Hok0 Hreg]. destruct r0 as [worker|e].
  2: { intros [= <- <- <-]. by subst. }
  cbv zeta. set (l0 := worker_events (ft_running fate) _).
  assert (life_ok (wk_id worker) l0) as Hl0.
  { apply worker_events_ok. split; simpl; try done.
    - unfold has_worker. rewrite (proj2 Hreg), lookup_insert_eq. eauto.
    - intros _. by left. }
  clearbody l0. destruct (end_worker _ _ _ l0) as [ended l] eqn:Hend.
  destruct (end_worker_ok _ _ _ _ _ _ _ Hl0 Hend) as ([Hokl [k Hk] Hidl _ _ Hwnl] & Hcase).
  intros [= <- <- <-]. split; [done|]. split; [done|]. exists k. split; [done|].
  destruct (ft_interrupted fate) as [i|]; [by subst|]. destruct Hcase as [-> Hcase]. split; [done|].
  by apply Hcase.
Qed.

(** ** Witness *)

(** A worker that takes a job and is cancelled while the heartbeat reports it; the heartbeat's
    write is the last before the row goes offline. *)
Definition demo_fate : Fate :=
  mkFate [HeartbeatSnapshot; HeartbeatPersisted; Other (OtherTick 5); Reported (Some "job"%string);
          HeartbeatSnapshot; Other (OtherHeartbeat 4 WBUSY None)] Cancelled
    [Other (OtherTick 1); HeartbeatSnapshot] [OtherTick 2] None.

Lemma worker_ends_offline_witness :
  let '(r, s', written) := start_background_worker (default_settings "" "" "" "") "host-a" 7 99 None
                             demo_fate demo_workers in
  r = Returned ∧ written = [(WIDLE, None); (WBUSY, Some "job"%string)] ∧
  Forall running_status written ∧
  match wks_workers s' !! 5%N with Some k => wk_status k = WOFFLINE | None => False end.
Proof.
  destruct (start_background_worker (default_settings "" "" "" "") "host-a" 7 99 None demo_fate demo_workers)
    as [[r s'] written] eqn:Hrun.
  destruct (worker_ends_offline _ _ _ _ _ _ _ _ _ _ demo_workers_ok Hrun) as [_ H].
  assert (r = Returned ∧ written = [(WIDLE, None); (WBUSY, Some "job"%string)] ∧
          wk_status <$> wks_workers s' !! 5%N = Some WOFFLINE) as (Hr & Hw & Hs)
    by (vm_compute in Hrun; injection Hrun as <- <- <-; split_and!; vm_compute; reflexivity).
  split; [exact Hr|]. split; [exact Hw|]. split.
  - destruct (register_worker _ _ _ _) as [[worker|e] s0]; [exact (proj1 H)|].
    destruct H as (_ & _ & ->). constructor.
  - destruct (wks_workers s' !! 5%N); [by injection Hs|discriminate Hs].
Defined.

(** ** Spawning *)

(** Requests to spawn a worker, and the ends of tasks: a task that is done is discarded. *)
Inductive SpawnEvent : Type := Spawn | TaskDone (i : nat).

Definition spawn_event (ev : SpawnEvent) (tasks : list bool) : list bool :=
  match ev with
  | Spawn => (spawn_background_worker_task tasks).2
  | TaskDone i => delete i tasks
  end.

(** [spawn_worker] of api/workers.py. *)
Definition spawn_worker (tasks : list bool) : (Z * json) * list bool :=
  match spawn_background_worker_task tasks with
  | (Ok _, tasks) => ((202%Z, JDict [("message", JStr "Spawned new worker in background")]%string), tasks)
  | (Err e, tasks) => (respond_error (Raised e), tasks)
  end.

(** At most five of the spawned workers are alive at any time. *)
Lemma spawned_at_most evs :
  (get_active_worker_count (foldl (fun tasks ev => spawn_event ev tasks) [] evs) ≤ MAX_SPAWNED_WORKERS)%nat.
Proof.
  induction evs as [|ev evs IH] using rev_ind; [apply Nat.leb_le; reflexivity|].
  rewrite foldl_app. simpl. set (tasks := foldl _ _ evs) in *. destruct ev as [|i]; simpl.
  - unfold spawn_background_worker_task. case_match eqn:Hc; [done|]. apply Nat.leb_gt in Hc.
    unfold get_active_worker_count in *. simpl. rewrite List.filter_app, length_app. simpl. lia.
  - unfold get_active_worker_count in *. rewrite delete_take_drop, List.filter_app, length_app.
    rewrite <- (take_drop i tasks), List.filter_app, length_app in IH.
    destruct (drop i tasks) as [|b rest] eqn:Hd.
    + rewrite (drop_ge tasks (S i)); [simpl in *; lia|]. assert (length (drop i tasks) = 0) as Hl by (by rewrite Hd).
      rewrite length_drop in Hl. lia.
    + assert (drop (S i) tasks = rest) as ->.
      { replace (S i) with (i + 1) by lia. by rewrite <- drop_drop, Hd. }
      simpl in IH. destruct (negb b); simpl in IH; lia.
Qed.
