(* ===== verification/Schema.v ===== *)
(** * The schema of the database

    A language for tables, constraints and indexes, the operations of Alembic over schemas
    and rows, and the tables that the models declare (src/backend/app/models/, db/base.py).
    A constraint without a name gets PostgreSQL's default name. The revisions are in
    [Migrations]. *)

From Stdlib Require Import SpecFloat.
From S2P Require Import Prelude Json PyStr Errors Models.

(** A closed proposition that the machine decides. *)
Ltac by_decision := match goal with |- ?P => apply (@bool_decide_unpack P _); vm_compute; exact I end.

(** ** Tables *)

Inductive PgType : Type :=
| PgVarchar (length : option N)
| PgBoolean
| PgTimestamp (timezone : bool)
| PgUuid
| PgInteger
| PgJsonb.

(** The types of SQLAlchemy that are used; [UUID] and [Uuid] are one. *)
Inductive SaType : Type :=
| SaString (length : option N)
| SaBoolean
| SaDateTime (timezone : bool)
| SaUuid
| SaInteger
| SaJSONB
| SaEnum (values : list string) (length : N).

(** An [Enum] with [native_enum=False] is a string, with no check of its values. *)
Definition compile_type (t : SaType) : PgType :=
  match t with
  | SaString n => PgVarchar n
  | SaBoolean => PgBoolean
  | SaDateTime tz => PgTimestamp tz
  | SaUuid => PgUuid
  | SaInteger => PgInteger
  | SaJSONB => PgJsonb
  | SaEnum _ n => PgVarchar (Some n)
  end.

Record Column : Type := mkColumn { col_type : PgType; col_nullable : bool }.

Inductive Constraint : Type :=
| PrimaryKey (columns : list string)
| Unique (columns : list string)
| ForeignKey (columns : list string) (ref_table : string) (ref_columns : list string).

Record Index : Type := mkIndex { ix_table : string; ix_columns : list string; ix_unique : bool }.

Record Table : Type := mkTable {
  tb_columns : gmap string Column;
  tb_constraints : gmap string Constraint
}.

(** The indexes of a schema share their names. *)
Record Schema : Type := mkSchema { sc_tables : gmap string Table; sc_indexes : gmap string Index }.

#[export] Instance PgType_eq_dec : EqDecision PgType.
Proof. solve_decision. Defined.
#[export] Instance Column_eq_dec : EqDecision Column.
Proof. solve_decision. Defined.
#[export] Instance Constraint_eq_dec : EqDecision Constraint.
Proof. solve_decision. Defined.
#[export] Instance Index_eq_dec : EqDecision Index.
Proof. solve_decision. Defined.
#[export] Instance Table_eq_dec : EqDecision Table.
Proof. solve_decision. Defined.
#[export] Instance Schema_eq_dec : EqDecision Schema.
Proof. solve_decision. Defined.

Definition empty_schema : Schema := mkSchema ∅ ∅.

Definition underscored (l : list string) : string := String.concat "_" l.

(** PostgreSQL's names. *)
Definition default_name (table : string) (c : Constraint) : string :=
  match c with
  | PrimaryKey _ => underscored [table; "pkey"]
  | Unique columns => underscored ([table] ++ columns ++ ["key"])
  | ForeignKey columns _ _ => underscored ([table] ++ columns ++ ["fkey"])
  end%string.

(** ** Operations *)

Inductive Op : Type :=
| CreateTable (name : string) (columns : list (string * SaType * bool)) (constraints : list Constraint)
| DropTable (name : string)
| CreateIndex (name table : string) (columns : list string) (unique : bool)
| DropIndex (name table : string)
| AddColumn (table name : string) (type : SaType) (nullable : bool)
| DropColumn (table name : string)
| CreateForeignKey (name : option string) (source referent : string) (local_cols remote_cols : list string)
| DropConstraint (name : option string) (table : string)
| ExecuteUpdate (table column new old : string).

Inductive migration_error : Type :=
| DuplicateObject
| UndefinedObject
| DependentObjects
| InvalidReference
| ConstraintViolation
| CompileError
| UnknownRevision.

#[export] Instance migration_error_eq_dec : EqDecision migration_error.
Proof. solve_decision. Defined.

Local Abbreviation R := (res migration_error).

Definition require (b : bool) (e : migration_error) : R () := if b then Ok tt else Err e.

Definition get_table (name : string) (s : Schema) : R Table :=
  match sc_tables s !! name with Some t => Ok t | None => Err UndefinedObject end.

Definition has_columns (t : Table) (columns : list string) : bool :=
  forallb (fun c => bool_decide (is_Some (tb_columns t !! c))) columns.

(** The columns a foreign key refers to must be unique. *)
Definition is_key (t : Table) (columns : list string) : bool :=
  existsb (fun p => match p.2 with
                    | PrimaryKey cs | Unique cs => bool_decide (cs = columns)
                    | ForeignKey _ _ _ => false
                    end) (map_to_list (tb_constraints t)).

Definition set_table (name : string) (t : Table) (s : Schema) : Schema :=
  mkSchema (<[name := t]> (sc_tables s)) (sc_indexes s).

Definition add_constraint (table : string) (name : option string) (c : Constraint) (s : Schema) : R Schema :=
  t ← get_table table s;
  let name := default (default_name table c) name in
  require (bool_decide (tb_constraints t !! name = None)) DuplicateObject ≫= fun _ =>
  (match c with
   | PrimaryKey columns | Unique columns => require (has_columns t columns) UndefinedObject
   | ForeignKey columns ref_table ref_columns =>
       referent ← get_table ref_table s;
       require (has_columns t columns && is_key referent ref_columns) InvalidReference
   end) ≫= fun _ =>
  Ok (set_table table (mkTable (tb_columns t) (<[name := c]> (tb_constraints t))) s).

Definition new_columns (columns : list (string * SaType * bool)) : gmap string Column :=
  list_to_map ((fun '(name, type, nullable) => (name, mkColumn (compile_type type) nullable)) <$> columns).

(** The constraints of other tables that refer to this one. *)
Definition referenced (table : string) (s : Schema) : bool :=
  existsb (fun p => negb (String.eqb p.1 table) &&
             existsb (fun q => match q.2 with
                               | ForeignKey _ ref_table _ => String.eqb ref_table table
                               | _ => false
                               end) (map_to_list (tb_constraints p.2)))
    (map_to_list (sc_tables s)).

Definition constraint_columns (c : Constraint) : list string :=
  match c with PrimaryKey cs | Unique cs | ForeignKey cs _ _ => cs end.

(** What an operation does to the schema. *)
Definition ddl (o : Op) (s : Schema) : R Schema :=
  match o with
  | CreateTable name columns constraints =>
      require (bool_decide (sc_tables s !! name = None)) DuplicateObject ≫= fun _ =>
      foldM (fun s c => add_constraint name None c s) (set_table name (mkTable (new_columns columns) ∅) s)
        constraints
  | DropTable name =>
      get_table name s ≫= fun _ =>
      require (negb (referenced name s)) DependentObjects ≫= fun _ =>
      Ok (mkSchema (delete name (sc_tables s)) (filter (fun p => ix_table p.2 ≠ name) (sc_indexes s)))
  | CreateIndex name table columns unique =>
      t ← get_table table s;
      require (has_columns t columns) UndefinedObject ≫= fun _ =>
      require (bool_decide (sc_indexes s !! name = None)) DuplicateObject ≫= fun _ =>
      Ok (mkSchema (sc_tables s) (<[name := mkIndex table columns unique]> (sc_indexes s)))
  | DropIndex name table =>
      match sc_indexes s !! name with
      | Some _ => Ok (mkSchema (sc_tables s) (delete name (sc_indexes s)))
      | None => Err UndefinedObject
      end
  | AddColumn table name type nullable =>
      t ← get_table table s;
      require (bool_decide (tb_columns t !! name = None)) DuplicateObject ≫= fun _ =>
      Ok (set_table table (mkTable (<[name := mkColumn (compile_type type) nullable]> (tb_columns t))
                             (tb_constraints t)) s)
  | DropColumn table name =>
      t ← get_table table s;
      require (has_columns t [name]) UndefinedObject ≫= fun _ =>
      Ok (mkSchema
            (<[table := mkTable (delete name (tb_columns t))
                          (filter (fun p => name ∉ constraint_columns p.2) (tb_constraints t))]> (sc_tables s))
            (filter (fun p => ¬ (ix_table p.2 = table ∧ name ∈ ix_columns p.2)) (sc_indexes s)))
  | CreateForeignKey name source referent local_cols remote_cols =>
      add_constraint source name (ForeignKey local_cols referent remote_cols) s
  | DropConstraint None table => Err CompileError
  | DropConstraint (Some name) table =>
      t ← get_table table s;
      match tb_constraints t !! name with
      | Some _ => Ok (set_table table (mkTable (tb_columns t) (delete name (tb_constraints t))) s)
      | None => Err UndefinedObject
      end
  | ExecuteUpdate table column _ _ =>
      t ← get_table table s;
      require (has_columns t [column]) UndefinedObject ≫= fun _ => Ok s
  end.

(** ** Rows *)

#[export] Instance spec_float_eq_dec : EqDecision spec_float.
Proof. solve_decision. Defined.
Definition json_eq : ∀ a b : json, {a = b} + {a ≠ b}.
Proof.
  fix IH 1. intros [|b|z|f|s|l|l] [|b'|z'|f'|s'|l'|l']; try (right; congruence).
  - by left.
  - destruct (decide (b = b')); [left|right]; congruence.
  - destruct (decide (z = z')); [left|right]; congruence.
  - destruct (decide (f = f')); [left|right]; congruence.
  - destruct (decide (s = s')); [left|right]; congruence.
  - enough ({l = l'} + {l ≠ l'}) as [->|Hl]; [by left|right; congruence|].
    revert l'. induction l as [|x l IHl]; intros [|y l']; [by left|by right|by right|].
    destruct (IH x y) as [->|Hx]; [|right; congruence].
    destruct (IHl l') as [->|Hl]; [by left|right; congruence].
  - enough ({l = l'} + {l ≠ l'}) as [->|Hl]; [by left|right; congruence|].
    revert l'. induction l as [|[k x] l IHl]; intros [|[k' y] l']; [by left|by right|by right|].
    destruct (decide (k = k')) as [->|Hk]; [|right; congruence].
    destruct (IH x y) as [->|Hx]; [|right; congruence].
    destruct (IHl l') as [->|Hl]; [by left|right; congruence].
Defined.
#[export] Instance json_eq_dec : EqDecision json := json_eq.

Abbreviation Rows := (gmap string (list pydict)).

Definition rows_in (table : string) (rows : Rows) : list pydict := default [] (rows !! table).

Definition values (columns : list string) (row : pydict) : list json :=
  (fun c => default JNull (dict_get c row)) <$> columns.

(** A null in a unique key or a foreign key satisfies it. *)
Definition no_null (vs : list json) : bool := forallb (fun v => negb (bool_decide (v = JNull))) vs.

Definition unique_rows (columns : list string) (rows : list pydict) : Prop :=
  NoDup (filter (fun vs => no_null vs = true) (values columns <$> rows)).

Definition references (columns ref_columns : list string) (referent : list pydict) (row : pydict) : Prop :=
  no_null (values columns row) = true → values columns row ∈ values ref_columns <$> referent.

#[export] Instance unique_rows_dec columns rows : Decision (unique_rows columns rows).
Proof. unfold unique_rows. apply _. Defined.
#[export] Instance references_dec columns ref_columns referent row :
  Decision (references columns ref_columns referent row).
Proof. unfold references. apply _. Defined.

Definition constraint_holds (rows : Rows) (table : string) (c : Constraint) : Prop :=
  match c with
  | PrimaryKey columns =>
      unique_rows columns (rows_in table rows) ∧
      Forall (fun row => no_null (values columns row) = true) (rows_in table rows)
  | Unique columns => unique_rows columns (rows_in table rows)
  | ForeignKey columns ref_table ref_columns =>
      Forall (references columns ref_columns (rows_in ref_table rows)) (rows_in table rows)
  end.

#[export] Instance constraint_holds_dec rows table c : Decision (constraint_holds rows table c).
Proof. destruct c; apply _. Defined.

Definition update_row (column new old : string) (row : pydict) : pydict :=
  if decide (dict_get column row = Some (JStr old)) then dict_set column (JStr new) row else row.

(** What an operation does to the rows. *)
Definition dml (o : Op) (rows : Rows) : R Rows :=
  match o with
  | CreateTable name _ _ => Ok (<[name := []]> rows)
  | DropTable name => Ok (delete name rows)
  | CreateIndex _ table columns true =>
      require (bool_decide (unique_rows columns (rows_in table rows))) ConstraintViolation ≫= fun _ => Ok rows
  | AddColumn table name _ nullable =>
      require (nullable || bool_decide (rows_in table rows = [])) ConstraintViolation ≫= fun _ =>
      Ok (alter (fmap (dict_set name JNull)) table rows)
  | DropColumn table name => Ok (alter (fmap (filter (fun p => p.1 ≠ name))) table rows)
  | CreateForeignKey _ source referent local_cols remote_cols =>
      require (bool_decide (constraint_holds rows source (ForeignKey local_cols referent remote_cols)))
        ConstraintViolation ≫= fun _ => Ok rows
  | ExecuteUpdate table column new old => Ok (alter (fmap (update_row column new old)) table rows)
  | CreateIndex _ _ _ false | DropIndex _ _ | DropConstraint _ _ => Ok rows
  end.

Definition apply_op (db : Schema * Rows) (o : Op) : R (Schema * Rows) :=
  schema ← ddl o db.1; rows ← dml o db.2; Ok (schema, rows).

(** ** The tables of the models *)

(** A [mapped_column]; the type decides nothing else. *)
Record MappedColumn : Type := mkMappedColumn {
  mc_name : string;
  mc_type : SaType;
  mc_primary_key : bool;
  mc_nullable : bool;
  mc_unique : bool;
  mc_index : bool;
  mc_foreign_key : option (string * string)
}.

Definition mapped (name : string) (type : SaType) (nullable unique index : bool)
    (foreign_key : option (string * string)) : MappedColumn :=
  mkMappedColumn name type false nullable unique index foreign_key.

(** An entry of [__table_args__]. *)
Inductive TableArg : Type :=
| ArgUnique (columns : list string)
| ArgIndex (name : string) (columns : list string).

Record MappedTable : Type := mkMappedTable {
  mt_tablename : string;
  mt_mapped : list MappedColumn;
  mt_table_args : list TableArg
}.

(** A [unique] column has a constraint of its own, or its index is unique if it has one. *)
Definition mapped_constraints (t : MappedTable) : list Constraint :=
  [PrimaryKey (mc_name <$> filter (fun c => mc_primary_key c = true) (mt_mapped t))] ++
  omap (fun c => (fun r => ForeignKey [mc_name c] r.1 [r.2]) <$> mc_foreign_key c) (mt_mapped t) ++
  omap (fun c => if mc_unique c && negb (mc_index c) then Some (Unique [mc_name c]) else None) (mt_mapped t) ++
  omap (fun a => match a with ArgUnique columns => Some (Unique columns) | ArgIndex _ _ => None end)
    (mt_table_args t).

Definition mapped_indexes (t : MappedTable) : list (string * Index) :=
  omap (fun c => if mc_index c
                 then Some (underscored ["ix"%string; mt_tablename t; mc_name c],
                            mkIndex (mt_tablename t) [mc_name c] (mc_unique c))
                 else None) (mt_mapped t) ++
  omap (fun a => match a with
                 | ArgIndex name columns => Some (name, mkIndex (mt_tablename t) columns false)
                 | ArgUnique _ => None
                 end) (mt_table_args t).

Definition mapped_table (t : MappedTable) : Table :=
  mkTable (list_to_map ((fun c => (mc_name c, mkColumn (compile_type (mc_type c)) (mc_nullable c))) <$> mt_mapped t))
    (list_to_map ((fun c => (default_name (mt_tablename t) c, c)) <$> mapped_constraints t)).

(** What [Base.metadata] stands for. *)
Definition schema_of (l : list MappedTable) : Schema :=
  mkSchema (list_to_map ((fun t => (mt_tablename t, mapped_table t)) <$> l))
    (list_to_map (l ≫= mapped_indexes)).

(** The mixins of db/base.py. *)
Definition UUIDPrimaryKeyMixin : list MappedColumn :=
  [mkMappedColumn "id" SaUuid true false false false None].

Definition CreatedAtMixin : list MappedColumn :=
  [mapped "created_at" (SaDateTime true) false false false None].

Definition TimestampMixin : list MappedColumn :=
  CreatedAtMixin ++ [mapped "updated_at" (SaDateTime true) false false false None].

Definition ExecutionStatus_values : list string :=
  execution_status_name <$> [ECREATED; ERUNNING; ESUCCEEDED; EFAILED; EPARTIAL_FAILED; ECANCELLED].
Definition NodeExecutionStatus_values : list string :=
  node_status_name <$> [NPENDING; NQUEUED; NRUNNING; NSUCCEEDED; NFAILED; NRETRYING; NSKIPPED; NDEAD_LETTERED].
Definition WorkerStatus_values : list string :=
  worker_status_name <$> [WSTARTING; WIDLE; WBUSY; WSTOPPING; WOFFLINE].
Definition LogLevel_values : list string := log_level_name <$> [LDEBUG; LINFO; LWARNING; LERROR].

Definition api_keys_table : MappedTable :=
  mkMappedTable "api_keys" (UUIDPrimaryKeyMixin ++ CreatedAtMixin ++
    [mapped "name" (SaString (Some 255%N)) false false false None;
     mapped "key_hash" (SaString (Some 255%N)) false true false None;
     mapped "is_active" SaBoolean false false false None;
     mapped "last_used_at" (SaDateTime true) true false false None])
    []%string.

Definition workers_table : MappedTable :=
  mkMappedTable "workers" (UUIDPrimaryKeyMixin ++ TimestampMixin ++
    [mapped "worker_name" (SaString (Some 255%N)) false true false None;
     mapped "status" (SaEnum WorkerStatus_values 32) false false false None;
     mapped "last_heartbeat_at" (SaDateTime true) true false false None;
     mapped "current_job_id" (SaString (Some 255%N)) true false false None;
     mapped "metadata" SaJSONB true false false None;
     mapped "owner_api_key_id" SaUuid true false false (Some ("api_keys", "id"))])
    [ArgIndex "ix_workers_last_heartbeat_at" ["last_heartbeat_at"]]%string.

Definition workflows_table : MappedTable :=
  mkMappedTable "workflows" (UUIDPrimaryKeyMixin ++ TimestampMixin ++
    [mapped "owner_api_key_id" SaUuid false false false (Some ("api_keys", "id"));
     mapped "name" (SaString (Some 255%N)) false false false None;
     mapped "description" (SaString None) true false false None])
    []%string.

Definition workflow_versions_table : MappedTable :=
  mkMappedTable "workflow_versions" (UUIDPrimaryKeyMixin ++ CreatedAtMixin ++
    [mapped "workflow_id" SaUuid false false false (Some ("workflows", "id"));
     mapped "version_number" SaInteger false false false None;
     mapped "definition" SaJSONB false false false None;
     mapped "checksum" (SaString (Some 64%N)) false false false None])
    [ArgUnique ["workflow_id"; "version_number"]]%string.

Definition executions_table : MappedTable :=
  mkMappedTable "executions" (UUIDPrimaryKeyMixin ++
    [mapped "workflow_id" SaUuid false false false (Some ("workflows", "id"));
     mapped "workflow_version_id" SaUuid false false false (Some ("workflow_versions", "id"));
     mapped "status" (SaEnum ExecutionStatus_values 32) false false false None;
     mapped "started_at" (SaDateTime true) true false false None;
     mapped "finished_at" (SaDateTime true) true false false None;
     mapped "triggered_by" (SaString (Some 255%N)) true false false None;
     mapped "input_payload" SaJSONB true false false None;
     mapped "error_message" (SaString None) true false false None])
    [ArgIndex "ix_executions_status" ["status"];
     ArgIndex "ix_executions_workflow_version_id" ["workflow_version_id"]]%string.

Definition node_executions_table : MappedTable :=
  mkMappedTable "node_executions" (UUIDPrimaryKeyMixin ++
    [mapped "execution_id" SaUuid false false false (Some ("executions", "id"));
     mapped "node_id" (SaString (Some 255%N)) false false false None;
     mapped "node_type" (SaString (Some 100%N)) false false false None;
     mapped "status" (SaEnum NodeExecutionStatus_values 32) false false false None;
     mapped "attempt" SaInteger false false false None;
     mapped "max_attempts" SaInteger false false false None;
     mapped "input_payload" SaJSONB true false false None;
     mapped "output_payload" SaJSONB true false false None;
     mapped "error_message" (SaString None) true false false None;
     mapped "idempotency_key" (SaString (Some 255%N)) true false false None;
     mapped "redis_message_id" (SaString (Some 64%N)) true false false None;
     mapped "worker_id" SaUuid true false false (Some ("workers", "id"));
     mapped "queued_at" (SaDateTime true) true false false None;
     mapped "started_at" (SaDateTime true) true false false None;
     mapped "finished_at" (SaDateTime true) true false false None])
    [ArgUnique ["execution_id"; "node_id"];
     ArgIndex "ix_node_executions_execution_id_status" ["execution_id"; "status"];
       ArgIndex "ix_node_executions_idempotency_key" ["idempotency_key"]]%string.

Definition dead_letter_jobs_table : MappedTable :=
  mkMappedTable "dead_letter_jobs" (UUIDPrimaryKeyMixin ++ CreatedAtMixin ++
    [mapped "execution_id" SaUuid false false false (Some ("executions", "id"));
     mapped "node_execution_id" SaUuid false false false (Some ("node_executions", "id"));
     mapped "redis_message_id" (SaString (Some 64%N)) true false false None;
     mapped "reason" (SaString None) false false false None;
     mapped "attempts" SaInteger false false false None;
     mapped "payload" SaJSONB true false false None;
     mapped "resolved_at" (SaDateTime true) true false false None;
     mapped "resolution_note" (SaString None) true false false None])
    [ArgIndex "ix_dead_letter_jobs_resolved_at" ["resolved_at"]]%string.

Definition execution_logs_table : MappedTable :=
  mkMappedTable "execution_logs" (UUIDPrimaryKeyMixin ++ CreatedAtMixin ++
    [mapped "execution_id" SaUuid false false false (Some ("executions", "id"));
     mapped "node_execution_id" SaUuid true false false (Some ("node_executions", "id"));
     mapped "level" (SaEnum LogLevel_values 16) false false false None;
     mapped "event_type" (SaString (Some 100%N)) false false false None;
     mapped "message" (SaString None) false false false None;
     mapped "metadata" SaJSONB true false false None])
    [ArgIndex "ix_execution_logs_execution_id_created_at" ["execution_id"; "created_at"]]%string.

Definition refresh_tokens_table : MappedTable :=
  mkMappedTable "refresh_tokens" (UUIDPrimaryKeyMixin ++ CreatedAtMixin ++
    [mapped "token_hash" (SaString (Some 255%N)) false true true None;
     mapped "family_id" SaUuid false false true None;
     mapped "is_valid" SaBoolean false false false None;
     mapped "expires_at" (SaDateTime true) false false false None;
     mapped "api_key_id" SaUuid false false false (Some ("api_keys", "id"))])
    []%string.

Definition metadata : list MappedTable :=
  [api_keys_table; workers_table; workflows_table; workflow_versions_table; executions_table;
   node_executions_table; dead_letter_jobs_table; execution_logs_table; refresh_tokens_table].
