(* ===== verification/Migrations.v ===== *)
(** * The revisions of the schema

    src/backend/alembic/versions and the commands of Alembic that run them ([Schema] has the
    operations). A chain of revisions leads to the one head; an upgrade or a downgrade runs
    in one transaction. *)

From S2P Require Import Prelude Json PyStr Errors Models Schema.

(** ** Revisions *)

Record Migration : Type := mkMigration {
  revision : string;
  down_revision : option string;
  upgrade : list Op;
  downgrade : list Op
}.

Definition initial_schema_upgrade : list Op :=
   [CreateTable "api_keys"
      [("name", SaString (Some 255%N), false);
       ("key_hash", SaString (Some 255%N), false);
       ("is_active", SaBoolean, false);
       ("last_used_at", SaDateTime true, true);
       ("id", SaUuid, false);
       ("created_at", SaDateTime true, false)]
      [PrimaryKey ["id"]; Unique ["key_hash"]];
    CreateTable "workers"
      [("worker_name", SaString (Some 255%N), false);
       ("status", SaEnum ["ONLINE"; "OFFLINE"; "STALE"] 32, false);
       ("last_heartbeat_at", SaDateTime true, true);
       ("current_job_id", SaString (Some 255%N), true);
       ("metadata", SaJSONB, true);
       ("id", SaUuid, false);
       ("updated_at", SaDateTime true, false);
       ("created_at", SaDateTime true, false)]
      [PrimaryKey ["id"]; Unique ["worker_name"]];
    CreateIndex "ix_workers_last_heartbeat_at" "workers" ["last_heartbeat_at"] false;
    CreateTable "workflows"
      [("owner_api_key_id", SaUuid, false);
       ("name", SaString (Some 255%N), false);
       ("description", SaString None, true);
       ("id", SaUuid, false);
       ("updated_at", SaDateTime true, false);
       ("created_at", SaDateTime true, false)]
      [ForeignKey ["owner_api_key_id"] "api_keys" ["id"]; PrimaryKey ["id"]];
    CreateTable "workflow_versions"
      [("workflow_id", SaUuid, false);
       ("version_number", SaInteger, false);
       ("definition", SaJSONB, false);
       ("checksum", SaString (Some 64%N), false);
       ("id", SaUuid, false);
       ("created_at", SaDateTime true, false)]
      [ForeignKey ["workflow_id"] "workflows" ["id"]; PrimaryKey ["id"]; Unique ["workflow_id";
       "version_number"]];
    CreateTable "executions"
      [("workflow_id", SaUuid, false);
       ("workflow_version_id", SaUuid, false);
       ("status", SaEnum ["CREATED"; "RUNNING"; "SUCCEEDED"; "FAILED"; "PARTIAL_FAILED";
        "CANCELLED"] 32, false);
       ("started_at", SaDateTime true, true);
       ("finished_at", SaDateTime true, true);
       ("triggered_by", SaString (Some 255%N), true);
       ("input_payload", SaJSONB, true);
       ("error_message", SaString None, true);
       ("id", SaUuid, false)]
      [ForeignKey ["workflow_id"] "workflows" ["id"];
       ForeignKey ["workflow_version_id"] "workflow_versions" ["id"]; PrimaryKey ["id"]];
    CreateIndex "ix_executions_status" "executions" ["status"] false;
    CreateIndex "ix_executions_workflow_version_id" "executions" ["workflow_version_id"] false;
    CreateTable "node_executions"
      [("execution_id", SaUuid, false);
       ("node_id", SaString (Some 255%N), false);
       ("node_type", SaString (Some 100%N), false);
       ("status", SaEnum ["PENDING"; "QUEUED"; "RUNNING"; "SUCCEEDED"; "FAILED"; "RETRYING"; "SKIPPED";
        "DEAD_LETTERED"] 32, false);
       ("attempt", SaInteger, false);
       ("max_attempts", SaInteger, false);
       ("input_payload", SaJSONB, true);
       ("output_payload", SaJSONB, true);
       ("error_message", SaString None, true);
       ("idempotency_key", SaString (Some 255%N), true);
       ("redis_message_id", SaString (Some 64%N), true);
       ("worker_id", SaUuid, true);
       ("queued_at", SaDateTime true, true);
       ("started_at", SaDateTime true, true);
       ("finished_at", SaDateTime true, true);
       ("id", SaUuid, false)]
      [ForeignKey ["execution_id"] "executions" ["id"]; ForeignKey ["worker_id"] "workers" ["id"];
       PrimaryKey ["id"]; Unique ["execution_id"; "node_id"]];
    CreateIndex "ix_node_executions_execution_id_status" "node_executions" ["execution_id"; "status"] false;
    CreateIndex "ix_node_executions_idempotency_key" "node_executions" ["idempotency_key"] false;
    CreateTable "dead_letter_jobs"
      [("execution_id", SaUuid, false);
       ("node_execution_id", SaUuid, false);
       ("redis_message_id", SaString (Some 64%N), true);
       ("reason", SaString None, false);
       ("attempts", SaInteger, false);
       ("payload", SaJSONB, true);
       ("resolved_at", SaDateTime true, true);
       ("resolution_note", SaString None, true);
       ("id", SaUuid, false);
       ("created_at", SaDateTime true, false)]
      [ForeignKey ["execution_id"] "executions" ["id"];
       ForeignKey ["node_execution_id"] "node_executions" ["id"]; PrimaryKey ["id"]];
    CreateIndex "ix_dead_letter_jobs_resolved_at" "dead_letter_jobs" ["resolved_at"] false;
    CreateTable "execution_logs"
      [("execution_id", SaUuid, false);
       ("node_execution_id", SaUuid, true);
       ("level", SaEnum ["DEBUG"; "INFO"; "WARNING"; "ERROR"] 16, false);
       ("event_type", SaString (Some 100%N), false);
       ("message", SaString None, false);
       ("metadata", SaJSONB, true);
       ("id", SaUuid, false);
       ("created_at", SaDateTime true, false)]
      [ForeignKey ["execution_id"] "executions" ["id"];
       ForeignKey ["node_execution_id"] "node_executions" ["id"]; PrimaryKey ["id"]];
    CreateIndex "ix_execution_logs_execution_id_created_at" "execution_logs" ["execution_id";
      "created_at"] false]%string.

Definition initial_schema_downgrade : list Op :=
   [DropIndex "ix_execution_logs_execution_id_created_at" "execution_logs";
    DropTable "execution_logs";
    DropIndex "ix_dead_letter_jobs_resolved_at" "dead_letter_jobs";
    DropTable "dead_letter_jobs";
    DropIndex "ix_node_executions_idempotency_key" "node_executions";
    DropIndex "ix_node_executions_execution_id_status" "node_executions";
    DropTable "node_executions";
    DropIndex "ix_executions_workflow_version_id" "executions";
    DropIndex "ix_executions_status" "executions";
    DropTable "executions";
    DropTable "workflow_versions";
    DropTable "workflows";
    DropIndex "ix_workers_last_heartbeat_at" "workers";
    DropTable "workers";
    DropTable "api_keys"]%string.

Definition initial_schema : Migration :=
  mkMigration "87925a676c08" None initial_schema_upgrade initial_schema_downgrade.

Definition worker_status_enum_upgrade : list Op :=
   [ExecuteUpdate "workers" "status" "IDLE" "ONLINE";
    ExecuteUpdate "workers" "status" "OFFLINE" "STALE"]%string.

Definition worker_status_enum_downgrade : list Op :=
   [ExecuteUpdate "workers" "status" "ONLINE" "IDLE";
    ExecuteUpdate "workers" "status" "STALE" "OFFLINE"]%string.

Definition worker_status_enum : Migration :=
  mkMigration "a1b2c3d4e5f6" (Some "87925a676c08") worker_status_enum_upgrade worker_status_enum_downgrade.

Definition add_refresh_tokens_and_worker_owner_upgrade : list Op :=
   [CreateTable "refresh_tokens"
      [("token_hash", SaString (Some 255%N), false);
       ("family_id", SaUuid, false);
       ("is_valid", SaBoolean, false);
       ("expires_at", SaDateTime true, false);
       ("api_key_id", SaUuid, false);
       ("id", SaUuid, false);
       ("created_at", SaDateTime true, false)]
      [ForeignKey ["api_key_id"] "api_keys" ["id"]; PrimaryKey ["id"]];
    CreateIndex "ix_refresh_tokens_family_id" "refresh_tokens" ["family_id"] false;
    CreateIndex "ix_refresh_tokens_token_hash" "refresh_tokens" ["token_hash"] true;
    AddColumn "workers" "owner_api_key_id" SaUuid true;
    CreateForeignKey None "workers" "api_keys" ["owner_api_key_id"] ["id"]]%string.

Definition add_refresh_tokens_and_worker_owner_downgrade : list Op :=
   [DropConstraint None "workers";
    DropColumn "workers" "owner_api_key_id";
    DropIndex "ix_refresh_tokens_token_hash" "refresh_tokens";
    DropIndex "ix_refresh_tokens_family_id" "refresh_tokens";
    DropTable "refresh_tokens"]%string.

Definition add_refresh_tokens_and_worker_owner : Migration :=
  mkMigration "8af6ade0be36" (Some "a1b2c3d4e5f6") add_refresh_tokens_and_worker_owner_upgrade
    add_refresh_tokens_and_worker_owner_downgrade.

(** The files of the directory, in no order. *)
Definition versions_directory : list Migration :=
  [initial_schema; add_refresh_tokens_and_worker_owner; worker_status_enum].

(** ** Commands *)

Local Abbreviation R := (res migration_error).

(** The database, with the revision that is current. *)
Record Database : Type := mkDatabase { dbs : Schema * Rows; dbs_version : option string }.

Definition empty_database : Database := mkDatabase (empty_schema, ∅) None.

Section chain.
Context (versions : list Migration).

Definition find_revision (r : string) : option Migration :=
  snd <$> list_find (fun m => revision m = r) versions.

(** The revisions from the first to this one. *)
Fixpoint lineage (fuel : nat) (r : option string) : list Migration :=
  match r, fuel with
  | Some r, S fuel =>
      match find_revision r with
      | Some m => lineage fuel (down_revision m) ++ [m]
      | None => []
      end
  | _, _ => []
  end.

(** The revisions nobody follows. *)
Definition heads : list string :=
  revision <$> filter (fun m => Some (revision m) ∉ (down_revision <$> versions)) versions.

(** The revisions above the current one, up to the head. *)
Definition pending (current : option string) : R (list Migration) :=
  match heads with
  | [head] =>
      let all := lineage (length versions) (Some head) in
      match current with
      | None => Ok all
      | Some r => match list_find (fun m => revision m = r) all with
                  | Some (i, _) => Ok (drop (S i) all)
                  | None => Err UnknownRevision
                  end
      end
  | _ => Err UnknownRevision
  end.

Definition migrate (db : Schema * Rows) (m : Migration) : R (Schema * Rows) := foldM apply_op db (upgrade m).

(** [alembic upgrade head]; a failure rolls everything back. *)
Definition upgrade_head (d : Database) : R () * Database :=
  match (ms ← pending (dbs_version d); db ← foldM migrate (dbs d) ms; Ok (ms, db)) with
  | Ok (ms, db) => (Ok tt, mkDatabase db (match last ms with Some m => Some (revision m) | None => dbs_version d end))
  | Err e => (Err e, d)
  end.

(** [alembic downgrade -1]. *)
Definition downgrade_one (d : Database) : R () * Database :=
  match (m ← (match dbs_version d ≫= find_revision with Some m => Ok m | None => Err UnknownRevision end);
         db ← foldM apply_op (dbs d) (downgrade m); Ok (m, db)) with
  | Ok (m, db) => (Ok tt, mkDatabase db (down_revision m))
  | Err e => (Err e, d)
  end.

End chain.

(** ** Schema and rows apart *)

(** The operations treat the schema and the rows separately. *)
Lemma apply_ops_split ops : ∀ s rows s' rows',
  foldM (fun s o => ddl o s) s ops = Ok s' → foldM (fun rows o => dml o rows) rows ops = Ok rows' →
  foldM apply_op (s, rows) ops = Ok (s', rows').
Proof.
  induction ops as [|o ops IH]; intros s rows s' rows'; cbn [foldM]; [by intros [= ->] [= ->]|].
  intros Hs Hr. apply res_bind_Ok in Hs as (s1 & Hs1 & Hs). apply res_bind_Ok in Hr as (r1 & Hr1 & Hr).
  assert (apply_op (s, rows) o = Ok (s1, r1)) as ->; [|by apply IH].
  unfold apply_op. cbn [fst snd]. by rewrite Hs1, Hr1.
Qed.

(** A check of the rows that succeeds. *)
Lemma require_true (P : Prop) `{Decision P} (e : migration_error) (rows : Rows) :
  P → (require (bool_decide P) e ≫= fun _ => Ok rows) = Ok rows.
Proof. intros HP. by rewrite bool_decide_eq_true_2. Qed.

Lemma upgrades_cons m ms : (m :: ms) ≫= upgrade = upgrade m ++ (ms ≫= upgrade).
Proof. done. Qed.

Lemma migrate_all ms : ∀ db, foldM migrate db ms = foldM apply_op db (ms ≫= upgrade).
Proof.
  induction ms as [|m ms IH]; intros db; [done|].
  rewrite upgrades_cons, foldM_app.
  change (foldM migrate db (m :: ms)) with (foldM apply_op db (upgrade m) ≫= fun db => foldM migrate db ms).
  destruct (foldM apply_op db (upgrade m)) as [db'|e]; [apply IH|done].
Qed.

Definition head_revision : string := "8af6ade0be36".

Lemma upgrade_head_run ms current s rows s' rows' :
  pending versions_directory current = Ok ms → last ms = Some add_refresh_tokens_and_worker_owner →
  foldM (fun s o => ddl o s) s (ms ≫= upgrade) = Ok s' →
  foldM (fun rows o => dml o rows) rows (ms ≫= upgrade) = Ok rows' →
  upgrade_head versions_directory (mkDatabase (s, rows) current) =
    (Ok tt, mkDatabase (s', rows') (Some head_revision)).
Proof.
  intros Hms Hlast Hs Hr. unfold upgrade_head. cbn [dbs_version dbs]. rewrite Hms. cbn [mbind res_bind].
  rewrite migrate_all, (apply_ops_split _ _ _ _ _ Hs Hr). cbn [mbind res_bind]. by rewrite Hlast.
Qed.

(** The tables of the first revision. *)
Definition first_schema : Schema :=
  match foldM (fun s o => ddl o s) empty_schema initial_schema_upgrade with
  | Ok s => s
  | Err _ => empty_schema
  end.

Lemma ddl_first : foldM (fun s o => ddl o s) empty_schema initial_schema_upgrade = Ok first_schema.
Proof. by_decision. Qed.

Lemma ddl_to_head :
  foldM (fun s o => ddl o s) first_schema
    ([worker_status_enum; add_refresh_tokens_and_worker_owner] ≫= upgrade) = Ok (schema_of metadata).
Proof. by_decision. Qed.

Definition all_revisions : list Migration :=
  [initial_schema; worker_status_enum; add_refresh_tokens_and_worker_owner].

(** Nothing in them adds a row. *)
Lemma no_rows :
  ∃ rows, foldM (fun rows o => dml o rows) ∅ (all_revisions ≫= upgrade) = Ok rows ∧
    ∀ t, rows_in t rows = [].
Proof.
  assert (match foldM (fun rows o => dml o rows) ∅ (all_revisions ≫= upgrade) with
          | Ok rows => map_Forall (fun _ l => l = []) rows
          | Err _ => False
          end) as H.
  { match goal with |- match ?r with _ => _ end =>
      assert (bool_decide (match r with Ok rows => bool_decide (map_Forall (fun _ (l : list pydict) => l = []) rows) = true
                           | Err _ => False end) = true) as Hd end.
    { vm_compute. reflexivity. }
    apply bool_decide_eq_true_1 in Hd. revert Hd. destruct (foldM _ _ _); [|done].
    by intros ?%bool_decide_eq_true_1. }
  revert H. destruct (foldM _ _ _) as [rows|]; [|done]. intros Hall. exists rows. split; [done|].
  intros t. unfold rows_in. destruct (rows !! t) as [l|] eqn:Ht; [|done]. exact (Hall _ _ Ht).
Qed.

(** ** From one end of the chain to the other *)

(** From nothing, and back to nothing. *)
Lemma upgrade_from_nothing :
  (∃ rows, upgrade_head versions_directory empty_database =
     (Ok tt, mkDatabase (schema_of metadata, rows) (Some head_revision)) ∧
     ∀ t, rows_in t rows = []) ∧
  foldM (fun s o => ddl o s) empty_schema (initial_schema_upgrade ++ initial_schema_downgrade) =
    Ok empty_schema.
Proof.
  split.
  - destruct no_rows as (rows & Hrows & Hnil). exists rows. split; [|exact Hnil].
    apply (upgrade_head_run all_revisions); [by vm_compute|reflexivity| |exact Hrows].
    unfold all_revisions. rewrite upgrades_cons, foldM_app.
    change (upgrade initial_schema) with initial_schema_upgrade. rewrite ddl_first. exact ddl_to_head.
  - by_decision.
Qed.

(** What a row of the first schema may say of a worker. *)
Definition first_status (row : pydict) : Prop :=
  ∃ st, st ∈ ["ONLINE"; "OFFLINE"; "STALE"]%string ∧ dict_get "status" row = Some (JStr st).

(** A row after the upgrade, for one before it. *)
Definition upgraded_row (old new : pydict) : Prop :=
  (∃ st : WorkerStatus, dict_get "status" new = Some (JStr (worker_status_name st))) ∧
  dict_get "owner_api_key_id" new = Some JNull ∧
  ∀ k, k ∉ ["status"; "owner_api_key_id"]%string → dict_get k new = dict_get k old.

Lemma update_row_get k c new old row :
  dict_get k (update_row c new old row) =
  if decide (k = c ∧ dict_get c row = Some (JStr old)) then Some (JStr new) else dict_get k row.
Proof.
  unfold update_row. destruct (decide (dict_get c row = Some (JStr old))) as [Hc|Hc].
  - rewrite dict_get_set. destruct (decide (k = c)); [by rewrite decide_True|by rewrite decide_False by tauto].
  - by rewrite decide_False by tauto.
Qed.

Lemma upgraded_row_ok row :
  first_status row →
  upgraded_row row (dict_set "owner_api_key_id" JNull
    (update_row "status" "OFFLINE" "STALE" (update_row "status" "IDLE" "ONLINE" row))).
Proof.
  intros (st & Hst & Hrow). split; [|split].
  - assert (∃ w, worker_status_name w = (if decide (st = "ONLINE") then "IDLE" else "OFFLINE")%string) as [w Hw]
      by (case_decide; [by exists WIDLE|by exists WOFFLINE]).
    exists w. rewrite Hw, dict_get_set, decide_False by done. rewrite !update_row_get, Hrow.
    rewrite !elem_of_cons, elem_of_nil in Hst. by destruct Hst as [->|[->|[->|[]]]].
  - by rewrite dict_get_set, decide_True.
  - intros k. rewrite !elem_of_cons, elem_of_nil. intros Hk.
    rewrite dict_get_set, decide_False by tauto. rewrite !update_row_get.
    by rewrite !decide_False by tauto.
Qed.

(** From a database that has been in use. *)
Lemma upgrade_keeps_rows rows :
  Forall first_status (rows_in "workers" rows) →
  ∃ rows', upgrade_head versions_directory (mkDatabase (first_schema, rows) (Some "87925a676c08"%string)) =
      (Ok tt, mkDatabase (schema_of metadata, rows') (Some head_revision)) ∧
    Forall2 upgraded_row (rows_in "workers" rows) (rows_in "workers" rows') ∧
    rows_in "refresh_tokens" rows' = [] ∧
    ∀ t, t ∉ ["workers"; "refresh_tokens"]%string → rows' !! t = rows !! t.
Proof.
  intros Hst.
  set (f := fun row => dict_set "owner_api_key_id" JNull
    (update_row "status" "OFFLINE" "STALE" (update_row "status" "IDLE" "ONLINE" row))).
  set (rows' := alter (fmap f) "workers"%string (<["refresh_tokens"%string := []]> rows)).
  assert (rows_in "workers" rows' = f <$> rows_in "workers" rows) as Hw.
  { unfold rows_in, rows'. rewrite lookup_alter_eq, lookup_insert_ne by done.
    by destruct (rows !! "workers"%string). }
  exists rows'. split; [|split; [|split]].
  - apply (upgrade_head_run [worker_status_enum; add_refresh_tokens_and_worker_owner]);
      [by vm_compute|reflexivity|exact ddl_to_head|].
    assert (alter (fmap (dict_set "owner_api_key_id" JNull)) "workers"
      (<["refresh_tokens" := []]> (alter (fmap (update_row "status" "OFFLINE" "STALE")) "workers"
        (alter (fmap (update_row "status" "IDLE" "ONLINE")) "workers" rows))) = rows')%string as Heq.
    { apply map_eq. intros t. unfold rows'. rewrite !lookup_alter, !lookup_insert, !lookup_alter.
      repeat case_decide; subst; try done. destruct (rows !! _); [|done]. simpl.
      by rewrite <- !list_fmap_compose. }
    assert (∀ (rows : Rows) o l r1 r, dml o rows = Ok r1 → foldM (fun rows o => dml o rows) r1 l = r →
      foldM (fun rows o => dml o rows) rows (o :: l) = r) as Hstep
      by (intros r0 o l r1 r Ho; simpl; rewrite Ho; done).
    eapply Hstep; [reflexivity|]. eapply Hstep; [reflexivity|]. eapply Hstep; [reflexivity|].
    eapply Hstep; [reflexivity|]. eapply Hstep.
    { apply require_true. unfold unique_rows, rows_in. rewrite lookup_insert_eq. constructor. }
    eapply Hstep; [reflexivity|]. rewrite Heq. eapply Hstep; [|reflexivity].
    apply require_true. cbn [constraint_holds]. rewrite Hw. apply Forall_fmap, Forall_forall.
    intros row _. unfold references, values, f. cbn [compose fmap list_fmap].
    by rewrite dict_get_set, decide_True.
  - rewrite Hw. apply Forall2_fmap_r, Forall_Forall2_diag. eapply Forall_impl; [exact Hst|].
    intros row. apply upgraded_row_ok.
  - unfold rows_in, rows'. by rewrite lookup_alter_ne, lookup_insert_eq by done.
  - intros t. rewrite !elem_of_cons, elem_of_nil. intros Ht. unfold rows'.
    rewrite lookup_alter_ne, lookup_insert_ne by (intros <-; tauto). done.
Qed.

(** The head cannot be taken back: the downgrade of the last revision asks to drop a constraint
    it has no name for, so it fails from any database, and nothing changes. *)
Lemma head_downgrade_fails db :
  downgrade_one versions_directory (mkDatabase db (Some head_revision)) =
    (Err CompileError, mkDatabase db (Some head_revision)).
Proof. by destruct db. Qed.

(** C39. The revisions build what the models declare. Upgrading an empty database to the head
    succeeds and leaves the tables, columns, types, constraints and indexes of
    [Base.metadata], each table without rows, and the downgrade of the first revision
    removes all that it makes. Upgrading a database of the first revision whose workers have
    statuses of that revision succeeds, with the same schema, and leaves every row of every
    table: workers get statuses the models can read and no owner, and nothing else of a row
    changes; there are no refresh tokens. The head itself cannot be taken back. *)
Theorem migrations_reach_models rows :
  Forall first_status (rows_in "workers" rows) →
  (∃ rows0, upgrade_head versions_directory empty_database =
      (Ok tt, mkDatabase (schema_of metadata, rows0) (Some head_revision)) ∧
    ∀ t, rows_in t rows0 = []) ∧
  foldM (fun s o => ddl o s) empty_schema (initial_schema_upgrade ++ initial_schema_downgrade) =
    Ok empty_schema ∧
  (∃ rows', upgrade_head versions_directory (mkDatabase (first_schema, rows) (Some "87925a676c08"%string)) =
      (Ok tt, mkDatabase (schema_of metadata, rows') (Some head_revision)) ∧
    Forall2 upgraded_row (rows_in "workers" rows) (rows_in "workers" rows') ∧
    rows_in "refresh_tokens" rows' = [] ∧
    ∀ t, t ∉ ["workers"; "refresh_tokens"]%string → rows' !! t = rows !! t) ∧
  ∀ db, downgrade_one versions_directory (mkDatabase db (Some head_revision)) =
    (Err CompileError, mkDatabase db (Some head_revision)).
Proof.
  intros Hst. destruct upgrade_from_nothing as [Hup Hdown]. split; [exact Hup|]. split; [exact Hdown|].
  split; [by apply upgrade_keeps_rows|]. exact head_downgrade_fails.
Qed.

(** ** Witness *)

Definition demo_worker_row (name status : string) : pydict :=
  [("worker_name", JStr name); ("status", JStr status)]%string.

Definition demo_rows : Rows :=
  {["workers"%string := [demo_worker_row "a" "ONLINE"; demo_worker_row "b" "STALE"]]}.

Lemma migrations_reach_models_witness :
  ∃ rows', (upgrade_head versions_directory (mkDatabase (first_schema, demo_rows) (Some "87925a676c08"%string))).2 =
      mkDatabase (schema_of metadata, rows') (Some head_revision) ∧
    Forall2 upgraded_row [demo_worker_row "a" "ONLINE"; demo_worker_row "b" "STALE"] (rows_in "workers" rows').
Proof.
  assert (rows_in "workers" demo_rows = [demo_worker_row "a" "ONLINE"; demo_worker_row "b" "STALE"]) as Hrows
    by reflexivity.
  destruct (migrations_reach_models demo_rows) as (_ & _ & (rows' & Hup & Hw & _) & _).
  { rewrite Hrows. repeat constructor; (eexists; split; [|reflexivity]); set_solver. }
  exists rows'. split; [exact (f_equal snd Hup)|]. rewrite <- Hrows. exact Hw.
Defined.
