(* ===== verification/Columns.v ===== *)
(** * What the columns of the engine's rows hold

    Some columns are never assigned, and the lengths of the others come from the definition
    of the workflow and from the queue: kept by every operation of the engine. *)

From S2P Require Import Prelude Json PyStr Errors Models Registry DagValidator Events Monad Store.
From S2P Require Import LogHelpers StateTransition Publisher Runtime Engine Dlq Recovery System.

(** ** The columns *)

Definition short_text (n : N) (s : string) : Prop := (N.of_nat (String.length s) ≤ n)%N.
Definition short_option (n : N) (o : option string) : Prop := ∀ s, o = Some s → short_text n s.

(** The lengths that models/execution.py and models/dlq.py declare, and the columns that no
    code assigns. *)
Record node_columns (n : NodeExecution) : Prop := {
  nc_node_id : short_text 255 (ne_node_id n);
  nc_node_type : short_text 100 (ne_node_type n);
  nc_idempotency_key : ne_idempotency_key n = None;
  nc_redis_message_id : short_option 64 (ne_redis_message_id n);
  nc_worker_id : ne_worker_id n = None
}.
Definition execution_columns (e : Execution) : Prop := ex_triggered_by e = None.
Definition job_columns (j : DeadLetterJob) : Prop := short_option 64 (dl_redis_message_id j).

(** The nodes of the definition have names that fit. *)
Definition names_short (wf : WorkflowDefinition) : Prop :=
  ∀ nd, nd ∈ wf_nodes wf → short_text 255 (node_id nd) ∧ short_text 100 (node_type nd).
Definition versions_short (d : DB) : Prop :=
  ∀ id v, db_versions d !! id = Some v → names_short (wv_definition v).

Record db_columns (d : DB) : Prop := {
  dc_nodes id n : db_nodes d !! id = Some n → node_columns n;
  dc_executions id e : db_executions d !! id = Some e → execution_columns e;
  dc_jobs id j : db_dlq d !! id = Some j → job_columns j
}.

Definition session_columns (s : Session) : Prop := ∀ id n, s_nodes s !! id = Some n → node_columns n.

(** The message ids of the queue are short; those of a Redis stream are two integers of 64
    bits. *)
Class ShortIds (Q : Type) `{QueuePublisher Q} :=
  short_id : ∀ j q m q', publish_node_execution j q = (Ok (Some m), q') → short_text 64 m.

#[export] Instance in_memory_short_ids : ShortIds InMemoryQueuePublisher.
Proof. intros j q m q' [=]. Qed.

(** ** Operations that keep them *)

Section keeps.
Context {Q : Type} `{ShortIds Q}.
Implicit Types w : World Q.

Record columns w : Prop := {
  co_db : db_columns (w_db w);
  co_committed : db_columns (w_committed w);
  co_session : session_columns (w_session w);
  co_versions : versions_short (w_db w)
}.

(** [m] keeps the columns, and returns what satisfies [R]. *)
Definition keeps {A} (m : M Q A) (R : A → Prop) : Prop :=
  ∀ w, columns w → wp m (fun a w' => columns w' ∧ R a) (fun _ w' => columns w') w.

Lemma keeps_ret {A} (a : A) (R : A → Prop) : R a → keeps (mret a) R.
Proof. intros HR w Hw. by apply wp_ret. Qed.

Lemma keeps_raise {A} e (R : A → Prop) : keeps (raise e) R.
Proof. intros w Hw. by apply wp_raise. Qed.

Lemma keeps_lift {A} (r : res exc A) : keeps (lift r) (fun _ => True).
Proof. intros w Hw. unfold wp, lift. by destruct r. Qed.

Lemma keeps_gets {A} (f : World Q → A) (R : A → Prop) : (∀ w, columns w → R (f w)) → keeps (gets f) R.
Proof. intros HR w Hw. apply wp_gets. split; [done|by apply HR]. Qed.

Lemma keeps_bind {A B} (m : M Q A) (k : A → M Q B) R S :
  keeps m R → (∀ a, R a → keeps (k a) S) → keeps (m ≫= k) S.
Proof.
  intros Hm Hk w Hw. apply wp_bind. eapply wp_mono; [by apply Hm| |done].
  intros a w' [Hw' HR]. by apply Hk.
Qed.

Lemma keeps_any {A} (m : M Q A) R : keeps m R → keeps m (fun _ => True).
Proof. intros Hm w Hw. eapply wp_mono; [by apply Hm|naive_solver|done]. Qed.

(** What does not touch the rows or the objects. *)
Definition rows_alone w w' : Prop :=
  db_nodes (w_db w') = db_nodes (w_db w) ∧ db_executions (w_db w') = db_executions (w_db w) ∧
  db_dlq (w_db w') = db_dlq (w_db w) ∧ db_versions (w_db w') = db_versions (w_db w) ∧
  w_committed w' = w_committed w ∧ s_nodes (w_session w') = s_nodes (w_session w).

Lemma rows_alone_columns w w' : rows_alone w w' → columns w → columns w'.
Proof.
  intros (Hn & He & Hj & Hv & Hc & Hs) [[] ? ? ?]. split.
  - split; intros ? ?; [rewrite Hn|rewrite He|rewrite Hj]; eauto.
  - by rewrite Hc.
  - intros id n. rewrite Hs. eauto.
  - intros id v. rewrite Hv. eauto.
Qed.

Lemma keeps_alone {A} (m : M Q A) : (∀ w, rows_alone w (m w).2) → keeps m (fun _ => True).
Proof.
  intros Hm w Hw. pose proof (rows_alone_columns _ _ (Hm w) Hw) as Hw'. unfold wp.
  by destruct (m w) as [[a|e] w'].
Qed.

Lemma keeps_modify_alone f : (∀ w, rows_alone w (f w)) → keeps (modify f) (fun _ => True).
Proof. intros Hf. by apply keeps_alone. Qed.

Lemma keeps_commit : keeps commit (fun _ => True).
Proof. intros w []. apply wp_modify. by split. Qed.

Lemma keeps_for_each {A} (body : A → M Q ()) l :
  (∀ x, keeps (body x) (fun _ => True)) → keeps (for_each body l) (fun _ => True).
Proof.
  intros Hb. induction l as [|x l IH]; [by apply keeps_ret|]. by eapply keeps_bind; [apply Hb|].
Qed.

Lemma keeps_for_collect {A B} (body : A → M Q B) l :
  (∀ x, x ∈ l → keeps (body x) (fun _ => True)) → keeps (for_collect body l) (fun _ => True).
Proof.
  induction l as [|x l IH]; intros Hb; [by apply keeps_ret|]. eapply keeps_bind; [apply Hb; left|].
  intros y _. eapply keeps_bind; [apply IH; intros z Hz; apply Hb; by right|]. intros ys _. by apply keeps_ret.
Qed.

Lemma keeps_for_omap {A B} (body : A → M Q (option B)) l :
  (∀ x, keeps (body x) (fun _ => True)) → keeps (for_omap body l) (fun _ => True).
Proof.
  intros Hb. induction l as [|x l IH]; [by apply keeps_ret|]. eapply keeps_bind; [apply Hb|].
  intros y _. eapply keeps_bind; [apply IH|]. intros ys _. by apply keeps_ret.
Qed.

(** *** Rows and objects *)

Lemma columns_nodes w (m : gmap uuid NodeExecution) (f : gmap uuid NodeExecution → gmap uuid NodeExecution) :
  columns w → (∀ id n, f (s_nodes (w_session w)) !! id = Some n → node_columns n) →
  columns (w_set_session (s_set_nodes f) w).
Proof. intros [] Hf. by split. Qed.

Lemma keeps_get_node id : keeps (get_node id) (fun o => ∀ n, o = Some n → node_columns n).
Proof.
  intros w Hw. unfold wp, get_node. pose proof Hw as [[Hn _ _] _ Hs _].
  destruct (s_nodes (w_session w) !! id) as [n|] eqn:Hobj.
  { split; [done|]. intros ? [= <-]. by eapply Hs. }
  destruct (db_nodes (w_db w) !! id) as [n|] eqn:Hrow; [|done].
  split; [|intros ? [= <-]; by eapply Hn]. apply (columns_nodes w ∅); [done|].
  intros i m. rewrite lookup_insert. case_decide; [intros [= <-]; by eapply Hn|by apply Hs].
Qed.

Lemma keeps_select_node id : keeps (select_node id) (fun o => ∀ n, o = Some n → node_columns n).
Proof.
  intros w Hw. pose proof (keeps_get_node id w Hw) as Hg. unfold wp, select_node in *.
  by destruct (db_nodes (w_db w) !! id).
Qed.

Lemma keeps_node_object id : keeps (node_object id) node_columns.
Proof.
  intros w Hw. unfold wp, node_object. destruct (s_nodes (w_session w) !! id) as [n|] eqn:Hn; [|done].
  split; [done|]. by eapply (co_session _ Hw).
Qed.

Lemma keeps_select_nodes populate eid : keeps (select_nodes populate eid) (fun _ => True).
Proof.
  intros w Hw. unfold wp, select_nodes. split; [|done]. pose proof Hw as [[Hn _ _] _ Hs _].
  apply (columns_nodes w ∅); [done|]. intros id n.
  assert (∀ i m, nodes_of_execution (w_db w) eid !! i = Some m → node_columns m) as Hrows.
  { intros i m. unfold nodes_of_execution. rewrite map_lookup_filter_Some. intros [Hm _]. by eapply Hn. }
  destruct populate; intros [Hi|[_ Hi]]%lookup_union_Some_raw; by (apply Hrows in Hi || apply Hs in Hi).
Qed.

Lemma alter_columns (f : NodeExecution → NodeExecution) id (m : gmap uuid NodeExecution) :
  (∀ n, node_columns n → node_columns (f n)) → (∀ i n, m !! i = Some n → node_columns n) →
  ∀ i n, alter f id m !! i = Some n → node_columns n.
Proof.
  intros Hf Hm i n. rewrite lookup_alter. case_decide; [|apply Hm].
  intros (x & Hx & ->)%fmap_Some. by eapply Hf, Hm.
Qed.

Lemma keeps_update_node id f : (∀ n, node_columns n → node_columns (f n)) → keeps (update_node id f) (fun _ => True).
Proof.
  intros Hf w Hw. unfold wp, update_node. destruct (db_nodes (w_db w) !! id) as [n|]; [|done].
  split; [|done]. destruct Hw as [[] ? ? ?]. split; simpl; try done.
  - split; simpl; [|done|done]. by apply alter_columns.
  - intros i m. simpl. by apply alter_columns.
Qed.

Lemma keeps_insert_node n : node_columns n → keeps (insert_node n) (fun _ => True).
Proof.
  intros Hn w [[] ? ? ?]. unfold wp, insert_node. split; [|done]. split; simpl; try done.
  - split; simpl; [|done|done]. intros i m. rewrite lookup_insert. case_decide; [by intros [= <-]|eauto].
  - intros i m. simpl. rewrite lookup_insert. case_decide; [by intros [= <-]|eauto].
Qed.

Lemma keeps_get_execution_object id : keeps (get_execution_object id) (fun _ => True).
Proof.
  intros w Hw. unfold wp, get_execution_object. destruct (s_execs _ !! id); [done|].
  destruct (db_executions _ !! id); [|done]. split; [|done]. by apply (rows_alone_columns w).
Qed.

Lemma keeps_select_execution id : keeps (select_execution id) (fun _ => True).
Proof.
  intros w Hw. pose proof (keeps_get_execution_object id w Hw). unfold wp, select_execution in *.
  by destruct (db_executions _ !! id).
Qed.

Lemma keeps_execution_object id : keeps (execution_object id) (fun _ => True).
Proof. intros w Hw. unfold wp, execution_object. by destruct (s_execs _ !! id). Qed.

Lemma keeps_update_execution id f :
  (∀ e, execution_columns e → execution_columns (f e)) → keeps (update_execution id f) (fun _ => True).
Proof.
  intros Hf w Hw. unfold wp, update_execution. destruct (db_executions (w_db w) !! id) as [e|]; [|done].
  split; [|done]. destruct Hw as [[] ? ? ?]. split; simpl; try done.
  split; simpl; [done| |done]. intros i x. rewrite lookup_alter. case_decide; [|eauto].
  intros (y & Hy & ->)%fmap_Some. eauto.
Qed.

Lemma keeps_insert_execution e : execution_columns e → keeps (insert_execution e) (fun _ => True).
Proof.
  intros He w [[] ? ? ?]. unfold wp, insert_execution. split; [|done]. split; simpl; try done.
  split; simpl; [done| |done]. intros i x. rewrite lookup_insert. case_decide; [by intros [= <-]|eauto].
Qed.

(** A change of the dead letter jobs. *)
Lemma keeps_update_dlq f :
  (∀ m, (∀ i j, m !! i = Some j → job_columns j) → ∀ i j, f m !! i = Some j → job_columns j) →
  keeps (update_db (db_set_dlq f)) (fun _ => True).
Proof.
  intros Hf w [[] ? ? ?]. apply wp_modify. split; [|done]. split; simpl; try done.
  split; simpl; [done|done|by apply Hf].
Qed.

(** *** Events, logs and the queue *)

Lemma keeps_stage_event e : keeps (stage_event e) (fun _ => True).
Proof. by apply keeps_modify_alone. Qed.

Lemma keeps_flush_events : keeps flush_events (fun _ => True).
Proof.
  unfold flush_events. eapply keeps_bind; [by apply (keeps_gets _ (fun _ => True))|]. intros es _.
  eapply keeps_bind; [by apply keeps_modify_alone|]. intros _ _. apply keeps_for_each. intros e.
  unfold broadcast_envelope. destruct (env_execution_id e); [|by apply keeps_ret].
  apply keeps_alone. intros w. unfold safe_broadcast. simpl. by destruct (w_redis_up w).
Qed.

Lemma keeps_add_log eid nid level event msg meta : keeps (add_log eid nid level event msg meta) (fun _ => True).
Proof.
  unfold add_log. eapply keeps_bind; [by apply (keeps_gets _ (fun _ => True))|]. intros now _.
  eapply keeps_bind; [by apply keeps_alone|]. intros log_id _.
  eapply keeps_bind; [by apply (keeps_gets _ (fun _ => True))|]. intros d _.
  destruct (log_refers _ _ _); [|apply keeps_raise].
  eapply keeps_bind; [by apply keeps_modify_alone|]. intros _ _. apply keeps_stage_event.
Qed.

Lemma keeps_publish j : keeps (publish j) (short_option 64).
Proof.
  intros w Hw. unfold wp, publish. destruct (publish_node_execution j (w_queue w)) as [[m|e] q] eqn:Hp.
  - split; [by apply (rows_alone_columns w)|]. intros s ->. by eapply short_id.
  - by apply (rows_alone_columns w).
Qed.

End keeps.

Create HintDb keeps.
#[export] Hint Resolve keeps_raise keeps_lift keeps_commit keeps_get_node keeps_select_node keeps_node_object
  keeps_select_nodes keeps_get_execution_object keeps_select_execution keeps_execution_object
  keeps_stage_event keeps_flush_events keeps_add_log keeps_publish : keeps.

Lemma node_columns_alike n n' :
  ne_node_id n' = ne_node_id n → ne_node_type n' = ne_node_type n →
  ne_idempotency_key n' = ne_idempotency_key n → ne_redis_message_id n' = ne_redis_message_id n →
  ne_worker_id n' = ne_worker_id n → node_columns n → node_columns n'.
Proof. intros H1 H2 H3 H4 H5 []. split; by rewrite ?H1, ?H2, ?H3, ?H4, ?H5. Qed.

(** One operation after the other, by cases. *)
Ltac keep_known :=
  solve [ eauto with keeps | eapply keeps_any; eauto with keeps
        | apply keeps_update_node; intros ?; by apply node_columns_alike ].
Ltac keep :=
  repeat (intros; cbv beta zeta;
    first [ keep_known
          | by apply (keeps_ret _ (fun _ => True))
          | apply (keeps_gets _ (fun _ => True)); done
          | eapply keeps_bind; [first [keep_known | by apply (keeps_ret _ (fun _ => True)) | by apply (keeps_gets _ (fun _ => True)) | by apply keeps_alone]|]
          | case_decide | case_match
          | eapply (keeps_bind _ _ (fun _ => True)); [solve [keep]|] ]); intros; cbv beta zeta.

(** ** The operations *)

Section operations.
Context {Q : Type} `{ShortIds Q} {Net : Type}.
Context (str_exc : exc → string) (set_order : list json → list json) (registry : ExecutorRegistry Net).
Local Abbreviation any := (fun _ => True).

Lemma keeps_transition_node id from to : keeps (Q := Q) (transition_node_status id from to) node_columns.
Proof.
  unfold transition_node_status. eapply keeps_bind; [apply keeps_select_node|]. intros [n|] Hn; [|apply keeps_raise].
  case_decide; [apply keeps_raise|]. eapply keeps_bind; [by apply (keeps_gets _ any)|]. intros now _.
  eapply keeps_bind; [apply keeps_update_node; intros m; by apply node_columns_alike|]. intros _ _.
  eapply keeps_bind; [apply keeps_node_object|]. intros m Hm.
  eapply keeps_bind; [apply keeps_stage_event|]. intros _ _. by apply keeps_ret.
Qed.

Lemma keeps_transition_execution id from to : keeps (Q := Q) (transition_execution_status id from to) any.
Proof.
  unfold transition_execution_status. keep. eapply keeps_bind; [by apply keeps_update_execution|]. keep.
Qed.

Hint Resolve keeps_transition_node keeps_transition_execution : keeps.

Lemma keeps_claim_job fs : keeps (Q := Q) (claim_job fs) any.
Proof. unfold claim_job, node_started. keep. Qed.

Lemma keeps_recover_and_claim fs mid prev me : keeps (Q := Q) (recover_and_claim fs mid prev me) any.
Proof.
  unfold recover_and_claim. eapply keeps_bind; [|intros [] _; [apply keeps_claim_job|by apply keeps_ret]].
  unfold recover_job, log_recovery_event, worker_recovered_job. keep.
Qed.

Lemma keeps_load_and_execute net node :
  keeps (Q := Q) (load_and_execute str_exc registry net node) any.
Proof.
  unfold load_and_execute. eapply (keeps_bind _ _ any); [unfold load_job; keep|keep].
Qed.
(** *** Completion *)

Lemma keeps_node_objects ids : keeps (Q := Q) (for_collect node_object ids) any.
Proof. apply keeps_for_collect. intros id _. keep. Qed.

Lemma keeps_skip_cascade fuel wf by_id queue : keeps (Q := Q) (skip_cascade fuel wf by_id queue) any.
Proof.
  revert queue. induction fuel as [|fuel IH]; intros [|k queue]; simpl; keep.
Qed.

Lemma keeps_parents by_id l : keeps (Q := Q) (all_parents_succeeded by_id l) any.
Proof. induction l as [|p l IH]; simpl; keep. Qed.

Hint Resolve keeps_node_objects keeps_skip_cascade keeps_parents : keeps.

Lemma keeps_queue_downstream wf nd n by_id result :
  keeps (Q := Q) (_queue_downstream_nodes set_order wf nd n by_id result) any.
Proof.
  unfold _queue_downstream_nodes. keep. apply keeps_for_omap. intros c. unfold queue_child. keep.
Qed.

Lemma keeps_add_dead_letter_job e n : node_columns n → keeps (Q := Q) (add_dead_letter_job e n) any.
Proof.
  intros Hn. unfold add_dead_letter_job. keep. apply keeps_update_dlq. intros m Hm i j.
  rewrite lookup_insert. case_decide; [intros [= <-]; apply Hn|apply Hm].
Qed.

Lemma keeps_handle_failure e id : keeps (Q := Q) (_handle_node_failure e id) any.
Proof.
  unfold _handle_node_failure. eapply keeps_bind; [apply keeps_node_object|]. intros n Hn.
  unfold retry_scheduled, dead_lettered. case_match; [keep|].
  eapply keeps_bind; [apply keeps_transition_node|]. intros _ _.
  eapply keeps_bind; [apply keeps_node_object|]. intros m Hm.
  eapply keeps_bind; [apply keeps_add_log|]. intros _ _.
  eapply keeps_bind; [by apply keeps_add_dead_letter_job|]. keep.
Qed.

Hint Resolve keeps_queue_downstream keeps_handle_failure : keeps.

Lemma keeps_complete_job ld result : keeps (Q := Q) (complete_job set_order ld result) any.
Proof.
  unfold complete_job, node_succeeded, node_failed. keep.
Qed.

(** *** The other operations *)

Lemma keeps_publish_nodes vid eid nodes : keeps (Q := Q) (publish_nodes vid eid nodes) any.
Proof.
  unfold publish_nodes. eapply (keeps_bind _ _ any); [apply keeps_for_each; intros id|keep].
  unfold publish_node. eapply keeps_bind; [apply keeps_node_object|]. intros n _.
  eapply keeps_bind; [apply keeps_publish|]. intros [m|] Hm; [|by apply keeps_ret].
  case_match; [by apply keeps_ret|]. apply keeps_update_node. intros x []. split; try done.
Qed.

Lemma keeps_start_create command owner : keeps (Q := Q) (start_create registry command owner) any.
Proof.
  unfold start_create. eapply (keeps_bind _ _ versions_short).
  { apply keeps_gets. by intros w []. }
  intros d Hd. destruct (version_with_workflow d _) as [[v wf]|] eqn:Hv; [|apply keeps_raise].
  assert (names_short (wv_definition v)) as Hnames.
  { unfold version_with_workflow in Hv. apply bind_Some in Hv as (v' & Hv' & Hv).
    apply bind_Some in Hv as (wf' & _ & [= -> _]). by eapply Hd. }
  case_match; [|apply keeps_raise]. eapply keeps_bind; [apply keeps_lift|]. intros vr _.
  eapply keeps_bind; [by apply (keeps_alone uuid4)|]. intros eid _.
  eapply keeps_bind; [by apply keeps_insert_execution|]. intros _ _.
  eapply keeps_bind; [|unfold execution_started; keep].
  - apply keeps_for_collect. intros nd Hnd. unfold create_node_execution.
    eapply keeps_bind; [by apply (keeps_alone uuid4)|]. intros id _. eapply keeps_bind; [|keep].
    apply keeps_insert_node. destruct (Hnames nd Hnd). by split.
  - eapply (keeps_bind _ _ any); [apply keeps_for_each; intros x; keep|keep].
Qed.

Lemma resolve_columns now note id (m : gmap uuid DeadLetterJob) :
  (∀ i j, m !! i = Some j → job_columns j) →
  ∀ i j, alter (resolve_job now note) id m !! i = Some j → job_columns j.
Proof.
  intros Hm i j. rewrite lookup_alter. case_decide; [|apply Hm]. intros (x & Hx & ->)%fmap_Some.
  by apply (Hm _ _ Hx).
Qed.

Lemma keeps_retry_requeue eid nid owner : keeps (Q := Q) (retry_requeue eid nid owner) any.
Proof.
  unfold retry_requeue. keep. eapply (keeps_bind _ _ any); [|keep]. unfold resolve_dlq_of_node. keep.
  apply keeps_update_dlq. intros m. apply resolve_columns.
Qed.

Lemma keeps_retry_publish id e : keeps (Q := Q) (retry_publish id e) any.
Proof.
  unfold retry_publish. eapply keeps_bind; [apply keeps_node_object|]. intros n _.
  eapply keeps_bind; [apply keeps_publish|]. intros o Ho. eapply (keeps_bind _ _ any); [|keep].
  destruct o as [m|]; [|by apply keeps_ret]. case_match; [by apply keeps_ret|].
  eapply (keeps_bind _ _ any); [apply keeps_update_node; intros x []; split; done|keep].
Qed.

Lemma keeps_resolve id owner note : keeps (Q := Q) (resolve_dlq_job id owner note) any.
Proof.
  unfold resolve_dlq_job, get_dlq_job. eapply (keeps_bind _ _ any); [keep|]. keep.
  eapply (keeps_bind _ _ any); [apply keeps_update_dlq; intros m; apply resolve_columns|]. keep.
Qed.

Lemma cascade_columns eid d : db_columns d → db_columns (cascade_delete eid d).
Proof.
  intros []. split; simpl; [| |done].
  - intros id n [Hn _]%lookup_difference_Some. eauto.
  - intros id e [_ He]%lookup_delete_Some. eauto.
Qed.

Lemma keeps_delete_execution eid owner : keeps (Q := Q) (delete_execution eid owner) any.
Proof.
  unfold delete_execution, select_owned_execution. eapply (keeps_bind _ _ any); [keep|].
  intros [e|] _; [|apply keeps_raise]. eapply (keeps_bind _ _ any).
  { apply keeps_update_dlq. intros m Hm i j [Hj _]%map_lookup_filter_Some. eauto. }
  intros _ _. eapply (keeps_bind _ _ any); [|keep].
  intros w []. apply wp_modify. split; [|done]. split; simpl; try done. by apply cascade_columns.
Qed.

End operations.

(** ** The columns of the system *)

Section system.
Context {Q : Type} `{ShortIds Q} {Net : Type}.
Context (str_exc : exc → string) (set_order : list json → list json) (registry : ExecutorRegistry Net).
Implicit Types s : Sys (Q := Q).

(** The states the system reaches while the names in the stored workflows fit. *)
Inductive named_reachable : Sys (Q := Q) → Prop :=
| nr_init s : sys_initial s → named_reachable s
| nr_step s op s' : named_reachable s → sstep str_exc set_order registry s op s' →
    versions_short (sy_db s') → named_reachable s'.

Lemma named_reachable_reachable s :
  named_reachable s → reachable str_exc set_order registry (fun _ => True) s.
Proof. induction 1; [by apply reach_init|by eapply reach_step]. Qed.

Lemma named_reachable_short s : named_reachable s → versions_short (sy_db s).
Proof. intros [s0 [Hdb _]|]; [|done]. rewrite Hdb. intros id v. simpl. by rewrite lookup_empty. Qed.

Definition task_session (t : Task) : Session :=
  match t with TClaimed s _ | TLoaded s _ _ | TPublish s _ _ _ | TRetryPublish s _ _ => s end.

Definition system_columns s : Prop :=
  db_columns (sy_db s) ∧ ∀ i t, sy_tasks s !! i = Some t → session_columns (task_session t).

(** A stretch that keeps the columns, and tasks with the session it leaves. *)
Lemma stretch_columns {A} (m : M Q A) s session r w' tasks :
  keeps m (fun _ => True) → m (world_of s session) = (r, w') →
  system_columns s → versions_short (sy_db s) → session_columns session →
  (∀ i t, tasks !! i = Some t → sy_tasks s !! i = Some t ∨ task_session t = w_session w') →
  system_columns (after w' tasks).
Proof.
  intros Hm Hrun [Hdb Htasks] Hv Hs Hnew.
  assert (columns w') as [_ Hc Hs' _].
  { apply (wp_adequate _ (fun _ w' => columns w') _ _ _ Hrun).
    eapply wp_mono; [apply Hm; by split|naive_solver|done]. }
  split; [done|]. intros i t Hi. destruct (Hnew i t Hi) as [Hold| ->]; [by eapply Htasks|done].
Qed.

Lemma new_session_columns : session_columns new_session.
Proof. intros id n. simpl. by rewrite lookup_empty. Qed.

Lemma inserted_session (tasks : gmap nat Task) i t j t' (session : Session) :
  <[i := t]> tasks !! j = Some t' → task_session t = session → tasks !! j = Some t' ∨ task_session t' = session.
Proof. rewrite lookup_insert. case_decide; [intros [= <-]; by right|by left]. Qed.

Lemma deleted_session (tasks : gmap nat Task) i j t' (session : Session) :
  delete i tasks !! j = Some t' → tasks !! j = Some t' ∨ task_session t' = session.
Proof. intros [_ Hj]%lookup_delete_Some. by left. Qed.

Lemma sstep_columns s op s' :
  sstep str_exc set_order registry s op s' → system_columns s → versions_short (sy_db s) → system_columns s'.
Proof.
  intros Hstep Hs Hv. pose proof Hs as [Hdb Htasks].
  destruct Hstep as [i fs r w' Hi Hr|i fs mid prev me r w' Hi Hr|i se node net r w' Hi Hr|i se ld res r w' Hi Hr
    |i se vid eid nodes r w' Hi Hr|i c o r w' Hi Hr|i eid x o r w' Hi Hr|i se n e r w' Hi Hr|eid o r w' Hr
    |k o note r w' Hr|d' next' Hch|q up now|i];
    try (eapply stretch_columns; [|exact Hr|done|done|first [apply new_session_columns|apply (Htasks _ _ Hi)]|];
      [eauto using keeps_claim_job, keeps_recover_and_claim, keeps_load_and_execute, keeps_complete_job,
         keeps_publish_nodes, keeps_start_create, keeps_retry_requeue, keeps_retry_publish,
         keeps_delete_execution, keeps_resolve|
       intros j t Hj; unfold claimed_task in Hj; repeat case_match;
         eauto using inserted_session, deleted_session]).
  - destruct (vc_rest _ _ Hch) as (He & Hn & Hj & _). split; [|done]. destruct Hdb.
    split; intros ? ?; cbn; [rewrite Hn|rewrite He|rewrite Hj]; eauto.
  - done.
  - split; [done|]. intros j t Hj. cbn in Hj. apply lookup_delete_Some in Hj as [_ Hj]. by eapply Htasks.
Qed.

Lemma named_columns s : named_reachable s → db_columns (sy_db s).
Proof.
  intros Hr. apply (proj1 (B := ∀ i t, sy_tasks s !! i = Some t → session_columns (task_session t))).
  induction Hr as [s [Hdb Ht]|s op s' Hr IH Hstep Hv].
  - rewrite Hdb, Ht. split; [|intros i t; by rewrite lookup_empty].
    split; intros id x; cbn; by rewrite lookup_empty.
  - eapply sstep_columns; [exact Hstep|exact IH|by apply named_reachable_short].
Qed.

End system.
