(* ===== verification/Tables.v ===== *)
(** * The rows of the engine and the schema of the models

    The tables of [Store] as rows of the schema that the models declare ([Schema]): every
    reachable state has values of the declared types, and satisfies the constraints. Here a
    uuid is its integer and a datetime its microseconds, both [JInt], and SQL's null is
    [JNull]. *)

From S2P Require Import Prelude Json PyStr Errors Models Registry DagValidator Events Monad Store.
From S2P Require Import LogHelpers StateTransition Tx Machine Publisher Runtime.
From S2P Require Import Downstream Complete Engine Dlq Recovery Abstraction Start Steps System.
From S2P Require Import Evolution Invariant Execute Guarantees Schema Columns.

(** ** Rows *)

Definition sql_uuid (u : uuid) : json := JInt (Z.of_N u).
Definition sql_option {A} (f : A → json) (o : option A) : json :=
  match o with Some a => f a | None => JNull end.

Definition execution_row (p : uuid * Execution) : pydict :=
  let e := p.2 in
  [("id", sql_uuid p.1); ("workflow_id", sql_uuid (ex_workflow_id e));
   ("workflow_version_id", sql_uuid (ex_workflow_version_id e));
   ("status", JStr (execution_status_name (ex_status e))); ("started_at", sql_option JInt (ex_started_at e));
   ("finished_at", sql_option JInt (ex_finished_at e)); ("triggered_by", sql_option JStr (ex_triggered_by e));
   ("input_payload", sql_option JDict (ex_input_payload e));
   ("error_message", sql_option JStr (ex_error_message e))]%string.

Definition node_row (p : uuid * NodeExecution) : pydict :=
  let n := p.2 in
  [("id", sql_uuid p.1); ("execution_id", sql_uuid (ne_execution_id n)); ("node_id", JStr (ne_node_id n));
   ("node_type", JStr (ne_node_type n)); ("status", JStr (node_status_name (ne_status n)));
   ("attempt", JInt (ne_attempt n)); ("max_attempts", JInt (ne_max_attempts n));
   ("input_payload", sql_option JDict (ne_input_payload n));
   ("output_payload", sql_option JDict (ne_output_payload n));
   ("error_message", sql_option JStr (ne_error_message n));
   ("idempotency_key", sql_option JStr (ne_idempotency_key n));
   ("redis_message_id", sql_option JStr (ne_redis_message_id n));
   ("worker_id", sql_option sql_uuid (ne_worker_id n)); ("queued_at", sql_option JInt (ne_queued_at n));
   ("started_at", sql_option JInt (ne_started_at n)); ("finished_at", sql_option JInt (ne_finished_at n))]%string.

Definition job_row (p : uuid * DeadLetterJob) : pydict :=
  let j := p.2 in
  [("id", sql_uuid p.1); ("created_at", JInt (dl_created_at j)); ("execution_id", sql_uuid (dl_execution_id j));
   ("node_execution_id", sql_uuid (dl_node_execution_id j));
   ("redis_message_id", sql_option JStr (dl_redis_message_id j)); ("reason", JStr (dl_reason j));
   ("attempts", JInt (dl_attempts j)); ("payload", sql_option JDict (dl_payload j));
   ("resolved_at", sql_option JInt (dl_resolved_at j));
   ("resolution_note", sql_option JStr (dl_resolution_note j))]%string.

Definition version_row (p : uuid * WorkflowVersion) : pydict :=
  [("id", sql_uuid p.1); ("workflow_id", sql_uuid (wv_workflow_id p.2))]%string.

Definition workflow_row (p : uuid * Workflow) : pydict :=
  [("id", sql_uuid p.1); ("owner_api_key_id", sql_uuid (w_owner_api_key_id p.2))]%string.

(** The tables of the engine; of workflows and versions only the keys matter. *)
Definition rows_of_db (d : DB) : Rows :=
  list_to_map [("workflows", workflow_row <$> map_to_list (db_workflows d));
               ("workflow_versions", version_row <$> map_to_list (db_versions d));
               ("executions", execution_row <$> map_to_list (db_executions d));
               ("node_executions", node_row <$> map_to_list (db_nodes d));
               ("dead_letter_jobs", job_row <$> map_to_list (db_dlq d))]%string.

(** The tables the engine writes. *)
Definition engine_tables : list MappedTable :=
  [executions_table; node_executions_table; dead_letter_jobs_table].

(** A value of a column's type: a string of at most the declared length, a name of the
    enumeration. The range of an integer is not looked at. *)
Definition value_fits (c : MappedColumn) (v : json) : Prop :=
  v = JNull ∧ mc_nullable c = true ∨
  match mc_type c with
  | SaString n => ∃ s, v = JStr s ∧ match n with Some n => short_text n s | None => True end
  | SaBoolean => ∃ b, v = JBool b
  | SaDateTime _ | SaUuid | SaInteger => ∃ z, v = JInt z
  | SaJSONB => ∃ l, v = JDict l
  | SaEnum values n => ∃ s, v = JStr s ∧ s ∈ values ∧ (N.of_nat (String.length s) ≤ n)%N
  end.

(** A row has the table's columns, each with a value that fits. *)
Definition row_fits (t : MappedTable) (row : pydict) : Prop :=
  Forall (fun c => ∃ v, dict_get (mc_name c) row = Some v ∧ value_fits c v) (mt_mapped t) ∧
  Forall (fun p => p.1 ∈ (mc_name <$> mt_mapped t)) row.

(** ** Constraints over rows made from a map *)

Section maps.
Context {A : Type}.
Implicit Types (f : uuid * A → pydict) (m : gmap uuid A).

Lemma elem_of_map_rows f m row : row ∈ f <$> map_to_list m ↔ ∃ i x, m !! i = Some x ∧ row = f (i, x).
Proof.
  rewrite list_elem_of_fmap. split.
  - intros ([i x] & -> & Hx%elem_of_map_to_list). by exists i, x.
  - intros (i & x & Hx & ->). exists (i, x). split; [done|]. by apply elem_of_map_to_list.
Qed.

Lemma unique_map_rows f m columns :
  (∀ i j x y, m !! i = Some x → m !! j = Some y → values columns (f (i, x)) = values columns (f (j, y)) → i = j) →
  unique_rows columns (f <$> map_to_list m).
Proof.
  intros Hinj. unfold unique_rows. apply NoDup_filter. rewrite <- list_fmap_compose.
  apply NoDup_fmap_2_strong; [|apply NoDup_map_to_list]. intros [i x] [j y] Hi Hj Heq.
  apply elem_of_map_to_list in Hi, Hj. assert (i = j) as -> by eauto. congruence.
Qed.

End maps.

Lemma rows_in_db t d :
  rows_in t (rows_of_db d) =
  if decide (t = "workflows"%string) then workflow_row <$> map_to_list (db_workflows d)
  else if decide (t = "workflow_versions"%string) then version_row <$> map_to_list (db_versions d)
  else if decide (t = "executions"%string) then execution_row <$> map_to_list (db_executions d)
  else if decide (t = "node_executions"%string) then node_row <$> map_to_list (db_nodes d)
  else if decide (t = "dead_letter_jobs"%string) then job_row <$> map_to_list (db_dlq d) else [].
Proof.
  unfold rows_in, rows_of_db. cbn [list_to_map foldr fst snd].
  repeat (match goal with |- context [decide (t = ?x)] => destruct (decide (t = x)) as [->|] end;
          [by rewrite ?lookup_insert_ne, lookup_insert_eq by done|]).
  by rewrite !lookup_insert_ne by congruence.
Qed.

Lemma sql_uuid_inj u v : sql_uuid u = sql_uuid v → u = v.
Proof. intros [= H]. by apply N2Z.inj. Qed.

Lemma no_null_uuid u : no_null [sql_uuid u] = true.
Proof. done. Qed.

(** ** Rows and types *)

Lemma sql_option_fits {A} c (f : A → json) (o : option A) :
  mc_nullable c = true → (∀ a, o = Some a → value_fits c (f a)) → value_fits c (sql_option f o).
Proof. intros Hn Hf. destruct o as [a|]; [by apply Hf|by left]. Qed.

(** The columns in turn. *)
Ltac fit_columns :=
  split; [repeat (apply Forall_cons; split; [eexists; split; [reflexivity|]|]); try apply Forall_nil_2|
          repeat (apply Forall_cons; split; [set_solver|]); apply Forall_nil_2].

Ltac fit_value :=
  try (apply sql_option_fits; [reflexivity|intros ? ?]); right; simpl; eauto.

Lemma execution_row_fits p : execution_columns p.2 → row_fits executions_table (execution_row p).
Proof.
  intros Hp. unfold execution_columns in Hp. fit_columns; fit_value.
  - eexists; split; [done|]. destruct (ex_status p.2); (split; by_decision).
  - congruence.
Qed.

Lemma node_row_fits p : node_columns p.2 → row_fits node_executions_table (node_row p).
Proof.
  intros [? ? Hkey ? ?]. fit_columns; fit_value.
  - eexists; split; [done|]. destruct (ne_status p.2); (split; by_decision).
  - congruence.
Qed.

Lemma job_row_fits p : job_columns p.2 → row_fits dead_letter_jobs_table (job_row p).
Proof. intros Hp. fit_columns; fit_value. Qed.

(** ** Constraints *)

(** The constraints declared, one by one. *)
Lemma executions_constraints :
  mapped_constraints executions_table =
    [PrimaryKey ["id"]; ForeignKey ["workflow_id"] "workflows" ["id"];
     ForeignKey ["workflow_version_id"] "workflow_versions" ["id"]]%string.
Proof. reflexivity. Qed.

Lemma node_executions_constraints :
  mapped_constraints node_executions_table =
    [PrimaryKey ["id"]; ForeignKey ["execution_id"] "executions" ["id"];
     ForeignKey ["worker_id"] "workers" ["id"]; Unique ["execution_id"; "node_id"]]%string.
Proof. reflexivity. Qed.

Lemma dead_letter_jobs_constraints :
  mapped_constraints dead_letter_jobs_table =
    [PrimaryKey ["id"]; ForeignKey ["execution_id"] "executions" ["id"];
     ForeignKey ["node_execution_id"] "node_executions" ["id"]]%string.
Proof. reflexivity. Qed.

(** A table made from a map, whose rows start with the map's key. *)
Lemma primary_key_map {A} (f : uuid * A → pydict) (m : gmap uuid A) (t : string) (rows : Rows) :
  rows_in t rows = f <$> map_to_list m → (∀ p, values ["id"%string] (f p) = [sql_uuid p.1]) →
  constraint_holds rows t (PrimaryKey ["id"%string]).
Proof.
  intros Hrows Hid. split; rewrite Hrows.
  - apply unique_map_rows. intros i j x y _ _. rewrite !Hid. simpl. intros [= H]. by apply N2Z.inj.
  - apply Forall_forall. intros row (i & x & _ & ->)%elem_of_map_rows. by rewrite Hid.
Qed.

(** A column that is the key of a row of another table. *)
Lemma foreign_key_map {A B} (f : uuid * A → pydict) (g : uuid * B → pydict) (m : gmap uuid A)
    (n : gmap uuid B) (t ref : string) (column : string) (target : A → uuid) (rows : Rows) :
  rows_in t rows = f <$> map_to_list m → rows_in ref rows = g <$> map_to_list n →
  (∀ p, values ["id"%string] (g p) = [sql_uuid p.1]) →
  (∀ p, values [column] (f p) = [sql_uuid (target p.2)]) →
  (∀ i x, m !! i = Some x → is_Some (n !! target x)) →
  constraint_holds rows t (ForeignKey [column] ref ["id"%string]).
Proof.
  intros Ht Href Hid Hcol Hex. simpl. rewrite Ht, Href. apply Forall_forall.
  intros row (i & x & Hx & ->)%elem_of_map_rows _. destruct (Hex i x Hx) as [y Hy].
  apply list_elem_of_fmap. exists (g (target x, y)). split; [by rewrite Hcol, Hid|].
  apply elem_of_map_rows. by exists (target x), y.
Qed.

(** A column that is always null refers to nothing. *)
Lemma null_key_map {A} (f : uuid * A → pydict) (m : gmap uuid A) (t ref column : string) (rows : Rows) :
  rows_in t rows = f <$> map_to_list m → (∀ i x, m !! i = Some x → values [column] (f (i, x)) = [JNull]) →
  constraint_holds rows t (ForeignKey [column] ref ["id"%string]).
Proof.
  intros Ht Hcol. simpl. rewrite Ht. apply Forall_forall. intros row (i & x & Hx & ->)%elem_of_map_rows.
  unfold references. by rewrite (Hcol i x Hx).
Qed.

Lemma rows_fit t d :
  db_columns d → t ∈ engine_tables → Forall (row_fits t) (rows_in (mt_tablename t) (rows_of_db d)).
Proof.
  intros Hd. unfold engine_tables. rewrite !elem_of_cons, elem_of_nil.
  intros [->|[->|[->|[]]]]; apply Forall_forall; intros row; rewrite rows_in_db; simpl;
    intros (i & x & Hx & ->)%elem_of_map_rows;
    [by eapply execution_row_fits, dc_executions|by eapply node_row_fits, dc_nodes|by eapply job_row_fits, dc_jobs].
Qed.

Lemma constraints_hold t d c :
  db_wf d → db_columns d → t ∈ engine_tables → c ∈ mapped_constraints t →
  constraint_holds (rows_of_db d) (mt_tablename t) c.
Proof.
  intros Hwf Hd. unfold engine_tables. rewrite !elem_of_cons, elem_of_nil. intros [->|[->|[->|[]]]].
  - rewrite executions_constraints, !elem_of_cons, elem_of_nil. intros [->|[->|[->|[]]]].
    + by apply (primary_key_map execution_row (db_executions d)).
    + apply (foreign_key_map execution_row workflow_row (db_executions d) (db_workflows d)) with
        (target := ex_workflow_id); try done.
      intros i x Hx. destruct (dw_exec_version _ Hwf _ _ Hx) as (v & wf & _ & Hw & _). eauto.
    + apply (foreign_key_map execution_row version_row (db_executions d) (db_versions d)) with
        (target := ex_workflow_version_id); try done.
      intros i x Hx. destruct (dw_exec_version _ Hwf _ _ Hx) as (v & wf & Hv & _ & _). eauto.
  - rewrite node_executions_constraints, !elem_of_cons, elem_of_nil. intros [->|[->|[->|[->|[]]]]].
    + by apply (primary_key_map node_row (db_nodes d)).
    + apply (foreign_key_map node_row execution_row (db_nodes d) (db_executions d)) with
        (target := ne_execution_id); try done.
      apply (dw_node_exec _ Hwf).
    + apply (null_key_map node_row (db_nodes d)); [done|]. intros i x Hx. unfold values, node_row. simpl.
      by rewrite (nc_worker_id _ (dc_nodes _ Hd _ _ Hx)).
    + simpl. rewrite rows_in_db. apply (unique_map_rows node_row). intros i j x y Hx Hy [= He Hn].
      eapply (dw_node_unique _ Hwf); [done..| |done]. by apply N2Z.inj.
  - rewrite dead_letter_jobs_constraints, !elem_of_cons, elem_of_nil. intros [->|[->|[->|[]]]].
    + by apply (primary_key_map job_row (db_dlq d)).
    + apply (foreign_key_map job_row execution_row (db_dlq d) (db_executions d)) with
        (target := dl_execution_id); try done.
      intros i x Hx. destruct (dw_dlq _ Hwf _ _ Hx) as (n & Hn & <-). by apply (dw_node_exec _ Hwf _ _ Hn).
    + apply (foreign_key_map job_row node_row (db_dlq d) (db_nodes d)) with
        (target := dl_node_execution_id); try done.
      intros i x Hx. destruct (dw_dlq _ Hwf _ _ Hx) as (n & Hn & _). eauto.
Qed.

Section tables.
Context {Q : Type} `{Hids : ShortIds Q} {Net : Type}.
Context (str_exc : exc → string) (set_order : list json → list json)
  (registry : ExecutorRegistry Net).
Hypothesis Hord : ∀ l, set_order l ≡ₚ l.
Implicit Types s : Sys (Q := Q).

(** C12. The tables are typed by the schema of the models. As long as the names of the nodes
    in the stored workflows are within the declared lengths, and the queue's message ids
    are short, each row of the executions, node executions and dead letter jobs in every
    reachable state has the columns that its model declares, with strings no longer than
    declared, statuses among those of the enumeration, values of the other types, and
    nulls only where they may be; and the tables satisfy every declared constraint: primary
    keys, one row for each node of an execution, and foreign keys, that to the workers
    because [worker_id] is never assigned. *)
Theorem rows_respect_schema s t :
  named_reachable str_exc set_order registry s → t ∈ engine_tables →
  Forall (row_fits t) (rows_in (mt_tablename t) (rows_of_db (sy_db s))) ∧
  ∀ c, c ∈ mapped_constraints t → constraint_holds (rows_of_db (sy_db s)) (mt_tablename t) c.
Proof using Hids Hord.
  intros Hr Ht. pose proof (named_columns _ _ _ _ Hr) as Hcols. split; [by apply rows_fit|].
  intros c Hc. apply constraints_hold; [|done..].
  exact (di_wf _ _ _ _ (any_inv _ _ _ Hord s (named_reachable_reachable _ _ _ _ Hr))).
Qed.

End tables.

(** ** Witness *)

(** The stored names, checked. *)
Definition names_fit (s : Sys (Q := InMemoryQueuePublisher)) : bool :=
  forallb (fun p => forallb (fun nd => (N.of_nat (String.length (node_id nd)) <=? 255)%N &&
                                       (N.of_nat (String.length (node_type nd)) <=? 100)%N)
                      (wf_nodes (wv_definition p.2)))
    (map_to_list (db_versions (sy_db s))).

Lemma names_fit_short s : names_fit s = true → versions_short (sy_db s).
Proof.
  unfold names_fit. rewrite forallb_forall. intros Hs id v Hv nd Hnd.
  assert (In (id, v) (map_to_list (db_versions (sy_db s)))) as Hin
    by (by apply list_elem_of_In, elem_of_map_to_list).
  specialize (Hs _ Hin). simpl in Hs. rewrite forallb_forall in Hs.
  apply list_elem_of_In, Hs, andb_true_iff in Hnd as [H1 H2]. split; by apply N.leb_le.
Qed.

Fixpoint demo_names (l : list (Action ExecutorResult)) (s : Sys (Q := InMemoryQueuePublisher)) : bool :=
  names_fit s &&
  match l with [] => true | a :: l => demo_names l (exec_action demo_exc id demo_registry a s).2 end.

Lemma demo_named l s :
  demo_names l s = true → named_reachable demo_exc id demo_registry s →
  named_reachable demo_exc id demo_registry (run_schedule demo_exc id demo_registry l s).
Proof.
  revert s. induction l as [|a l IH]; intros s Hl Hs; [done|]. simpl in Hl.
  apply andb_true_iff in Hl as [_ Hl]. apply IH; [exact Hl|].
  eapply nr_step; [exact Hs|apply exec_action_step|]. apply names_fit_short.
  destruct l; simpl in Hl; by apply andb_true_iff in Hl as [? _].
Qed.

Lemma demo_start_named : named_reachable demo_exc id demo_registry demo_start.
Proof.
  eapply (nr_step _ _ _ (mkSys empty_db (mkInMemory []) [] false 1000 100 ∅) OpVersions);
    [by apply nr_init| |apply names_fit_short; vm_compute; reflexivity].
  apply (st_versions _ _ _ (mkSys empty_db (mkInMemory []) [] false 1000 100 ∅)); [|done].
  unfold demo_db. split; simpl; try done.
  - intros id v. rewrite lookup_singleton. case_decide; [by intros [= <-]|done].
  - intros id v. rewrite lookup_singleton. case_decide; [by intros [= <-]|done].
  - intros id v. rewrite lookup_singleton. case_decide; [|done]. by intros [= <-].
Qed.

Lemma rows_respect_schema_witness :
  constraint_holds (rows_of_db (sy_db (demo_run left_dead))) "node_executions"
    (Unique ["execution_id"; "node_id"])%string ∧
  length (rows_in "node_executions" (rows_of_db (sy_db (demo_run left_dead)))) = 5%nat.
Proof.
  split; [|vm_compute; reflexivity].
  assert (named_reachable demo_exc id demo_registry (demo_run left_dead)) as Hr.
  { apply demo_named; [vm_compute; reflexivity|apply demo_start_named]. }
  refine (proj2 (rows_respect_schema demo_exc id demo_registry (fun l => Permutation_refl l)
    (demo_run left_dead) node_executions_table Hr _) _ _).
  - unfold engine_tables. set_solver.
  - rewrite node_executions_constraints. set_solver.
Defined.
