(* ===== verification/Seeds.v ===== *)
(** * The demonstration workflows

    src/backend/scripts/seed_demo_workflows.py and create_api_key.py: a script makes an API
    key and, under it, four workflows. The tables of keys are those of [Auth], those of
    workflows those of the store; each service commits its own part. *)

From Stdlib Require Import SpecFloat.
From S2P Require Import Prelude Json PyStr Dumps Errors Models Registry Conditions Executors DagValidator.
From S2P Require Import Events Monad Store LogHelpers StateTransition Tx Machine Publisher Runtime.
From S2P Require Import Downstream Complete Engine Dlq Recovery Abstraction Start Steps System.
From S2P Require Import Evolution Invariant Execute WorkflowService Catalog Auth Guarantees Liveness.

(** ** The definitions *)

(** The defaults of the schemas. *)
Definition default_policy (max_attempts : Z) : RetryPolicy :=
  mkRetryPolicy max_attempts 1 3600 (S754_finite false 4503599627370496 (-51)).

Definition seed_node (id type : string) (config : pydict) : Node := mkNode id type "" config None.

Definition http_get (url : string) : pydict := [("url", JStr url); ("method", JStr "GET")]%string.

Definition linear_http_demo : WorkflowDefinition :=
  mkWorkflowDefinition "Linear HTTP Demo" "A simple sequence of HTTP requests."
    [seed_node "req1" "http" (http_get "https://jsonplaceholder.typicode.com/todos/1");
     seed_node "req2" "http" (http_get "https://jsonplaceholder.typicode.com/todos/2")]
    [mkEdge "req1" "req2" None] None.

Definition condition_config : pydict :=
  [("expression", JStr "input.value > 10"); ("true_path", JStr "true_path");
   ("false_path", JStr "false_path")]%string.

Definition condition_demo : WorkflowDefinition :=
  mkWorkflowDefinition "Condition Demo" "Branches based on the result of a condition."
    [seed_node "cond1" "condition" condition_config;
     seed_node "true_path" "http" (http_get "https://httpbin.org/get?result=true");
     seed_node "false_path" "http" (http_get "https://httpbin.org/get?result=false")]
    [mkEdge "cond1" "true_path" (Some "true"); mkEdge "cond1" "false_path" (Some "false")]%string None.

Definition retry_dlq_demo : WorkflowDefinition :=
  mkWorkflowDefinition "Retry & DLQ Demo" "This node intentionally fails and exhausts its retries."
    [mkNode "failing_node" "http" "" (http_get "https://httpbin.org/status/500") (Some (default_policy 3))]
    [] None.

Definition delay_demo : WorkflowDefinition :=
  mkWorkflowDefinition "Delay Demo" "Pauses execution before continuing."
    [seed_node "delay1" "delay" [("duration_seconds", JInt 10)]%string;
     seed_node "after_delay" "http" (http_get "https://httpbin.org/get?delayed=true")]
    [mkEdge "delay1" "after_delay" None] None.

Definition DEMO_WORKFLOWS : list WorkflowDefinition :=
  [linear_http_demo; condition_demo; retry_dlq_demo; delay_demo].

(** ** The scripts *)

Section seeds.
Context {Q : Type} (ip_address : string → option IpAddress).
Context (sha256_hex : string → string) (float_repr : spec_float → string) (token_urlsafe : N → string).

Definition registry : ExecutorRegistry Outside := get_executor_registry ip_address.

(** The tables of both services. *)
Record SeedState : Type := mkSeedState { sd_auth : AuthState; sd_world : World Q }.

Local Abbreviation S := (SE SeedState).

Definition in_auth {A} (m : SE AuthState A) : S A := fun s =>
  let '(r, a) := m (sd_auth s) in (r, mkSeedState a (sd_world s)).
Definition in_tables {A} (m : M Q A) : S A := fun s =>
  let '(r, w) := m (sd_world s) in (r, mkSeedState (sd_auth s) w).

(** [main] of create_api_key.py: the identifier and the raw key are printed. *)
Definition create_api_key (name : string) : SE AuthState (APIKey * string) :=
  create_key sha256_hex token_urlsafe name.

Definition seed_workflow (owner : uuid) (definition : WorkflowDefinition) : S (Workflow * WorkflowVersion) :=
  in_tables (create_workflow registry sha256_hex float_repr (wf_name definition) (wf_description definition)
               definition owner).

(** [main]: the raw key that is printed, and what was created. *)
Definition seed_main : S (string * list (Workflow * WorkflowVersion)) :=
  key ← in_auth (create_api_key "demo-workflows-owner");
  created ← for_collect (seed_workflow (ak_id key.1)) DEMO_WORKFLOWS;
  mret (key.2, created).

(** ** Proofs *)

(** A definition that can be created and whose executions end. *)
Definition good_definition (d : WorkflowDefinition) : Prop :=
  definition_wf d = true ∧ is_ok (validate_workflow d registry) = true ∧ wf_nodes d ≠ [] ∧ plain_branches d.

Lemma demo_workflows_good : Forall good_definition DEMO_WORKFLOWS.
Proof.
  assert (∀ d, forallb (fun n => negb (String.eqb (node_type n) "condition") ||
      hashable (path_of "true_path" n) && hashable (path_of "false_path" n)) (wf_nodes d) = true → plain_branches d)
    as Hplain.
  { intros d Hd n Hn Ht. rewrite forallb_forall in Hd. specialize (Hd n (proj1 (list_elem_of_In _ _) Hn)).
    rewrite Ht in Hd. simpl in Hd. by apply andb_true_iff in Hd. }
  repeat (apply Forall_cons; split;
    [split; [vm_compute; reflexivity|split; [vm_compute; reflexivity|split; [done|by apply Hplain]]]|]).
  apply Forall_nil_2.
Qed.

(** What seeding a definition adds. *)
Definition seeded (owner : uuid) (w w' : World Q) (d : WorkflowDefinition) (p : Workflow * WorkflowVersion) : Prop :=
  w_name p.1 = wf_name d ∧ w_owner_api_key_id p.1 = owner ∧ db_workflows (w_committed w) !! w_id p.1 = None ∧
  wv_workflow_id p.2 = w_id p.1 ∧ wv_version_number p.2 = 1%Z ∧ wv_definition p.2 = d ∧
  db_workflows (w_committed w') !! w_id p.1 = Some p.1 ∧ db_versions (w_committed w') !! wv_id p.2 = Some p.2.

(** Rows that were there are there. *)
Definition rows_kept (w w' : World Q) : Prop :=
  db_workflows (w_committed w) ⊆ db_workflows (w_committed w') ∧
  db_versions (w_committed w) ⊆ db_versions (w_committed w').

#[local] Instance rows_kept_preorder : PreOrder rows_kept.
Proof.
  split; [by intros w|]. intros w1 w2 w3 [H1 H2] [H3 H4]. split; by etrans.
Qed.

Lemma seeded_more owner w w0 w1 w2 d p :
  rows_kept w w0 → seeded owner w0 w1 d p → rows_kept w1 w2 → seeded owner w w2 d p.
Proof.
  intros [H0 _] (Hn & Ho & Hnew & Hw & Hv & Hd & H1 & H2) [H3 H4]. unfold seeded. split_and!; try done.
  - by eapply lookup_weaken_None.
  - by eapply lookup_weaken.
  - by eapply lookup_weaken.
Qed.

(** A world between two calls of the service. *)
Definition settled (w : World Q) : Prop :=
  w_committed w = w_db w ∧ catalog_ok (w_next_uuid w) (w_db w).

Lemma seed_workflow_run owner d s :
  settled (sd_world s) → good_definition d →
  ∃ p w', seed_workflow owner d s = (Ok p, mkSeedState (sd_auth s) w') ∧ settled w' ∧
    seeded owner (sd_world s) w' d p ∧ rows_kept (sd_world s) w'.
Proof.
  destruct s as [a w]. intros [Hcom Hc] (Hwf & Hval & _ & _). simpl in *. unfold seed_workflow, in_tables. simpl.
  destruct (create_workflow registry sha256_hex float_repr (wf_name d) (wf_description d) d owner w) as [r w'] eqn:Hrun.
  rewrite create_workflow_run in Hrun by done.
  destruct (validate_workflow d registry) as [vr|e] eqn:Hv; [|done].
  injection Hrun as <- <-. eexists _, _. split; [reflexivity|].
  pose proof (ca_workflows_fresh _ _ Hc (w_next_uuid w) ltac:(lia)) as Hn1.
  pose proof (ca_versions_fresh _ _ Hc (N.succ (w_next_uuid w)) ltac:(lia)) as Hn2.
  split; [split; [done|]|split].
  - simpl. eapply (catalog_add _ _ _ _ _ 0 Hc); simpl; try done; try lia.
    + intros id wf. rewrite lookup_insert. case_decide; [by intros [= <-]|apply Hc].
    + intros id. rewrite lookup_insert. case_decide; naive_solver.
    + intros id Hid. rewrite lookup_insert_ne by lia. apply (ca_workflows_fresh _ _ Hc). lia.
    + intros k. split; [lia|]. intros (i & u & [Hu Hw]%versions_of_lookup & _). exfalso.
      destruct (ca_workflow _ _ Hc _ _ Hu) as [x Hx]. simpl in Hw. rewrite Hw in Hx. congruence.
  - unfold seeded. rewrite Hcom. simpl. split_and!; try done; by rewrite lookup_insert_eq.
  - unfold rows_kept. rewrite Hcom. simpl. split; by apply insert_subseteq.
Qed.

Lemma seed_all_run owner ds : ∀ s,
  settled (sd_world s) → Forall good_definition ds →
  ∃ ps w', for_collect (seed_workflow owner) ds s = (Ok ps, mkSeedState (sd_auth s) w') ∧ settled w' ∧
    Forall2 (seeded owner (sd_world s) w') ds ps ∧ rows_kept (sd_world s) w'.
Proof.
  induction ds as [|d ds IH]; intros s Hs Hall; [exists [], (sd_world s); by destruct s|].
  apply Forall_cons in Hall as [Hd Hall].
  destruct (seed_workflow_run owner d s Hs Hd) as (p & w1 & Hrun & Hs1 & Hp & Hk1).
  destruct (IH (mkSeedState (sd_auth s) w1) Hs1 Hall) as (ps & w2 & Hrun2 & Hs2 & Hps & Hk2).
  exists (p :: ps), w2. split; [|split; [done|split; [|by etrans]]].
  - cbn [for_collect]. rewrite run_bind, Hrun, run_bind, Hrun2. done.
  - constructor; [by apply (seeded_more _ _ _ _ _ _ _ (reflexivity _) Hp)|].
    eapply Forall2_impl; [exact Hps|]. intros d' p' Hp'.
    by apply (seeded_more _ _ _ _ _ _ _ Hk1 Hp').
Qed.

(** The hash of no key is the hash of the next one drawn. *)
Definition fresh_key (a : AuthState) : Prop :=
  ∀ k x, au_keys a !! k = Some x → ak_key_hash x ≠ hash_api_key sha256_hex (API_KEY_PREFIX +:+ token_urlsafe (au_draws a)).

Lemma create_api_key_run name a :
  fresh_key a →
  ∃ k raw a', create_api_key name a = (Ok (k, raw), a') ∧ au_keys a' = <[ak_id k := k]> (au_keys a) ∧
    ak_name k = name ∧ ak_is_active k = true ∧ ak_key_hash k = hash_api_key sha256_hex raw.
Proof.
  intros Hf. eexists _, _, _. split.
  - unfold create_api_key, create_key, generate_api_key. rewrite !run_bind. cbn [draw_token mret SE_ret].
    rewrite run_bind. unfold insert_key. do 2 (rewrite run_bind; cbn [new_uuid gets]). cbv zeta.
    match goal with |- context [existsb ?f ?l] => assert (existsb f l = false) as -> end.
    { apply not_true_iff_false. rewrite existsb_exists. intros ([k x] & Hin & Heq%String.eqb_eq).
      apply list_elem_of_In, elem_of_map_to_list in Hin. by apply (Hf k x). }
    cbn [modify]. rewrite run_bind. reflexivity.
  - by split_and!.
Qed.

(** The path that the demonstration of conditions takes. *)
Definition chosen_path (net : Outside) (input : pydict) : option json :=
  match condition_execute net (mkExecutionContext 0 0 "cond1" condition_config input [] 1 "") with
  | Ok result => dict_get "next_node" (output result)
  | Err _ => None
  end.

Lemma chosen_path_value net v :
  chosen_path net [("value", JInt v)]%string =
    Some (JStr (if (10 <? v)%Z then "true_path" else "false_path")).
Proof.
  assert (evaluate_condition_expression (JStr "input.value > 10")
    [("input", JDict [("value", JInt v)]); ("upstream", JDict [])]%string = Ok (10 <? v)%Z) as Heval
    by (vm_compute; reflexivity).
  unfold chosen_path, condition_execute.
  change (dict_get "expression" (cx_config _)) with (Some (JStr "input.value > 10")). cbv iota beta.
  change (context_data _) with [("input", JDict [("value", JInt v)]); ("upstream", JDict [])]%string.
  rewrite Heval. by destruct (10 <? v)%Z.
Qed.

(** ** Properties *)

(** Seeding works, and what it seeds can run. With a key nobody has, the script returns; it
    adds one active key, stored as the hash of what it prints, and for each of the four
    definitions a new workflow of that key with the definition as its version 1; no row of
    a workflow or a version is lost. Every definition passes validation and meets what
    [executions_end] asks for, and the condition takes the path the README says. *)
Theorem seed_demo_workflows net s :
  settled (sd_world s) → fresh_key (sd_auth s) →
  ∃ k raw ps s', seed_main s = (Ok (raw, ps), s') ∧
    au_keys (sd_auth s') = <[ak_id k := k]> (au_keys (sd_auth s)) ∧ ak_is_active k = true ∧
    ak_key_hash k = hash_api_key sha256_hex raw ∧
    Forall2 (seeded (ak_id k) (sd_world s) (sd_world s')) DEMO_WORKFLOWS ps ∧
    rows_kept (sd_world s) (sd_world s') ∧ settled (sd_world s') ∧
    Forall good_definition DEMO_WORKFLOWS ∧
    ∀ v, chosen_path net [("value", JInt v)]%string =
      Some (JStr (if (10 <? v)%Z then "true_path" else "false_path")).
Proof.
  intros Hs Hf. destruct (create_api_key_run "demo-workflows-owner" _ Hf) as (k & raw & a & Hkey & Hkeys & _ & Ha & Hh).
  destruct (seed_all_run (ak_id k) DEMO_WORKFLOWS (mkSeedState a (sd_world s)) Hs demo_workflows_good)
    as (ps & w' & Hrun & Hs' & Hps & Hkept).
  exists k, raw, ps, (mkSeedState a w'). split_and!; try done.
  - unfold seed_main. rewrite run_bind. unfold in_auth at 1. rewrite Hkey. rewrite run_bind.
    cbn [fst snd]. by rewrite Hrun.
  - exact demo_workflows_good.
  - intros v. apply chosen_path_value.
Qed.

End seeds.

(** ** Witness *)

Definition demo_auth : AuthState := mkAuthState ∅ ∅ 1000 50 0.

Lemma demo_created_settled : settled demo_created.
Proof. split; [done|]. apply empty_catalog. Qed.

Lemma seed_demo_workflows_witness :
  ∃ raw ps s',
    seed_main (fun _ => None) demo_hash demo_repr (fun _ => "random"%string)
      (mkSeedState demo_auth demo_created) = (Ok (raw, ps), s') ∧
    length ps = 4%nat ∧ size (db_workflows (w_committed (sd_world s'))) = 4%nat.
Proof.
  destruct (seed_demo_workflows (fun _ => None) demo_hash demo_repr (fun _ => "random"%string) (demo_net (HttpFailed ""))
    (mkSeedState demo_auth demo_created) demo_created_settled) as (k & raw & ps & s' & Hrun & _ & _ & _ & Hps & _).
  { intros k x. simpl. by rewrite lookup_empty. }
  exists raw, ps, s'. split; [exact Hrun|]. split.
  - symmetry. exact (Forall2_length _ _ _ Hps).
  - vm_compute in Hrun. injection Hrun as _ _ <-. vm_compute. reflexivity.
Defined.
